(* ===== verification/_CoqProject ===== *)
-Q . S2P
Prelude.v
JsNum.v
JsString.v
JsUnicode.v
JsValue.v
Json.v
JsInt.v
Fips.v
JsUri.v
Regex.v
Totp.v
TotpCorrect.v
SshAgent.v
SshAgentCorrect.v
SshPrompts.v
SshPromptsCorrect.v
Actions.v
PromptFlow.v
PromptFlowCorrect.v
Accounts.v
AccountsCorrect.v
Shell.v
ShellCorrect.v
ShellReader.v
Auth.v
AuthCorrect.v
Settings.v
Generator.v
SettingsCorrect.v
Items.v
Payload.v
ItemsCorrect.v
EditForm.v
EditFormCorrect.v
Context.v
ContextCorrect.v
Associations.v
AssociationsCorrect.v
SuggestCorrect.v
Setup.v
SetupCorrect.v
Helpers.v
HelpersCorrect.v
Export.v
ExportCorrect.v
Unlock.v
Vault.v
VaultCorrect.v
Envelope.v
UnlockCorrect.v
EnvelopeRun.v
EnvelopeRunCorrect.v
KeyringRun.v
KeyringRunCorrect.v
Commands.v
Scripts.v
ScriptsCorrect.v
RoutingRun.v
RoutingRunCorrect.v
Attachments.v
AttachmentsCorrect.v
Sends.v
SendsCorrect.v
LoadFlow.v
Companion.v
LoadFlowCorrect.v
AgentService.v
AgentServiceCorrect.v
VaultRuns.v
VaultRunsCorrect.v
VaultOwners.v
LockDown.v
LockDownCorrect.v
LockSettles.v
LockClaims.v
EnvelopeQueue.v
EnvelopeQueueCorrect.v
EnvelopeClaims.v
DemoLayout.v
Conformance.v
