(* ===== verification/Prelude.v ===== *)
(** * Verification of the model code of the Bitwarden panel

    The program is a desktop panel for a Bitwarden vault.  QML files draw it and
    run processes; everything they decide is in plain JavaScript functions:
    [src/BitwardenModel.js] (accounts, commands, sign-in, vault items, settings,
    quick unlock, the SSH agent's supervisor and prompts), [src/TotpModel.js]
    (one-time codes) and [src/FidoModel.js] (security keys).  The panel reads JSON
    that bw, a settings file, a vault helper or an SSH agent companion wrote, calls
    these functions, and performs what they answer: often a shell script with
    values of the user in it, or a small Node or jq program.  Two Node scripts
    ([src/bw-login-code.js], [src/bw-fast-exit.js]) are preloaded into every bw.
    What has to hold over time is in the QML of the service ([src/Service.qml],
    [src/VaultProcess.qml]): how it runs the vault helper and every bw in it, locks,
    forgets the session and answers a suspend, queues what changes the quick-unlock
    envelope, and runs the SSH agent companion, loads keys into it and shows its
    requests, are state machines of handlers.  This library is about those functions,
    scripts, programs and handlers.

    ** The language

    [JsNum] numbers (doubles as rationals with rounding, infinities, NaN),
    [JsString] strings (UTF-16 units) and number/text conversion, [JsUnicode]
    case folding and collation as classes (the Unicode tables are not in the
    repository) with ASCII instances, [JsValue] dynamically typed values,
    [Json] JSON.parse and JSON.stringify with their round trip, [JsInt] the 32-bit
    operators, [JsUri] percent encoding, [Regex] regular expressions (a matcher that
    backtracks in the language's order, and the language of an expression as a
    relation it is sound and complete for).  An integer w bits wide is a [Z] whose
    wrap-around is written out.  A value that may be [null] is an [option].
    Objects are association lists in insertion order; the conversions assume that
    an object does not override [toString] or [valueOf].

    ** The program

    - [Totp] models [TotpModel.js], whole; [Fips] states the standards it follows
      (FIPS 180-4, RFC 2104, 4226, 4648) independently of the code.
      [TotpCorrect]: the signed 32-bit hash loops are the standard hashes; a key
      that is accepted is well-formed, and [generate] answers the standard's code
      at the step of the clock.
    - [SshAgent] models the supervisor of the SSH agent companion
      ([sshAgentReduce] and what it calls) as a transition on a state and an
      event, giving a state and the effects to perform.  [SshAgentCorrect]: an
      invariant of the reachable states, when the gate opens and shuts, the bound
      on restarts, which control lines are accepted.
    - [SshPrompts] models prompts, grants, the refusal cool-down and the vault
      life cycle.  [SshPromptsCorrect]: the queue as a step relation with its
      invariant, what a prompt may draw, bounds on grants, the pause, the actions
      of every vault event.
    - [PromptFlow] models the handlers of [Service.qml] that show, queue and answer
      the companion's requests, as actions ([Actions]: the next state and the effects,
      with two program logics, one for effects and one for what an observer takes of
      them, and relations that sequences compose).  [PromptFlowCorrect]: nothing waits unseen, only what was asked is
      answered, and a click approves what is shown while the companion stays; four runs
      where the code does something else are examples.
    - [LoadFlow] models its handlers for key loads: windows, nonces, the shared read,
      vault transitions, the gate.  [AgentService] composes them with the supervisor,
      the prompts and the companion's process, and defines the reachable worlds.
      [Companion] is the part of the companion's own loop ([src/agent/src/main.rs], Rust)
      that reads the lines about loads.
      [LoadFlowCorrect] and [AgentServiceCorrect]: the companion takes what is written
      about loads whatever order events arrive in, but for one race, keys are read only of
      an unlocked vault behind an open gate, what a lock does is given effect by effect, and the
      prompts are fed only by a ready companion.
    - [VaultRuns] models the supervision of the vault helper and the runs of bw in it
      ([VaultProcess.qml] included) as actions.  [VaultRunsCorrect] is the invariant,
      [VaultOwners] what it gives: a process as its owner sees it refines an abstract
      one, the key is counted only while its helper is up, restarts are bounded, every
      run is accounted for, and a held value is passed by name.
    - [LockDown] models what a lock leaves behind: the queue of bw lock, the session's
      entry in a keyring (changed by the scripts of [KeyringRun]), closing, opening and
      leaving an account, and a suspend.  [LockDownCorrect] and [LockSettles] are the
      invariants and a measure of the work left; [LockClaims]: a closed vault's session
      is forgotten, whatever the secret service answers and with what a failing search
      hides accounted for, copies of keys live as long as their lock, a suspend is answered
      after the lock and always answered; two orders that leave an entry are theorems.
    - [EnvelopeQueue] models the single-writer queue of envelope jobs, the purges of
      disabled methods with their budgets and generations, and the sweep of a logout.
      [EnvelopeQueueCorrect] is the invariant; [EnvelopeClaims]: jobs run one at a time
      and are settled once, a cancelled unlock is never answered, purges are tracked,
      the sweep waits for the writers, and nothing waits for nothing but for one way in
      which the queue gets stuck, which is an example.
    - [Accounts] models account slots and the registry file.  [AccountsCorrect]:
      well-formedness of whatever is read and of every reachable registry, the
      round trip of the file, uniqueness after a sign-in, names of keyring
      entries.
    - [Shell] models quoting and the scripts built for bw, the keyring and the
      supervised processes, and the scrub queue.  [ShellCorrect] defines how a
      shell splits words and shows that a built call is read back exactly.
    - [Auth] models the helpers of sign-in: session keys, two-step methods,
      classification of bw's output, server and item URLs.  [AuthCorrect]: what is
      extracted, hidden, accepted and remembered.
    - [Settings] and [Generator] model the settings schema and readers, auto-lock,
      labels, hosts, and the password generator's options.  [SettingsCorrect]:
      bounds of every setting read, the lock deadline, satisfiable options, the
      strength shown for them.
    - [Items] and [Payload] model item rows, details, the public view, search, and
      what a save sends.  [ItemsCorrect]: a save touches only the form's fields, the
      public view has no secret, rows around a save, attachment names, search.
      [EditForm] models how the service fills the form of an item and builds a save from
      it; [EditFormCorrect]: saving an unchanged form sends the stored item back.
    - [Context] models what is read from the focused window (its application,
      title, hosts) and the score of an item against it; [Associations] models the
      store of learned picks, its file and commands, and the suggestions made from
      both.  [ContextCorrect], [AssociationsCorrect], [SuggestCorrect]: the bands of
      the score, which items are suggested and in which order, that a word alone
      never suggests what was not pinned, that a recorded store reads back, and
      what reading any file gives.
    - [Setup] models the probe of the machine's tools, release versions, the setup
      gate and the install command.  [SetupCorrect]: versions compare as their
      numbers, when the vault may be read and the gate shows, which packages are
      offered and that an installer reads exactly their names.
    - [Helpers] models the inspection of the local helpers, the lines exchanged with
      the vault helper, and the two preloads of bw.  [HelpersCorrect]: a helper runs
      only when accepted, a request is one line that reads back, and the two-step
      code reaches nothing but bw's own login.
    - [Export] models the public key files for Git and the results of routing.
      [ExportCorrect]: the writer program, on a file system that may fail, refines an
      abstract directory.
    - [Vault] models the pipeline that reads the vault: strict JSON, then a jq
      program; and the one that feeds the agent.  [VaultCorrect]: private keys have
      no influence on what the panel reads, and the agent gets exactly its keys.
    - [Unlock] models PIN strength, pinentry and the probes of security keys and
      keyring ([FidoModel.js] included); [UnlockCorrect]: a key that is offered can
      be used.
    - [Envelope] builds the scripts on the quick-unlock envelope as texts, one
      definition per builder; [EnvelopeRun] is the same scripts as programs on the
      keyring, a finite map, in the class [Programs] of the tools they start.
      [EnvelopeRunCorrect]: a write is committed last and only after it was read
      back, moving an older entry never loses the password, and what the first unlock
      after an upgrade prints and leaves is given exactly.
    - [KeyringRun] is the session, logout and purge scripts as programs on a keyring
      whose entries may be locked, in the class [SecretService] of what the service
      answers.  [KeyringRunCorrect]: a successful logout leaves no entry, a session is
      used only in the boot that stored it, a purge removes the method everywhere.
    - [RoutingRun] is the scripts on the session's environment fragment and on the
      plugin's data as programs on the path; [RoutingRunCorrect]: only the own file, or one
      that differs from it in zero bytes and final newlines, is ever touched.
    - [Commands] and [Scripts] build the other commands as texts.  [ShellReader]
      defines which units of a script a shell interprets; [ScriptsCorrect]: for every
      script with values in it, these do not depend on the values, and each value is
      read as itself.
    - [Attachments] models the programs that name and link a downloaded file, on a
      folder and a disk that may fail.  [AttachmentsCorrect]: no file that is there
      is ever touched, and a working disk saves.
    - [Sends] models sends; [SendsCorrect]: the deletion date is the one asked for.
    - [DemoLayout] models the layout check of the demo on a tree of items; it passes
      exactly when the panel is laid out as its theorem says.
    - [Conformance] evaluates the models on the cases of the repository's tests.

    Each function of the code is one definition with its name; the parts of a long
    function are definitions of their own with lower-case names.  Loops over lists
    are maps, filters and folds; a loop with a state is a recursion over it.

    ** Fuel

    Where recursion is not structural a definition takes fuel, always given by the
    caller from its input: the length of the text for [decode_from], [read_chars],
    [strip_csi], [strip_slashes] and [utf8_count] (each step consumes a unit),
    twice the length plus two for [read_value] (a value is nested at most as deep
    as its text is long; the round trip is proved with this fuel), 64 for
    [push_while] (padding stops within a block), the number of digits for
    [padCode] and [group3], four for [scale_size] (there are five units), the length of the
    remaining text for [star_loop] (a turn that consumes nothing ends a loop) and of
    the text for [replace_all] and [split_re].  The search for a free attachment
    name tries [MAX_CANDIDATES] of them, which is the bound in the code, and a
    purge makes the 17 rounds of the code, shown to be enough for the 16 ways an
    envelope may have.  The theorems about these functions are equations with their results, not statements on the case
    that they return.

    ** What is assumed

    Nothing is assumed outside a class or a binder.  The classes stand for what is
    not in the repository: the Unicode tables, [Math.log] ([Logarithm]), dates ([Dates], with the round trip
    of ISO texts as a law), jq's reading, encoding and printing ([Jq]), and the
    tools of quick unlock ([Programs], no laws: the theorems hold whatever the tools
    answer; what a tool or the store prints where the script does not catch it is part of
    it), and the secret service ([SecretService], likewise).  A disk, what the file
    system permits, the path Node resolves, what opening and closing the panel does
    and where Qt maps a point are arguments.  Which events of processes are possible
    when is [possible] in [AgentService], [VaultRuns], [LockDown] and [EnvelopeQueue]: a
    process starts or fails to, acts before it exits, and exits once; deferred calls come
    in their order, with anything from outside before or between them, except that in
    [LockDown] a deferred retry of a clear comes before the timer that would start it and
    before the exit of a clear started after it; in [EnvelopeQueue] a job's
    callback only queues further jobs.  Epochs are [int] properties, kept at their
    width, and a run is followed up to the last of them ([room]).  Each law has an
    instance at which the theorems are applied.

    ** What is not modelled

    The Rust helpers (another language) but for the loads in [Companion], the QML views, and of the service its flows
    of sign-in, items, attachments and learned picks, which call the functions modelled
    here; the reading of a process's output in the shell, which only a fallback that the
    service never takes would use; of the handlers that are modelled, what the panel shows (spinners, error texts,
    countdown ticks); one-line getters of constants; and the meaning of the scripts of [Shell],
    [Commands] and [Scripts] beyond how a shell reads them and the programs named
    above. *)

From Stdlib Require Export ZArith Lia.
From stdpp Require Export base decidable option list relations.

#[global] Open Scope Z_scope.

(** ** Notation *)

Declare Scope js_scope.
Delimit Scope js_scope with js.

(** ** Tactics *)

(** Case analysis on the scrutinee of some [match] or [if] of the goal or of a
    hypothesis, keeping the equation. *)
Ltac destruct_match :=
  match goal with
  | |- context [match ?e with _ => _ end] =>
      lazymatch e with context [match _ with _ => _ end] => fail | _ => destruct e eqn:? end
  | H : context [match ?e with _ => _ end] |- _ =>
      lazymatch e with context [match _ with _ => _ end] => fail | _ => destruct e eqn:? end
  end.

(** Turn boolean tests on integers into propositions [lia] understands. *)
Ltac boolZ :=
  repeat match goal with
  | H : andb _ _ = true |- _ => apply andb_true_iff in H as [? ?]
  | H : orb _ _ = false |- _ => apply orb_false_iff in H as [? ?]
  | H : negb _ = true |- _ => apply negb_true_iff in H
  | H : negb _ = false |- _ => apply negb_false_iff in H
  | H : (_ =? _) = true |- _ => apply Z.eqb_eq in H
  | H : (_ =? _) = false |- _ => apply Z.eqb_neq in H
  | H : (_ <? _) = true |- _ => apply Z.ltb_lt in H
  | H : (_ <? _) = false |- _ => apply Z.ltb_ge in H
  | H : (_ <=? _) = true |- _ => apply Z.leb_le in H
  | H : (_ <=? _) = false |- _ => apply Z.leb_gt in H
  end.

(** ** Hint databases *)

(** [js]: facts that automation may use about the JavaScript substrate. *)
Create HintDb js discriminated.

(** ** Integers *)

Lemma Z_pow2_pos n : 0 < 2 ^ n \/ n < 0.
Proof. destruct (Z.neg_nonneg_cases n); [by right | left; by apply Z.pow_pos_nonneg]. Qed.

Lemma Z_pow2_gt0 n : 0 <= n -> 0 < 2 ^ n.
Proof. intros. by apply Z.pow_pos_nonneg. Qed.

#[export] Hint Resolve Z_pow2_gt0 : js.

(** ** Lists *)

Lemma forallb_Forall {A} (p : A -> bool) l : forallb p l = true <-> Forall (fun x => p x = true) l.
Proof.
  induction l as [|x l IH]; cbn; [done|]. by rewrite andb_true_iff, Forall_cons, IH.
Qed.
