(* ===== verification/JsNum.v ===== *)
(** * JavaScript numbers

    IEEE-754 doubles: NaN, the two infinities and the finite values, kept as
    reduced rationals.  [fl] rounds a rational to the nearest double, ties to
    even, so every arithmetic operation below is the exact operation followed by
    [fl].  The sign of zero is not kept: the modelled code divides only by
    constants and a logarithm of two, so it cannot observe it. *)

From S2P Require Import Prelude.
From Stdlib Require Import QArith Qround Qreduction.
Local Open Scope Z_scope.

Inductive num :=
| NaN
| Inf (neg : bool)
| Fin (q : Q).

(** An integer as a number. *)
Definition NZ (z : Z) : num := Fin (z # 1).

(** ** Rounding *)

(** [n / d] rounded to an integer, ties to even, for [0 < d]. *)
Definition rhe (n d : Z) : Z :=
  let q := n / d in
  match (2 * (n mod d)) ?= d with
  | Lt => q
  | Gt => q + 1
  | Eq => if Z.even q then q else q + 1
  end.

(** The floor of the base-2 logarithm of [n / d], for positive [n] and [d]. *)
Definition ilog2 (n d : Z) : Z :=
  let k := Z.log2 n - Z.log2 d in
  if n * 2 ^ Z.max 0 (- k) <? d * 2 ^ Z.max 0 k then k - 1 else k.

Definition scale (m e : Z) : Q :=
  if 0 <=? e then m * 2 ^ e # 1 else Qred (m # Z.to_pos (2 ^ (- e))).

(** The double nearest to [x]: 53 bits of precision, exponents from -1074,
    overflow to an infinity. *)
Definition fl (x : Q) : num :=
  let n := Qnum x in
  let d := Zpos (Qden x) in
  if n =? 0 then NZ 0 else
  let e := Z.max (ilog2 (Z.abs n) d - 52) (-1074) in
  let m := rhe (n * 2 ^ Z.max 0 (- e)) (d * 2 ^ Z.max 0 e) in
  if 2 ^ 1024 <=? Z.abs m * 2 ^ Z.max 0 e then Inf (n <? 0) else Fin (scale m e).

(** ** Operations *)

Definition num_is_nan (a : num) : bool := match a with NaN => true | _ => false end.

(** [isFinite] *)
Definition num_is_finite (a : num) : bool := match a with Fin _ => true | _ => false end.

(** ToBoolean of a number: NaN and zero are falsy. *)
Definition num_truthy (a : num) : bool :=
  match a with NaN => false | Inf _ => true | Fin q => negb (Qeq_bool q 0) end.

(** [a === b] *)
Definition num_eqb (a b : num) : bool :=
  match a, b with
  | Fin x, Fin y => Qeq_bool x y
  | Inf s, Inf t => Bool.eqb s t
  | _, _ => false
  end.

Definition Qltb (x y : Q) : bool := match (x ?= y)%Q with Lt => true | _ => false end.

(** [a < b]; false as soon as one side is NaN. *)
Definition num_ltb (a b : num) : bool :=
  match a, b with
  | Fin x, Fin y => Qltb x y
  | Inf s, Inf t => s && negb t
  | Inf s, Fin _ => s
  | Fin _, Inf t => negb t
  | _, _ => false
  end.

(** [a <= b] *)
Definition num_leb (a b : num) : bool := num_ltb a b || num_eqb a b.

(** [Math.floor], [Math.ceil] *)
Definition num_floor (a : num) : num :=
  match a with Fin q => NZ (Qfloor q) | x => x end.
Definition num_ceil (a : num) : num :=
  match a with Fin q => NZ (Qceiling q) | x => x end.

(** [Math.round]: the nearest integer, halves upward. *)
Definition num_round (a : num) : num :=
  match a with Fin q => NZ (Qfloor (q + (1 # 2))) | x => x end.

(** [Math.min] and [Math.max] of two arguments. *)
Definition num_min (a b : num) : num :=
  match a, b with
  | NaN, _ | _, NaN => NaN
  | _, _ => if num_ltb b a then b else a
  end.
Definition num_max (a b : num) : num :=
  match a, b with
  | NaN, _ | _, NaN => NaN
  | _, _ => if num_ltb a b then b else a
  end.

Definition num_opp (a : num) : num :=
  match a with NaN => NaN | Inf s => Inf (negb s) | Fin q => Fin (Qopp q) end.

Definition num_add (a b : num) : num :=
  match a, b with
  | Fin x, Fin y => fl (x + y)
  | Inf s, Inf t => if Bool.eqb s t then Inf s else NaN
  | Inf s, Fin _ | Fin _, Inf s => Inf s
  | _, _ => NaN
  end.

Definition num_sub (a b : num) : num := num_add a (num_opp b).

Definition Qneg (q : Q) : bool := Qltb q 0.

Definition num_mul (a b : num) : num :=
  match a, b with
  | Fin x, Fin y => fl (x * y)
  | Inf s, Inf t => Inf (xorb s t)
  | Inf s, Fin x | Fin x, Inf s => if Qeq_bool x 0 then NaN else Inf (xorb s (Qneg x))
  | _, _ => NaN
  end.

(** Division by a non-zero integer constant, the division of the code (its one other
    divisor is a logarithm, in [Generator]). *)
Definition num_div (a : num) (k : Z) : num :=
  match a with
  | NaN => NaN
  | Inf s => Inf (xorb s (k <? 0))
  | Fin x => fl (x / (k # 1))
  end.

(** [a || 0] on numbers. *)
Definition num_or0 (a : num) : num := if num_truthy a then a else NZ 0.

(** ** Exactness on integers *)

Lemma Qred_Z z : Qred (z # 1) = z # 1.
Proof.
  unfold Qred. pose proof (Z.ggcd_gcd z 1) as Hg. pose proof (Z.ggcd_correct_divisors z 1) as Hd.
  rewrite Z.gcd_1_r in Hg. destruct (Z.ggcd z 1) as [g [a b]]. cbn in Hg. subst g.
  destruct Hd as [-> Hb]. rewrite Z.mul_1_l in Hb. subst b. by rewrite Z.mul_1_l.
Qed.

Lemma Qred_scaled z p : Qred (z * Zpos p # p) = z # 1.
Proof. rewrite <- (Qred_Z z). apply Qred_complete. unfold Qeq. cbn. lia. Qed.

Lemma rhe_exact q d : 0 < d -> rhe (q * d) d = q.
Proof.
  intros Hd. unfold rhe. rewrite Z.mod_mul, Z.div_mul by lia.
  destruct (Z.compare_spec (2 * 0) d); lia.
Qed.

Lemma ilog2_int n : 0 < n -> ilog2 n 1 = Z.log2 n.
Proof.
  intros Hn. unfold ilog2. change (Z.log2 1) with 0. rewrite Z.sub_0_r.
  pose proof (Z.log2_nonneg n). pose proof (Z.log2_spec n Hn).
  rewrite (Z.max_l 0 (- Z.log2 n)), (Z.max_r 0 (Z.log2 n)) by lia.
  destruct (Z.ltb_spec (n * 2 ^ 0) (1 * 2 ^ Z.log2 n)); lia.
Qed.

(** Integers of magnitude up to [2^53] are doubles. *)
Lemma fl_Z z : Z.abs z <= 2 ^ 53 -> fl (z # 1) = NZ z.
Proof.
  intros Hz. unfold fl. cbn [Qnum Qden].
  destruct (Z.eqb_spec z 0) as [->|Hnz]; [done|].
  rewrite ilog2_int by lia.
  pose proof (Z.log2_le_mono _ _ Hz) as Hl. rewrite Z.log2_pow2 in Hl by lia.
  pose proof (Z.log2_nonneg (Z.abs z)) as Hl0.
  set (e := Z.max (Z.log2 (Z.abs z) - 52) (-1074)).
  assert (He : (e <= 0) \/ e = 1) by lia.
  destruct He as [He|He].
  - rewrite (Z.max_r 0 (- e)), (Z.max_l 0 e) by lia. cbn [Z.pow Z.pow_pos]. rewrite Z.mul_1_r.
    replace (Zpos 1 * 2 ^ 0) with 1 by reflexivity.
    replace (z * 2 ^ (- e)) with (z * 2 ^ (- e) * 1) by lia. rewrite rhe_exact by lia.
    pose proof (Z_pow2_gt0 (- e) ltac:(lia)) as Hp.
    assert (Hlt : Z.abs (z * 2 ^ (- e)) < 2 ^ 1024).
    { rewrite Z.abs_mul, (Z.abs_eq (2 ^ (- e))) by lia.
      assert (- e <= 52) by lia.
      assert (2 ^ (- e) <= 2 ^ 52) by (apply Z.pow_le_mono_r; lia).
      assert (Z.abs z * 2 ^ (-e) <= 2 ^ 53 * 2 ^ 52) by (apply Z.mul_le_mono_nonneg; lia).
      rewrite <- Z.pow_add_r in * by lia.
      assert (2 ^ (53 + 52) < 2 ^ 1024) by (apply Z.pow_lt_mono_r; lia). lia. }
    destruct (Z.leb_spec (2 ^ 1024) (Z.abs (z * 2 ^ (- e)))); [lia|].
    unfold NZ, scale. f_equal. destruct (Z.leb_spec 0 e).
    + replace e with 0 by lia. f_equal. cbn. lia.
    + rewrite <- (Qred_scaled z (Z.to_pos (2 ^ (- e)))). by rewrite Z2Pos.id.
  - assert (Hl53 : Z.log2 (Z.abs z) = 53) by lia.
    assert (Habs : Z.abs z = 2 ^ 53) by (pose proof (Z.log2_spec (Z.abs z)); rewrite Hl53 in *; lia).
    destruct (Z.abs_eq_or_opp z) as [Hs|Hs]; rewrite Hs in Habs.
    + rewrite Habs, He. vm_compute. reflexivity.
    + replace z with (- 2 ^ 53) by lia. rewrite He. vm_compute. reflexivity.
Qed.

(** The operations on integers are the integer operations while the result is a
    double. *)
Section integer_arithmetic.
  Implicit Types a b : Z.

Lemma num_ltb_NZ a b : num_ltb (NZ a) (NZ b) = (a <? b).
  Proof. cbn. unfold Qltb, Qcompare, Z.ltb. cbn. by rewrite !Z.mul_1_r. Qed.

Lemma num_eqb_NZ a b : num_eqb (NZ a) (NZ b) = (a =? b).
  Proof. cbn. unfold Qeq_bool. cbn. by rewrite !Z.mul_1_r. Qed.

Lemma num_leb_NZ a b : num_leb (NZ a) (NZ b) = (a <=? b).
  Proof. unfold num_leb. rewrite num_ltb_NZ, num_eqb_NZ. lia. Qed.

Lemma num_truthy_NZ a : num_truthy (NZ a) = negb (a =? 0).
  Proof. exact (f_equal negb (num_eqb_NZ a 0)). Qed.

Lemma num_or0_NZ a : num_or0 (NZ a) = NZ a.
  Proof. unfold num_or0. rewrite num_truthy_NZ. by destruct (Z.eqb_spec a 0) as [->|]. Qed.

Lemma num_floor_NZ a : num_floor (NZ a) = NZ a.
  Proof. cbn. by rewrite Z.div_1_r. Qed.

Lemma num_min_NZ a b : num_min (NZ a) (NZ b) = NZ (Z.min a b).
  Proof. cbn [num_min NZ]. fold (NZ a) (NZ b). rewrite num_ltb_NZ. destruct (Z.ltb_spec b a); f_equal; f_equal; lia. Qed.

Lemma num_max_NZ a b : num_max (NZ a) (NZ b) = NZ (Z.max a b).
  Proof. cbn [num_max NZ]. fold (NZ a) (NZ b). rewrite num_ltb_NZ. destruct (Z.ltb_spec a b); f_equal; f_equal; lia. Qed.

Lemma num_add_NZ a b : Z.abs (a + b) <= 2 ^ 53 -> num_add (NZ a) (NZ b) = NZ (a + b).
  Proof. intros. rewrite <- (fl_Z (a + b)) by done. cbn. unfold Qplus. cbn. by rewrite !Z.mul_1_r. Qed.

Lemma num_sub_NZ a b : Z.abs (a - b) <= 2 ^ 53 -> num_sub (NZ a) (NZ b) = NZ (a - b).
  Proof. intros. unfold num_sub, num_opp. cbn [NZ]. exact (num_add_NZ a (- b) H). Qed.

Lemma num_mul_NZ a b : Z.abs (a * b) <= 2 ^ 53 -> num_mul (NZ a) (NZ b) = NZ (a * b).
  Proof. intros. by rewrite <- (fl_Z (a * b)). Qed.
End integer_arithmetic.

Create Rewrite HintDb js_num.
#[export] Hint Rewrite num_ltb_NZ num_eqb_NZ num_leb_NZ num_truthy_NZ num_or0_NZ
  num_floor_NZ num_min_NZ num_max_NZ : js_num.

(** ** Floor of a rounded quotient

    [Math.floor(n / k)] is integer division: the rounding of the quotient never
    reaches the next integer. *)

Lemma ilog2_lower n d : 0 < n -> 0 < d ->
  d * 2 ^ Z.max 0 (ilog2 n d) <= n * 2 ^ Z.max 0 (- ilog2 n d).
Proof.
  intros Hn Hd. unfold ilog2.
  set (k := Z.log2 n - Z.log2 d).
  destruct (Z.ltb_spec (n * 2 ^ Z.max 0 (- k)) (d * 2 ^ Z.max 0 k)) as [Hlt|]; [|done].
  clear Hlt. pose proof (Z.log2_spec n Hn) as [Hn1 _]. pose proof (Z.log2_spec d Hd) as [_ Hd2].
  pose proof (Z.log2_nonneg n). pose proof (Z.log2_nonneg d).
  rewrite Z.pow_succ_r in Hd2 by lia.
  destruct (Z.le_gt_cases 1 k) as [Hk|Hk].
  - rewrite (Z.max_r 0 (k - 1)), (Z.max_l 0 (- (k - 1))) by lia.
    assert (Hs : 2 * 2 ^ Z.log2 d * 2 ^ (k - 1) = 2 ^ Z.log2 n).
    { rewrite <- Z.pow_succ_r, <- Z.pow_add_r by lia. f_equal. lia. }
    pose proof (Z_pow2_gt0 (k - 1) ltac:(lia)).
    assert (d * 2 ^ (k - 1) < 2 * 2 ^ Z.log2 d * 2 ^ (k - 1)) by (apply Z.mul_lt_mono_pos_r; lia).
    rewrite Z.pow_0_r. lia.
  - rewrite (Z.max_l 0 (k - 1)), (Z.max_r 0 (- (k - 1))) by lia.
    assert (Hs : 2 ^ Z.log2 n * 2 ^ (- (k - 1)) = 2 * 2 ^ Z.log2 d).
    { rewrite <- Z.pow_succ_r, <- Z.pow_add_r by lia. f_equal. lia. }
    pose proof (Z_pow2_gt0 (- (k - 1)) ltac:(lia)).
    assert (2 ^ Z.log2 n * 2 ^ (- (k - 1)) <= n * 2 ^ (- (k - 1))) by (apply Z.mul_le_mono_nonneg_r; lia).
    rewrite Z.pow_0_r. lia.
Qed.

Lemma rhe_bounds n d : 0 < d -> n / d <= rhe n d /\ 2 * d * rhe n d <= 2 * n + d.
Proof.
  intros Hd. unfold rhe. pose proof (Z.div_mod n d ltac:(lia)). pose proof (Z.mod_pos_bound n d Hd).
  destruct (Z.compare_spec (2 * (n mod d)) d); [destruct (Z.even _)|..]; nia.
Qed.

Section floor_quotient.
  Context (n k : Z) (Hn : 0 < n < 2 ^ 53) (Hk : 0 < k <= 2 ^ 53).

Let l := ilog2 n k.

Lemma quotient_log_range : - 54 <= l <= 52.
  Proof using Hn Hk.
    unfold l. clear l. split.
    - unfold ilog2. pose proof (Z.log2_nonneg n). pose proof (Z.log2_le_mono k (2 ^ 53) ltac:(lia)) as H1.
      rewrite Z.log2_pow2 in H1 by lia. destruct (_ <? _); lia.
    - destruct (Z.le_gt_cases (ilog2 n k) 52) as [|Hgt]; [done|exfalso].
      pose proof (ilog2_lower n k ltac:(lia) ltac:(lia)) as Hl.
      rewrite (Z.max_r 0 (ilog2 n k)), (Z.max_l 0 (- ilog2 n k)) in Hl by lia.
      assert (2 ^ 53 <= 2 ^ ilog2 n k) by (apply Z.pow_le_mono_r; lia). nia.
  Qed.

Lemma quotient_scale : k < 2 * 2 ^ (52 - l).
  Proof using Hn Hk.
    pose proof quotient_log_range as Hr. pose proof (ilog2_lower n k ltac:(lia) ltac:(lia)) as Hl. fold l in Hl.
    destruct (Z.le_gt_cases 0 l).
    - rewrite (Z.max_r 0 l), (Z.max_l 0 (- l)) in Hl by lia.
      assert (H2 : 2 ^ (52 - l) * 2 ^ l = 2 ^ 52) by (rewrite <- Z.pow_add_r by lia; f_equal; lia).
      pose proof (Z_pow2_gt0 l ltac:(lia)). nia.
    - rewrite (Z.max_l 0 l), (Z.max_r 0 (- l)) in Hl by lia.
      rewrite Z.pow_0_r, Z.mul_1_r in Hl.
      replace (52 - l) with (52 + - l) by lia. rewrite Z.pow_add_r by lia.
      pose proof (Z_pow2_gt0 (- l) ltac:(lia)). nia.
  Qed.

Lemma quotient_rounded :
    let s := 52 - l in
    n / k * 2 ^ s <= rhe (n * 2 ^ s) k < (n / k + 1) * 2 ^ s.
  Proof using Hn Hk.
    cbn zeta. pose proof quotient_scale as Hs. pose proof quotient_log_range.
    pose proof (rhe_bounds (n * 2 ^ (52 - l)) k ltac:(lia)) as [Hlo Hhi].
    pose proof (Z.div_mod n k ltac:(lia)). pose proof (Z.mod_pos_bound n k ltac:(lia)).
    pose proof (Z_pow2_gt0 (52 - l) ltac:(lia)).
    set (p := 2 ^ (52 - l)) in *. set (q := n / k) in *.
    split.
    - etransitivity; [|exact Hlo]. apply Z.div_le_lower_bound; nia.
    - destruct (Z.lt_ge_cases (rhe (n * p) k) ((q + 1) * p)) as [|Hge]; [done|exfalso]. nia.
  Qed.
End floor_quotient.

Lemma Qfloor_scale m s : 0 <= s -> Qfloor (scale m (- s)) = m / 2 ^ s.
Proof.
  intros Hs. unfold scale. destruct (Z.leb_spec 0 (- s)).
  - replace s with 0 by lia. cbn. rewrite Z.mul_1_r, !Z.div_1_r. done.
  - rewrite (Qfloor_comp _ _ (Qred_correct _)). cbn. rewrite Z.opp_involutive, Z2Pos.id; auto with js.
Qed.

Lemma num_floor_div n k : 0 <= n < 2 ^ 53 -> 0 < k <= 2 ^ 53 ->
  num_floor (num_div (NZ n) k) = NZ (n / k).
Proof.
  intros Hn Hk. cbn [num_div NZ]. destruct k as [|k|]; [lia| |lia].
  unfold Qdiv, Qinv, Qmult. cbn [Qnum Qden]. rewrite Z.mul_1_r, Pos.mul_1_l. unfold fl. cbn [Qnum Qden].
  destruct (Z.eqb_spec n 0) as [->|Hnz]; [reflexivity|].
  rewrite (Z.abs_eq n) by lia.
  pose proof (quotient_log_range n (Zpos k) ltac:(lia) Hk) as Hl.
  pose proof (quotient_rounded n (Zpos k) ltac:(lia) Hk) as [Hlo Hhi]. cbn zeta in Hlo, Hhi.
  set (l := ilog2 n (Zpos k)) in *.
  rewrite (Z.max_l (l - 52) (-1074)) by lia.
  rewrite (Z.max_r 0 (- (l - 52))), (Z.max_l 0 (l - 52)) by lia.
  replace (- (l - 52)) with (52 - l) by lia. rewrite Z.pow_0_r, !Z.mul_1_r.
  set (m := rhe _ _) in *. pose proof (Z_pow2_gt0 (52 - l) ltac:(lia)) as Hp.
  assert (0 <= n / Zpos k < 2 ^ 53) by (split; [apply Z.div_pos|apply Z.div_lt_upper_bound]; nia).
  assert (2 ^ (52 - l) <= 2 ^ 106) by (apply Z.pow_le_mono_r; lia).
  assert (m < 2 ^ 54 * 2 ^ 106) by nia.
  destruct (Z.leb_spec (2 ^ 1024) (Z.abs m)); [exfalso|].
  - assert (2 ^ 54 * 2 ^ 106 < 2 ^ 1024) by reflexivity. nia.
  - cbn [num_floor]. replace (l - 52) with (- (52 - l)) by lia. rewrite Qfloor_scale by lia.
    cut (m / 2 ^ (52 - l) = n / Zpos k); [by intros ->|].
    symmetry. apply Z.div_unique_pos with (m - n / Zpos k * 2 ^ (52 - l)); nia.
Qed.
