(* ===== verification/JsString.v ===== *)
(** * JavaScript strings

    A string is its list of UTF-16 code units, each an integer in [0 .. 65535].
    This file holds the string operations the modelled code uses ([trim],
    [indexOf], [split], [slice], character classes) and the conversions between
    strings and numbers. *)

From Stdlib Require Import QArith Qround Ascii.
From Stdlib Require String Decimal DecimalN.
Export String (string(..)).
Export (notations) String.
From S2P Require Import Prelude.
From S2P Require Import JsNum.
Local Open Scope Z_scope.

(** ** Literals *)

(** An ASCII literal as code units. *)
Fixpoint js (s : string) : list Z :=
  match s with
  | EmptyString => []
  | String c s => Z.of_N (N_of_ascii c) :: js s
  end.

(** [a === b] on strings. *)
Definition str_eqb (a b : list Z) : bool := bool_decide (a = b).

Lemma str_eqb_eq a b : str_eqb a b = true <-> a = b.
Proof. apply bool_decide_eq_true. Qed.
Lemma str_eqb_neq a b : str_eqb a b = false <-> a <> b.
Proof. apply bool_decide_eq_false. Qed.
Lemma str_eqb_refl a : str_eqb a a = true.
Proof. by apply str_eqb_eq. Qed.

(** ** Character classes *)

Definition in_range (lo hi c : Z) : bool := (lo <=? c) && (c <=? hi).
Definition is_digit : Z -> bool := in_range 48 57.
Definition is_lower : Z -> bool := in_range 97 122.
Definition is_upper : Z -> bool := in_range 65 90.
Definition is_alpha (c : Z) : bool := is_lower c || is_upper c.
Definition is_alnum (c : Z) : bool := is_alpha c || is_digit c.
Definition is_ascii : Z -> bool := in_range 0 127.
(** [0-9a-f] *)
Definition is_hex_lower (c : Z) : bool := is_digit c || in_range 97 102 c.
(** [\x00-\x1f\x7f] *)
Definition is_control (c : Z) : bool := in_range 0 31 c || (c =? 127).

(** White space and line terminators of the language: what [trim] removes and
    what [\s] matches. *)
Definition is_space (c : Z) : bool :=
  in_range 9 13 c || (c =? 32) || (c =? 160) || (c =? 5760) || in_range 8192 8202 c
  || (c =? 8232) || (c =? 8233) || (c =? 8239) || (c =? 8287) || (c =? 12288) || (c =? 65279).

Definition ascii_lower (c : Z) : Z := if is_upper c then c + 32 else c.
Definition ascii_upper (c : Z) : Z := if is_lower c then c - 32 else c.

(** ** Scanning *)

(** The longest prefix whose units satisfy [p], and the rest. *)
Fixpoint span (p : Z -> bool) (s : list Z) : list Z * list Z :=
  match s with
  | [] => ([], [])
  | c :: r => if p c then let '(a, b) := span p r in (c :: a, b) else ([], s)
  end.

Fixpoint drop_while (p : Z -> bool) (s : list Z) : list Z :=
  match s with
  | [] => []
  | c :: r => if p c then drop_while p r else s
  end.

(** [s.replace(/[p]+$/, "")] *)
Definition drop_trailing (p : Z -> bool) (s : list Z) : list Z :=
  rev (drop_while p (rev s)).

(** [s.trim()] *)
Definition trim (s : list Z) : list Z := drop_trailing is_space (drop_while is_space s).

(** [s.indexOf(t) === 0] *)
Fixpoint starts_with (t s : list Z) : bool :=
  match t, s with
  | [], _ => true
  | _, [] => false
  | a :: t, b :: s => (a =? b) && starts_with t s
  end.

(** The rest of [s] after a leading unit [c], if it has one. *)
Definition strip_unit (c : Z) (s : list Z) : option (list Z) :=
  match s with
  | x :: r => if x =? c then Some r else None
  | [] => None
  end.

(** A leading [-] or [+], and the rest. *)
Definition strip_sign (s : list Z) : bool * list Z :=
  match s with
  | c :: r => if c =? 45 then (true, r) else if c =? 43 then (false, r) else (false, s)
  | [] => (false, s)
  end.

(** [s.indexOf(t)]: [None] stands for -1. *)
Fixpoint index_of (t s : list Z) : option nat :=
  if starts_with t s then Some 0%nat
  else match s with
       | [] => None
       | _ :: s => S <$> index_of t s
       end.

(** [s.indexOf(t) !== -1] *)
Definition contains (t s : list Z) : bool := bool_decide (is_Some (index_of t s)).

(** [s.lastIndexOf(c)] for a one-unit string. *)
Fixpoint last_index_of (c : Z) (s : list Z) : option nat :=
  match s with
  | [] => None
  | x :: s =>
      match last_index_of c s with
      | Some i => Some (S i)
      | None => if x =? c then Some 0%nat else None
      end
  end.

(** [s.split(c)] for a one-unit separator: never the empty list. *)
Fixpoint split_on (p : Z -> bool) (s : list Z) : list (list Z) :=
  match s with
  | [] => [[]]
  | c :: r =>
      if p c then [] :: split_on p r
      else match split_on p r with
           | [] => [[c]]
           | w :: ws => (c :: w) :: ws
           end
  end.

(** [parts.join(sep)] *)
Fixpoint join (sep : list Z) (parts : list (list Z)) : list Z :=
  match parts with
  | [] => []
  | [w] => w
  | w :: ws => w ++ sep ++ join sep ws
  end.

(** ** Decimal numerals *)

Fixpoint uint_units (u : Decimal.uint) : list Z :=
  match u with
  | Decimal.Nil => []
  | Decimal.D0 u => 48 :: uint_units u
  | Decimal.D1 u => 49 :: uint_units u
  | Decimal.D2 u => 50 :: uint_units u
  | Decimal.D3 u => 51 :: uint_units u
  | Decimal.D4 u => 52 :: uint_units u
  | Decimal.D5 u => 53 :: uint_units u
  | Decimal.D6 u => 54 :: uint_units u
  | Decimal.D7 u => 55 :: uint_units u
  | Decimal.D8 u => 56 :: uint_units u
  | Decimal.D9 u => 57 :: uint_units u
  end.

(** The decimal numeral of an integer. *)
Definition nat_to_str (n : Z) : list Z := uint_units (N.to_uint (Z.to_N n)).
Definition Z_to_str (z : Z) : list Z :=
  if z <? 0 then 45 :: nat_to_str (- z) else nat_to_str z.

(** The value of a run of decimal digits. *)
Definition digits_value (l : list Z) : Z := fold_left (fun a c => a * 10 + (c - 48)) l 0.

(** [m * 10^e] as a double.  Magnitudes outside the doubles' range are settled
    before the power is computed. *)
Definition dec_num (m e : Z) : num :=
  if m =? 0 then NZ 0 else
  let nd := Z.of_nat (length (nat_to_str m)) in
  if 310 <? e + nd then Inf false
  else if e + nd <? -330 then NZ 0
  else if 0 <=? e then fl (m * 10 ^ e # 1) else fl (m # Z.to_pos (10 ^ (- e))).

(** An optional exponent part [e[+-]digits]; the whole rest must be read. *)
Definition read_exponent (s : list Z) : option Z :=
  match s with
  | [] => Some 0
  | c :: r =>
      if (c =? 101) || (c =? 69) then
        let '(neg, r) := strip_sign r in
        let '(ds, rest) := span is_digit r in
        match ds, rest with
        | _ :: _, [] => Some (if neg then - digits_value ds else digits_value ds)
        | _, _ => None
        end
      else None
  end.

(** An unsigned decimal literal as [Number] reads it: [1], [1.], [.5], [1e3]. *)
Definition read_decimal (s : list Z) : option num :=
  let '(ip, r) := span is_digit s in
  let '(fp, r) := match strip_unit 46 r with
                  | Some r => span is_digit r
                  | None => ([], r)
                  end in
  match ip ++ fp with
  | [] => None
  | ds => e ← read_exponent r; Some (dec_num (digits_value ds) (e - Z.of_nat (length fp)))
  end.

Definition hex_digit (c : Z) : option Z :=
  if is_digit c then Some (c - 48)
  else if in_range 97 102 c then Some (c - 87)
  else if in_range 65 70 c then Some (c - 55)
  else None.

(** [0x], [0o] and [0b] literals: digits of a base, at least one. *)
Fixpoint read_base (b acc : Z) (s : list Z) : option Z :=
  match s with
  | [] => Some acc
  | c :: r =>
      d ← hex_digit c; if d <? b then read_base b (acc * b + d) r else None
  end.
Definition read_prefixed (b : Z) (s : list Z) : num :=
  match s with
  | [] => NaN
  | _ => match read_base b 0 s with Some z => fl (z # 1) | None => NaN end
  end.

(** A decimal literal or [Infinity], with an optional sign. *)
Definition read_signed (t : list Z) : num :=
  let '(neg, t) := strip_sign t in
  let v := if str_eqb t (js "Infinity") then Inf false else default NaN (read_decimal t) in
  if neg then num_opp v else v.

(** ToNumber of a string. *)
Definition string_to_num (s : list Z) : num :=
  let t := trim s in
  match t with
  | [] => NZ 0
  | c :: r =>
      if c =? 48 then
        match r with
        | x :: r =>
            if (x =? 120) || (x =? 88) then read_prefixed 16 r
            else if (x =? 111) || (x =? 79) then read_prefixed 8 r
            else if (x =? 98) || (x =? 66) then read_prefixed 2 r
            else read_signed t
        | [] => read_signed t
        end
      else read_signed t
  end.

(** ** Number to string *)

(** The [k] with [10^(k-1) <= n/d < 10^k], from a nearby guess. *)
Fixpoint find_exp10 (fuel : nat) (n d k : Z) : Z :=
  match fuel with
  | O => k
  | S fuel =>
      let below j := n * 10 ^ Z.max 0 (- j) <? d * 10 ^ Z.max 0 j in
      if below k then if below (k - 1) then find_exp10 fuel n d (k - 1) else k
      else find_exp10 fuel n d (k + 1)
  end.

(** A [k]-digit decimal significand that reads back as [x], the closer first. *)
Definition shortest_at (x : Q) (n k : Z) : option Z :=
  let a := Qnum x * 10 ^ Z.max 0 (k - n) in
  let b := Zpos (Qden x) * 10 ^ Z.max 0 (n - k) in
  let lo := a / b in
  let back s := num_eqb (dec_num s (n - k)) (Fin x) in
  let '(s1, s2) := if 2 * (a mod b) <? b then (lo, lo + 1) else (lo + 1, lo) in
  if back s1 then Some s1 else if back s2 then Some s2 else None.

Fixpoint shortest_from (fuel : nat) (x : Q) (n k : Z) : Z * Z :=
  match fuel with
  | O => (k, 0)
  | S fuel =>
      match shortest_at x n k with
      | Some s => (k, s)
      | None => shortest_from fuel x n (k + 1)
      end
  end.

(** Number::toString of a positive value with significand digits [ds] and
    decimal exponent [n]. *)
Definition format_decimal (ds : list Z) (n : Z) : list Z :=
  let k := Z.of_nat (length ds) in
  if (k <=? n) && (n <=? 21) then ds ++ replicate (Z.to_nat (n - k)) 48
  else if (0 <? n) && (n <=? 21) then take (Z.to_nat n) ds ++ js "." ++ drop (Z.to_nat n) ds
  else if (-6 <? n) && (n <=? 0) then js "0." ++ replicate (Z.to_nat (- n)) 48 ++ ds
  else
    let e := n - 1 in
    let es := (if e <? 0 then js "e-" else js "e+") ++ nat_to_str (Z.abs e) in
    match ds with
    | [d] => d :: es
    | d :: r => d :: js "." ++ r ++ es
    | [] => es
    end.

Definition pos_to_string (x : Q) : list Z :=
  let d := Zpos (Qden x) in
  let n := find_exp10 700 (Qnum x) d (ilog2 (Qnum x) d * 30103 / 100000) in
  let '(k, s) := shortest_from 17 x n 1 in
  let ds := nat_to_str s in
  format_decimal ds (n + (Z.of_nat (length ds) - k)).

(** ToString of a number. *)
Definition num_to_string (a : num) : list Z :=
  match a with
  | NaN => js "NaN"
  | Inf false => js "Infinity"
  | Inf true => js "-Infinity"
  | Fin q =>
      if (Zpos (Qden q) =? 1) && (Z.abs (Qnum q) <? 10 ^ 21) then Z_to_str (Qnum q)
      else if Qnum q <? 0 then 45 :: pos_to_string (Qopp q) else pos_to_string q
  end.

Example num_to_string_tenth : num_to_string (string_to_num (js "0.1")) = js "0.1".
Proof. vm_compute. reflexivity. Qed.
Example num_to_string_exp : num_to_string (string_to_num (js " 1.5E-10 ")) = js "1.5e-10".
Proof. vm_compute. reflexivity. Qed.
Example num_to_string_big : num_to_string (string_to_num (js "1e22")) = js "1e+22".
Proof. vm_compute. reflexivity. Qed.
Example num_third : num_to_string (num_div (NZ 1) 3) = js "0.3333333333333333".
Proof. vm_compute. reflexivity. Qed.

(** ** Facts about numerals *)

Lemma uint_units_digits u : Forall (fun c => is_digit c = true) (uint_units u).
Proof. induction u; constructor; auto. Qed.

Lemma uint_units_inj u v : uint_units u = uint_units v -> u = v.
Proof.
  revert v. induction u; intros []; cbn; intros H; inversion H; f_equal; auto.
Qed.

Lemma digits_value_acc u acc :
  fold_left (fun a c => a * 10 + (c - 48)) (uint_units u) (Zpos acc) = Zpos (Pos.of_uint_acc u acc).
Proof. revert acc. induction u; intros acc; cbn -[Z.mul Z.add Pos.mul Pos.add]; [done|..]; rewrite <- IHu; f_equal; lia. Qed.

Lemma digits_value_uint u : digits_value (uint_units u) = Z.of_N (Pos.of_uint u).
Proof.
  unfold digits_value. induction u; cbn -[Z.mul]; [done|done|..]; apply digits_value_acc.
Qed.

Lemma digits_value_nat n : 0 <= n -> digits_value (nat_to_str n) = n.
Proof.
  intros. unfold nat_to_str. rewrite digits_value_uint.
  change (Z.of_N (N.of_uint (N.to_uint (Z.to_N n))) = n).
  rewrite DecimalN.Unsigned.of_to. lia.
Qed.

Lemma nat_to_str_digits n : Forall (fun c => is_digit c = true) (nat_to_str n).
Proof. apply uint_units_digits. Qed.

(** A numeral is not empty, and it has no leading zero unless it is ["0"]. *)
Lemma nat_to_str_head n : 0 <= n ->
  exists c r, nat_to_str n = c :: r /\ is_digit c = true /\ (c = 48 -> n = 0 /\ r = []).
Proof.
  intros Hn. unfold nat_to_str.
  assert (Hnorm : N.to_uint (Z.to_N n) = Decimal.unorm (N.to_uint (Z.to_N n))).
  { rewrite <- DecimalN.Unsigned.to_of. by rewrite DecimalN.Unsigned.of_to. }
  assert (Hz : N.to_uint (Z.to_N n) = Decimal.D0 Decimal.Nil -> n = 0).
  { intros E. apply (f_equal N.of_uint) in E. rewrite DecimalN.Unsigned.of_to in E. cbn in E. lia. }
  rewrite Hnorm in Hz |- *. unfold Decimal.unorm in Hz |- *.
  destruct (Decimal.nzhead (N.to_uint (Z.to_N n))) eqn:E; cbn;
    try (eexists _, _; split; [done|split; [done|discriminate]]).
  - eauto 10.
  - exfalso. clear -E. revert E. generalize (N.to_uint (Z.to_N n)). intros v.
    induction v; cbn; try discriminate; auto.
Qed.

Lemma span_all p a b :
  Forall (fun c => p c = true) a ->
  match b with [] => True | c :: _ => p c = false end ->
  span p (a ++ b) = (a, b).
Proof.
  intros Ha Hb. induction Ha as [|c a Hc Ha IH]; cbn.
  - destruct b as [|c b]; cbn; [done|by rewrite Hb].
  - by rewrite Hc, IH.
Qed.

Lemma span_spec p s a b :
  span p s = (a, b) ->
  s = a ++ b /\ Forall (fun c => p c = true) a /\ match b with [] => True | c :: _ => p c = false end.
Proof.
  revert a b. induction s as [|c s IH]; cbn; intros a b H.
  - by simplify_eq.
  - destruct (p c) eqn:Hc; [|by simplify_eq].
    destruct (span p s) as [a' b'] eqn:E. simplify_eq.
    destruct (IH _ _ eq_refl) as (-> & Ha & Hb). by repeat split; [constructor|].
Qed.

Lemma drop_while_head p s :
  match s with [] => True | c :: _ => p c = false end -> drop_while p s = s.
Proof. destruct s; cbn; [done|by intros ->]. Qed.

Lemma drop_while_spec p s : match drop_while p s with [] => True | c :: _ => p c = false end.
Proof. induction s as [|c s IH]; cbn; [done|]. by destruct (p c) eqn:?. Qed.

Lemma drop_while_suffix p s : exists a, s = a ++ drop_while p s /\ Forall (fun c => p c = true) a.
Proof.
  induction s as [|c s (a & E & Ha)]; cbn; [by exists []|]. destruct (p c) eqn:?.
  - exists (c :: a). split; [cbn; by f_equal|by constructor].
  - by exists [].
Qed.

Lemma drop_while_nil p s : drop_while p s = [] <-> Forall (fun c => p c = true) s.
Proof.
  induction s as [|c s IH]; cbn; [done|]. destruct (p c) eqn:Hc; rewrite ?IH; split; try done.
  - by constructor.
  - by inversion 1.
  - inversion 1; congruence.
Qed.

(** Strings that neither start nor end with white space are their own [trim]. *)
Lemma trim_id s :
  match s with [] => True | c :: _ => is_space c = false end ->
  match last s with None => True | Some c => is_space c = false end ->
  trim s = s.
Proof.
  intros Hh Hl. unfold trim, drop_trailing. rewrite (drop_while_head is_space s Hh).
  rewrite drop_while_head; [apply rev_involutive|].
  destruct s as [|x s _] using rev_ind; cbn; [done|]. rewrite rev_unit. by rewrite last_snoc in Hl.
Qed.

Lemma trim_ends s :
  match trim s with [] => True | c :: _ => is_space c = false end /\
  match last (trim s) with None => True | Some c => is_space c = false end.
Proof.
  unfold trim, drop_trailing. set (t := drop_while is_space s).
  pose proof (drop_while_spec is_space s) as Ht. fold t in Ht.
  destruct (drop_while_suffix is_space (rev t)) as (a & E & Ha).
  pose proof (drop_while_spec is_space (rev t)) as Hr.
  set (r := drop_while is_space (rev t)) in *. apply (f_equal (@rev Z)) in E.
  rewrite rev_involutive, rev_app_distr in E. split.
  - rewrite E in Ht. by destruct (rev r).
  - destruct r; cbn; [done|]. by rewrite last_snoc.
Qed.

(** [trim] is idempotent. *)
Lemma trim_idem s : trim (trim s) = trim s.
Proof. destruct (trim_ends s). by apply trim_id. Qed.

Lemma digit_not_space c : is_digit c = true -> is_space c = false.
Proof. unfold is_digit, is_space, in_range. intros. boolZ. lia. Qed.

Lemma digits_trim s : Forall (fun c => is_digit c = true) s -> trim s = s.
Proof.
  intros Hs. apply trim_id.
  - destruct Hs; [done|by apply digit_not_space].
  - destruct (last s) as [c|] eqn:E; [|done]. apply digit_not_space.
    apply last_Some in E as [l ->]. by apply Forall_app in Hs as [_ [? _]%Forall_cons].
Qed.

Lemma digits_fold_lower l a :
  Forall (fun c => is_digit c = true) l -> 0 <= a ->
  a * 10 ^ Z.of_nat (length l) <= fold_left (fun a c => a * 10 + (c - 48)) l a.
Proof.
  intros Hl. revert a. induction Hl as [|c l Hc Hl IH]; intros a Ha; cbn [fold_left length].
  - rewrite Z.pow_0_r. lia.
  - unfold is_digit, in_range in Hc. boolZ. etransitivity; [|apply IH; lia].
    rewrite Nat2Z.inj_succ, Z.pow_succ_r by lia.
    pose proof (Z.pow_pos_nonneg 10 (Z.of_nat (length l))). nia.
Qed.

(** A numeral below [10^k] has at most [k] digits. *)
Lemma nat_to_str_width k z : (0 < k)%nat -> 0 <= z < 10 ^ Z.of_nat k -> (length (nat_to_str z) <= k)%nat.
Proof.
  intros Hk Hz. destruct (nat_to_str_head z) as (c & r & E & Hc & H0); [lia|].
  pose proof (digits_value_nat z ltac:(lia)) as Hv. pose proof (nat_to_str_digits z) as Hd.
  rewrite E in Hv, Hd |- *. apply Forall_cons in Hd as [_ Hd].
  destruct (decide (c = 48)) as [->|Hne]; [destruct H0 as [_ ->]; cbn; lia|].
  unfold digits_value in Hv. cbn [fold_left] in Hv.
  unfold is_digit, in_range in Hc. boolZ.
  pose proof (digits_fold_lower r (0 * 10 + (c - 48)) Hd ltac:(lia)) as Hlow.
  destruct (Nat.le_gt_cases (length (c :: r)) k) as [|Hgt]; [done|exfalso].
  cbn [length] in Hgt. assert (10 ^ Z.of_nat k <= 10 ^ Z.of_nat (length r)) by (apply Z.pow_le_mono_r; lia). nia.
Qed.

Lemma nat_to_str_length z : 0 <= z < 10 ^ 16 -> (length (nat_to_str z) <= 16)%nat.
Proof. intros. apply nat_to_str_width; lia. Qed.

Lemma dec_num_exact z : 0 <= z <= 2 ^ 53 -> dec_num z 0 = NZ z.
Proof.
  intros Hz. unfold dec_num. destruct (Z.eqb_spec z 0) as [->|]; [done|].
  pose proof (nat_to_str_length z ltac:(lia)). rewrite Z.add_0_l.
  destruct (Z.ltb_spec 310 (Z.of_nat (length (nat_to_str z)))); [lia|].
  destruct (Z.ltb_spec (Z.of_nat (length (nat_to_str z))) (-330)); [lia|].
  cbn [Z.leb Z.compare]. rewrite Z.pow_0_r, Z.mul_1_r. apply fl_Z. lia.
Qed.

Lemma read_decimal_nat z : 0 <= z <= 2 ^ 53 -> read_decimal (nat_to_str z) = Some (NZ z).
Proof.
  intros Hz. unfold read_decimal.
  rewrite <- (app_nil_r (nat_to_str z)) at 1. rewrite span_all; [|apply nat_to_str_digits|done].
  cbn [strip_unit]. rewrite app_nil_r. destruct (nat_to_str_head z) as (c & r & E & _); [lia|].
  rewrite E at 1. cbn [read_exponent mbind option_bind length]. rewrite <- E, digits_value_nat by lia.
  by rewrite dec_num_exact.
Qed.

Lemma digits_not_infinity s : Forall (fun c => is_digit c = true) s -> str_eqb s (js "Infinity") = false.
Proof. intros Hs. apply str_eqb_neq. intros ->. by apply Forall_cons in Hs as [? _]. Qed.

(** [Number(String(z))] is [z] for every integer a double holds exactly. *)
Lemma string_to_num_Z z : Z.abs z <= 2 ^ 53 -> string_to_num (Z_to_str z) = NZ z.
Proof.
  intros Hz. unfold string_to_num, Z_to_str. destruct (Z.ltb_spec z 0).
  - destruct (nat_to_str_head (- z)) as (c & r & E & _); [lia|].
    pose proof (nat_to_str_digits (- z)) as Hd.
    rewrite trim_id; [|done|].
    + cbn. unfold read_signed, strip_sign. cbn [Z.eqb Pos.eqb].
      rewrite digits_not_infinity, read_decimal_nat by (done || lia). change (Fin (- - z # 1) = NZ z). by rewrite Z.opp_involutive.
    + rewrite last_cons. destruct (last (nat_to_str (- z))) as [x|] eqn:El; [|done].
      apply last_Some in El as [l El]. rewrite El in Hd.
      apply Forall_app in Hd as [_ [? _]%Forall_cons]. by apply digit_not_space.
  - pose proof (nat_to_str_digits z) as Hd. rewrite digits_trim by done.
    destruct (nat_to_str_head z) as (c & r & E & Hc & H0); [lia|].
    assert (Hrs : read_signed (nat_to_str z) = NZ z).
    { unfold read_signed, strip_sign. rewrite E. unfold is_digit, in_range in Hc. boolZ.
      destruct (Z.eqb_spec c 45), (Z.eqb_spec c 43); try lia. rewrite <- E.
      by rewrite digits_not_infinity, read_decimal_nat by (done || lia). }
    rewrite E in Hrs |- *. destruct (Z.eqb_spec c 48) as [Hc0|]; [|done].
    destruct (H0 Hc0) as [_ ->]. done.
Qed.

Lemma num_to_string_NZ z : Z.abs z < 10 ^ 21 -> num_to_string (NZ z) = Z_to_str z.
Proof.
  intros. cbn [num_to_string NZ Qden Qnum].
  by replace ((1 =? 1) && (Z.abs z <? 10 ^ 21)) with true by lia.
Qed.

(** ** Substrings *)

Lemma starts_with_spec t s : starts_with t s = true <-> exists r, s = t ++ r.
Proof.
  revert s. induction t as [|c t IH]; intros s; cbn; [split; eauto|]. destruct s as [|d s].
  - split; [done|intros [r H]; discriminate H].
  - rewrite andb_true_iff, Z.eqb_eq, IH. split.
    + intros [-> [r ->]]. by exists r.
    + intros [r [= -> ->]]. eauto.
Qed.

Lemma contains_spec t s : contains t s = true <-> exists a b, s = a ++ t ++ b.
Proof.
  unfold contains. rewrite bool_decide_eq_true. induction s as [|c s IH]; cbn [index_of].
  - destruct (starts_with t []) eqn:E.
    + apply starts_with_spec in E as [r E]. split; [|eauto]. intros _. by exists [], r.
    + split; [by intros [? ?]|]. intros (a & b & H). symmetry in H. apply app_nil in H as [-> H].
      exfalso. apply not_true_iff_false in E. apply E, starts_with_spec. by exists b.
  - destruct (starts_with t (c :: s)) eqn:E.
    + apply starts_with_spec in E as [r E]. split; [|eauto]. intros _. by exists [], r.
    + rewrite fmap_is_Some, IH. split.
      * intros (a & b & ->). by exists (c :: a), b.
      * intros ([|d a] & b & H).
        -- exfalso. apply not_true_iff_false in E. apply E, starts_with_spec. by exists b.
        -- injection H as -> ->. eauto.
Qed.

Lemma contains_app_l t s r : contains t s = true -> contains t (s ++ r) = true.
Proof. rewrite !contains_spec. intros (a & b & ->). exists a, (b ++ r). by rewrite <- !app_assoc. Qed.

Lemma contains_take t s n : contains t (take n s) = true -> contains t s = true.
Proof. intros H. rewrite <- (take_drop n s). by apply contains_app_l. Qed.

(** A word without the separator that occurs in joined parts occurs in one. *)
Lemma contains_join t ws : t <> [] -> 32 ∉ t -> contains t (join [32] ws) = true -> Exists (fun w => contains t w = true) ws.
Proof.
  intros Hne Hsp. induction ws as [|w ws IH]; intros H.
  - exfalso. apply contains_spec in H as (a & b & H). cbn in H. by destruct a, t.
  - destruct ws as [|w' ws]; [by constructor|].
    change (join [32] (w :: w' :: ws)) with (w ++ 32 :: join [32] (w' :: ws)) in H.
    apply contains_spec in H as (a & b & H). symmetry in H.
    apply app_eq_inv in H as [(k & -> & H)|(k & -> & H)].
    + destruct k as [|x k]; cbn in H.
      * exfalso. destruct t as [|y t]; [done|]. injection H as <- _. apply Hsp. left.
      * injection H as <- H. apply Exists_cons_tl, IH, contains_spec. by exists k, b.
    + apply app_eq_inv in H as [(j & -> & H)|(j & -> & H)].
      * destruct j as [|x j]; cbn in H.
        -- apply Exists_cons_hd, contains_spec. exists a, []. by rewrite !app_nil_r.
        -- injection H as <- H. exfalso. apply Hsp. set_solver.
      * apply Exists_cons_hd, contains_spec. eauto.
Qed.
