(* ===== verification/JsUnicode.v ===== *)
(** * Unicode tables of the language

    [toLowerCase], [toUpperCase] and [localeCompare] depend on Unicode data the
    repository does not carry.  They are the methods of a class; what the theorems
    use of them is their behaviour on ASCII and that lower-casing is idempotent.
    [ascii_case] is the instance that folds ASCII only. *)

From Stdlib Require Import Sorting.Sorted.
From S2P Require Import Prelude.
From S2P Require Import JsNum.
From S2P Require Import JsString.

Class CaseTables := {
  to_lower : list Z -> list Z;
  to_lower_ascii s : forallb is_ascii s = true -> to_lower s = map ascii_lower s;
  to_lower_idem s : to_lower (to_lower s) = to_lower s;
}.

Lemma ascii_lower_idem c : ascii_lower (ascii_lower c) = ascii_lower c.
Proof.
  unfold ascii_lower, is_upper, in_range.
  destruct (Z.leb_spec 65 c), (Z.leb_spec c 90); cbn [andb];
    repeat match goal with |- context [?a <=? ?b] => destruct (Z.leb_spec a b) end; cbn [andb]; lia.
Qed.

Lemma map_ascii_lower_idem s : map ascii_lower (map ascii_lower s) = map ascii_lower s.
Proof. rewrite map_map. apply map_ext, ascii_lower_idem. Qed.

#[export] Instance ascii_case : CaseTables := {|
  to_lower := map ascii_lower;
  to_lower_ascii s _ := eq_refl;
  to_lower_idem := map_ascii_lower_idem;
|}.

(** [a < b] on strings: by code units. *)
Fixpoint str_ltb (a b : list Z) : bool :=
  match a, b with
  | _, [] => false
  | [], _ :: _ => true
  | x :: a, y :: b => (x <? y) || ((x =? y) && str_ltb a b)
  end.

Lemma str_ltb_irrefl a : str_ltb a a = false.
Proof. induction a as [|x a IH]; cbn; [done|]. by rewrite Z.ltb_irrefl, Z.eqb_refl, IH. Qed.

Lemma str_ltb_trans a b c : str_ltb a b = true -> str_ltb b c = true -> str_ltb a c = true.
Proof.
  revert b c. induction a as [|x a IH]; intros [|y b] [|z c]; cbn; try done.
  rewrite !orb_true_iff, !andb_true_iff, !Z.ltb_lt, !Z.eqb_eq. intros [|[-> ?]] [|[-> ?]]; try (left; lia). right. eauto.
Qed.

Lemma str_ltb_total a b : a <> b -> str_ltb a b = false -> str_ltb b a = true.
Proof.
  revert b. induction a as [|x a IH]; intros [|y b]; cbn; try done.
  rewrite orb_false_iff, andb_false_iff, orb_true_iff, andb_true_iff, !Z.ltb_lt, !Z.ltb_ge, !Z.eqb_eq, !Z.eqb_neq.
  intros Hne [Hle [Hx|Hl]]; [left; lia|]. destruct (Z.eq_dec x y) as [->|]; [|left; lia]. right. split; [done|].
  apply IH; [congruence|done].
Qed.

(** ** Collation

    [localeCompare] with base sensitivity: a total preorder on strings.  The
    instance compares ASCII-folded code units. *)

Class Collation := {
  name_le : list Z -> list Z -> bool;
  name_le_total a b : name_le a b = false -> name_le b a = true;
  name_le_trans a b c : name_le a b = true -> name_le b c = true -> name_le a c = true;
}.

Definition fold_le (a b : list Z) : bool := negb (str_ltb (map ascii_lower b) (map ascii_lower a)).

Lemma fold_le_total a b : fold_le a b = false -> fold_le b a = true.
Proof.
  unfold fold_le. intros H%negb_false_iff. apply negb_true_iff, not_true_iff_false. intros H'.
  pose proof (str_ltb_trans _ _ _ H H') as E. by rewrite str_ltb_irrefl in E.
Qed.

Lemma fold_le_trans a b c : fold_le a b = true -> fold_le b c = true -> fold_le a c = true.
Proof.
  unfold fold_le. rewrite !negb_true_iff. intros Hab Hbc. apply not_true_iff_false. intros Hca.
  destruct (decide (map ascii_lower a = map ascii_lower b)) as [E|Hne]; [rewrite E in Hca; congruence|].
  pose proof (str_ltb_total _ _ (not_eq_sym Hne) Hab) as Hlt.
  pose proof (str_ltb_trans _ _ _ Hca Hlt). congruence.
Qed.

#[export] Instance ascii_collation : Collation := {|
  name_le := fold_le;
  name_le_total := fold_le_total;
  name_le_trans := fold_le_trans;
|}.

(** [sort] with a comparator whose [<= 0] test is [le]. *)
Section sorting.
  Context {A : Type} (le : A -> A -> bool).

Fixpoint insert_sorted (x : A) (l : list A) : list A :=
  match l with
  | [] => [x]
  | y :: l => if le x y then x :: y :: l else y :: insert_sorted x l
  end.

Definition sort_by (l : list A) : list A := foldr insert_sorted [] l.

Definition sorted_by (l : list A) : Prop := StronglySorted (fun x y => le x y = true) l.

Lemma insert_sorted_perm x l : insert_sorted x l ≡ₚ x :: l.
Proof. induction l as [|y l IH]; cbn; [done|]. destruct (le x y); [done|]. rewrite IH. apply Permutation_swap. Qed.

Lemma sort_by_perm l : sort_by l ≡ₚ l.
Proof. induction l as [|x l IH]; cbn; [done|]. by rewrite insert_sorted_perm, IH. Qed.

Hypothesis le_total : forall x y, le x y = false -> le y x = true.
Hypothesis le_trans : forall x y z, le x y = true -> le y z = true -> le x z = true.

Lemma insert_sorted_sorted x l : sorted_by l -> sorted_by (insert_sorted x l).
Proof.
  unfold sorted_by. induction 1 as [|y l Hl IH Hy]; cbn; [repeat constructor|]. destruct (le x y) eqn:E.
  - constructor; [by constructor|]. constructor; [done|]. eapply Forall_impl; [done|]. cbn. intros z. by apply le_trans.
  - constructor; [done|]. rewrite insert_sorted_perm. constructor; [by apply le_total|done].
Qed.

Lemma sort_by_sorted l : sorted_by (sort_by l).
Proof. induction l as [|x l IH]; cbn; [constructor|by apply insert_sorted_sorted]. Qed.
End sorting.
