(* ===== verification/JsValue.v ===== *)
(** * JavaScript values

    The dynamically typed values the modelled code receives from [JSON.parse],
    from settings files and from QML: primitives, arrays, plain objects and, since
    a property read can reach [Object.prototype], opaque built-in functions.
    Objects keep their own properties in insertion order.  The conversions assume
    that an object does not override [toString] or [valueOf]. *)

From S2P Require Import Prelude.
From S2P Require Import JsNum.
From S2P Require Import JsString.

Inductive jsval :=
| JUndef
| JNull
| JBool (b : bool)
| JNum (n : num)
| JStr (s : list Z)
| JArr (l : list jsval)
| JObj (kvs : list (list Z * jsval))
| JFun (name : list Z).

(** Induction with the induction hypothesis for every element and property. *)
Section jsval_induction.
  Context (P : jsval -> Prop).
  Hypotheses (HUndef : P JUndef) (HNull : P JNull) (HBool : forall b, P (JBool b))
    (HNum : forall n, P (JNum n)) (HStr : forall s, P (JStr s))
    (HArr : forall l, Forall P l -> P (JArr l))
    (HObj : forall kvs, Forall (fun kv => P kv.2) kvs -> P (JObj kvs))
    (HFun : forall n, P (JFun n)).

Fixpoint jsval_ind' (v : jsval) : P v :=
    match v with
    | JUndef => HUndef
    | JNull => HNull
    | JBool b => HBool b
    | JNum n => HNum n
    | JStr s => HStr s
    | JArr l =>
        HArr l ((fix go l : Forall P l :=
                   match l with
                   | [] => Forall_nil_2 P
                   | x :: l => Forall_cons_2 P x l (jsval_ind' x) (go l)
                   end) l)
    | JObj kvs =>
        HObj kvs ((fix go kvs : Forall (fun kv => P kv.2) kvs :=
                     match kvs with
                     | [] => Forall_nil_2 _
                     | kv :: kvs => Forall_cons_2 _ kv kvs (jsval_ind' kv.2) (go kvs)
                     end) kvs)
    | JFun n => HFun n
    end.
End jsval_induction.

(** ** Type tests *)

Definition is_undef (v : jsval) : bool := match v with JUndef => true | _ => false end.
Definition is_null (v : jsval) : bool := match v with JNull => true | _ => false end.
(** [v === undefined || v === null] *)
Definition is_nullish (v : jsval) : bool := is_undef v || is_null v.
Definition is_string (v : jsval) : bool := match v with JStr _ => true | _ => false end.
Definition is_number (v : jsval) : bool := match v with JNum _ => true | _ => false end.
Definition is_boolean (v : jsval) : bool := match v with JBool _ => true | _ => false end.
Definition is_array (v : jsval) : bool := match v with JArr _ => true | _ => false end.
(** [v && typeof v === "object"]: arrays and objects, not null. *)
Definition is_object (v : jsval) : bool :=
  match v with JArr _ | JObj _ => true | _ => false end.

(** ToBoolean *)
Definition truthy (v : jsval) : bool :=
  match v with
  | JUndef | JNull => false
  | JBool b => b
  | JNum n => num_truthy n
  | JStr s => negb (bool_decide (s = []))
  | JArr _ | JObj _ | JFun _ => true
  end.

(** [a || b] *)
Definition js_or (a b : jsval) : jsval := if truthy a then a else b.

(** [v === true] *)
Definition is_true (v : jsval) : bool := match v with JBool true => true | _ => false end.

(** [a === b].  Two arrays or objects are identical only when they are the same
    object; the values compared by the code come from separate parses, so they
    never are. *)
Definition strict_eqb (a b : jsval) : bool :=
  match a, b with
  | JUndef, JUndef | JNull, JNull => true
  | JBool x, JBool y => Bool.eqb x y
  | JNum x, JNum y => num_eqb x y
  | JStr x, JStr y => str_eqb x y
  | JFun x, JFun y => str_eqb x y
  | _, _ => false
  end.

(** ** Objects *)

(** The own property [k]. *)
Fixpoint own (k : list Z) (kvs : list (list Z * jsval)) : option jsval :=
  match kvs with
  | [] => None
  | (k', v) :: kvs => if str_eqb k' k then Some v else own k kvs
  end.

(** Names an object inherits from [Object.prototype]. *)
Definition proto_methods : list (list Z) :=
  [js "constructor"; js "toString"; js "toLocaleString"; js "valueOf"; js "hasOwnProperty";
   js "isPrototypeOf"; js "propertyIsEnumerable"; js "__defineGetter__"; js "__defineSetter__";
   js "__lookupGetter__"; js "__lookupSetter__"].

Definition proto_get (k : list Z) : jsval :=
  if str_eqb k (js "__proto__") then JObj []
  else if existsb (str_eqb k) proto_methods then JFun k else JUndef.

(** [o[k]] on an object literal or parsed object. *)
Definition obj_get (kvs : list (list Z * jsval)) (k : list Z) : jsval :=
  match own k kvs with Some v => v | None => proto_get k end.

(** [o[k] = v], own property semantics: an existing property keeps its place. *)
Fixpoint obj_set (kvs : list (list Z * jsval)) (k : list Z) (v : jsval) : list (list Z * jsval) :=
  match kvs with
  | [] => [(k, v)]
  | (k', v') :: kvs => if str_eqb k' k then (k', v) :: kvs else (k', v') :: obj_set kvs k v
  end.

(** [delete o[k]] *)
Definition obj_delete (kvs : list (list Z * jsval)) (k : list Z) : list (list Z * jsval) :=
  List.filter (fun kv => negb (str_eqb kv.1 k)) kvs.

(** An array index key: the canonical numeral of an integer below [2^32 - 1]. *)
Definition is_index (k : list Z) : bool :=
  forallb is_digit k && str_eqb k (nat_to_str (digits_value k)) && (digits_value k <? 4294967295).

Fixpoint insert_index {A} (kv : list Z * A) (l : list (list Z * A)) : list (list Z * A) :=
  match l with
  | [] => [kv]
  | x :: l => if digits_value kv.1 <? digits_value x.1 then kv :: x :: l else x :: insert_index kv l
  end.

(** Own properties in enumeration order: index keys ascending, then the others
    in insertion order. *)
Definition entries {A} (kvs : list (list Z * A)) : list (list Z * A) :=
  foldr insert_index [] (List.filter (fun kv => is_index kv.1) kvs)
  ++ List.filter (fun kv => negb (is_index kv.1)) kvs.

(** [v[k]] for an object or array; [undefined] on other values.  The code guards
    every read, so it never reads a property of [undefined] or [null]. *)
Definition get (v : jsval) (k : list Z) : jsval :=
  match v with
  | JObj kvs => obj_get kvs k
  | JArr l =>
      if str_eqb k (js "length") then JNum (NZ (Z.of_nat (length l)))
      else if is_index k then default JUndef (l !! Z.to_nat (digits_value k))
      else proto_get k
  | _ => JUndef
  end.

(** ** Conversions *)

(** String(v) *)
Fixpoint to_string (v : jsval) : list Z :=
  match v with
  | JUndef => js "undefined"
  | JNull => js "null"
  | JBool true => js "true"
  | JBool false => js "false"
  | JNum n => num_to_string n
  | JStr s => s
  | JArr l => join (js ",") (map (fun x => if is_nullish x then [] else to_string x) l)
  | JObj _ => js "[object Object]"
  | JFun n => js "function " ++ n ++ js "() { [native code] }"
  end.

(** Number(v) *)
Definition to_number (v : jsval) : num :=
  match v with
  | JUndef => NaN
  | JNull => NZ 0
  | JBool b => NZ (if b then 1 else 0)
  | JNum n => n
  | JStr s => string_to_num s
  | JArr _ => string_to_num (to_string v)
  | JObj _ | JFun _ => NaN
  end.

(** [String(v || "")], the code's idiom for text that may be absent. *)
Definition text (v : jsval) : list Z := if truthy v then to_string v else [].

(** [String(v || d)] *)
Definition text_or (v : jsval) (d : list Z) : list Z := if truthy v then to_string v else d.

(** [v === undefined || v === null ? "" : String(v)] *)
Definition text_present (v : jsval) : list Z := if is_nullish v then [] else to_string v.

(** [v ? String(v) : null] *)
Definition text_or_null (v : jsval) : jsval := if truthy v then JStr (to_string v) else JNull.

Lemma text_JStr s : text (JStr s) = s.
Proof. unfold text. cbn. by case_bool_decide. Qed.

(** ** Facts about objects *)

Lemma own_set_eq kvs k v : own k (obj_set kvs k v) = Some v.
Proof.
  induction kvs as [|[k' v'] kvs IH]; cbn; [by rewrite str_eqb_refl|].
  destruct (str_eqb k' k) eqn:E; cbn; rewrite E; done.
Qed.

Lemma own_set_ne kvs k k' v : k <> k' -> own k' (obj_set kvs k v) = own k' kvs.
Proof.
  intros Hne. induction kvs as [|[j w] kvs IH]; cbn.
  - by rewrite (proj2 (str_eqb_neq k k') Hne).
  - destruct (str_eqb j k) eqn:E; cbn; [|by rewrite IH].
    apply str_eqb_eq in E as ->. by rewrite (proj2 (str_eqb_neq k k') Hne).
Qed.

Lemma own_delete_ne o k k' : k <> k' -> own k' (obj_delete o k) = own k' o.
Proof.
  intros Hne. induction o as [|[j w] o IH]; cbn; [done|]. unfold obj_delete in IH. destruct (str_eqb j k) eqn:E; cbn.
  - apply str_eqb_eq in E as ->. by rewrite (proj2 (str_eqb_neq k k') Hne).
  - by rewrite IH.
Qed.

Lemma own_In k v kvs : own k kvs = Some v -> (k, v) ∈ kvs.
Proof.
  induction kvs as [|[k' v'] kvs IH]; cbn; [done|]. destruct (str_eqb k' k) eqn:E.
  - apply str_eqb_eq in E as ->. intros [= ->]. left.
  - right. auto.
Qed.

Lemma own_None k kvs : own k kvs = None <-> k ∉ kvs.*1.
Proof.
  induction kvs as [|[k' v'] kvs IH]; cbn; [by split; [intros _ ?%elem_of_nil|]|].
  rewrite not_elem_of_cons. destruct (str_eqb k' k) eqn:E.
  - apply str_eqb_eq in E as ->. split; [done|naive_solver].
  - apply str_eqb_neq in E. naive_solver.
Qed.

Lemma own_NoDup k v kvs : NoDup kvs.*1 -> (k, v) ∈ kvs -> own k kvs = Some v.
Proof.
  induction kvs as [|[k' v'] kvs IH]; cbn; intros Hnd Hin; [by apply elem_of_nil in Hin|].
  apply NoDup_cons in Hnd as [Hni Hnd]. apply elem_of_cons in Hin as [[= -> ->]|Hin].
  - by rewrite str_eqb_refl.
  - rewrite (proj2 (str_eqb_neq k' k)); [by apply IH|].
    intros ->. apply Hni. apply list_elem_of_fmap. by exists (k, v).
Qed.

Lemma obj_set_dom kvs k v k' : k' ∈ (obj_set kvs k v).*1 -> k' = k \/ k' ∈ kvs.*1.
Proof.
  induction kvs as [|[j w] kvs IH]; cbn.
  - intros ->%list_elem_of_singleton. by left.
  - destruct (str_eqb j k); cbn; rewrite !elem_of_cons; naive_solver.
Qed.

Lemma obj_set_keys kvs k v : NoDup kvs.*1 -> NoDup (obj_set kvs k v).*1.
Proof.
  induction kvs as [|[j w] kvs IH]; cbn; intros Hnd; [apply NoDup_singleton|].
  destruct (str_eqb j k) eqn:E; [done|]. apply str_eqb_neq in E. cbn.
  apply NoDup_cons in Hnd as [Hj Hnd]. apply NoDup_cons. split; [|by apply IH].
  by intros [->|?]%obj_set_dom.
Qed.

(** Building an object from pairs with distinct keys keeps them as they are. *)
Lemma obj_set_fresh kvs k v : k ∉ kvs.*1 -> obj_set kvs k v = kvs ++ [(k, v)].
Proof.
  induction kvs as [|[k' v'] kvs IH]; cbn; [done|]. rewrite not_elem_of_cons. intros [Hne Hni].
  rewrite (proj2 (str_eqb_neq k' k)) by congruence. by rewrite IH.
Qed.

Lemma entries_plain {A} (kvs : list (list Z * A)) :
  Forall (fun kv => is_index kv.1 = false) kvs -> entries kvs = kvs.
Proof.
  intros H. unfold entries. induction H as [|kv kvs Hk H IH]; [done|]. cbn. rewrite Hk. cbn.
  assert (E : List.filter (fun kv => is_index kv.1) kvs = []).
  { clear -H. induction H as [|kv kvs Hk H IH]; [done|]. cbn. by rewrite Hk. }
  rewrite E in IH |- *. cbn in *. by rewrite IH.
Qed.
