(* ===== verification/Json.v ===== *)
(** * JSON

    [JSON.stringify] and [JSON.parse] on the values of [JsValue], as ECMAScript
    defines them, and the round trip between them. *)

From S2P Require Import Prelude.
From S2P Require Import JsNum.
From S2P Require Import JsString.
From S2P Require Import JsValue.

(** ** Printing *)

Definition hex_unit (d : Z) : Z := if d <? 10 then 48 + d else 87 + d.

(** One unit of a quoted string. *)
Definition quote_unit (c : Z) : list Z :=
  if c =? 34 then [92; 34]
  else if c =? 92 then [92; 92]
  else if c =? 8 then [92; 98]
  else if c =? 12 then [92; 102]
  else if c =? 10 then [92; 110]
  else if c =? 13 then [92; 114]
  else if c =? 9 then [92; 116]
  else if c <? 32 then [92; 117; 48; 48; hex_unit (c / 16); hex_unit (c mod 16)]
  else [c].

Definition quote (s : list Z) : list Z := 34 :: flat_map quote_unit s ++ [34].

(** [None] for the values [JSON.stringify] leaves out. *)
Fixpoint stringify_opt (v : jsval) : option (list Z) :=
  match v with
  | JUndef | JFun _ => None
  | JNull => Some (js "null")
  | JBool true => Some (js "true")
  | JBool false => Some (js "false")
  | JNum n => Some (if num_is_finite n then num_to_string n else js "null")
  | JStr s => Some (quote s)
  | JArr l =>
      Some (91 :: join [44] (map (fun x => default (js "null") (stringify_opt x)) l) ++ [93])
  | JObj kvs =>
      let printed := map (fun kv => (kv.1, stringify_opt kv.2)) kvs in
      let member kv := match kv.2 with Some t => [quote kv.1 ++ 58 :: t] | None => [] end in
      Some (123 :: join [44] (flat_map member (entries printed)) ++ [125])
  end.

(** [JSON.stringify(v)]; [undefined] prints as the text a concatenation would
    show. *)
Definition stringify (v : jsval) : list Z := default (js "undefined") (stringify_opt v).

(** ** Parsing *)

Definition is_json_space (c : Z) : bool := (c =? 9) || (c =? 10) || (c =? 13) || (c =? 32).

(** Four hexadecimal digits. *)
Definition read_hex4 (s : list Z) : option (Z * list Z) :=
  match s with
  | a :: b :: c :: d :: r =>
      a ← hex_digit a; b ← hex_digit b; c ← hex_digit c; d ← hex_digit d;
      Some (((a * 16 + b) * 16 + c) * 16 + d, r)
  | _ => None
  end.

(** The unit a one-letter escape stands for. *)
Definition simple_escape (c : Z) : option Z :=
  if (c =? 34) || (c =? 92) || (c =? 47) then Some c
  else if c =? 98 then Some 8
  else if c =? 102 then Some 12
  else if c =? 110 then Some 10
  else if c =? 114 then Some 13
  else if c =? 116 then Some 9
  else None.

(** The characters up to the closing quote. *)
Fixpoint read_chars (fuel : nat) (s : list Z) : option (list Z * list Z) :=
  match fuel with
  | O => None
  | S fuel =>
      match s with
      | [] => None
      | c :: r =>
          if c =? 34 then Some ([], r)
          else if c <? 32 then None
          else if c =? 92 then
            match r with
            | [] => None
            | e :: r =>
                if e =? 117 then
                  '(u, r) ← read_hex4 r; '(t, r) ← read_chars fuel r; Some (u :: t, r)
                else
                  u ← simple_escape e; '(t, r) ← read_chars fuel r; Some (u :: t, r)
            end
          else '(t, r) ← read_chars fuel r; Some (c :: t, r)
      end
  end.

Definition read_string (s : list Z) : option (list Z * list Z) := read_chars (S (length s)) s.

(** A fraction part [.digits]; a point without digits is an error. *)
Definition read_fraction (s : list Z) : option (list Z * list Z) :=
  match strip_unit 46 s with
  | None => Some ([], s)
  | Some r => match span is_digit r with ([], _) => None | fp => Some fp end
  end.

(** An exponent part [e[+-]digits]. *)
Definition read_exp (s : list Z) : option (Z * list Z) :=
  match s with
  | c :: r =>
      if (c =? 101) || (c =? 69) then
        let '(neg, r) := strip_sign r in
        match span is_digit r with
        | ([], _) => None
        | (ds, r) => Some (if neg then - digits_value ds else digits_value ds, r)
        end
      else Some (0, s)
  | [] => Some (0, s)
  end.

(** A JSON number: no leading plus, no leading zero. *)
Definition read_number (s : list Z) : option (num * list Z) :=
  let '(neg, s) := match strip_unit 45 s with Some r => (true, r) | None => (false, s) end in
  let '(ip, r) := match strip_unit 48 s with Some r => ([48], r) | None => span is_digit s end in
  match ip with
  | [] => None
  | _ =>
      '(fp, r) ← read_fraction r;
      '(e, r) ← read_exp r;
      let v := dec_num (digits_value (ip ++ fp)) (e - Z.of_nat (length fp)) in
      Some (if neg then num_opp v else v, r)
  end.

Definition read_literal (lit : list Z) (v : jsval) (s : list Z) : option (jsval * list Z) :=
  if starts_with lit s then Some (v, drop (length lit) s) else None.

Definition skip (s : list Z) : list Z := drop_while is_json_space s.

(** One value and the text after it.  [read_items] and [read_members] read the
    rest of an array or object after an element's separator. *)
Fixpoint read_value (fuel : nat) (s : list Z) : option (jsval * list Z) :=
  match fuel with
  | O => None
  | S fuel =>
      match skip s with
      | [] => None
      | c :: r =>
          if c =? 34 then '(t, r) ← read_string r; Some (JStr t, r)
          else if c =? 123 then
            match strip_unit 125 (skip r) with
            | Some r => Some (JObj [], r)
            | None => '(kvs, r) ← read_members fuel r;
                      Some (JObj (fold_left (fun o kv => obj_set o kv.1 kv.2) kvs []), r)
            end
          else if c =? 91 then
            match strip_unit 93 (skip r) with
            | Some r => Some (JArr [], r)
            | None => '(l, r) ← read_items fuel r; Some (JArr l, r)
            end
          else if c =? 110 then read_literal (js "null") JNull (c :: r)
          else if c =? 116 then read_literal (js "true") (JBool true) (c :: r)
          else if c =? 102 then read_literal (js "false") (JBool false) (c :: r)
          else '(n, r) ← read_number (c :: r); Some (JNum n, r)
      end
  end
with read_items (fuel : nat) (s : list Z) : option (list jsval * list Z) :=
  match fuel with
  | O => None
  | S fuel =>
      '(v, r) ← read_value fuel s;
      match skip r with
      | c :: r =>
          if c =? 44 then '(l, r) ← read_items fuel r; Some (v :: l, r)
          else if c =? 93 then Some ([v], r) else None
      | [] => None
      end
  end
with read_members (fuel : nat) (s : list Z) : option (list (list Z * jsval) * list Z) :=
  match fuel with
  | O => None
  | S fuel =>
      r ← strip_unit 34 (skip s);
      '(k, r) ← read_string r;
      r ← strip_unit 58 (skip r);
      '(v, r) ← read_value fuel r;
      match skip r with
      | c :: r =>
          if c =? 44 then '(kvs, r) ← read_members fuel r; Some ((k, v) :: kvs, r)
          else if c =? 125 then Some ([(k, v)], r) else None
      | [] => None
      end
  end.

(** [JSON.parse(s)]; [None] where it throws.  Every recursive call follows the
    reading of at least one unit, so twice the length is enough fuel. *)
Definition parse (s : list Z) : option jsval :=
  match read_value (2 * length s + 2) s with
  | Some (v, r) => if bool_decide (skip r = []) then Some v else None
  | None => None
  end.

(** Literals with double quotes, written with single ones. *)
Definition dq (s : list Z) : list Z := map (fun c => if c =? 39 then 34 else c) s.

Example parse_example :
  parse (dq (js " {'a' : [1, -2.5e1, true,null, 'x\ny'] , 'b':{'c':false},'a':0 }"))
  = Some (JObj [(js "a", JNum (NZ 0)); (js "b", JObj [(js "c", JBool false)])]).
Proof. vm_compute. reflexivity. Qed.
Example stringify_example :
  stringify (JObj [(js "b", JArr [JNum (NZ (-25)); JUndef; JStr [10; 34; 1]]); (js "u", JUndef); (js "7", JNull)])
  = dq (js "{'7':null,'b':[-25,null,'\n\'\u0001']}").
Proof. vm_compute. reflexivity. Qed.
Example parse_trailing : parse (js "1 2") = None.
Proof. vm_compute. reflexivity. Qed.
Example parse_leading_zero : parse (js "01") = None.
Proof. vm_compute. reflexivity. Qed.

(** ** Round trip *)

Definition is_unit : Z -> bool := in_range 0 65535.

(** The values whose text determines them: numbers are integers a double holds
    exactly, objects have distinct keys none of which is an array index. *)
Fixpoint json_clean (v : jsval) : bool :=
  match v with
  | JNull | JBool _ => true
  | JNum (Fin q) => (Zpos (QArith_base.Qden q) =? 1) && (Z.abs (QArith_base.Qnum q) <=? 2 ^ 53)
  | JStr s => forallb is_unit s
  | JArr l => forallb json_clean l
  | JObj kvs =>
      forallb (fun kv => forallb is_unit kv.1 && negb (is_index kv.1) && json_clean kv.2) kvs
      && bool_decide (NoDup kvs.*1)
  | _ => false
  end.

(** What may follow a printed value: nothing, or a separator. *)
Definition ends_value (r : list Z) : Prop :=
  match r with [] => True | c :: _ => c = 44 \/ c = 93 \/ c = 125 end.

Lemma hex_digit_unit d : 0 <= d < 16 -> hex_digit (hex_unit d) = Some d.
Proof.
  intros. unfold hex_unit, hex_digit, is_digit, in_range.
  repeat destruct_match; boolZ; f_equal; try lia;
    repeat match goal with H : (_ && _) = false |- _ => apply andb_false_iff in H as [?|?]; boolZ; try lia end.
Qed.

Lemma read_chars_unit f c r : is_unit c = true ->
  read_chars (S f) (quote_unit c ++ r) = '(t, r) ← read_chars f r; Some (c :: t, r).
Proof.
  unfold is_unit, in_range, quote_unit. intros. boolZ.
  repeat match goal with |- context [if ?c =? ?k then _ else _] => destruct (Z.eqb_spec c k) as [->|] end;
    [reflexivity..|].
  destruct (Z.ltb_spec c 32) as [Hlt|Hge].
  - cbn -[hex_digit hex_unit Z.mul Z.add Z.div Z.modulo].
    assert (0 <= c / 16 < 16) by (split; [apply Z.div_pos|apply Z.div_lt_upper_bound]; lia).
    pose proof (Z.mod_pos_bound c 16). rewrite !hex_digit_unit by lia.
    change (hex_digit 48) with (Some 0). cbn -[Z.mul Z.add Z.div Z.modulo].
    replace (((0 * 16 + 0) * 16 + c / 16) * 16 + c mod 16) with c by (rewrite (Z.div_mod c 16) at 1; lia).
    done.
  - cbn -[Z.ltb Z.eqb]. destruct (Z.eqb_spec c 34), (Z.ltb_spec c 32), (Z.eqb_spec c 92); try lia. done.
Qed.

Lemma quote_unit_length c : (1 <= length (quote_unit c))%nat.
Proof. unfold quote_unit. repeat destruct_match; cbn; lia. Qed.

Lemma read_string_quoted s r : forallb is_unit s = true ->
  read_string (flat_map quote_unit s ++ 34 :: r) = Some (s, r).
Proof.
  intros Hs. unfold read_string.
  assert (Hf : (length s < S (length (flat_map quote_unit s ++ 34%Z :: r)))%nat).
  { rewrite length_app. clear Hs. induction s as [|c s IH]; cbn; [lia|].
    rewrite length_app. pose proof (quote_unit_length c). cbn in IH. lia. }
  revert Hf. generalize (S (length (flat_map quote_unit s ++ 34 :: r))) as f.
  induction s as [|c s IH]; intros f Hf; (destruct f as [|f]; [cbn in Hf; lia|]); [done|].
  cbn in Hs. apply andb_true_iff in Hs as [Hc Hs]. cbn [flat_map]. rewrite <- app_assoc.
  rewrite read_chars_unit, IH by (done || cbn in Hf; lia). done.
Qed.

Lemma read_number_Z z r : Z.abs z <= 2 ^ 53 -> ends_value r ->
  read_number (Z_to_str z ++ r) = Some (NZ z, r).
Proof.
  intros Hz Hr.
  assert (Hnat : forall n, 0 <= n <= 2 ^ 53 ->
    match strip_unit 48 (nat_to_str n ++ r) with
    | Some r => ([48], r)
    | None => span is_digit (nat_to_str n ++ r)
    end = (nat_to_str n, r)).
  { intros n Hn. destruct (nat_to_str_head n) as (c & t & E & Hc & H0); [lia|].
    assert (Hsp : span is_digit (nat_to_str n ++ r) = (nat_to_str n, r)).
    { apply span_all; [apply nat_to_str_digits|]. destruct r as [|x r]; [done|].
      destruct Hr as [->|[->| ->]]; done. }
    rewrite E in Hsp |- *. cbn [app strip_unit]. destruct (Z.eqb_spec c 48) as [->|]; [|done].
    destruct (H0 eq_refl) as [_ ->]. done. }
  assert (Hfe : read_fraction r = Some ([], r) /\ read_exp r = Some (0, r)).
  { destruct r as [|x r]; [done|]. destruct Hr as [->|[->| ->]]; done. }
  assert (Hstrip : forall n, 0 <= n -> strip_unit 45 (nat_to_str n ++ r) = None).
  { intros n Hn. destruct (nat_to_str_head n Hn) as (c & t & -> & Hc & _).
    cbn. unfold is_digit, in_range in Hc. boolZ. by destruct (Z.eqb_spec c 45); [lia|]. }
  unfold read_number, Z_to_str. destruct Hfe as [Hfr Hex]. destruct (Z.ltb_spec z 0) as [Hneg|Hpos].
  - cbn [app strip_unit Z.eqb Pos.eqb]. rewrite Hnat by lia.
    destruct (nat_to_str_head (- z)) as (c & t & E & _); [lia|]. rewrite E at 1.
    rewrite Hfr. cbn [mbind option_bind]. rewrite Hex. cbn [mbind option_bind length Z.of_nat Z.sub Z.add Z.opp].
    rewrite app_nil_r, digits_value_nat, dec_num_exact by lia.
    change (Some (Fin (QArith_base.Qmake (- - z) 1), r) = Some (NZ z, r)). by rewrite Z.opp_involutive.
  - rewrite Hstrip, Hnat by lia. destruct (nat_to_str_head z) as (c & t & E & _); [lia|]. rewrite E at 1.
    rewrite Hfr. cbn [mbind option_bind]. rewrite Hex. cbn [mbind option_bind length Z.of_nat Z.sub Z.add Z.opp].
    by rewrite app_nil_r, digits_value_nat, dec_num_exact by lia.
Qed.

(** Printed members of an object. *)
Definition member_text (kv : list Z * jsval) : list Z := quote kv.1 ++ 58 :: stringify kv.2.

Lemma stringify_arr l :
  Forall (fun v => stringify_opt v = Some (stringify v)) l ->
  stringify (JArr l) = 91 :: join [44] (map stringify l) ++ [93].
Proof.
  intros H. unfold stringify at 1. cbn. do 3 f_equal. induction H as [|v l Hv H IH]; [done|].
  cbn. by rewrite IH, Hv.
Qed.

Lemma stringify_obj kvs :
  Forall (fun kv => stringify_opt kv.2 = Some (stringify kv.2)) kvs ->
  Forall (fun kv => is_index kv.1 = false) kvs ->
  stringify (JObj kvs) = 123 :: join [44] (map member_text kvs) ++ [125].
Proof.
  intros H Hi. unfold stringify at 1. cbn. rewrite entries_plain.
  - do 3 f_equal. clear Hi. induction H as [|[k v] kvs Hv H IH]; [done|]. cbn in *. by rewrite IH, Hv.
  - clear H. by induction Hi; constructor.
Qed.

Lemma json_clean_printed v : json_clean v = true -> stringify_opt v = Some (stringify v).
Proof. unfold stringify. by destruct v as [| |[]| | | | |]. Qed.

Lemma skip_ends r : ends_value r -> skip r = r.
Proof. destruct r as [|c r]; [done|]. by intros [->|[->| ->]]. Qed.

(** The head of a printed value is not white space. *)
Lemma stringify_head v : json_clean v = true ->
  exists c t, stringify v = c :: t /\ is_json_space c = false /\ c <> 93 /\ c <> 125.
Proof.
  destruct v as [| |[]|[]| | | |]; try done; unfold stringify; cbn -[num_to_string]; intros H;
    try (eexists _, _; split; [reflexivity|]; done).
  apply andb_true_iff in H as [Hd Hn].
  destruct q as [z d]. destruct d; try done. apply Z.leb_le in Hn. cbn in Hn. fold (NZ z). rewrite num_to_string_NZ by lia.
  unfold Z_to_str. destruct (Z.ltb_spec z 0); [by eexists _, _|].
  destruct (nat_to_str_head z) as (c & t & -> & Hc & _); [lia|]. eexists _, _; split; [done|].
  unfold is_digit, in_range in Hc. unfold is_json_space. boolZ. lia.
Qed.

Lemma skip_stringify v r : json_clean v = true -> skip (stringify v ++ r) = stringify v ++ r.
Proof. intros H. destruct (stringify_head v H) as (c & t & -> & Hc & _). cbn. by rewrite Hc. Qed.

(** What reading back a printed value must give. *)
Definition reads_back (v : jsval) : Prop :=
  json_clean v = true -> forall n r, (2 * length (stringify v) <= n)%nat -> ends_value r ->
  read_value n (stringify v ++ r) = Some (v, r).

Lemma join_cons w ws : ws <> [] -> join [44] (w :: ws) = w ++ 44 :: join [44] ws.
Proof. by destruct ws. Qed.

Lemma read_items_back l n r :
  l <> [] -> Forall reads_back l -> Forall (fun v => json_clean v = true) l ->
  (2 * length (join [44%Z] (map stringify l)) < n)%nat ->
  read_items n (join [44] (map stringify l) ++ 93 :: r) = Some (l, r).
Proof.
  revert n. induction l as [|v l IH]; intros n Hne Hb Hc Hn; [done|]. clear Hne.
  apply Forall_cons in Hb as [Hv Hb], Hc as [Hcv Hc]. destruct n as [|n]; [lia|]. cbn [map] in *.
  destruct (decide (l = [])) as [->|Hl].
  - cbn [map join read_items] in *. rewrite (Hv Hcv) by (cbn; auto; lia). cbn [mbind option_bind].
    by rewrite skip_ends by (cbn; auto).
  - rewrite join_cons in * by (by destruct l). rewrite length_app in Hn. cbn [length] in Hn.
    rewrite <- app_assoc. cbn [app read_items]. rewrite (Hv Hcv) by (cbn; auto; lia). cbn [mbind option_bind].
    rewrite skip_ends by (cbn; auto). cbn [Z.eqb Pos.eqb]. by rewrite IH by (done || lia).
Qed.

Definition key_ok (kv : list Z * jsval) : Prop :=
  forallb is_unit kv.1 = true /\ is_index kv.1 = false /\ json_clean kv.2 = true.

Lemma read_member_head k r : forallb is_unit k = true ->
  (r' ← strip_unit 34 (skip (quote k ++ r)); read_string r') = Some (k, r).
Proof.
  intros Hk. unfold quote. cbn [app skip drop_while is_json_space Z.eqb Pos.eqb orb strip_unit mbind option_bind].
  rewrite <- app_assoc. by apply read_string_quoted.
Qed.

Lemma read_members_back kvs n r :
  kvs <> [] -> Forall (fun kv => reads_back kv.2) kvs -> Forall key_ok kvs ->
  (2 * length (join [44%Z] (map member_text kvs)) < n)%nat ->
  read_members n (join [44] (map member_text kvs) ++ 125 :: r) = Some (kvs, r).
Proof.
  revert n. induction kvs as [|[k v] kvs IH]; intros n Hne Hb Hk Hn; [done|]. clear Hne.
  apply Forall_cons in Hb as [Hv Hb], Hk as [(Hku & _ & Hcv) Hk]. cbn [fst snd] in *.
  destruct n as [|n]; [lia|]. cbn [map] in *.
  assert (Hlen : (length (member_text (k, v)) >= length (stringify v) + 1)%nat).
  { unfold member_text. rewrite length_app. cbn [length fst snd]. lia. }
  assert (Hone : forall r', ends_value r' ->  (2 * length (stringify v) <= n)%nat ->
    read_members (S n) (member_text (k, v) ++ r') =
      match r' with
      | c :: r => if c =? 44 then '(kvs, r) ← read_members n r; Some ((k, v) :: kvs, r)
                  else if c =? 125 then Some ([(k, v)], r) else None
      | [] => None
      end).
  { intros r' Hr' Hle. unfold member_text. cbn [fst snd read_members]. rewrite <- app_assoc.
    pose proof (read_member_head k ((58 :: stringify v) ++ r') Hku) as Hm.
    destruct (strip_unit 34 _) as [x|]; [|done]. cbn [mbind option_bind] in Hm |- *. rewrite Hm.
    cbn [app mbind option_bind skip drop_while is_json_space Z.eqb Pos.eqb orb strip_unit].
    rewrite (Hv Hcv) by done. cbn [mbind option_bind]. by rewrite skip_ends by done. }
  destruct (decide (kvs = [])) as [->|Hl].
  - cbn [map join] in *. rewrite Hone by (cbn; auto; lia). done.
  - rewrite join_cons in * by (by destruct kvs). rewrite length_app in Hn. cbn [length] in Hn.
    rewrite <- app_assoc, Hone by (cbn; auto; lia). cbn [app Z.eqb Pos.eqb]. by rewrite IH by (done || lia).
Qed.

Lemma fold_obj_set acc kvs :
  NoDup (acc ++ kvs).*1 -> fold_left (fun o kv => obj_set o kv.1 kv.2) kvs acc = acc ++ kvs.
Proof.
  revert acc. induction kvs as [|[k v] kvs IH]; intros acc Hnd; cbn; [by rewrite app_nil_r|].
  rewrite obj_set_fresh.
  - rewrite IH; rewrite <- app_assoc; done.
  - rewrite fmap_app in Hnd. apply NoDup_app in Hnd as (_ & Hd & _). intros H. apply (Hd k H). left.
Qed.

Lemma read_value_back v : reads_back v.
Proof.
  induction v as [| |b|m|s|l IH|kvs IH|f] using jsval_ind'; intros Hc n r Hn Hr; try done;
    (destruct n as [|n]; [exfalso; destruct (stringify_head _ Hc) as (? & ? & E & _); rewrite E in Hn; cbn in Hn; lia|]);
    cbn [read_value]; rewrite skip_stringify by done.
  - done.
  - by destruct b.
  - destruct m as [| |[z d]]; try done. cbn in Hc. apply andb_true_iff in Hc as [Hd Hz].
    destruct d; try done. apply Z.leb_le in Hz. cbn in Hz.
    assert (Hst : stringify (JNum (NZ z)) = Z_to_str z).
    { unfold stringify. cbn -[num_to_string]. apply num_to_string_NZ. lia. }
    unfold NZ in Hst. rewrite Hst. clear Hn. pose proof (read_number_Z z r Hz Hr) as Hrd.
    assert (Hh : exists c t, Z_to_str z ++ r = c :: t /\ (c = 45 \/ is_digit c = true)).
    { unfold Z_to_str. destruct (Z.ltb_spec z 0); [eexists _, _; by eauto|].
      destruct (nat_to_str_head z) as (c & t & -> & ? & _); [lia|]. eexists _, _; eauto. }
    destruct Hh as (c & t & E & Hch). rewrite E in Hrd |- *.
    assert (c <> 34 /\ c <> 123 /\ c <> 91 /\ c <> 110 /\ c <> 116 /\ c <> 102) as (?&?&?&?&?&?).
    { destruct Hch as [->|Hg]; [lia|]. unfold is_digit, in_range in Hg. boolZ. lia. }
    do 6 (rewrite (proj2 (Z.eqb_neq c _)) by done). by rewrite Hrd.
  - cbn in Hc. change (stringify (JStr s)) with (34 :: flat_map quote_unit s ++ [34]).
    cbn [app Z.eqb Pos.eqb]. rewrite <- app_assoc. cbn [app]. by rewrite read_string_quoted.
  - apply forallb_Forall in Hc. rewrite stringify_arr in * by (eapply Forall_impl; [exact Hc|apply json_clean_printed]).
    cbn [app Z.eqb Pos.eqb]. rewrite <- app_assoc. cbn [app]. destruct (decide (l = [])) as [->|Hl]; [done|].
    cbn [length] in Hn. rewrite length_app in Hn. cbn [length] in Hn.
    rewrite read_items_back by (done || lia).
    destruct l as [|v l]; [done|]. apply Forall_cons in Hc as [Hv _].
    destruct (stringify_head v Hv) as (c & t & E & Hsp & H93 & _).
    assert (Hj : exists t', join [44] (map stringify (v :: l)) = c :: t').
    { cbn [map]. destruct (map stringify l); cbn [join]; rewrite E; cbn; eauto. }
    destruct Hj as [t' ->]. cbn [app skip drop_while strip_unit]. rewrite Hsp. cbn [strip_unit].
    by destruct (Z.eqb_spec c 93).
  - cbn in Hc. apply andb_true_iff in Hc as [Hk Hnd]. apply bool_decide_eq_true in Hnd. apply forallb_Forall in Hk.
    assert (Hok : Forall key_ok kvs).
    { eapply Forall_impl; [exact Hk|]. cbn. intros kv H. boolZ. by repeat split. }
    assert (Hst : stringify (JObj kvs) = 123 :: join [44] (map member_text kvs) ++ [125]).
    { apply stringify_obj; (eapply Forall_impl; [exact Hok|]).
      - intros kv (_&_&?). by apply json_clean_printed.
      - by intros kv (_&?&_). }
    rewrite Hst in Hn |- *. clear Hst.
    cbn [app Z.eqb Pos.eqb]. rewrite <- app_assoc. cbn [app]. destruct (decide (kvs = [])) as [->|Hl]; [done|].
    cbn [length] in Hn. rewrite length_app in Hn. cbn [length] in Hn.
    rewrite read_members_back by (done || lia). cbn [mbind option_bind].
    rewrite fold_obj_set by done. destruct kvs as [|kv kvs]; [done|].
    assert (Hj : exists t', join [44] (map member_text (kv :: kvs)) = 34 :: t').
    { cbn [map]. destruct (map member_text kvs); cbn; eauto. }
    destruct Hj as [t' ->]. done.
Qed.

(** [JSON.parse(JSON.stringify(v))] gives back [v]. *)
Theorem parse_stringify v : json_clean v = true -> parse (stringify v) = Some v.
Proof.
  intros Hc. unfold parse. rewrite <- (app_nil_r (stringify v)) at 2.
  by rewrite read_value_back by (done || lia).
Qed.

(** For an object with literal keys the key part is closed and computes. *)
Definition keys_clean (ks : list (list Z)) : bool :=
  forallb (fun k => forallb is_unit k && negb (is_index k)) ks && bool_decide (NoDup ks).

Lemma json_clean_obj kvs :
  keys_clean kvs.*1 = true -> Forall (fun kv => json_clean kv.2 = true) kvs -> json_clean (JObj kvs) = true.
Proof.
  unfold keys_clean. intros [Hk Hn]%andb_true_iff Hv. cbn [json_clean]. rewrite Hn, andb_true_r. clear Hn.
  induction Hv as [|[k v] kvs Hv Hkvs IH]; [done|]. cbn in *. apply andb_true_iff in Hk as [-> Hk].
  rewrite Hv. by apply IH.
Qed.

Lemma json_clean_int z : Z.abs z <= 2 ^ 53 -> json_clean (JNum (NZ z)) = true.
Proof. intros. cbn. lia. Qed.
