(* ===== verification/JsInt.v ===== *)
(** * JavaScript's 32-bit integer operators

    [&], [|], [^], [~], [<<] and [>>>] convert their operands to 32 bits first.
    Integers are [Z]; [i32] and [u32] are ToInt32 and ToUint32. *)

From Stdlib Require Import Zbitwise.
From S2P Require Import Prelude.

Definition u32 (x : Z) : Z := x mod 2 ^ 32.
Definition i32 (x : Z) : Z := (x + 2 ^ 31) mod 2 ^ 32 - 2 ^ 31.

Definition int_or (a b : Z) : Z := Z.lor (i32 a) (i32 b).
Definition int_and (a b : Z) : Z := Z.land (i32 a) (i32 b).
Definition int_xor (a b : Z) : Z := Z.lxor (i32 a) (i32 b).
Definition int_not (a : Z) : Z := Z.lnot (i32 a).
(** The shift count is taken modulo 32; every count of the code is a literal
    below 32. *)
Definition int_shl (a n : Z) : Z := i32 (Z.shiftl (i32 a) (n mod 32)).
Definition int_ushr (a n : Z) : Z := Z.shiftr (u32 a) (n mod 32).

(** ** As unsigned words *)

Lemma u32_range x : 0 <= u32 x < 2 ^ 32.
Proof. apply Z.mod_pos_bound. lia. Qed.

Lemma u32_small x : 0 <= x < 2 ^ 32 -> u32 x = x.
Proof. apply Z.mod_small. Qed.

Lemma u32_idem x : u32 (u32 x) = u32 x.
Proof. apply u32_small, u32_range. Qed.

Lemma u32_i32 x : u32 (i32 x) = u32 x.
Proof. unfold u32, i32. rewrite Zminus_mod_idemp_l. f_equal. lia. Qed.

Lemma i32_small x : 0 <= x < 2 ^ 31 -> i32 x = x.
Proof. intros. unfold i32. rewrite Z.mod_small; lia. Qed.

Lemma u32_land x : u32 x = Z.land x (Z.ones 32).
Proof. symmetry. apply Z.land_ones. lia. Qed.

Lemma u32_testbit x n : 0 <= n -> Z.testbit (u32 x) n = Z.testbit x n && (n <? 32).
Proof.
  intros. rewrite u32_land, Z.land_spec, Z.testbit_ones by lia.
  f_equal. rewrite (proj2 (Z.leb_le 0 n)) by lia. done.
Qed.

Lemma u32_or a b : u32 (int_or a b) = Z.lor (u32 a) (u32 b).
Proof.
  rewrite <- (u32_i32 a), <- (u32_i32 b). unfold int_or. rewrite !u32_land. apply Z.land_lor_distr_l.
Qed.

Lemma u32_and a b : u32 (int_and a b) = Z.land (u32 a) (u32 b).
Proof.
  rewrite <- (u32_i32 a), <- (u32_i32 b). unfold int_and. rewrite !u32_land.
  apply Z.bits_inj'. intros n Hn. rewrite !Z.land_spec. by destruct (Z.testbit (i32 a) n), (Z.testbit (i32 b) n), (Z.testbit (Z.ones 32) n).
Qed.

Lemma u32_xor a b : u32 (int_xor a b) = Z.lxor (u32 a) (u32 b).
Proof.
  rewrite <- (u32_i32 a), <- (u32_i32 b). unfold int_xor. apply Z.bits_inj'. intros n Hn.
  rewrite Z.lxor_spec, !u32_testbit, Z.lxor_spec by done. by destruct (n <? 32); rewrite ?andb_true_r, ?andb_false_r.
Qed.

Lemma u32_not a : u32 (int_not a) = Z.lxor (u32 a) (2 ^ 32 - 1).
Proof.
  rewrite <- (u32_i32 a). unfold int_not. apply Z.bits_inj'. intros n Hn.
  change (2 ^ 32 - 1) with (Z.ones 32).
  rewrite Z.lxor_spec, !u32_testbit, Z.lnot_spec, Z.testbit_ones by lia.
  rewrite (proj2 (Z.leb_le 0 n)) by lia. by destruct (Z.testbit _ n), (n <? 32).
Qed.

Lemma u32_shl a n : 0 <= n < 32 -> u32 (int_shl a n) = u32 (Z.shiftl (u32 a) n).
Proof.
  intros Hn. unfold int_shl. rewrite u32_i32, (Z.mod_small n 32) by lia.
  rewrite !Z.shiftl_mul_pow2 by lia. unfold u32. rewrite (Z.mul_mod (a mod 2 ^ 32)) by lia.
  rewrite (Z.mul_mod (i32 a)) by lia. fold (u32 (i32 a)). rewrite u32_i32. unfold u32. by rewrite Z.mod_mod by lia.
Qed.

Lemma int_ushr_eq a n : 0 <= n < 32 -> int_ushr a n = Z.shiftr (u32 a) n.
Proof. intros. unfold int_ushr. by rewrite Z.mod_small. Qed.

Lemma int_ushr_range a n : 0 <= n < 32 -> 0 <= int_ushr a n < 2 ^ 32.
Proof.
  intros Hn. rewrite int_ushr_eq, Z.shiftr_div_pow2 by lia. pose proof (u32_range a).
  pose proof (Z_pow2_gt0 n ltac:(lia)). split; [apply Z.div_pos; lia|].
  apply Z.div_lt_upper_bound; nia.
Qed.

Lemma u32_ushr a n : 0 <= n < 32 -> u32 (int_ushr a n) = Z.shiftr (u32 a) n.
Proof. intros. rewrite u32_small by (by apply int_ushr_range). by apply int_ushr_eq. Qed.

Lemma u32_add a b : u32 (a + b) = u32 (u32 a + u32 b).
Proof. unfold u32. apply Z.add_mod. lia. Qed.

Lemma u32_add_l a b : u32 (u32 a + b) = u32 (a + b).
Proof. unfold u32. by rewrite Z.add_mod_idemp_l by lia. Qed.

Lemma u32_add_r a b : u32 (a + u32 b) = u32 (a + b).
Proof. unfold u32. by rewrite Z.add_mod_idemp_r by lia. Qed.

(** [x | 0] *)
Lemma u32_or0 a : u32 (int_or a 0) = u32 a.
Proof. rewrite u32_or. change (u32 0) with 0. apply Z.lor_0_r. Qed.

(** [(w >>> n) & 0xff] is a byte of the word. *)
Lemma int_and_ff a n : 0 <= n < 32 -> int_and (int_ushr a n) 255 = u32 a / 2 ^ n mod 256.
Proof.
  intros Hn. assert (Hu : 0 <= int_and (int_ushr a n) 255 < 2 ^ 32).
  { unfold int_and. change (i32 255) with (Z.ones 8). rewrite Z.land_ones by lia.
    pose proof (Z.mod_pos_bound (i32 (int_ushr a n)) (2 ^ 8)). lia. }
  rewrite <- (u32_small _ Hu), u32_and, u32_ushr by done.
  change (u32 255) with (Z.ones 8). rewrite Z.land_ones by lia. by rewrite Z.shiftr_div_pow2 by lia.
Qed.

Create Rewrite HintDb js_int.
#[export] Hint Rewrite u32_or u32_and u32_xor u32_not u32_i32 u32_idem : js_int.
