(* ===== verification/Fips.v ===== *)
(** * Reference definitions for the TOTP component

    The standards [TotpModel.js] implements, written from their text and not from
    the code: FIPS 180-4 (SHA-1, SHA-256) on unsigned 32-bit words, RFC 2104
    (HMAC), RFC 4226 (HOTP truncation) and RFC 4648 (base32).  The SHA constants
    are computed from their definition, the fractional parts of roots of
    primes. *)

From S2P Require Import Prelude.

Implicit Types x y z : Z.

(** ** Words *)

Definition word_mask : Z := 2 ^ 32 - 1.
Definition wadd x y : Z := (x + y) mod 2 ^ 32.
Definition wnot x : Z := Z.lxor x word_mask.
Definition SHR (n : Z) x : Z := Z.shiftr x n.
Definition ROTL (n : Z) x : Z := Z.lor (Z.shiftl x n mod 2 ^ 32) (Z.shiftr x (32 - n)).
Definition ROTR (n : Z) x : Z := Z.lor (Z.shiftr x n) (Z.shiftl x (32 - n) mod 2 ^ 32).

Definition Ch x y z : Z := Z.lxor (Z.land x y) (Z.land (wnot x) z).
Definition Maj x y z : Z := Z.lxor (Z.lxor (Z.land x y) (Z.land x z)) (Z.land y z).
Definition Parity x y z : Z := Z.lxor (Z.lxor x y) z.

(** ** Constants *)

Definition is_prime (n : nat) : bool :=
  forallb (fun d => negb (n mod d =? 0)%nat) (seq 2 (n - 2)).
Definition primes : list Z := map Z.of_nat (List.filter is_prime (seq 2 310)).

(** The integer cube root, bit by bit from [2^k]. *)
Fixpoint icbrt (k : nat) (n r : Z) : Z :=
  match k with
  | O => r
  | S k => let c := r + 2 ^ Z.of_nat k in icbrt k n (if c ^ 3 <=? n then c else r)
  end.

(** First 32 bits of the fractional part of the square and the cube root. *)
Definition frac_sqrt p : Z := Z.sqrt (p * 2 ^ 64) mod 2 ^ 32.
Definition frac_cbrt p : Z := icbrt 40 (p * 2 ^ 96) 0 mod 2 ^ 32.

Definition K256 : list Z := map frac_cbrt primes.
Definition H256 : list Z := map frac_sqrt (take 8 primes).
Definition H1 : list Z := [1732584193; 4023233417; 2562383102; 271733878; 3285377520].

(** The four SHA-1 constants are [2^30] times the roots of 2, 3, 5 and 10. *)
Definition K1 (t : nat) : Z :=
  Z.sqrt ((if (t <? 20)%nat then 2 else if (t <? 40)%nat then 3 else if (t <? 60)%nat then 5 else 10) * 2 ^ 60).

Definition f1 (t : nat) x y z : Z :=
  if (t <? 20)%nat then Ch x y z
  else if (t <? 40)%nat then Parity x y z
  else if (t <? 60)%nat then Maj x y z
  else Parity x y z.

(** ** Padding and parsing *)

(** [n] as [k] bytes, most significant first. *)
Fixpoint be_bytes (k : nat) (n : Z) : list Z :=
  match k with
  | O => []
  | S k => n / 256 ^ Z.of_nat k mod 256 :: be_bytes k n
  end.

(** The number of zero bytes: the smallest that brings the length before the
    64-bit size field to 56 modulo 64. *)
Definition zero_bytes (len : nat) : nat := Z.to_nat ((55 - Z.of_nat len) mod 64).

Definition pad (msg : list Z) : list Z :=
  msg ++ [128] ++ replicate (zero_bytes (length msg)) 0 ++ be_bytes 8 (8 * Z.of_nat (length msg)).

(** Word [j] of block [i] of a padded message. *)
Definition block_word (m : list Z) (i j : nat) : Z :=
  let b k := nth (64 * i + 4 * j + k) m 0 in
  ((b 0%nat * 256 + b 1%nat) * 256 + b 2%nat) * 256 + b 3%nat.

Definition block (m : list Z) (i : nat) : list Z := map (block_word m i) (seq 0 16).

(** ** SHA-256 *)

Definition state8 : Type := Z * Z * Z * Z * Z * Z * Z * Z.

Fixpoint schedule256 (b : list Z) (n : nat) : list Z :=
  match n with
  | O => b
  | S n =>
      let W := schedule256 b n in
      let w k := nth (16 + n - k) W 0 in
      let s0 x := Z.lxor (Z.lxor (ROTR 7 x) (ROTR 18 x)) (SHR 3 x) in
      let s1 x := Z.lxor (Z.lxor (ROTR 17 x) (ROTR 19 x)) (SHR 10 x) in
      W ++ [wadd (wadd (wadd (s1 (w 2%nat)) (w 7%nat)) (s0 (w 15%nat))) (w 16%nat)]
  end.

Definition round256 (k w : Z) (s : state8) : state8 :=
  let '(a, b, c, d, e, f, g, h) := s in
  let S1 := Z.lxor (Z.lxor (ROTR 6 e) (ROTR 11 e)) (ROTR 25 e) in
  let S0 := Z.lxor (Z.lxor (ROTR 2 a) (ROTR 13 a)) (ROTR 22 a) in
  let T1 := wadd (wadd (wadd (wadd h S1) (Ch e f g)) k) w in
  let T2 := wadd S0 (Maj a b c) in
  (wadd T1 T2, a, b, c, wadd d T1, e, f, g).

Definition add8 (s t : state8) : state8 :=
  let '(a, b, c, d, e, f, g, h) := s in
  let '(a', b', c', d', e', f', g', h') := t in
  (wadd a a', wadd b b', wadd c c', wadd d d', wadd e e', wadd f f', wadd g g', wadd h h').

Definition compress256 (s : state8) (b : list Z) : state8 :=
  let W := schedule256 b 48 in
  add8 s (fold_left (fun s t => round256 (nth t K256 0) (nth t W 0) s) (seq 0 64) s).

Definition init256 : state8 :=
  let h i := nth i H256 0 in
  (h 0%nat, h 1%nat, h 2%nat, h 3%nat, h 4%nat, h 5%nat, h 6%nat, h 7%nat).

Definition digest8 (s : state8) : list Z :=
  let '(a, b, c, d, e, f, g, h) := s in flat_map (be_bytes 4) [a; b; c; d; e; f; g; h].

Definition SHA256 (msg : list Z) : list Z :=
  let m := pad msg in
  digest8 (fold_left (fun s i => compress256 s (block m i)) (seq 0 (length m / 64)) init256).

(** ** SHA-1 *)

Definition state5 : Type := Z * Z * Z * Z * Z.

Fixpoint schedule1 (b : list Z) (n : nat) : list Z :=
  match n with
  | O => b
  | S n =>
      let W := schedule1 b n in
      let w k := nth (16 + n - k) W 0 in
      W ++ [ROTL 1 (Z.lxor (Z.lxor (Z.lxor (w 3%nat) (w 8%nat)) (w 14%nat)) (w 16%nat))]
  end.

Definition round1 (t : nat) (w : Z) (s : state5) : state5 :=
  let '(a, b, c, d, e) := s in
  (wadd (wadd (wadd (wadd (ROTL 5 a) (f1 t b c d)) e) (K1 t)) w, a, ROTL 30 b, c, d).

Definition add5 (s t : state5) : state5 :=
  let '(a, b, c, d, e) := s in
  let '(a', b', c', d', e') := t in
  (wadd a a', wadd b b', wadd c c', wadd d d', wadd e e').

Definition compress1 (s : state5) (b : list Z) : state5 :=
  let W := schedule1 b 64 in
  add5 s (fold_left (fun s t => round1 t (nth t W 0) s) (seq 0 80) s).

Definition init1 : state5 :=
  let h i := nth i H1 0 in (h 0%nat, h 1%nat, h 2%nat, h 3%nat, h 4%nat).

Definition digest5 (s : state5) : list Z :=
  let '(a, b, c, d, e) := s in flat_map (be_bytes 4) [a; b; c; d; e].

Definition SHA1 (msg : list Z) : list Z :=
  let m := pad msg in
  digest5 (fold_left (fun s i => compress1 s (block m i)) (seq 0 (length m / 64)) init1).

(** ** HMAC (RFC 2104), block length 64 *)

Definition HMAC (H : list Z -> list Z) (key text : list Z) : list Z :=
  let key0 := if (64 <? length key)%nat then H key else key in
  let key0 := key0 ++ replicate (64 - length key0) 0 in
  H (map (fun b => Z.lxor b 0x5c) key0 ++ H (map (fun b => Z.lxor b 0x36) key0 ++ text)).

(** ** HOTP (RFC 4226) *)

(** Dynamic truncation: 31 bits at the offset the last nibble names. *)
Definition truncate (hs : list Z) : Z :=
  let off := Z.to_nat (List.last hs 0 mod 16) in
  let b k := nth (off + k) hs 0 in
  (((b 0%nat * 256 + b 1%nat) * 256 + b 2%nat) * 256 + b 3%nat) mod 2 ^ 31.

(** [n] in [k] decimal digits, as code units. *)
Fixpoint dec_digits (k : nat) (n : Z) : list Z :=
  match k with
  | O => []
  | S k => 48 + n / 10 ^ Z.of_nat k mod 10 :: dec_digits k n
  end.

(** The value a code shows: RFC 4226 over a hash, counter as eight bytes. *)
Definition HOTP (H : list Z -> list Z) (key : list Z) (counter : Z) : Z :=
  truncate (HMAC H key (be_bytes 8 counter)).

(** ** Base32 (RFC 4648) *)

(** The integer a digit list writes in base [b], most significant first. *)
Definition value_of (b : Z) (l : list Z) : Z := fold_left (fun a d => a * b + d) l 0.

(** [n] in [k] base-32 digits. *)
Fixpoint digits32 (k : nat) (n : Z) : list Z :=
  match k with
  | O => []
  | S k => n / 32 ^ Z.of_nat k mod 32 :: digits32 k n
  end.

(** The 5-bit groups of a byte string: the bits are extended with zeros to a
    multiple of five.  (RFC 4648 without the [=] padding.) *)
Definition base32_groups (bytes : list Z) : list Z :=
  let n := Z.of_nat (length bytes) in
  let m := (8 * n + 4) / 5 in
  digits32 (Z.to_nat m) (value_of 256 bytes * 2 ^ (5 * m - 8 * n)).

(** The whole bytes of [m] 5-bit groups; left-over bits are dropped. *)
Definition base32_bytes (groups : list Z) : list Z :=
  let m := 5 * Z.of_nat (length groups) in
  be_bytes (Z.to_nat (m / 8)) (value_of 32 groups / 2 ^ (m mod 8)).

Example sha256_abc :
  SHA256 [97; 98; 99] = flat_map (be_bytes 4)
    [0xba7816bf; 0x8f01cfea; 0x414140de; 0x5dae2223; 0xb00361a3; 0x96177a9c; 0xb410ff61; 0xf20015ad].
Proof. vm_compute. reflexivity. Qed.

Example sha1_abc :
  SHA1 [97; 98; 99] = flat_map (be_bytes 4) [0xa9993e36; 0x4706816a; 0xba3e2571; 0x7850c26c; 0x9cd0d89d].
Proof. vm_compute. reflexivity. Qed.
