(* ===== verification/JsUri.v ===== *)
(** * Percent encoding

    [decodeURIComponent] and [encodeURIComponent] of ECMAScript: UTF-8 octets as
    [%XX], over UTF-16 code units. *)

From S2P Require Import Prelude.
From S2P Require Import JsNum.
From S2P Require Import JsString.

(** One [%XX] octet. *)
Definition read_pct (s : list Z) : option (Z * list Z) :=
  match s with
  | p :: a :: b :: r =>
      if p =? 37 then a ← hex_digit a; b ← hex_digit b; Some (a * 16 + b, r) else None
  | _ => None
  end.

(** [n] continuation octets after the lead bits [v]. *)
Fixpoint read_cont (n : nat) (v : Z) (s : list Z) : option (Z * list Z) :=
  match n with
  | O => Some (v, s)
  | S n =>
      '(b, r) ← read_pct s;
      if in_range 128 191 b then read_cont n (v * 64 + (b - 128)) r else None
  end.

Definition utf16 (cp : Z) : list Z :=
  if cp <? 65536 then [cp]
  else [55296 + (cp - 65536) / 1024; 56320 + (cp - 65536) mod 1024].

(** The code point an escape sequence encodes; overlong forms, surrogates and
    values past U+10FFFF are errors. *)
Definition read_escape (s : list Z) : option (Z * list Z) :=
  '(b, r) ← read_pct s;
  if b <? 128 then Some (b, r)
  else if in_range 192 223 b then
    '(v, r) ← read_cont 1 (b - 192) r; if 128 <=? v then Some (v, r) else None
  else if in_range 224 239 b then
    '(v, r) ← read_cont 2 (b - 224) r;
    if (2048 <=? v) && negb (in_range 55296 57343 v) then Some (v, r) else None
  else if in_range 240 247 b then
    '(v, r) ← read_cont 3 (b - 240) r; if in_range 65536 1114111 v then Some (v, r) else None
  else None.

(** [None] where [decodeURIComponent] throws; the length is enough fuel. *)
Fixpoint decode_from (fuel : nat) (s : list Z) : option (list Z) :=
  match fuel with
  | O => match s with [] => Some [] | _ => None end
  | S fuel =>
      match s with
      | [] => Some []
      | c :: r =>
          if c =? 37 then '(cp, r) ← read_escape s; t ← decode_from fuel r; Some (utf16 cp ++ t)
          else t ← decode_from fuel r; Some (c :: t)
      end
  end.

Definition decodeURIComponent (s : list Z) : option (list Z) := decode_from (length s) s.

Example decode_plain : decodeURIComponent (js "a%20b%c3%A9") = Some [97; 32; 98; 233].
Proof. vm_compute. reflexivity. Qed.
Example decode_emoji : decodeURIComponent (js "%F0%9F%94%91") = Some [55357; 56593].
Proof. vm_compute. reflexivity. Qed.
Example decode_overlong : decodeURIComponent (js "%C0%AF") = None.
Proof. vm_compute. reflexivity. Qed.
Example decode_truncated : decodeURIComponent (js "%4") = None.
Proof. vm_compute. reflexivity. Qed.

(** Without a percent sign nothing changes. *)
Lemma decode_no_percent s : Forall (fun c => c <> 37) s -> decodeURIComponent s = Some s.
Proof.
  unfold decodeURIComponent. induction 1 as [|c s Hc Hs IH]; cbn -[read_escape]; [done|].
  rewrite (proj2 (Z.eqb_neq c 37) Hc). by rewrite IH.
Qed.

(** ** encodeURIComponent *)

(** Units left as they are: letters, digits and [- _ . ! ~ * ' ( )]. *)
Definition is_uri_unreserved (c : Z) : bool :=
  is_alnum c || (c =? 45) || (c =? 95) || (c =? 46) || (c =? 33) || (c =? 126) || (c =? 42)
  || (c =? 39) || (c =? 40) || (c =? 41).

(** UTF-8 of a code point. *)
Definition utf8_bytes (cp : Z) : list Z :=
  if cp <? 0x80 then [cp]
  else if cp <? 0x800 then [0xc0 + cp / 64; 0x80 + cp mod 64]
  else if cp <? 0x10000 then [0xe0 + cp / 4096; 0x80 + cp / 64 mod 64; 0x80 + cp mod 64]
  else [0xf0 + cp / 262144; 0x80 + cp / 4096 mod 64; 0x80 + cp / 64 mod 64; 0x80 + cp mod 64].

Definition upper_hex (d : Z) : Z := if d <? 10 then 48 + d else 55 + d.
Definition pct (b : Z) : list Z := [37; upper_hex (b / 16); upper_hex (b mod 16)].

(** [None] is the URIError of a lone surrogate. *)
Fixpoint encodeURIComponent (s : list Z) : option (list Z) :=
  match s with
  | [] => Some []
  | c :: r =>
      if is_uri_unreserved c then rest ← encodeURIComponent r; Some (c :: rest)
      else if in_range 0xdc00 0xdfff c then None
      else if in_range 0xd800 0xdbff c then
        match r with
        | d :: r' =>
            if in_range 0xdc00 0xdfff d
            then rest ← encodeURIComponent r';
                 Some (flat_map pct (utf8_bytes (0x10000 + (c - 0xd800) * 1024 + (d - 0xdc00))) ++ rest)
            else None
        | [] => None
        end
      else rest ← encodeURIComponent r; Some (flat_map pct (utf8_bytes c) ++ rest)
  end.
