(* ===== verification/Regex.v ===== *)
(** * Regular expressions

    The backtracking matcher of the language on the constructs the modelled code
    uses: a regular expression is data, and matching tries alternatives and
    repetitions in the order the language does, longest repetition first.
    [matches] is the same thing as a relation; the matcher finds a match exactly
    when there is one. *)

From S2P Require Import Prelude.
From S2P Require Import JsNum.
From S2P Require Import JsString.

Inductive re :=
| Eps
| One (p : Z -> bool)      (** one unit of a class *)
| Seq (a b : re)
| Alt (a b : re)
| Star (a : re)            (** greedy *)
| Bol                      (** [^] *)
| Eol                      (** [$] *)
| Wordb                    (** [\b] *)
| Group (a : re).          (** the capturing group *)

(** A position: the units before it, last first, those after it, and what the
    group captured. *)
Record place := Place { before : list Z; after : list Z; captured : option (list Z) }.

Definition is_word (c : Z) : bool := is_alnum c || (c =? 95).
Definition head_is_word (s : list Z) : bool := match s with c :: _ => is_word c | [] => false end.
Definition at_word_boundary (x : place) : bool := negb (Bool.eqb (head_is_word (before x)) (head_is_word (after x))).

(** What was read between two places. *)
Definition between (x y : place) : list Z := rev (take (length (before y) - length (before x)) (before y)).
Definition capture (x y : place) : place := Place (before y) (after y) (Some (between x y)).

(** A repetition that reads nothing is refused. *)
Definition progress (x y : place) : bool := (length (after y) <? length (after x))%nat.

Section matcher.
  Context {R : Type}.

Fixpoint star_loop (body : (place -> option R) -> place -> option R) (k : place -> option R) (fuel : nat) (x : place) : option R :=
  match fuel with
  | O => k x
  | S fuel =>
      match body (fun y => if progress x y then star_loop body k fuel y else None) x with
      | Some r => Some r
      | None => k x
      end
  end.

Fixpoint run (r : re) (k : place -> option R) (x : place) : option R :=
  match r with
  | Eps => k x
  | One p => match after x with
             | c :: s => if p c then k (Place (c :: before x) s (captured x)) else None
             | [] => None
             end
  | Seq a b => run a (run b k) x
  | Alt a b => match run a k x with Some y => Some y | None => run b k x end
  | Star a => star_loop (run a) k (length (after x)) x
  | Bol => match before x with [] => k x | _ => None end
  | Eol => match after x with [] => k x | _ => None end
  | Wordb => if at_word_boundary x then k x else None
  | Group a => run a (fun y => k (capture x y)) x
  end.
End matcher.

(** ** The use of an expression *)

(** The first place a match starts at, and where it ends. *)
Fixpoint search_from (r : re) (b s : list Z) : option (place * place) :=
  match run r Some (Place b s None) with
  | Some y => Some (Place b s None, y)
  | None => match s with [] => None | c :: s => search_from r (c :: b) s end
  end.

Definition exec (r : re) (s : list Z) : option (place * place) := search_from r [] s.

(** [/r/.test(s)] *)
Definition test (r : re) (s : list Z) : bool := match exec r s with Some _ => true | None => false end.

(** [s.replace(/r/, t)] *)
Definition replace_first (r : re) (t s : list Z) : list Z :=
  match exec r s with
  | Some (x, y) => rev (before x) ++ t ++ after y
  | None => s
  end.

(** [s.match(/r/)], the captured group. *)
Definition match_group (r : re) (s : list Z) : option (list Z) :=
  match exec r s with Some (_, y) => captured y | None => None end.

(** [s.replace(/r/g, t)] for an expression that reads at least one unit. *)
Fixpoint replace_all (fuel : nat) (r : re) (t s : list Z) : list Z :=
  match fuel with
  | O => s
  | S fuel =>
      match exec r s with
      | Some (x, y) => rev (before x) ++ t ++ replace_all fuel r t (after y)
      | None => s
      end
  end.

(** [s.split(/r/)] for an expression that reads at least one unit. *)
Fixpoint split_re (fuel : nat) (r : re) (s : list Z) : list (list Z) :=
  match fuel with
  | O => [s]
  | S fuel =>
      match exec r s with
      | Some (x, y) => rev (before x) :: split_re fuel r (after y)
      | None => [s]
      end
  end.

(** ** Writing expressions *)

Definition lit (s : list Z) : re := foldr (fun c r => Seq (One (Z.eqb c)) r) Eps s.
(** A literal under the [i] flag.  The letters of the patterns are ASCII, and
    the flag relates no other unit to an ASCII letter. *)
Definition lit_i (s : list Z) : re := foldr (fun c r => Seq (One (fun x => ascii_lower x =? ascii_lower c)) r) Eps s.
Definition opt (r : re) : re := Alt r Eps.
Definition plus (r : re) : re := Seq r (Star r).
Definition space : re := One is_space.
Definition digit : re := One is_digit.
Definition one_of (l : list Z) : re := One (fun c => existsb (Z.eqb c) l).
Fixpoint alts (l : list re) : re := match l with [] => One (fun _ => false) | [r] => r | r :: l => Alt r (alts l) end.

Declare Scope re_scope.
Delimit Scope re_scope with re.
Infix "⋅" := Seq (at level 60, right associativity) : re_scope.
Bind Scope re_scope with re.

(** ** The relation *)

Inductive matches : re -> place -> place -> Prop :=
| m_eps x : matches Eps x x
| m_one p b c s g : p c = true -> matches (One p) (Place b (c :: s) g) (Place (c :: b) s g)
| m_seq r1 r2 x y z : matches r1 x y -> matches r2 y z -> matches (Seq r1 r2) x z
| m_alt_l r1 r2 x y : matches r1 x y -> matches (Alt r1 r2) x y
| m_alt_r r1 r2 x y : matches r2 x y -> matches (Alt r1 r2) x y
| m_star_nil r x : matches (Star r) x x
| m_star_cons r x y z : matches r x y -> progress x y = true -> matches (Star r) y z -> matches (Star r) x z
| m_bol s g : matches Bol (Place [] s g) (Place [] s g)
| m_eol b g : matches Eol (Place b [] g) (Place b [] g)
| m_wordb x : at_word_boundary x = true -> matches Wordb x x
| m_group r x y : matches r x y -> matches (Group r) x (capture x y).
#[export] Hint Constructors matches : js.

Section correct.
  Context {R : Type}.
  Implicit Types (k : place -> option R) (x y : place).

(** A found match is a match. *)
Lemma run_sound r k x v : run r k x = Some v -> exists y, matches r x y /\ k y = Some v.
Proof.
  revert k x v. induction r as [|p|a IHa b IHb|a IHa b IHb|a IHa| | | |a IHa]; intros k x v; cbn [run].
  - eauto with js.
  - destruct x as [bf [|c s] g]; cbn [after before captured]; [done|]. destruct (p c) eqn:E; [|done]. eauto with js.
  - intros (y & Hy & (z & Hz & Hk)%IHb)%IHa. eauto with js.
  - destruct (run a k x) as [w|] eqn:E.
    + intros [= <-]. apply IHa in E as (y & ? & ?). eauto with js.
    + intros (y & ? & ?)%IHb. eauto with js.
  - generalize (length (after x)) as n. intros n. revert x v. induction n as [|n IHn]; intros x v; cbn [star_loop].
    { eauto with js. }
    destruct (run a _ x) as [w|] eqn:E; [|eauto with js]. intros [= <-].
    apply IHa in E as (y & Hy & Hk). destruct (progress x y) eqn:Hp; [|done]. apply IHn in Hk as (z & ? & ?). eauto with js.
  - destruct x as [[|c b] s g]; cbn [before]; [|done]. eauto with js.
  - destruct x as [b [|c s] g]; cbn [after]; [|done]. eauto with js.
  - destruct (at_word_boundary x) eqn:E; [|done]. eauto with js.
  - intros (y & Hy & Hk)%IHa. eauto with js.
Qed.

(** A match is found whenever there is one the continuation accepts. *)
Lemma run_complete r k x y : matches r x y -> k y <> None -> run r k x <> None.
Proof.
  revert k x y. induction r as [|p|a IHa b IHb|a IHa b IHb|a IHa| | | |a IHa]; intros k x y Hm Hk; cbn [run].
  - by inversion Hm; subst.
  - inversion Hm as [|? ? ? ? ? Hp| | | | | | | | |]; subst. cbn [after before captured]. by rewrite Hp.
  - inversion Hm; subst. eauto.
  - inversion Hm; subst.
    + assert (Hr : run a k x <> None) by eauto. by destruct (run a k x).
    + destruct (run a k x); [done|]. eauto.
  - assert (Hn : (length (after x) <= length (after x))%nat) by lia. revert Hn. generalize (length (after x)) at 2 3 as n.
    intros n. revert x Hm. induction n as [|n IHn]; intros x Hm Hn; inversion Hm as [| | | | |? z|? z y1 ? Hz Hp Hs| | | |]; subst; cbn [star_loop].
    + done.
    + apply Nat.ltb_lt in Hp. lia.
    + by destruct (run a _ y).
    + assert (Hr : run a (fun y => if progress x y then star_loop (run a) k n y else None) x <> None).
      { eapply IHa; [exact Hz|]. cbv beta. rewrite Hp. apply IHn; [done|]. apply Nat.ltb_lt in Hp. lia. }
      by destruct (run a _ x).
  - by inversion Hm; subst.
  - by inversion Hm; subst.
  - inversion Hm as [| | | | | | | | |? Hb|]; subst. by rewrite Hb.
  - inversion Hm; subst. by eapply IHa.
Qed.
End correct.

(** Some match starts at some suffix of the text. *)
Definition occurs (r : re) (s : list Z) : Prop :=
  exists a b y, s = a ++ b /\ matches r (Place (rev a) b None) y.

Lemma search_from_spec r b s :
  match search_from r b s with
  | Some (x, y) => exists u, s = u ++ after x /\ before x = rev u ++ b /\ captured x = None /\ matches r x y
  | None => forall u v y, s = u ++ v -> ~ matches r (Place (rev u ++ b) v None) y
  end.
Proof.
  revert b. induction s as [|c s IH]; intros b; cbn [search_from].
  - destruct (run r Some (Place b [] None)) as [y|] eqn:E.
    + apply run_sound in E as (z & Hz & [= ->]). by exists [].
    + intros u v y Hs%eq_sym Hm. apply app_eq_nil in Hs as [-> ->]. by eapply run_complete in Hm.
  - destruct (run r Some (Place b (c :: s) None)) as [y|] eqn:E.
    + apply run_sound in E as (z & Hz & [= ->]). by exists [].
    + specialize (IH (c :: b)). destruct (search_from r (c :: b) s) as [[x y]|].
      * destruct IH as (u & -> & Hb & Hc & Hm). exists (c :: u). split_and!; try done. by rewrite Hb; cbn; rewrite <- app_assoc.
      * intros u v y Hs Hm. destruct u as [|c' u]; cbn in Hs, Hm.
        { subst v. by eapply run_complete in Hm. }
        injection Hs as -> ->. apply (IH u v y eq_refl). by rewrite <- app_assoc in Hm.
Qed.

Lemma test_spec r s : test r s = true <-> occurs r s.
Proof.
  unfold test, exec. pose proof (search_from_spec r [] s) as H. destruct (search_from r [] s) as [[x y]|].
  - split; [intros _|done]. destruct H as (u & Hs & Hb & Hc & Hm). rewrite app_nil_r in Hb.
    exists u, (after x), y. split; [done|]. destruct x as [bx ax gx]. cbn in *. by subst.
  - split; [done|]. intros (a & b & y & Hs & Hm). exfalso. apply (H a b y Hs). by rewrite app_nil_r.
Qed.

(** ** The units a match reads *)

(** Every class of the expression is within [P]. *)
Fixpoint units_in (P : Z -> Prop) (r : re) : Prop :=
  match r with
  | One p => forall c, p c = true -> P c
  | Seq a b | Alt a b => units_in P a /\ units_in P b
  | Star a | Group a => units_in P a
  | _ => True
  end.

(** Every class inside the group is within [P]. *)
Fixpoint group_in (P : Z -> Prop) (r : re) : Prop :=
  match r with
  | Seq a b | Alt a b => group_in P a /\ group_in P b
  | Star a => group_in P a
  | Group a => units_in P a
  | _ => True
  end.

(** A match moves forward, over units of its classes. *)
Lemma matches_units P r x y : matches r x y -> units_in P r ->
  exists u, before y = rev u ++ before x /\ after x = u ++ after y /\ Forall P u.
Proof.
  induction 1 as [x|p b c s g Hp|a b x y z _ IH1 _ IH2|a b x y _ IH|a b x y _ IH|a x|a x y z _ IH1 _ _ IH2|s g|b g|x Hb|a x y _ IH];
    cbn [units_in]; intros HP; try (by exists []).
  - exists [c]. split_and!; [done|done|]. constructor; [auto|constructor].
  - destruct HP as [Ha Hb]. destruct (IH1 Ha) as (u & Hu & Hu' & Fu), (IH2 Hb) as (v & Hv & Hv' & Fv).
    exists (u ++ v). rewrite rev_app_distr, Hv, Hu, Hu', Hv', !app_assoc. split_and!; try done. by apply Forall_app_2.
  - apply IH, HP.
  - apply IH, HP.
  - destruct (IH1 HP) as (u & Hu & Hu' & Fu), (IH2 HP) as (v & Hv & Hv' & Fv).
    exists (u ++ v). rewrite rev_app_distr, Hv, Hu, Hu', Hv', !app_assoc. split_and!; try done. by apply Forall_app_2.
  - by apply IH.
Qed.

Definition captured_in (P : Z -> Prop) (x : place) : Prop := forall t, captured x = Some t -> Forall P t.

Lemma matches_captured P r x y : matches r x y -> group_in P r -> captured_in P x -> captured_in P y.
Proof.
  induction 1 as [x|p b c s g Hp|a b x y z _ IH1 _ IH2|a b x y _ IH|a b x y _ IH|a x|a x y z _ IH1 _ _ IH2|s g|b g|x Hb|a x y Hm _];
    cbn [group_in]; intros HP Hx; try done; try naive_solver.
  intros t [= <-]. destruct (matches_units P a x y Hm HP) as (u & Hu & _ & Fu). unfold between. rewrite Hu, length_app, length_rev.
  rewrite take_app_length' by (rewrite length_rev; lia). by rewrite rev_involutive.
Qed.

Lemma match_group_units P r s t : group_in P r -> match_group r s = Some t -> Forall P t.
Proof.
  intros HP. unfold match_group, exec. pose proof (search_from_spec r [] s) as H.
  destruct (search_from r [] s) as [[x y]|]; [|done]. destruct H as (u & _ & _ & Hc & Hm). intros Ht.
  eapply matches_captured; [exact Hm|done| |exact Ht]. intros t'. by rewrite Hc.
Qed.

(** A replacement keeps units of the text, or of the new part. *)
Lemma replace_first_units P r t s : Forall P s -> Forall P t -> Forall P (replace_first r t s).
Proof.
  intros Hs Ht. unfold replace_first, exec. pose proof (search_from_spec r [] s) as H.
  destruct (search_from r [] s) as [[x y]|]; [|done]. destruct H as (u & E & Hb & _ & Hm).
  apply (matches_units (fun _ => True)) in Hm as (v & _ & Hv & _); [|clear; induction r; cbn; auto].
  rewrite Hb, app_nil_r, rev_involutive. rewrite E, Hv in Hs. apply Forall_app in Hs as [Hu Hs]. apply Forall_app in Hs as [_ Hs].
  by repeat apply Forall_app_2.
Qed.

(** ** Anchored expressions *)

Lemma matches_seq a b x z : matches (Seq a b) x z <-> exists y, matches a x y /\ matches b y z.
Proof. split; [inversion 1; eauto|intros (y & ? & ?); eauto with js]. Qed.

Lemma matches_bol x y : matches Bol x y <-> y = x /\ before x = [].
Proof. split; [by inversion 1|]. destruct x as [b s g]. intros [-> Hb]. cbn in Hb. subst. constructor. Qed.

Lemma matches_eol x y : matches Eol x y <-> y = x /\ after x = [].
Proof. split; [by inversion 1|]. destruct x as [b s g]. intros [-> Hb]. cbn in Hb. subst. constructor. Qed.

Lemma matches_one p x y : matches (One p) x y <->
  exists c s, after x = c :: s /\ p c = true /\ y = Place (c :: before x) s (captured x).
Proof.
  split; [inversion 1; subst; cbn; eauto|]. destruct x as [b s' g]. intros (c & s & Hs & Hp & ->). cbn in *. subst. by constructor.
Qed.

Lemma matches_alt a b x y : matches (Alt a b) x y <-> matches a x y \/ matches b x y.
Proof. split; [inversion 1; auto|intros [?|?]; auto with js]. Qed.

Lemma matches_lit s x y : matches (lit s) x y -> after x = s ++ after y.
Proof.
  revert x. induction s as [|c s IH]; intros x; [by inversion 1|]. cbn [lit foldr]. intros (z & Hz & Hl)%matches_seq.
  apply matches_one in Hz as (d & t & Ht & Hd & ->). apply IH in Hl. cbn [after] in Hl. apply Z.eqb_eq in Hd. rewrite Ht, Hl. by subst.
Qed.

(** [^r$] holds of a text that [r] reads whole. *)
Definition anchored (r : re) : re := Seq Bol (Seq r Eol).

Lemma test_anchored r s : test (anchored r) s = true <-> exists y, matches r (Place [] s None) y /\ after y = [].
Proof.
  rewrite test_spec. split.
  - intros (a & b & y & -> & Hm). unfold anchored in Hm. apply matches_seq in Hm as (x & [-> Hb]%matches_bol & Hm).
    apply matches_seq in Hm as (z & Hz & [-> He]%matches_eol). cbn in Hb. destruct a as [|c a]; [eauto|].
    cbn in Hb. by destruct (rev a).
  - intros (y & Hm & Hy). exists [], s, y. split; [done|]. apply matches_seq. eexists. split; [by apply matches_bol|].
    apply matches_seq. eexists. split; [exact Hm|]. by apply matches_eol.
Qed.

(** A text that passes is made of the units of the expression. *)
Lemma anchored_units P r s : units_in P r -> test (anchored r) s = true -> Forall P s.
Proof.
  intros HP (y & Hm & Hy)%test_anchored. apply (matches_units P) in Hm as (u & _ & Hu & Fu); [|done].
  cbn in Hu. by rewrite Hu, Hy, app_nil_r.
Qed.
