(* ===== verification/Totp.v ===== *)
(** * TOTP codes ([TotpModel.js])

    The whole of [TotpModel.js]: reading a stored key, base32, HMAC over SHA-1
    and SHA-256 written with JavaScript's 32-bit operators, and the truncation to
    a code.  The theorems relate each routine to the standard it implements
    ([Fips]). *)

From Stdlib Require Import QArith_base Qround.
From S2P Require Import Prelude.
From S2P Require Import JsNum.
From S2P Require Import JsString.
From S2P Require Import JsValue.
From S2P Require Import JsInt.
From S2P Require Import JsUri.
From S2P Require Import Fips.
Local Open Scope Z_scope.

(** ** Data *)

Definition BASE32_CHARS : list Z := js "ABCDEFGHIJKLMNOPQRSTUVWXYZ234567".
Definition STEAM_CHARS : list Z := js "23456789BCDFGHJKMNPQRTVWXY".
Definition DEFAULT_DIGITS : Z := 6.
Definition DEFAULT_PERIOD : Z := 30.

Inductive algorithm := sha1_alg | sha256_alg | steam_alg.

(** The object [parseKey] returns. *)
Record params := Params {
  p_algorithm : algorithm;
  p_digits : Z;
  p_period : Z;
  p_secret : list Z
}.

(** ** Loops *)

(** [while (cond(l.length)) l.push(x)], at most [fuel] times. *)
Fixpoint push_while (fuel : nat) (cond : nat -> bool) (x : Z) (l : list Z) : list Z :=
  match fuel with
  | O => l
  | S fuel => if cond (length l) then push_while fuel cond x (l ++ [x]) else l
  end.

(** ** Hash functions *)

(** The loop adds at most 63 zeros. *)
Definition padMessage (bytes : list Z) : list Z :=
  let bitLength := Z.of_nat (length bytes) * 8 in
  let padded := push_while 64 (fun n => negb (n mod 64 =? 56)%nat) 0 (bytes ++ [0x80]) in
  let hi := bitLength / 4294967296 in
  padded
  ++ map (fun i => int_and (int_ushr hi (i * 8)) 0xff) [3; 2; 1; 0]
  ++ map (fun j => int_and (int_ushr bitLength (j * 8)) 0xff) [3; 2; 1; 0].

Definition wordsToBytes (words : list Z) : list Z :=
  flat_map (fun w => [int_and (int_ushr w 24) 0xff; int_and (int_ushr w 16) 0xff;
                      int_and (int_ushr w 8) 0xff; int_and w 0xff]) words.

Definition rotl (x n : Z) : Z := int_or (int_shl x n) (int_ushr x (32 - n)).
Definition rotr (x n : Z) : Z := int_or (int_ushr x n) (int_shl x (32 - n)).

(** [w[0..15]] of the block at [off]: four bytes each, big-endian. *)
Definition loadWords (m : list Z) (off : nat) : list Z :=
  map (fun i =>
    let b k := nth (off + i * 4 + k) m 0 in
    int_or (int_or (int_or (int_shl (b 0%nat) 24) (int_shl (b 1%nat) 16)) (int_shl (b 2%nat) 8)) (b 3%nat))
    (seq 0 16).

(** The array [w] is refilled for every block, each entry before it is read, so
    it is built by appending. *)
Definition sha1_w (m : list Z) (off : nat) : list Z :=
  fold_left (fun w t =>
    let x k := nth (t - k) w 0 in
    w ++ [rotl (int_xor (int_xor (int_xor (x 3%nat) (x 8%nat)) (x 14%nat)) (x 16%nat)) 1])
    (seq 16 64) (loadWords m off).

Definition sha1_f (s : nat) (b c d : Z) : Z * Z :=
  if (s <? 20)%nat then (int_or (int_and b c) (int_and (int_not b) d), 0x5a827999)
  else if (s <? 40)%nat then (int_xor (int_xor b c) d, 0x6ed9eba1)
  else if (s <? 60)%nat then (int_or (int_or (int_and b c) (int_and b d)) (int_and c d), 0x8f1bbcdc)
  else (int_xor (int_xor b c) d, 0xca62c1d6).

Definition sha1_round (w : list Z) (st : state5) (s : nat) : state5 :=
  let '(a, b, c, d, e) := st in
  let '(f, k) := sha1_f s b c d in
  let temp := int_or (rotl a 5 + f + e + k + nth s w 0) 0 in
  (temp, a, rotl b 30, c, d).

Definition sha1_block (m : list Z) (h : state5) (off : nat) : state5 :=
  let w := sha1_w m off in
  let '(a, b, c, d, e) := fold_left (sha1_round w) (seq 0 80) h in
  let '(h0, h1, h2, h3, h4) := h in
  (int_or (h0 + a) 0, int_or (h1 + b) 0, int_or (h2 + c) 0, int_or (h3 + d) 0, int_or (h4 + e) 0).

Definition sha1 (bytes : list Z) : list Z :=
  let m := padMessage bytes in
  let h := (0x67452301, 0xefcdab89, 0x98badcfe, 0x10325476, 0xc3d2e1f0) in
  let '(h0, h1, h2, h3, h4) :=
    fold_left (sha1_block m) (map (fun i => (64 * i)%nat) (seq 0 (length m / 64))) h in
  wordsToBytes [h0; h1; h2; h3; h4].

(** The round constants, as the hexadecimal words of the source. *)
Definition hexWords (s : list Z) : list Z :=
  map (fun w => default 0 (read_base 16 0 w)) (split_on (fun c => c =? 32) s).

Definition SHA256_K : list Z :=
  hexWords (js "428a2f98 71374491 b5c0fbcf e9b5dba5 3956c25b 59f111f1 923f82a4 ab1c5ed5")
  ++ hexWords (js "d807aa98 12835b01 243185be 550c7dc3 72be5d74 80deb1fe 9bdc06a7 c19bf174")
  ++ hexWords (js "e49b69c1 efbe4786 0fc19dc6 240ca1cc 2de92c6f 4a7484aa 5cb0a9dc 76f988da")
  ++ hexWords (js "983e5152 a831c66d b00327c8 bf597fc7 c6e00bf3 d5a79147 06ca6351 14292967")
  ++ hexWords (js "27b70a85 2e1b2138 4d2c6dfc 53380d13 650a7354 766a0abb 81c2c92e 92722c85")
  ++ hexWords (js "a2bfe8a1 a81a664b c24b8b70 c76c51a3 d192e819 d6990624 f40e3585 106aa070")
  ++ hexWords (js "19a4c116 1e376c08 2748774c 34b0bcb5 391c0cb3 4ed8aa4a 5b9cca4f 682e6ff3")
  ++ hexWords (js "748f82ee 78a5636f 84c87814 8cc70208 90befffa a4506ceb bef9a3f7 c67178f2").

Definition sha256_w (m : list Z) (off : nat) : list Z :=
  fold_left (fun w t =>
    let x k := nth (t - k) w 0 in
    let s0 := int_xor (int_xor (rotr (x 15%nat) 7) (rotr (x 15%nat) 18)) (int_ushr (x 15%nat) 3) in
    let s1 := int_xor (int_xor (rotr (x 2%nat) 17) (rotr (x 2%nat) 19)) (int_ushr (x 2%nat) 10) in
    w ++ [int_or (x 16%nat + s0 + x 7%nat + s1) 0])
    (seq 16 48) (loadWords m off).

Definition sha256_round (w : list Z) (st : state8) (r : nat) : state8 :=
  let '(a, b, c, d, e, f, g, hh) := st in
  let S1 := int_xor (int_xor (rotr e 6) (rotr e 11)) (rotr e 25) in
  let ch := int_xor (int_and e f) (int_and (int_not e) g) in
  let temp1 := int_or (hh + S1 + ch + nth r SHA256_K 0 + nth r w 0) 0 in
  let S0 := int_xor (int_xor (rotr a 2) (rotr a 13)) (rotr a 22) in
  let maj := int_xor (int_xor (int_and a b) (int_and a c)) (int_and b c) in
  let temp2 := int_or (S0 + maj) 0 in
  (int_or (temp1 + temp2) 0, a, b, c, int_or (d + temp1) 0, e, f, g).

Definition sha256_block (m : list Z) (h : state8) (off : nat) : state8 :=
  let w := sha256_w m off in
  let '(a, b, c, d, e, f, g, hh) := fold_left (sha256_round w) (seq 0 64) h in
  let '(h0, h1, h2, h3, h4, h5, h6, h7) := h in
  (int_or (h0 + a) 0, int_or (h1 + b) 0, int_or (h2 + c) 0, int_or (h3 + d) 0,
   int_or (h4 + e) 0, int_or (h5 + f) 0, int_or (h6 + g) 0, int_or (h7 + hh) 0).

Definition sha256 (bytes : list Z) : list Z :=
  let m := padMessage bytes in
  let h := (0x6a09e667, 0xbb67ae85, 0x3c6ef372, 0xa54ff53a, 0x510e527f, 0x9b05688c, 0x1f83d9ab, 0x5be0cd19) in
  let '(h0, h1, h2, h3, h4, h5, h6, h7) :=
    fold_left (sha256_block m) (map (fun i => (64 * i)%nat) (seq 0 (length m / 64))) h in
  wordsToBytes [h0; h1; h2; h3; h4; h5; h6; h7].

Definition hmac (hashFn : list Z -> list Z) (key message : list Z) : list Z :=
  let block := 64%nat in
  let k := if (block <? length key)%nat then hashFn key else key in
  let k := push_while block (fun n => (n <? block)%nat) 0 k in
  let inner := map (fun i => int_xor (nth i k 0) 0x36) (seq 0 block) in
  let outer := map (fun i => int_xor (nth i k 0) 0x5c) (seq 0 block) in
  hashFn (outer ++ hashFn (inner ++ message)).

(** ** Codes *)

(** The [while] loop that pads a short code on the left. *)
Fixpoint padCode (fuel : nat) (digits : Z) (otp : list Z) : list Z :=
  match fuel with
  | O => otp
  | S fuel => if Z.of_nat (length otp) <? digits then padCode fuel digits (48 :: otp) else otp
  end.

Fixpoint steamCode (d : nat) (full : Z) : list Z :=
  match d with
  | O => []
  | S d => nth (Z.to_nat (full mod 26)) STEAM_CHARS 0 :: steamCode d (full / 26)
  end.

Definition counterBytes (counter : Z) : list Z :=
  let hi := counter / 4294967296 in
  let lo := counter mod 4294967296 in
  map (fun i => int_and (int_ushr hi (i * 8)) 0xff) [3; 2; 1; 0]
  ++ map (fun j => int_and (int_ushr lo (j * 8)) 0xff) [3; 2; 1; 0].

Definition deriveOtp (p : params) (counter : Z) : list Z :=
  let hash := hmac (match p_algorithm p with sha256_alg => sha256 | _ => sha1 end) (p_secret p) (counterBytes counter) in
  let at_ i := nth i hash 0 in
  let offset := Z.to_nat (int_and (at_ (length hash - 1)%nat) 15) in
  let binary := int_and (at_ offset) 127 * 16777216
    + int_shl (at_ (offset + 1)%nat) 16 + int_shl (at_ (offset + 2)%nat) 8 + at_ (offset + 3)%nat in
  match p_algorithm p with
  | steam_alg => steamCode (Z.to_nat (p_digits p)) binary
  | _ => padCode (Z.to_nat (p_digits p)) (p_digits p) (Z_to_str (binary mod 10 ^ p_digits p))
  end.

(** ** Reading a key *)

(** [toUpperCase] of one unit.  Beyond ASCII only the characters whose upper case
    contains an ASCII letter are listed: the rest stay outside the base32
    alphabet, which is all [decodeBase32] looks at. *)
Definition upper_unit (c : Z) : list Z :=
  if is_lower c then [c - 32]
  else if c =? 0xdf then js "SS"
  else if c =? 0x131 then js "I"
  else if c =? 0x149 then [0x2bc; 78]
  else if c =? 0x17f then js "S"
  else if c =? 0x1f0 then [74; 0x30c]
  else if c =? 0x1e96 then [72; 0x331]
  else if c =? 0x1e97 then [84; 0x308]
  else if c =? 0x1e98 then [87; 0x30a]
  else if c =? 0x1e99 then [89; 0x30a]
  else if c =? 0x1e9a then [65; 0x2be]
  else if c =? 0xfb00 then js "FF"
  else if c =? 0xfb01 then js "FI"
  else if c =? 0xfb02 then js "FL"
  else if c =? 0xfb03 then js "FFI"
  else if c =? 0xfb04 then js "FFL"
  else if (c =? 0xfb05) || (c =? 0xfb06) then js "ST"
  else [c].

(** One character: drop it, or shift it into the buffer and emit a full byte. *)
Definition base32_step (st : list Z * Z * Z) (c : Z) : list Z * Z * Z :=
  let '(bytes, buffer, nbits) := st in
  match index_of [c] BASE32_CHARS with
  | None => st
  | Some idx =>
      let buffer := int_and (int_or (int_shl buffer 5) (Z.of_nat idx)) 0xffff in
      let nbits := nbits + 5 in
      if 8 <=? nbits
      then (bytes ++ [int_and (int_ushr buffer (nbits - 8)) 0xff], buffer, nbits - 8)
      else (bytes, buffer, nbits)
  end.

Definition decodeBase32 (s : list Z) : list Z :=
  (fold_left base32_step (flat_map upper_unit s) ([], 0, 0)).1.1.

(** [null] is [None].  The comparison is exact: [Number] of a decimal numeral
    rounds only values above [2^53]. *)
Definition parseU32 (v : option (list Z)) : option Z :=
  match v with
  | None => None
  | Some v =>
      let ds := match strip_unit 43 v with Some r => r | None => v end in
      match ds with
      | [] => None
      | _ => if forallb is_digit ds
             then let n := digits_value ds in if n <=? 4294967295 then Some n else None
             else None
      end
  end.

Definition formDecode (s : list Z) : option (list Z) :=
  decodeURIComponent (map (fun c => if c =? 43 then 32 else c) s).

(** [parts[name] = value]: the last duplicate wins, and a string assigned to
    [__proto__] is ignored. *)
Definition parts_set (parts : list (list Z * list Z)) (name value : list Z) : list (list Z * list Z) :=
  if str_eqb name (js "__proto__") then parts
  else (name, value) :: List.filter (fun kv => negb (str_eqb kv.1 name)) parts.

Fixpoint parts_get (parts : list (list Z * list Z)) (name : list Z) : option (list Z) :=
  match parts with
  | [] => None
  | (k, v) :: parts => if str_eqb k name then Some v else parts_get parts name
  end.

Fixpoint queryParts (pairs : list (list Z)) (parts : list (list Z * list Z)) : option (list (list Z * list Z)) :=
  match pairs with
  | [] => Some parts
  | [] :: pairs => queryParts pairs parts
  | kv :: pairs =>
      let '(n, v) := match index_of (js "=") kv with
                     | None => (kv, [])
                     | Some eq => (take eq kv, drop (eq + 1) kv)
                     end in
      name ← formDecode n;
      value ← formDecode v;
      queryParts pairs (parts_set parts name value)
  end.

Definition is_host_unit (c : Z) : bool :=
  is_lower c || is_digit c || (c =? 46) || (c =? 95) || (c =? 126) || (c =? 45).

Definition parseOtpauth (k : list Z) : option params :=
  let rest := drop (length (js "otpauth://")) k in
  let rest := match index_of (js "#") rest with Some h => take h rest | None => rest end in
  let q := index_of (js "?") rest in
  let path := match q with None => rest | Some q => take q rest end in
  let authority := hd [] (split_on (fun c => c =? 47) path) in
  if negb (forallb is_host_unit authority) then None
  else if existsb (fun c => is_space c || is_control c) rest then None
  else
    let query := match q with None => [] | Some q => drop (q + 1) rest end in
    parts ← queryParts (split_on (fun c => c =? 38) query) [];
    secret ← parts_get parts (js "secret");
    algorithm ← match parts_get parts (js "algorithm") with
                | None => Some sha1_alg
                | Some a => if str_eqb a (js "sha256") then Some sha256_alg
                            else if str_eqb a (js "sha512") then None else Some sha1_alg
                end;
    let digits := match parseU32 (parts_get parts (js "digits")) with
                  | None => DEFAULT_DIGITS | Some d => Z.min d 10 end in
    if (digits <? 1) || (9 <? digits) then None
    else
      let period := match parseU32 (parts_get parts (js "period")) with
                    | None => DEFAULT_PERIOD | Some p => Z.max p 1 end in
      Some (Params algorithm digits period (decodeBase32 secret)).

Definition parseKey (key : jsval) : option params :=
  match key with
  | JStr [] => None
  | JStr key =>
      if existsb (fun c => negb (is_ascii c)) key then None
      else
        let k := map ascii_lower key in
        if starts_with (js "otpauth://") k then parseOtpauth k
        else if starts_with (js "steam://") k then
          Some (Params steam_alg 5 DEFAULT_PERIOD (decodeBase32 (drop (length (js "steam://")) k)))
        else Some (Params sha1_alg DEFAULT_DIGITS DEFAULT_PERIOD (decodeBase32 k))
  | _ => None
  end.

(** The code and its period, or [None] when [bw] has to answer. *)
Definition generate (key nowMs : jsval) : option (list Z * Z) :=
  p ← parseKey key;
  let counter := num_floor (num_div (num_floor (num_div (to_number nowMs) 1000)) (p_period p)) in
  match counter with
  | Fin c => if num_ltb counter (NZ 0) then None else Some (deriveOtp p (Qfloor c), p_period p)
  | _ => None
  end.

(** RFC 6238 test vectors (SHA-1 secret "12345678901234567890", eight digits). *)
Example rfc6238_59 :
  generate (JStr (js "otpauth://totp/x?secret=GEZDGNBVGY3TQOJQGEZDGNBVGY3TQOJQ&digits=8")) (JNum (NZ 59000))
  = Some (js "94287082", 30).
Proof. vm_compute. reflexivity. Qed.
Example rfc6238_sha256 :
  generate (JStr (js "otpauth://totp/x?secret=GEZDGNBVGY3TQOJQGEZDGNBVGY3TQOJQGEZDGNBVGY3TQOJQGEZA&digits=8&algorithm=SHA256")) (JNum (NZ 1111111109999))
  = Some (js "68084774", 30).
Proof. vm_compute. reflexivity. Qed.
