(* ===== verification/TotpCorrect.v ===== *)
(** * Correctness of the TOTP component

    The routines of [Totp] against the reference definitions of [Fips]: the two
    hash functions written with signed 32-bit operators are SHA-1 and SHA-256, the
    padding loop is the standard's padding, HMAC is RFC 2104's, and a generated
    code is RFC 6238's. *)

From Stdlib Require Import QArith_base Qround.
From S2P Require Import Prelude.
From S2P Require Import JsNum.
From S2P Require Import JsString.
From S2P Require Import JsValue.
From S2P Require Import JsInt.
From S2P Require Import JsUri.
From S2P Require Import Fips.
From S2P Require Import Totp.
Local Open Scope Z_scope.

(** ** Bytes and words *)

Definition is_byte : Z -> bool := in_range 0 255.
Definition bytes (l : list Z) : Prop := Forall (fun b => is_byte b = true) l.

Lemma is_byte_range b : is_byte b = true <-> 0 <= b < 256.
Proof. unfold is_byte, in_range. rewrite andb_true_iff, !Z.leb_le. lia. Qed.

Lemma bytes_nth l i : bytes l -> 0 <= nth i l 0 < 256.
Proof.
  intros Hl. apply is_byte_range. destruct (Nat.lt_ge_cases i (length l)) as [Hi|Hi].
  - by apply Forall_nth.
  - by rewrite nth_overflow.
Qed.

Lemma lor_disjoint a b n : 0 <= n -> 0 <= b < 2 ^ n -> Z.lor (a * 2 ^ n) b = a * 2 ^ n + b.
Proof.
  intros Hn Hb. symmetry. apply Z.add_nocarry_lor. rewrite <- Z.shiftl_mul_pow2 by done.
  apply Z.bits_inj'. intros i Hi. rewrite Z.land_spec, Z.shiftl_spec, Z.bits_0 by done.
  destruct (Z.lt_ge_cases i n) as [Hin|Hin].
  - by rewrite Z.testbit_neg_r by lia.
  - rewrite <- (Z.mod_small b (2 ^ n)) by done. rewrite Z.mod_pow2_bits_high by lia. apply andb_false_r.
Qed.

Lemma byte_of_mod a k x : 0 <= k -> k + 8 <= a -> (x mod 2 ^ a) / 2 ^ k mod 2 ^ 8 = x / 2 ^ k mod 2 ^ 8.
Proof.
  intros Hk Ha. rewrite <- !Z.land_ones, <- !Z.shiftr_div_pow2 by lia.
  apply Z.bits_inj'. intros n Hn. rewrite !Z.land_spec, !Z.shiftr_spec, Z.land_spec, !Z.testbit_ones by lia.
  destruct (Z.ltb_spec n 8); [|by rewrite !andb_false_r].
  replace (n + k <? a) with true by lia. replace (0 <=? n + k) with true by lia. by rewrite andb_true_r.
Qed.

Lemma rotl_word x n : 0 < n < 32 -> u32 (rotl x n) = ROTL n (u32 x).
Proof. intros. unfold rotl, ROTL. by rewrite u32_or, u32_shl, u32_ushr by lia. Qed.

Lemma rotr_word x n : 0 < n < 32 -> u32 (rotr x n) = ROTR n (u32 x).
Proof. intros. unfold rotr, ROTR. by rewrite u32_or, u32_shl, u32_ushr by lia. Qed.

Lemma ushr_word x n : 0 <= n < 32 -> u32 (int_ushr x n) = SHR n (u32 x).
Proof. apply u32_ushr. Qed.

Lemma wadd_word a b : wadd (u32 a) (u32 b) = u32 (a + b).
Proof. unfold wadd. fold (u32 (u32 a + u32 b)). by rewrite <- u32_add. Qed.

Lemma not_word a : u32 (int_not a) = wnot (u32 a).
Proof. apply u32_not. Qed.

(** The disjunctive forms of the code are the exclusive-or forms of the
    standard. *)
Lemma Ch_or x y z : 0 <= x < 2 ^ 32 -> Z.lor (Z.land x y) (Z.land (wnot x) z) = Ch x y z.
Proof.
  intros Hx. unfold Ch, wnot, word_mask. apply Z.bits_inj'. intros n Hn. change (2 ^ 32 - 1) with (Z.ones 32).
  rewrite Z.lor_spec, Z.lxor_spec, !Z.land_spec, Z.lxor_spec, Z.testbit_ones by lia.
  destruct (Z.ltb_spec n 32).
  - rewrite (proj2 (Z.leb_le 0 n)) by done. by destruct (Z.testbit x n), (Z.testbit y n), (Z.testbit z n).
  - rewrite <- (u32_small x) by done. unfold u32. rewrite Z.mod_pow2_bits_high by lia. by rewrite andb_false_r.
Qed.

Lemma Maj_or x y z : Z.lor (Z.lor (Z.land x y) (Z.land x z)) (Z.land y z) = Maj x y z.
Proof.
  unfold Maj. apply Z.bits_inj'. intros n Hn. rewrite !Z.lor_spec, !Z.lxor_spec, !Z.land_spec.
  by destruct (Z.testbit x n), (Z.testbit y n), (Z.testbit z n).
Qed.

Lemma load_word b0 b1 b2 b3 :
  0 <= b0 < 256 -> 0 <= b1 < 256 -> 0 <= b2 < 256 -> 0 <= b3 < 256 ->
  u32 (int_or (int_or (int_or (int_shl b0 24) (int_shl b1 16)) (int_shl b2 8)) b3)
  = ((b0 * 256 + b1) * 256 + b2) * 256 + b3.
Proof.
  intros. rewrite !u32_or, !u32_shl by lia. rewrite !(u32_small b0), !(u32_small b1), !(u32_small b2), !(u32_small b3) by lia.
  rewrite !Z.shiftl_mul_pow2 by lia. rewrite !u32_small by lia.
  rewrite (lor_disjoint b0 _ 24) by lia.
  replace (b0 * 2 ^ 24 + b1 * 2 ^ 16) with ((b0 * 2 ^ 8 + b1) * 2 ^ 16) by lia.
  rewrite (lor_disjoint _ _ 16) by lia.
  replace ((b0 * 2 ^ 8 + b1) * 2 ^ 16 + b2 * 2 ^ 8) with (((b0 * 2 ^ 8 + b1) * 2 ^ 8 + b2) * 2 ^ 8) by lia.
  rewrite (lor_disjoint _ _ 8) by lia. lia.
Qed.

Lemma load_words m i : bytes m -> map u32 (loadWords m (64 * i)) = block m i.
Proof.
  intros Hm. unfold loadWords, block. rewrite map_map. apply map_ext. intros j.
  rewrite load_word by (by apply bytes_nth). unfold block_word.
  by replace (64 * i + j * 4)%nat with (64 * i + 4 * j)%nat by lia.
Qed.

Lemma nth_words i w : nth i (map u32 w) 0 = u32 (nth i w 0).
Proof. apply (map_nth u32 w 0 i). Qed.

(** Commuting a loop with an abstraction of its state. *)
Lemma fold_left_abs {S T A} (g : S -> T) (f : S -> A -> S) (f' : T -> A -> T) l s :
  (forall s x, g (f s x) = f' (g s) x) -> g (fold_left f l s) = fold_left f' l (g s).
Proof. intros H. revert s. induction l as [|x l IH]; intros s; cbn; [done|]. by rewrite IH, H. Qed.

(** Push [u32] to the leaves of a word expression. *)
Ltac push_words :=
  rewrite ?u32_or0, ?u32_xor, ?u32_and, ?u32_or, ?not_word;
  rewrite ?rotr_word, ?rotl_word, ?ushr_word by lia.

(** ** SHA-256 *)

Definition words8 (s : state8) : state8 :=
  let '(a, b, c, d, e, f, g, h) := s in
  (u32 a, u32 b, u32 c, u32 d, u32 e, u32 f, u32 g, u32 h).

Lemma SHA256_K_words : map u32 SHA256_K = K256.
Proof. vm_compute. reflexivity. Qed.

Lemma sha256_schedule m off :
  map u32 (sha256_w m off) = schedule256 (map u32 (loadWords m off)) 48.
Proof.
  unfold sha256_w. generalize 48%nat as n. induction n as [|n IH]; [done|].
  rewrite seq_S, fold_left_app. cbn [fold_left]. rewrite map_app, IH. cbn [schedule256 map].
  rewrite <- IH, !nth_words. set (w := fold_left _ (seq 16 n) _). do 2 f_equal.
  rewrite <- !ushr_word, <- !rotr_word, <- !u32_xor, !wadd_word, u32_or0 by lia. f_equal. lia.
Qed.

Lemma sha256_round_word w st r :
  words8 (sha256_round w st r) = round256 (nth r K256 0) (nth r (map u32 w) 0) (words8 st).
Proof.
  destruct st as [[[[[[[a b] c] d] e] f] g] h]. unfold sha256_round, round256, words8. rewrite <- SHA256_K_words, !nth_words.
  unfold Ch, Maj. rewrite <- !not_word, <- !u32_and, <- !rotr_word, <- !u32_xor, !wadd_word, !u32_or0 by lia.
  rewrite (u32_add _ (int_or _ 0)), (u32_add d), !u32_or0, <- !u32_add. done.
Qed.

Lemma sha256_block_word m h i : bytes m ->
  words8 (sha256_block m h (64 * i)) = compress256 (words8 h) (block m i).
Proof.
  intros Hm. unfold sha256_block, compress256. rewrite <- load_words, <- sha256_schedule by done.
  rewrite <- (fold_left_abs words8 (sha256_round (sha256_w m (64 * i)))) by (intros; apply sha256_round_word).
  destruct (fold_left _ _ h) as [[[[[[[a b] c] d] e] f] g] hh].
  destruct h as [[[[[[[h0 h1] h2] h3] h4] h5] h6] h7]. cbn [words8 add8]. by rewrite !u32_or0, !wadd_word.
Qed.

(** ** Byte strings of integers *)

Lemma be_bytes_length k n : length (be_bytes k n) = k.
Proof. induction k; cbn; congruence. Qed.

Lemma be_bytes_bytes k n : bytes (be_bytes k n).
Proof.
  induction k; constructor; [|done]. apply is_byte_range. pose proof (Z.mod_pos_bound (n / 256 ^ Z.of_nat k) 256). lia.
Qed.

Lemma int_byte n i : 0 <= i < 4 -> int_and (int_ushr n (i * 8)) 255 = n / 256 ^ i mod 256.
Proof.
  intros Hi. rewrite int_and_ff by lia. unfold u32. change 256 with (2 ^ 8) at 1 3.
  rewrite byte_of_mod by lia. by rewrite (Z.mul_comm i 8), Z.pow_mul_r by lia.
Qed.

Lemma be_bytes4 n : map (fun i => int_and (int_ushr n (i * 8)) 0xff) [3; 2; 1; 0] = be_bytes 4 n.
Proof. cbn [map]. by rewrite !int_byte by lia. Qed.

Lemma be_bytes8 n : be_bytes 8 n = be_bytes 4 (n / 4294967296) ++ be_bytes 4 n.
Proof. cbn [be_bytes app]. by rewrite !Z.div_div by lia. Qed.

Lemma be_bytes4_u32 n : be_bytes 4 (u32 n) = be_bytes 4 n.
Proof.
  rewrite <- !be_bytes4. cbn [map]. unfold int_ushr. by rewrite !u32_idem.
Qed.

Lemma wordsToBytes_be ws : wordsToBytes ws = flat_map (be_bytes 4) (map u32 ws).
Proof.
  induction ws as [|w ws IH]; [done|]. cbn [map flat_map wordsToBytes]. fold (wordsToBytes ws).
  rewrite IH, be_bytes4_u32, <- be_bytes4. f_equal. cbn [map]. do 3 f_equal.
  f_equal. assert (H : forall x, 0 <= x < 2 ^ 32 -> u32 x = x) by apply u32_small.
  unfold int_and at 1 2. f_equal. unfold int_ushr. cbn [Z.mul Z.modulo]. change (0 mod 32) with 0.
  rewrite Z.shiftr_0_r. unfold i32, u32. by rewrite Z.add_mod_idemp_l by lia.
Qed.

Lemma wordsToBytes_length ws : length (wordsToBytes ws) = (4 * length ws)%nat.
Proof. induction ws as [|w ws IH]; [done|]. cbn [wordsToBytes flat_map]. rewrite length_app. fold (wordsToBytes ws). cbn [length]. lia. Qed.

(** ** Padding *)

(** A pushing loop with enough fuel appends a run of [x] up to the first length
    that fails the test. *)
Lemma push_while_spec fuel cond x l k :
  (k <= fuel)%nat ->
  (forall i, (i < k)%nat -> cond (length l + i)%nat = true) ->
  (k = fuel \/ cond (length l + k)%nat = false) ->
  push_while fuel cond x l = l ++ replicate k x.
Proof.
  revert l k. induction fuel as [|fuel IH]; intros l k Hk Hc Hs.
  - assert (k = 0%nat) as -> by lia. cbn. by rewrite app_nil_r.
  - cbn. destruct k as [|k].
    + destruct Hs as [|Hs]; [lia|]. rewrite Nat.add_0_r in Hs. rewrite Hs. cbn. by rewrite app_nil_r.
    + pose proof (Hc 0%nat ltac:(lia)) as H0. rewrite Nat.add_0_r in H0. rewrite H0.
      rewrite (IH _ k); [by rewrite <- app_assoc|lia|..]; rewrite length_app; cbn.
      * intros i Hi. rewrite <- (Hc (S i)) by lia. f_equal. lia.
      * destruct Hs as [|Hs]; [left; lia|right]. rewrite <- Hs. f_equal. lia.
Qed.

Lemma mod64_56 n : (n mod 64 =? 56)%nat = (Z.of_nat n mod 64 =? 56).
Proof. apply eq_true_iff_eq. rewrite Nat.eqb_eq, Z.eqb_eq. change 64 with (Z.of_nat 64). rewrite <- Nat2Z.inj_mod. lia. Qed.

Lemma padMessage_pad m : padMessage m = pad m.
Proof.
  unfold padMessage, pad. rewrite !be_bytes4, (Z.mul_comm _ 8), <- be_bytes8.
  rewrite (push_while_spec _ _ _ _ (zero_bytes (length m))).
  - by rewrite <- !app_assoc.
  - unfold zero_bytes. pose proof (Z.mod_pos_bound (55 - Z.of_nat (length m)) 64). lia.
  - intros i Hi. rewrite mod64_56, length_app. cbn [length]. unfold zero_bytes in Hi. apply negb_true_iff, Z.eqb_neq. Z.div_mod_to_equations. lia.
  - right. rewrite mod64_56, length_app. cbn [length]. unfold zero_bytes. apply negb_false_iff, Z.eqb_eq. Z.div_mod_to_equations. lia.
Qed.

Lemma pad_bytes m : bytes m -> bytes (pad m).
Proof.
  intros. unfold pad. repeat apply Forall_app_2; [done|by repeat constructor| |apply be_bytes_bytes].
  apply Forall_replicate. done.
Qed.

(** The padded length is a whole number of blocks. *)
Lemma pad_length m : Z.of_nat (length (pad m)) mod 64 = 0.
Proof.
  unfold pad. rewrite !length_app, length_replicate, be_bytes_length. cbn [length]. unfold zero_bytes.
  Z.div_mod_to_equations. lia.
Qed.

(** ** The two hash functions are the standard's *)

Lemma fold_left_map_in {S A B} (f : S -> B -> S) (g : A -> B) l s :
  fold_left f (map g l) s = fold_left (fun s x => f s (g x)) l s.
Proof. revert s. induction l; cbn; auto. Qed.

(** A block loop over the padded message, through an abstraction of its state. *)
Lemma block_loop {S T} (g : S -> T) f f' m n s :
  (forall s i, g (f s (64 * i)%nat) = f' (g s) (block m i)) ->
  g (fold_left f (map (fun i => (64 * i)%nat) (seq 0 n)) s)
  = fold_left (fun s i => f' s (block m i)) (seq 0 n) (g s).
Proof.
  intros H. rewrite fold_left_map_in.
  apply (fold_left_abs g (fun s x => f s (64 * x)%nat) (fun s i => f' s (block m i))). done.
Qed.

Lemma sha256_SHA256 m : bytes m -> sha256 m = SHA256 m.
Proof.
  intros Hm. unfold sha256, SHA256. rewrite padMessage_pad.
  pose proof (block_loop words8 (sha256_block (pad m)) compress256 (pad m) (length (pad m) / 64)
    (0x6a09e667, 0xbb67ae85, 0x3c6ef372, 0xa54ff53a, 0x510e527f, 0x9b05688c, 0x1f83d9ab, 0x5be0cd19)
    ltac:(intros; by apply sha256_block_word, pad_bytes)) as H.
  match type of H with _ = fold_left _ _ ?x => assert (x = init256) as Hi by (vm_compute; reflexivity) end.
  rewrite Hi in H. rewrite <- H.
  destruct (fold_left _ (map _ _) _) as [[[[[[[a b] c] d] e] f] g] h]. cbn [words8 digest8].
  by rewrite wordsToBytes_be.
Qed.

Definition words5 (s : state5) : state5 :=
  let '(a, b, c, d, e) := s in (u32 a, u32 b, u32 c, u32 d, u32 e).

Lemma sha1_schedule m off :
  map u32 (sha1_w m off) = schedule1 (map u32 (loadWords m off)) 64.
Proof.
  unfold sha1_w. generalize 64%nat as n. induction n as [|n IH]; [done|].
  rewrite seq_S, fold_left_app. cbn [fold_left]. rewrite map_app, IH. cbn [schedule1 map].
  rewrite <- IH, !nth_words. by rewrite rotl_word, !u32_xor by lia.
Qed.

Lemma sha1_f_word t b c d :
  u32 (sha1_f t b c d).1 = f1 t (u32 b) (u32 c) (u32 d) /\ u32 (sha1_f t b c d).2 = K1 t.
Proof.
  unfold sha1_f, f1, K1, Parity.
  destruct (t <? 20)%nat, (t <? 40)%nat, (t <? 60)%nat; cbn [fst snd]; (split; [|vm_compute; reflexivity]);
    rewrite ?u32_xor, ?u32_or, ?u32_and, ?not_word, ?Maj_or, ?Ch_or by apply u32_range; done.
Qed.

Lemma sha1_round_word w st t :
  words5 (sha1_round w st t) = round1 t (nth t (map u32 w) 0) (words5 st).
Proof.
  destruct st as [[[[a b] c] d] e]. unfold sha1_round, round1, words5. rewrite nth_words.
  destruct (sha1_f_word t b c d) as [Hf Hk]. destruct (sha1_f t b c d) as [f k]. cbn [fst snd] in Hf, Hk.
  rewrite <- Hf, <- Hk, <- !rotl_word, !wadd_word, u32_or0 by lia. done.
Qed.

Lemma sha1_block_word m h i : bytes m ->
  words5 (sha1_block m h (64 * i)) = compress1 (words5 h) (block m i).
Proof.
  intros Hm. unfold sha1_block, compress1. rewrite <- load_words, <- sha1_schedule by done.
  rewrite <- (fold_left_abs words5 (sha1_round (sha1_w m (64 * i)))) by (intros; apply sha1_round_word).
  destruct (fold_left _ _ h) as [[[[a b] c] d] e].
  destruct h as [[[[h0 h1] h2] h3] h4]. cbn [words5 add5]. by rewrite !u32_or0, !wadd_word.
Qed.

Lemma sha1_SHA1 m : bytes m -> sha1 m = SHA1 m.
Proof.
  intros Hm. unfold sha1, SHA1. rewrite padMessage_pad.
  pose proof (block_loop words5 (sha1_block (pad m)) compress1 (pad m) (length (pad m) / 64)
    (0x67452301, 0xefcdab89, 0x98badcfe, 0x10325476, 0xc3d2e1f0)
    ltac:(intros; by apply sha1_block_word, pad_bytes)) as H.
  match type of H with _ = fold_left _ _ ?x => assert (x = init1) as Hi by (vm_compute; reflexivity) end.
  rewrite Hi in H. rewrite <- H.
  destruct (fold_left _ (map _ _) _) as [[[[a b] c] d] e]. cbn [words5 digest5].
  by rewrite wordsToBytes_be.
Qed.

Lemma digest_bytes ws : bytes (wordsToBytes ws).
Proof.
  rewrite wordsToBytes_be. induction ws; cbn [map flat_map]; [constructor|].
  apply Forall_app_2; [apply be_bytes_bytes|done].
Qed.

Lemma sha256_digest m : bytes (sha256 m) /\ length (sha256 m) = 32%nat.
Proof.
  unfold sha256. destruct (fold_left _ _ _) as [[[[[[[a b] c] d] e] f] g] h].
  split; [apply digest_bytes|by rewrite wordsToBytes_length].
Qed.

Lemma sha1_digest m : bytes (sha1 m) /\ length (sha1 m) = 20%nat.
Proof.
  unfold sha1. destruct (fold_left _ _ _) as [[[[a b] c] d] e].
  split; [apply digest_bytes|by rewrite wordsToBytes_length].
Qed.

(** ** HMAC *)

(** What HMAC and the code derivation need of a hash routine. *)
Class HashImpl (h H : list Z -> list Z) := {
  hash_eq : forall m, bytes m -> h m = H m;
  hash_bytes : forall m, bytes (h m);
  hash_length : forall m, (20 <= length (h m) <= 64)%nat;
}.

#[export] Instance sha256_impl : HashImpl sha256 SHA256.
Proof. split; [apply sha256_SHA256|apply sha256_digest|]. intros m. destruct (sha256_digest m) as [_ ->]. lia. Qed.

#[export] Instance sha1_impl : HashImpl sha1 SHA1.
Proof. split; [apply sha1_SHA1|apply sha1_digest|]. intros m. destruct (sha1_digest m) as [_ ->]. lia. Qed.

Section hmac.
  Context {h H : list Z -> list Z} `{!HashImpl h H}.

Lemma map_seq_nth (f : Z -> Z) l n :
  length l = n -> map (fun i => f (nth i l 0)) (seq 0 n) = map f l.
Proof.
  intros <-. induction l as [|x l IH]; [done|]. cbn [length seq map nth]. f_equal.
  rewrite <- seq_shift, map_map. apply IH.
Qed.

Lemma int_xor_byte a c : 0 <= a < 256 -> 0 <= c < 256 -> int_xor a c = Z.lxor a c.
Proof. intros. unfold int_xor. by rewrite !i32_small by lia. Qed.

Lemma lxor_byte a c : 0 <= a < 256 -> 0 <= c < 256 -> 0 <= Z.lxor a c < 256.
Proof.
  intros Ha Hc. assert (E : Z.lxor a c = Z.lxor a c mod 2 ^ 8).
  { rewrite <- (Z.mod_small a (2 ^ 8)), <- (Z.mod_small c (2 ^ 8)) by lia.
    rewrite <- !Z.land_ones by lia. apply Z.bits_inj'. intros n Hn.
    rewrite !Z.lxor_spec, !Z.land_spec, Z.lxor_spec, !Z.land_spec.
    by destruct (Z.testbit a n), (Z.testbit c n), (Z.testbit (Z.ones 8) n). }
  rewrite E. apply (Z.mod_pos_bound _ (2 ^ 8)). lia.
Qed.

Lemma xor_pad k c : bytes k -> length k = 64%nat -> 0 <= c < 256 ->
  map (fun i => int_xor (nth i k 0) c) (seq 0 64) = map (fun b => Z.lxor b c) k
  /\ bytes (map (fun b => Z.lxor b c) k).
Proof.
  intros Hk Hl Hc. split.
  - rewrite (map_seq_nth (fun x => int_xor x c)) by done. apply map_ext_in. intros b Hb.
    apply int_xor_byte; [|done]. apply is_byte_range. by eapply Forall_forall in Hk; [|apply list_elem_of_In].
  - apply Forall_map. eapply Forall_impl; [done|]. cbn. intros b Hb. apply is_byte_range, lxor_byte; [by apply is_byte_range|done].
Qed.

Lemma hmac_HMAC key text : bytes key -> bytes text -> hmac h key text = HMAC H key text.
Proof.
  intros Hk Ht. unfold hmac, HMAC.
  assert (Hk0 : bytes (if (64 <? length key)%nat then h key else key)) by (case_match; [by apply (hash_bytes (H:=H))|done]).
  assert (Hl0 : (length (if (64 <? length key)%nat then h key else key) <= 64)%nat).
  { destruct (Nat.ltb_spec 64 (length key)); [|lia]. pose proof (hash_length (h:=h) (H:=H) key). lia. }
  rewrite <- (hash_eq (h:=h) (H:=H) key) by done. set (k0 := if (64 <? length key)%nat then _ else _) in *.
  rewrite (push_while_spec _ _ _ _ (64 - length k0)); cycle 1.
  - lia.
  - intros i Hi. apply Nat.ltb_lt. lia.
  - right. apply Nat.ltb_ge. lia.
  - set (k1 := k0 ++ _). assert (Hb1 : bytes k1) by (by apply Forall_app_2, Forall_replicate).
    assert (Hl1 : length k1 = 64%nat) by (unfold k1; rewrite length_app, length_replicate; lia).
    destruct (xor_pad k1 0x36 Hb1 Hl1 ltac:(lia)) as [-> Hi].
    destruct (xor_pad k1 0x5c Hb1 Hl1 ltac:(lia)) as [-> Ho].
    assert (Hin : bytes (map (fun b => Z.lxor b 0x36) k1 ++ text)) by (by apply Forall_app_2).
    rewrite <- (hash_eq (h:=h) (H:=H) (_ ++ text)) by done. apply (hash_eq (h:=h) (H:=H)).
    apply Forall_app_2; [done|apply (hash_bytes (H:=H))].
Qed.

Lemma hmac_digest key text : bytes (hmac h key text) /\ (20 <= length (hmac h key text))%nat.
Proof. unfold hmac. split; [apply (hash_bytes (H:=H))|apply (hash_length (H:=H))]. Qed.
End hmac.

(** ** Codes *)

Lemma counterBytes_be c : counterBytes c = be_bytes 8 c.
Proof.
  unfold counterBytes. fold (u32 c). rewrite !be_bytes4, be_bytes8. f_equal. apply be_bytes4_u32.
Qed.

(** A run of decimal digits is the fixed-width numeral of its value. *)
Lemma dec_digits_mod k n m : dec_digits k (m * 10 ^ Z.of_nat k + n) = dec_digits k n.
Proof.
  revert m. induction k as [|k IH]; intros m; [done|]. cbn [dec_digits].
  rewrite Nat2Z.inj_succ, Z.pow_succ_r by lia. f_equal.
  - replace (m * (10 * 10 ^ Z.of_nat k) + n) with (n + m * 10 * 10 ^ Z.of_nat k) by lia.
    rewrite Z.div_add by (apply Z.pow_nonzero; lia). by rewrite Z.mod_add by lia.
  - rewrite <- (IH (m * 10)). f_equal. lia.
Qed.

Lemma fold_digits_acc l a :
  fold_left (fun a c => a * 10 + (c - 48)) l a = a * 10 ^ Z.of_nat (length l) + digits_value l.
Proof.
  unfold digits_value. revert a. induction l as [|c l IH]; intros a; cbn [fold_left length].
  - rewrite Z.pow_0_r. lia.
  - rewrite Nat2Z.inj_succ, Z.pow_succ_r, IH, (IH (0 * 10 + (c - 48))) by lia. lia.
Qed.

Lemma digits_value_range l : Forall (fun c => is_digit c = true) l -> 0 <= digits_value l < 10 ^ Z.of_nat (length l).
Proof.
  induction 1 as [|c l Hc Hl IH]; [done|]. unfold digits_value. cbn [fold_left length].
  rewrite fold_digits_acc, Nat2Z.inj_succ, Z.pow_succ_r by lia.
  unfold is_digit, in_range in Hc. boolZ. nia.
Qed.

Lemma digits_fixed l : Forall (fun c => is_digit c = true) l -> l = dec_digits (length l) (digits_value l).
Proof.
  induction 1 as [|c l Hc Hl IH]; [done|]. unfold digits_value. cbn [fold_left length dec_digits].
  rewrite fold_digits_acc. pose proof (digits_value_range l Hl). rewrite dec_digits_mod, <- IH. f_equal.
  rewrite Z.div_add_l by lia. rewrite Z.div_small by done. unfold is_digit, in_range in Hc. boolZ.
  rewrite Z.mod_small; lia.
Qed.

Lemma padCode_spec fuel digits s :
  (Z.to_nat digits <= fuel + length s)%nat ->
  padCode fuel digits s = replicate (Z.to_nat digits - length s) 48 ++ s.
Proof.
  revert s. induction fuel as [|fuel IH]; intros s Hf; cbn [padCode].
  - by replace (Z.to_nat digits - length s)%nat with 0%nat by lia.
  - destruct (Z.ltb_spec (Z.of_nat (length s)) digits).
    + rewrite IH by (cbn; lia). cbn [length].
      replace (Z.to_nat digits - length s)%nat with (S (Z.to_nat digits - S (length s)))%nat by lia.
      rewrite replicate_S_end, <- app_assoc. done.
    + by replace (Z.to_nat digits - length s)%nat with 0%nat by lia.
Qed.

Lemma digits_value_zeros k l : digits_value (replicate k 48 ++ l) = digits_value l.
Proof. induction k; [done|]. exact IHk. Qed.

(** The decimal code shown is the value in exactly [d] digits. *)
Lemma padCode_decimal d v : (0 < d)%nat ->
  padCode d (Z.of_nat d) (Z_to_str (v mod 10 ^ Z.of_nat d)) = dec_digits d v.
Proof.
  intros Hd. pose proof (Z.mod_pos_bound v (10 ^ Z.of_nat d) ltac:(lia)) as Hv.
  rewrite padCode_spec by lia. unfold Z_to_str. destruct (Z.ltb_spec (v mod 10 ^ Z.of_nat d) 0); [lia|].
  pose proof (nat_to_str_width d _ Hd Hv). rewrite Nat2Z.id. set (s := nat_to_str _) in *.
  assert (Hs : Forall (fun c => is_digit c = true) (replicate (d - length s) 48 ++ s))
    by (apply Forall_app_2; [by apply Forall_replicate|apply nat_to_str_digits]).
  rewrite (digits_fixed _ Hs) at 1. rewrite digits_value_zeros, length_app, length_replicate.
  replace (d - length s + length s)%nat with d by lia. unfold s. rewrite digits_value_nat by lia.
  rewrite (Z.div_mod v (10 ^ Z.of_nat d)) at 2 by lia. by rewrite Z.mul_comm, dec_digits_mod.
Qed.

(** The Steam alphabet, least significant character first. *)
Lemma steamCode_digits d v : steamCode d v = map (fun i => nth (Z.to_nat (v / 26 ^ Z.of_nat i mod 26)) STEAM_CHARS 0) (seq 0 d).
Proof.
  revert v. induction d as [|d IH]; intros v; [done|]. cbn [steamCode seq map]. f_equal.
  - by rewrite Z.pow_0_r, Z.div_1_r.
  - rewrite IH, <- seq_shift, map_map. apply map_ext. intros i.
    rewrite Nat2Z.inj_succ, Z.pow_succ_r, Z.div_div by lia. done.
Qed.

Lemma int_and_low a k : 0 <= a < 256 -> 0 <= k <= 8 -> int_and a (Z.ones k) = a mod 2 ^ k.
Proof.
  intros. unfold int_and. rewrite !i32_small by (rewrite ?Z.ones_equiv; pose proof (Z.pow_le_mono_r 2 k 8); lia).
  apply Z.land_ones. lia.
Qed.

Lemma int_shl_byte a k : 0 <= a < 256 -> 0 <= k <= 16 -> int_shl a k = a * 2 ^ k.
Proof.
  intros. unfold int_shl. rewrite (Z.mod_small k 32), (i32_small a), Z.shiftl_mul_pow2 by lia.
  apply i32_small. pose proof (Z.pow_le_mono_r 2 k 16). pose proof (Z_pow2_gt0 k). nia.
Qed.

(** The offset expression of the code is the standard's, and the four bytes it
    selects exist. *)
Lemma truncate_code hs : bytes hs -> (20 <= length hs)%nat ->
  let off := Z.to_nat (int_and (nth (length hs - 1) hs 0) 15) in
  (off + 3 < length hs)%nat /\
  int_and (nth off hs 0) 127 * 16777216 + int_shl (nth (off + 1) hs 0) 16
    + int_shl (nth (off + 2) hs 0) 8 + nth (off + 3) hs 0 = truncate hs.
Proof.
  intros Hb Hl off. unfold off. rewrite (int_and_low _ 4) by (lia || by apply bytes_nth).
  assert (Hlast : List.last hs 0 = nth (length hs - 1) hs 0).
  { destruct hs as [|x hs _] using rev_ind; [done|]. rewrite List.last_last, length_app. cbn [length].
    rewrite app_nth2 by lia. by replace (length hs + 1 - 1 - length hs)%nat with 0%nat by lia. }
  pose proof (Z.mod_pos_bound (nth (length hs - 1) hs 0) (2 ^ 4) ltac:(lia)). split; [lia|].
  unfold truncate. rewrite Hlast. change (2 ^ 4) with 16. set (o := Z.to_nat _).
  rewrite Nat.add_0_r.
  pose proof (bytes_nth hs o Hb). pose proof (bytes_nth hs (o + 1) Hb).
  pose proof (bytes_nth hs (o + 2) Hb). pose proof (bytes_nth hs (o + 3) Hb).
  rewrite (int_and_low _ 7), !int_shl_byte by lia. Z.div_mod_to_equations. lia.
Qed.

(** ** Base32 *)

(** The 5-bit value of a character of the alphabet. *)
Definition char_value (c : Z) : option Z := Z.of_nat <$> index_of [c] BASE32_CHARS.

Lemma char_value_range c v : char_value c = Some v -> 0 <= v < 32.
Proof.
  unfold char_value. cbn. repeat (destruct_match; [by intros [= <-]|]). done.
Qed.

Lemma value_of_snoc b l d : value_of b (l ++ [d]) = value_of b l * b + d.
Proof. unfold value_of. by rewrite fold_left_app. Qed.

Lemma be_bytes_snoc k n : be_bytes (S k) n = be_bytes k (n / 256) ++ [n mod 256].
Proof.
  induction k as [|k IH]; [by cbn; rewrite Z.div_1_r|]. cbn [be_bytes] in IH |- *. rewrite IH. cbn [app]. f_equal.
  rewrite Z.div_div, <- Z.pow_succ_r by lia. do 3 f_equal. lia.
Qed.

(** The decoder's state after the groups [g]: the bytes so far, the value modulo
    [2^16], and the bits not yet emitted. *)
Definition base32_state (g : list Z) : list Z * Z * Z :=
  (base32_bytes g, value_of 32 g mod 2 ^ 16, (5 * Z.of_nat (length g)) mod 8).

Lemma base32_bytes_snoc g d :
  let r := 5 * Z.of_nat (length g) mod 8 + 5 in
  0 <= d < 32 ->
  base32_bytes (g ++ [d]) =
    if 8 <=? r then base32_bytes g ++ [(value_of 32 (g ++ [d])) / 2 ^ (r - 8) mod 256] else base32_bytes g.
Proof.
  intros r Hd. unfold base32_bytes. rewrite value_of_snoc, length_app. cbn [length].
  set (V := value_of 32 g). set (n := 5 * Z.of_nat (length g)) in *.
  replace (5 * Z.of_nat (length g + 1)) with (n + 5) by lia.
  assert (Hsh : (V * 32 + d) / 2 ^ r = V / 2 ^ (n mod 8)).
  { unfold r. rewrite (Z.add_comm _ 5), Z.pow_add_r by (pose proof (Z.mod_pos_bound n 8); lia).
    rewrite <- Z.div_div by (pose proof (Z_pow2_gt0 (n mod 8)); pose proof (Z.mod_pos_bound n 8); lia).
    f_equal. change (2 ^ 5) with 32. rewrite Z.div_add_l, Z.div_small by lia. lia. }
  destruct (Z.leb_spec 8 r).
  - assert (E : (n + 5) mod 8 = r - 8 /\ (n + 5) / 8 = n / 8 + 1) by (unfold r in *; Z.div_mod_to_equations; lia).
    destruct E as [-> ->]. replace (Z.to_nat (n / 8 + 1)) with (S (Z.to_nat (n / 8))) by (Z.div_mod_to_equations; lia).
    rewrite be_bytes_snoc, Z.div_div by (pose proof (Z_pow2_gt0 (r - 8)); lia). do 2 f_equal.
    change 256 with (2 ^ 8). rewrite <- Z.pow_add_r by lia. by replace (r - 8 + 8) with r by lia.
  - assert (E : (n + 5) mod 8 = r /\ (n + 5) / 8 = n / 8) by (unfold r in *; Z.div_mod_to_equations; lia).
    destruct E as [-> ->]. by rewrite Hsh.
Qed.

Lemma base32_step_state g c :
  base32_step (base32_state g) c
  = base32_state (match char_value c with Some d => g ++ [d] | None => g end).
Proof.
  unfold base32_step, base32_state at 1. pose proof (char_value_range c) as Hr. unfold char_value in *.
  destruct (index_of [c] BASE32_CHARS) as [i|]; [|done]. cbn [fmap option_fmap option_map] in *.
  specialize (Hr _ eq_refl). set (d := Z.of_nat i) in *. set (V := value_of 32 g).
  assert (Hbuf : int_and (int_or (int_shl (V mod 2 ^ 16) 5) d) 0xffff = value_of 32 (g ++ [d]) mod 2 ^ 16).
  { pose proof (Z.mod_pos_bound V (2 ^ 16) ltac:(lia)). rewrite value_of_snoc. fold V. unfold int_and, int_or, int_shl.
    change (5 mod 32) with 5. rewrite (i32_small (V mod _)), Z.shiftl_mul_pow2 by lia.
    rewrite (i32_small (_ * _)), (i32_small (_ * _)), (i32_small d) by lia.
    rewrite lor_disjoint, !i32_small by lia. change 0xffff with (Z.ones 16). rewrite Z.land_ones by lia.
    rewrite (Z.add_mod (V * 32)), (Z.mul_mod V), (Z.add_mod (_ * 2 ^ 5)), (Z.mul_mod (V mod _)) by lia.
    by rewrite Z.mod_mod by lia. }
  rewrite Hbuf. unfold base32_state. set (n := 5 * Z.of_nat (length g)).
  replace (5 * Z.of_nat (length (g ++ [d]))) with (n + 5) by (rewrite length_app; cbn [length]; lia).
  pose proof (base32_bytes_snoc g d Hr) as Hs. cbn zeta in Hs. fold n in Hs. rewrite Hs. clear Hs.
  pose proof (Z.mod_pos_bound n 8 ltac:(lia)).
  destruct (Z.leb_spec 8 (n mod 8 + 5)).
  - rewrite int_and_ff by lia. rewrite u32_small by (pose proof (Z.mod_pos_bound (value_of 32 (g ++ [d])) (2 ^ 16)); lia).
    rewrite (byte_of_mod 16 (n mod 8 + 5 - 8)) by lia. do 2 f_equal. Z.div_mod_to_equations. lia.
  - f_equal. Z.div_mod_to_equations. lia.
Qed.

(** The groups of a text: every character outside the alphabet is skipped. *)
Definition text_groups (s : list Z) : list Z := omap char_value (flat_map upper_unit s).

Lemma decodeBase32_bytes s : decodeBase32 s = base32_bytes (text_groups s).
Proof.
  unfold decodeBase32, text_groups. change ([], 0, 0) with (base32_state []).
  change (base32_bytes (omap char_value (flat_map upper_unit s)))
    with (base32_state ([] ++ omap char_value (flat_map upper_unit s))).1.1.
  do 2 f_equal. generalize (@nil Z) as g. induction (flat_map upper_unit s) as [|c l IH]; intros g; cbn [fold_left].
  - by rewrite app_nil_r.
  - rewrite base32_step_state, IH. cbn [omap list_omap]. destruct (char_value c); [|done]. by rewrite <- app_assoc.
Qed.

Lemma base32_bytes_are_bytes g : bytes (base32_bytes g).
Proof. apply be_bytes_bytes. Qed.

Lemma value_of_acc b l a : fold_left (fun a d => a * b + d) l a = a * b ^ Z.of_nat (length l) + value_of b l.
Proof.
  unfold value_of. revert a. induction l as [|d l IH]; intros a; cbn [fold_left length].
  - rewrite Z.pow_0_r. lia.
  - rewrite Nat2Z.inj_succ, Z.pow_succ_r, IH, (IH (0 * b + d)) by lia. lia.
Qed.

Lemma value_of_cons b d l : value_of b (d :: l) = d * b ^ Z.of_nat (length l) + value_of b l.
Proof. unfold value_of at 1. cbn [fold_left]. by rewrite value_of_acc, Z.mul_0_l, Z.add_0_l. Qed.

Lemma digits32_length k n : length (digits32 k n) = k.
Proof. induction k; cbn; congruence. Qed.

Lemma digits32_range k n : Forall (fun d => 0 <= d < 32) (digits32 k n).
Proof. induction k; constructor; [|done]. apply Z.mod_pos_bound. lia. Qed.

Lemma value_digits32 k n : value_of 32 (digits32 k n) = n mod 32 ^ Z.of_nat k.
Proof.
  induction k as [|k IH]; [by rewrite Z.mod_1_r|]. cbn [digits32].
  rewrite value_of_cons, digits32_length, IH, Nat2Z.inj_succ, Z.pow_succ_r, (Z.mul_comm 32) by lia.
  rewrite Z.rem_mul_r by lia. lia.
Qed.

Lemma value_of_bytes l : bytes l -> 0 <= value_of 256 l < 256 ^ Z.of_nat (length l).
Proof.
  induction 1 as [|b l Hb Hl IH]; [done|]. rewrite value_of_cons. cbn [length].
  rewrite Nat2Z.inj_succ, Z.pow_succ_r by lia. apply is_byte_range in Hb. nia.
Qed.

Lemma be_bytes_value l : bytes l -> be_bytes (length l) (value_of 256 l) = l.
Proof.
  induction l as [|b l IH] using rev_ind; intros Hl; [done|].
  apply Forall_app in Hl as [Hl [Hb _]%Forall_cons]. apply is_byte_range in Hb.
  rewrite length_app, Nat.add_1_r, value_of_snoc, be_bytes_snoc, Z.div_add_l, Z.div_small, Z.add_0_r by lia.
  rewrite IH by done. by rewrite Z.add_comm, Z.mod_add, Z.mod_small by lia.
Qed.

Lemma base32_roundtrip l : bytes l -> base32_bytes (base32_groups l) = l.
Proof.
  intros Hl. unfold base32_bytes, base32_groups. set (n := Z.of_nat (length l)). set (m := (8 * n + 4) / 5).
  assert (Hm : 8 * n <= 5 * m <= 8 * n + 4) by (unfold m; Z.div_mod_to_equations; lia).
  rewrite digits32_length, Z2Nat.id by lia.
  assert (5 * m / 8 = n /\ 5 * m mod 8 = 5 * m - 8 * n) as [-> ->] by (Z.div_mod_to_equations; lia).
  rewrite value_digits32, Z.mod_small.
  - rewrite Z.div_mul by (apply Z.pow_nonzero; lia). unfold n. rewrite Nat2Z.id. by apply be_bytes_value.
  - rewrite Z2Nat.id by lia. pose proof (value_of_bytes l Hl) as Hv. fold n in Hv.
    replace (32 ^ m) with (256 ^ n * 2 ^ (5 * m - 8 * n)).
    + pose proof (Z_pow2_gt0 (5 * m - 8 * n)). nia.
    + change 256 with (2 ^ 8). change 32 with (2 ^ 5). rewrite <- !Z.pow_mul_r, <- Z.pow_add_r by lia. f_equal. lia.
Qed.

(** The text of a secret, as RFC 4648 writes it without padding. *)
Definition base32_text (secret : list Z) : list Z :=
  map (fun d => nth (Z.to_nat d) BASE32_CHARS 0) (base32_groups secret).

Lemma base32_chars_all (P : Z -> bool) l :
  forallb P BASE32_CHARS = true -> Forall (fun c => P c = true) (base32_text l).
Proof.
  intros HP. apply forallb_Forall in HP. unfold base32_text. apply Forall_map.
  eapply Forall_impl; [apply digits32_range|]. intros d Hd. apply (proj1 (Forall_nth _ 0 _) HP).
  change (Z.to_nat d < 32)%nat. cbn beta in Hd. lia.
Qed.

Lemma char_value_lower d : 0 <= d < 32 ->
  omap char_value (upper_unit (ascii_lower (nth (Z.to_nat d) BASE32_CHARS 0))) = [d].
Proof.
  intros Hd. assert (Hall : forallb (fun d => bool_decide
    (omap char_value (upper_unit (ascii_lower (nth d BASE32_CHARS 0))) = [Z.of_nat d])) (seq 0 32) = true)
    by (vm_compute; reflexivity).
  apply forallb_Forall in Hall. rewrite Forall_forall in Hall.
  specialize (Hall (Z.to_nat d)). rewrite bool_decide_eq_true, Z2Nat.id in Hall by lia.
  apply Hall, elem_of_seq. lia.
Qed.

Lemma text_groups_text l : text_groups (map ascii_lower (base32_text l)) = base32_groups l.
Proof.
  unfold text_groups, base32_text. pose proof (digits32_range _ _ : Forall (fun d => 0 <= d < 32) (base32_groups l)) as Hg.
  induction Hg as [|d g Hd Hg IH]; [done|]. cbn [map flat_map]. rewrite omap_app, IH, char_value_lower by done. done.
Qed.

Lemma decode_text l : bytes l -> decodeBase32 (map ascii_lower (base32_text l)) = l.
Proof. intros. by rewrite decodeBase32_bytes, text_groups_text, base32_roundtrip. Qed.

(** ** Keys *)

(** What every key the code accepts satisfies. *)
Definition params_wf (p : params) : Prop :=
  1 <= p_digits p <= 9 /\ 1 <= p_period p < 2 ^ 32 /\ bytes (p_secret p)
  /\ (p_algorithm p = steam_alg -> p_digits p = 5).

Lemma decodeBase32_are_bytes s : bytes (decodeBase32 s).
Proof. rewrite decodeBase32_bytes. apply base32_bytes_are_bytes. Qed.

Lemma digits_value_nonneg l : forallb is_digit l = true -> 0 <= digits_value l.
Proof. intros H%forallb_Forall. by apply digits_value_range. Qed.

Lemma parseU32_range v n : parseU32 v = Some n -> 0 <= n < 2 ^ 32.
Proof.
  unfold parseU32. intros H. repeat destruct_match; simplify_eq; boolZ;
    match goal with E : forallb is_digit _ = true |- _ => apply digits_value_nonneg in E end; lia.
Qed.

Lemma parseU32_period v :
  1 <= match parseU32 v with None => DEFAULT_PERIOD | Some p => Z.max p 1 end < 2 ^ 32.
Proof. destruct (parseU32 v) eqn:E; [apply parseU32_range in E; lia|done]. Qed.

Lemma parseOtpauth_wf k p : parseOtpauth k = Some p -> params_wf p.
Proof.
  unfold parseOtpauth. intros H. do 2 (case_match; [done|]).
  destruct (queryParts _ _) as [parts|]; [|done]. cbn [mbind option_bind] in H.
  destruct (parts_get parts (js "secret")) as [secret|]; [|done]. cbn [mbind option_bind] in H.
  destruct (match parts_get parts (js "algorithm") with None => _ | Some _ => _ end) as [a|] eqn:Ea; [|done].
  cbn [mbind option_bind] in H. case_match eqn:Ed; [done|]. apply orb_false_iff in Ed as [E1 E2].
  apply Z.ltb_ge in E1, E2. injection H as <-.
  split; [exact (conj E1 E2)|]. split; [|split; [apply decodeBase32_are_bytes|]]; cbn [p_period p_algorithm].
  - apply parseU32_period.
  - intros ->. clear -Ea. repeat case_match; simplify_eq.
Qed.

Lemma parseKey_params_wf key p : parseKey key = Some p -> params_wf p.
Proof.
  destruct key as [| | | |[|c s]| | |]; try done. unfold parseKey. intros H.
  case_match; [done|]. case_match; [by eapply parseOtpauth_wf|].
  case_match; injection H as <-; repeat split; cbn; try lia; try done; apply decodeBase32_are_bytes.
Qed.

(** ** The code of a key *)

(** The hash the standard prescribes for an algorithm. *)
Definition alg_hash (a : algorithm) : list Z -> list Z :=
  match a with sha256_alg => SHA256 | _ => SHA1 end.

(** The code RFC 6238 gives at a counter; Steam prints it in its own alphabet. *)
Definition totp_code (p : params) (counter : Z) : list Z :=
  let v := HOTP (alg_hash (p_algorithm p)) (p_secret p) counter in
  match p_algorithm p with
  | steam_alg => map (fun i => nth (Z.to_nat (v / 26 ^ Z.of_nat i mod 26)) STEAM_CHARS 0) (seq 0 5)
  | _ => dec_digits (Z.to_nat (p_digits p)) v
  end.

Lemma truncate_hmac {h H} `{!HashImpl h H} key c : bytes key ->
  let hs := hmac h key (counterBytes c) in
  let off := Z.to_nat (int_and (nth (length hs - 1) hs 0) 15) in
  int_and (nth off hs 0) 127 * 16777216 + int_shl (nth (off + 1) hs 0) 16
    + int_shl (nth (off + 2) hs 0) 8 + nth (off + 3) hs 0 = HOTP H key c.
Proof.
  intros Hk. cbn zeta. unfold HOTP. rewrite counterBytes_be, <- (hmac_HMAC (h:=h)) by (done || apply be_bytes_bytes).
  destruct (hmac_digest (h:=h) (H:=H) key (be_bytes 8 c)) as [Hb Hl].
  exact (proj2 (truncate_code _ Hb Hl)).
Qed.

Lemma deriveOtp_code p c : params_wf p -> deriveOtp p c = totp_code p c.
Proof.
  intros (Hd & Hp & Hs & Hst). unfold deriveOtp, totp_code.
  assert (Hpad : forall v, padCode (Z.to_nat (p_digits p)) (p_digits p) (Z_to_str (v mod 10 ^ p_digits p))
    = dec_digits (Z.to_nat (p_digits p)) v).
  { intros v. rewrite <- (padCode_decimal (Z.to_nat (p_digits p))) by lia. by rewrite Z2Nat.id by lia. }
  destruct (p_algorithm p); cbn [alg_hash]; rewrite truncate_hmac by done.
  - apply Hpad.
  - apply Hpad.
  - rewrite (Hst eq_refl). apply steamCode_digits.
Qed.

Lemma generate_totp key ms p :
  parseKey key = Some p -> 0 <= ms < 2 ^ 53 ->
  generate key (JNum (NZ ms)) = Some (totp_code p (ms / 1000 / p_period p), p_period p).
Proof.
  intros Hk Hms. pose proof (parseKey_params_wf _ _ Hk) as Hwf. assert (1 <= p_period p < 2 ^ 32) by apply Hwf.
  assert (0 <= ms / 1000 <= ms) by (split; [apply Z.div_pos|apply Z.div_le_upper_bound]; lia).
  unfold generate. rewrite Hk. cbn [mbind option_bind to_number].
  rewrite !num_floor_div by lia. rewrite num_ltb_NZ.
  pose proof (Z.div_pos (ms / 1000) (p_period p)). destruct (Z.ltb_spec (ms / 1000 / p_period p) 0); [lia|].
  cbn [NZ]. unfold Qfloor. by rewrite Z.div_1_r, deriveOtp_code.
Qed.

Lemma base32_text_nonempty s : s <> [] -> base32_text s <> [].
Proof.
  intros Hs E. apply (f_equal length) in E. unfold base32_text, base32_groups in E.
  rewrite length_map, digits32_length in E. cbn [length] in E. destruct s; [done|]. cbn [length] in E.
  revert E. generalize (length s). intros n E. Z.div_mod_to_equations. lia.
Qed.

Lemma not_prefix (P : Z -> bool) t s :
  existsb (fun c => negb (P c)) t = true -> Forall (fun c => P c = true) s -> starts_with t s = false.
Proof.
  intros Ht Hs. revert t Ht. induction Hs as [|c s Hc Hs IH]; intros [|x t] Ht; cbn in *; try done.
  destruct (Z.eqb_spec x c) as [->|]; [|done]. rewrite Hc in Ht. by apply IH.
Qed.

Lemma parseKey_base32 secret : bytes secret -> secret <> [] ->
  parseKey (JStr (base32_text secret)) = Some (Params sha1_alg 6 30 secret).
Proof.
  intros Hb Hne. unfold parseKey. pose proof (base32_text_nonempty _ Hne) as Hte.
  destruct (base32_text secret) eqn:E; [done|]. rewrite <- E. clear E Hte.
  assert (Hlow : Forall (fun c => is_alnum c = true) (map ascii_lower (base32_text secret)))
    by (apply Forall_map, (base32_chars_all (fun c => is_alnum (ascii_lower c))); vm_compute; reflexivity).
  replace (existsb _ _) with false.
  - rewrite !(not_prefix is_alnum) by (done || vm_compute; reflexivity). by rewrite decode_text.
  - symmetry. apply not_true_iff_false. rewrite existsb_exists. intros (c & Hin & Hc).
    pose proof (base32_chars_all is_ascii secret eq_refl) as Ha. rewrite Forall_forall in Ha.
    rewrite Ha in Hc; [done|]. by apply list_elem_of_In.
Qed.

(** ** Properties *)

(** For every secret, written in base32 as a bare key, and every time that is
    a whole number of milliseconds, [generate] answers the six-digit RFC 6238
    code of that secret (HMAC-SHA-1, thirty-second steps) and the period 30. *)
Theorem totp_rfc6238 secret ms :
  bytes secret -> secret <> [] -> 0 <= ms < 2 ^ 53 ->
  generate (JStr (base32_text secret)) (JNum (NZ ms))
  = Some (dec_digits 6 (HOTP SHA1 secret (ms / 1000 / 30)), 30).
Proof. intros Hb Hne Hms. exact (generate_totp _ _ _ (parseKey_base32 _ Hb Hne) Hms). Qed.

Lemma totp_rfc6238_witness :
  generate (JStr (base32_text (js "12345678901234567890"))) (JNum (NZ 59000))
  = Some (dec_digits 6 (HOTP SHA1 (js "12345678901234567890") (59000 / 1000 / 30)), 30).
Proof. apply totp_rfc6238; [apply forallb_Forall; reflexivity|discriminate|lia]. Defined.

(** C1: whatever form the stored key has (bare secret, otpauth URI with SHA-1 or
    SHA-256, steam), a key that is accepted yields the standard's code for the
    algorithm, digits and period read from it; floating-point division never
    puts the time in the wrong step. *)
Theorem totp_generate key ms p :
  parseKey key = Some p -> 0 <= ms < 2 ^ 53 ->
  generate key (JNum (NZ ms)) = Some (totp_code p (ms / 1000 / p_period p), p_period p).
Proof. apply generate_totp. Qed.

Lemma totp_generate_witness :
  generate (JStr (js "steam://GEZDGNBV")) (JNum (NZ 1111111109999))
  = Some (totp_code (Params steam_alg 5 30 (js "12345")) (1111111109999 / 1000 / 30), 30).
Proof. apply (totp_generate _ _ (Params steam_alg 5 30 (js "12345"))); [vm_compute; reflexivity|lia]. Defined.

(** C24: the two hash routines, written with signed 32-bit operators and in-place
    arrays, are SHA-1 and SHA-256 of FIPS 180-4 on every byte string. *)
Theorem hashes_are_fips m : bytes m -> sha1 m = SHA1 m /\ sha256 m = SHA256 m.
Proof. split; [by apply sha1_SHA1|by apply sha256_SHA256]. Qed.

Lemma hashes_are_fips_witness : sha1 (js "abc") = SHA1 (js "abc") /\ sha256 (js "abc") = SHA256 (js "abc").
Proof. apply hashes_are_fips, forallb_Forall. reflexivity. Defined.

(** [decodeBase32] reads any text as the whole bytes of its 5-bit groups,
    characters outside the alphabet skipped, and it undoes the RFC 4648 encoding
    of every byte string in either case. *)
Theorem base32_decodes :
  (forall s, decodeBase32 s = base32_bytes (text_groups s)) /\
  (forall secret, bytes secret -> decodeBase32 (map ascii_lower (base32_text secret)) = secret).
Proof. split; [apply decodeBase32_bytes|apply decode_text]. Qed.

(** A key that is accepted has one to nine digits, a period of at least a
    second that fits 32 bits, a secret of bytes, and five characters if it is a
    Steam key. *)
Theorem parseKey_wf key p : parseKey key = Some p -> params_wf p.
Proof. apply parseKey_params_wf. Qed.

Lemma parseKey_wf_witness : params_wf (Params sha256_alg 8 60 (js "12345")).
Proof.
  apply (parseKey_wf (JStr (js "otpauth://totp/x?secret=GEZDGNBV&digits=8&period=60&algorithm=SHA256"))).
  vm_compute. reflexivity.
Defined.
