(* ===== verification/SshAgent.v ===== *)
(** * The SSH companion and its supervisor ([BitwardenModel.js])

    The control protocol of the companion process that holds the decrypted SSH
    keys, and the supervisor that starts it, shakes hands with it, opens and
    closes the signing gate and restarts it with a bounded backoff.  The panel
    feeds one event at a time to [sshAgentReduce]; everything it may do in answer
    is in the returned action. *)

From Stdlib Require Import QArith_base Qround.
From S2P Require Import Prelude.
From S2P Require Import JsNum.
From S2P Require Import JsString.
From S2P Require Import JsValue.
From S2P Require Import Json.
From S2P Require Import JsUri.
Local Open Scope Z_scope.

(** ** Constants *)

Definition SSH_AGENT_CONTROL_VERSION : Z := 2.
Definition SSH_AGENT_MAX_LINE_BYTES : Z := 64 * 1024.
Definition SSH_AGENT_HANDSHAKE_TIMEOUT_MS : Z := 5000.
Definition SSH_AGENT_BACKOFF_BASE_MS : Z := 500.
Definition SSH_AGENT_BACKOFF_MAX_MS : Z := 30000.
Definition SSH_AGENT_MAX_RESTARTS : Z := 5.
Definition SSH_AGENT_APPROVAL_WINDOW_MAX_SEC : Z := 900.
Definition SSH_AGENT_HEALTHY_MS : Z := 60 * 1000.
Definition SSH_AGENT_ELSEWHERE_RETRY_MS : Z := 30 * 1000.

Definition SSH_AGENT_EVENT_TYPES : list (list Z) :=
  [js "ready"; js "unlock_required"; js "approval_required"; js "request_cancelled";
   js "keys_loaded"; js "public_key"; js "locked"; js "load_failed"; js "grants_changed";
   js "state_changed"; js "error"].

(** ** Paths *)

(** Drop trailing slashes while more than one unit is left. *)
Fixpoint strip_slashes (fuel : nat) (s : list Z) : list Z :=
  match fuel with
  | O => s
  | S fuel =>
      if (1 <? length s)%nat && bool_decide (last s = Some 47)
      then strip_slashes fuel (take (length s - 1) s) else s
  end.

Definition is_dot_segment (p : list Z) : bool := str_eqb p (js ".") || str_eqb p (js "..").

Definition cleanAbsoluteDir (dir : jsval) : list Z :=
  match dir with
  | JStr dir =>
      if starts_with (js "/") dir then
        let base := strip_slashes (length dir) dir in
        if existsb is_dot_segment (split_on (fun c => c =? 47) base) then [] else base
      else []
  | _ => []
  end.

(** [/^[a-zA-Z][a-zA-Z0-9+.-]*:/] *)
Definition has_scheme (s : list Z) : bool :=
  match s with
  | c :: r =>
      is_alpha c &&
      match (span (fun c => is_alnum c || (c =? 43) || (c =? 46) || (c =? 45)) r).2 with
      | x :: _ => x =? 58
      | [] => false
      end
  | [] => false
  end.

Definition pluginDirFromUrl (url : jsval) : list Z :=
  match url with
  | JStr [] => []
  | JStr raw =>
      if starts_with (js "file://") raw
      then match decodeURIComponent (drop (length (js "file://")) raw) with
           | Some decoded => cleanAbsoluteDir (JStr decoded)
           | None => []
           end
      else if has_scheme raw then []
      else match decodeURIComponent raw with
           | Some decoded => cleanAbsoluteDir (JStr decoded)
           | None => []
           end
  | _ => []
  end.

(** The whole environment of the helper; [None] is [null]. *)
Definition sshAgentHelperEnv (runtimeDir : jsval) : option (list (list Z * jsval)) :=
  match runtimeDir with
  | JStr d => if starts_with (js "/") d then Some [(js "XDG_RUNTIME_DIR", JStr d)] else None
  | _ => None
  end.

(** ** Control lines to the companion *)

Definition control_message (type : list Z) (fields : list (list Z * jsval)) : jsval :=
  JObj (fold_left (fun m kv => obj_set m kv.1 kv.2) (entries fields)
    [(js "v", JNum (NZ SSH_AGENT_CONTROL_VERSION)); (js "type", JStr type)]).

Definition agentControlLine (type : list Z) (fields : list (list Z * jsval)) : list Z :=
  stringify (control_message type fields) ++ [10].

Definition agentEpoch (epoch : jsval) : num := num_or0 (num_floor (to_number epoch)).

Definition sshAgentHelloLine : list Z := agentControlLine (js "hello") [].
Definition sshAgentShutdownLine : list Z := agentControlLine (js "shutdown") [].

(** [/^[0-9a-f]{32}$/] on a string *)
Definition isValidLoadId (value : jsval) : bool :=
  match value with
  | JStr s => (length s =? 32)%nat && forallb is_hex_lower s
  | _ => false
  end.

Definition sshAgentLoadBeginLine (epoch loadId : jsval) : list Z :=
  if isValidLoadId loadId
  then agentControlLine (js "key_load_begin") [(js "epoch", JNum (agentEpoch epoch)); (js "loadId", loadId)]
  else [].

Definition sshAgentLoadEndLine (epoch : jsval) (ok : jsval) : list Z :=
  agentControlLine (js "key_load_end")
    [(js "epoch", JNum (agentEpoch epoch)); (js "status", JStr (if truthy ok then js "ok" else js "failed"))].

Definition sshAgentVaultLockedLine (epoch : jsval) : list Z :=
  agentControlLine (js "vault_locked") [(js "epoch", JNum (agentEpoch epoch))].

Definition sshAgentLoggedOutLine : list Z := agentControlLine (js "vault_logged_out") [].

(** ** Lines from the companion *)

(** The loop of [utf8ByteLength]: a high surrogate also skips the unit after it. *)
Fixpoint utf8_count (fuel : nat) (t : list Z) (bytes : Z) : Z :=
  match fuel, t with
  | S fuel, code :: r =>
      if code <? 0x80 then utf8_count fuel r (bytes + 1)
      else if code <? 0x800 then utf8_count fuel r (bytes + 2)
      else if (0xd800 <=? code) && (code <=? 0xdbff) then utf8_count fuel (drop 1 r) (bytes + 4)
      else utf8_count fuel r (bytes + 3)
  | _, _ => bytes
  end.

Definition utf8ByteLength (t : list Z) : Z :=
  if SSH_AGENT_MAX_LINE_BYTES <? Z.of_nat (length t) then Z.of_nat (length t)
  else utf8_count (length t) t 0.

Inductive agent_line :=
| LineOk (message : list (list Z * jsval))
| LineErr (code : list Z) (fatal : bool).

Definition strip_last (c : Z) (t : list Z) : list Z :=
  if bool_decide (last t = Some c) then take (length t - 1) t else t.

Definition nonempty_string (v : jsval) : bool :=
  match v with JStr (_ :: _) => true | _ => false end.

Definition parseAgentEvent (line : jsval) : agent_line :=
  let text := strip_last 13 (strip_last 10 (text_present line)) in
  if bool_decide (text = []) then LineErr (js "EMPTY") false
  else if SSH_AGENT_MAX_LINE_BYTES <? utf8ByteLength text then LineErr (js "LINE_TOO_LONG") true
  else
    match parse text with
    | Some (JObj parsed) =>
        if negb (strict_eqb (obj_get parsed (js "v")) (JNum (NZ SSH_AGENT_CONTROL_VERSION)))
        then LineErr (js "VERSION_MISMATCH") true
        else
          match obj_get parsed (js "type") with
          | JStr type =>
              if existsb (str_eqb type) SSH_AGENT_EVENT_TYPES then
                if str_eqb type (js "ready")
                   && negb (nonempty_string (obj_get parsed (js "socketPath"))
                            && nonempty_string (obj_get parsed (js "fifoPath"))
                            && nonempty_string (obj_get parsed (js "agentVersion")))
                then LineErr (js "MALFORMED") true
                else LineOk parsed
              else LineErr (js "UNKNOWN_TYPE") true
          | _ => LineErr (js "UNKNOWN_TYPE") true
          end
    | _ => LineErr (js "MALFORMED") true
    end.

(** ** Backoff *)

(** [Math.pow(2, n)] for a non-negative integer. *)
Definition num_pow2 (n : Z) : num := if 1024 <=? n then Inf false else NZ (2 ^ n).

Definition sshAgentRestartDelayMs (failures : jsval) : num :=
  match num_floor (to_number failures) with
  | Fin q =>
      if num_ltb (Fin q) (NZ 1) then NZ SSH_AGENT_BACKOFF_BASE_MS
      else num_min (NZ SSH_AGENT_BACKOFF_MAX_MS)
             (num_mul (NZ SSH_AGENT_BACKOFF_BASE_MS) (num_pow2 (Qfloor q - 1)))
  | _ => NZ SSH_AGENT_BACKOFF_BASE_MS
  end.

(** ** Supervisor state *)

Inductive phase := disabled | starting | handshaking | ready | restarting | backoff | elsewhere | failed.

#[export] Instance phase_eq_dec : EqDecision phase.
Proof. solve_decision. Defined.

Record agent_state := AgentState {
  phase_of : phase;
  gateOpen : bool;
  socketPath : jsval;
  fifoPath : jsval;
  agentVersion : jsval;
  failures : Z;
  readyAtMs : num;
  errorCode : list Z;
  errorMessage : list Z
}.

Record agent_action := AgentAction {
  start : bool;
  stop : bool;
  writeHello : bool;
  cancelRestart : bool;
  restartInMs : num;
  message : jsval
}.

Definition sshAgentInitialState : agent_state :=
  AgentState disabled false (JStr []) (JStr []) (JStr []) 0 (NZ 0) [] [].

Definition sshAgentNoAction : agent_action := AgentAction false false false false (NZ (-1)) JNull.

(** [None] is a missing state. *)
Definition sshAgentCopyState (state : option agent_state) : agent_state :=
  let src := default sshAgentInitialState state in
  AgentState (phase_of src) (gateOpen src) (socketPath src) (fifoPath src) (agentVersion src)
    (failures src) (readyAtMs src) (errorCode src) (errorMessage src).

Definition SSH_AGENT_ERROR_MESSAGES : list (list Z * jsval) :=
  [(js "MALFORMED", JStr (js "The SSH agent helper sent something the panel could not read."));
   (js "LINE_TOO_LONG", JStr (js "The SSH agent helper sent an oversized message."));
   (js "VERSION_MISMATCH", JStr (js "The SSH agent helper does not match this version of the plugin."));
   (js "UNKNOWN_TYPE", JStr (js "The SSH agent helper does not match this version of the plugin."));
   (js "PROTOCOL", JStr (js "The SSH agent helper broke its side of the control protocol."));
   (js "HANDSHAKE_TIMEOUT", JStr (js "The SSH agent helper did not finish starting up."));
   (js "EXITED", JStr (js "The SSH agent helper stopped unexpectedly."));
   (js "CRASH_LOOP", JStr (js "The SSH agent helper keeps failing to start, so it has been left off."));
   (js "ELSEWHERE", JStr (js "Another process is already serving the SSH agent on this machine -- another Omarchy shell, most likely. This one is standing by and will take over when it stops."))].

(** The reducer only passes codes of the table; on any other string the lookup
    falls back to [EXITED] (or to a member of [Object.prototype]). *)
Definition sshAgentErrorMessage (code : list Z) : list Z :=
  to_string (js_or (obj_get SSH_AGENT_ERROR_MESSAGES code) (obj_get SSH_AGENT_ERROR_MESSAGES (js "EXITED"))).

(** ** Transitions *)

(** The events the panel raises, each with the clock. *)
Inductive event_kind :=
| EvEnabled (value : jsval)
| EvStarted
| EvHandshakeTimeout
| EvLine (line : jsval)
| EvExited (lockHeld : jsval)
| EvRestartTimer
| EvOther.

Record agent_event := AgentEvent { kind : event_kind; ev_nowMs : jsval }.

(** [sshAgentFailMidRun], on the copied state and the action. *)
Definition sshAgentFailMidRun (next : agent_state) (action : agent_action) (code : list Z)
  : agent_state * agent_action :=
  (AgentState restarting false (socketPath next) (fifoPath next) (agentVersion next)
     (failures next) (readyAtMs next) code (sshAgentErrorMessage code),
   AgentAction (start action) true (writeHello action) true (restartInMs action) (message action)).

Definition wasHealthy (state : agent_state) (nowMs : num) : bool :=
  num_ltb (NZ 0) (readyAtMs state) && num_leb (NZ SSH_AGENT_HEALTHY_MS) (num_sub nowMs (readyAtMs state)).

Definition sshAgentFailOnExit (state next : agent_state) (action : agent_action) (nowMs : num)
  : agent_state * agent_action :=
  let '(code, msg) := if bool_decide (errorCode next = [])
                      then (js "EXITED", sshAgentErrorMessage (js "EXITED"))
                      else (errorCode next, errorMessage next) in
  let n := (if wasHealthy state nowMs then 0 else failures state) + 1 in
  if SSH_AGENT_MAX_RESTARTS <? n
  then (AgentState failed false (JStr []) (JStr []) (JStr []) n (NZ 0)
          (js "CRASH_LOOP") (sshAgentErrorMessage (js "CRASH_LOOP")),
        AgentAction (start action) (stop action) (writeHello action) (cancelRestart action) (NZ (-1)) (message action))
  else (AgentState backoff false (JStr []) (JStr []) (JStr []) n (NZ 0) code msg,
        AgentAction (start action) (stop action) (writeHello action) (cancelRestart action)
          (sshAgentRestartDelayMs (JNum (NZ n))) (message action)).

Definition set_phase (s : agent_state) (p : phase) : agent_state :=
  AgentState p (gateOpen s) (socketPath s) (fifoPath s) (agentVersion s)
    (failures s) (readyAtMs s) (errorCode s) (errorMessage s).

Definition sshAgentReduce (state : option agent_state) (ev : agent_event) : agent_state * agent_action :=
  let current := default sshAgentInitialState state in
  let next := sshAgentCopyState (Some current) in
  let action := sshAgentNoAction in
  let nowMs := num_or0 (to_number (ev_nowMs ev)) in
  match kind ev with
  | EvEnabled value =>
      if negb (truthy value) then
        if bool_decide (phase_of current = disabled) then (next, action)
        else (sshAgentInitialState, AgentAction false true false true (NZ (-1)) JNull)
      else if negb (bool_decide (phase_of current = disabled)) && negb (bool_decide (phase_of current = failed))
      then (next, action)
      else (set_phase sshAgentInitialState starting, AgentAction true false false false (NZ (-1)) JNull)
  | k =>
      if bool_decide (phase_of current = disabled) || bool_decide (phase_of current = failed) then (next, action)
      else
        match k with
        | EvStarted =>
            if negb (bool_decide (phase_of current = starting)) then (next, action)
            else (set_phase next handshaking, AgentAction false false true false (NZ (-1)) JNull)
        | EvHandshakeTimeout =>
            if negb (bool_decide (phase_of current = starting)) && negb (bool_decide (phase_of current = handshaking))
            then (next, action)
            else sshAgentFailMidRun next action (js "HANDSHAKE_TIMEOUT")
        | EvLine line =>
            if negb (bool_decide (phase_of current = handshaking)) && negb (bool_decide (phase_of current = ready))
            then (next, action)
            else
              match parseAgentEvent line with
              | LineErr code fatal =>
                  if negb fatal then (next, action) else sshAgentFailMidRun next action code
              | LineOk msg =>
                  let isReady := strict_eqb (obj_get msg (js "type")) (JStr (js "ready")) in
                  if negb (Bool.eqb isReady (bool_decide (phase_of current = handshaking)))
                  then sshAgentFailMidRun next action (js "PROTOCOL")
                  else if isReady
                  then (AgentState ready true (obj_get msg (js "socketPath")) (obj_get msg (js "fifoPath"))
                          (obj_get msg (js "agentVersion")) (failures next) nowMs [] [], action)
                  else (next, AgentAction false false false false (NZ (-1)) (JObj msg))
              end
        | EvExited lockHeld =>
            if is_true lockHeld && num_eqb (readyAtMs current) (NZ 0)
            then (AgentState elsewhere false (JStr []) (JStr []) (JStr []) (failures next) (readyAtMs next)
                    (js "ELSEWHERE") (sshAgentErrorMessage (js "ELSEWHERE")),
                  AgentAction false false false false (NZ SSH_AGENT_ELSEWHERE_RETRY_MS) JNull)
            else sshAgentFailOnExit current next action nowMs
        | EvRestartTimer =>
            if negb (bool_decide (phase_of current = backoff)) && negb (bool_decide (phase_of current = elsewhere))
            then (next, action)
            else (set_phase next starting, AgentAction true false false false (NZ (-1)) JNull)
        | _ => (next, action)
        end
  end.

(** The supervisor as a transition system: the panel keeps the state it gets back
    and feeds it to the next event. *)
Definition agent_step (s s' : agent_state) : Prop := exists ev, s' = (sshAgentReduce (Some s) ev).1.
Definition agent_reachable (s : agent_state) : Prop := rtc agent_step sshAgentInitialState s.
