(* ===== verification/SshAgentCorrect.v ===== *)
(** * Correctness of the SSH companion's supervisor

    The invariant of every reachable supervisor state, who may open the signing
    gate, the crash-loop bound, and the control protocol's line format. *)

From Stdlib Require Import QArith_base Qround.
From S2P Require Import Prelude.
From S2P Require Import JsNum.
From S2P Require Import JsString.
From S2P Require Import JsValue.
From S2P Require Import Json.
From S2P Require Import JsUri.
From S2P Require Import SshAgent.
Local Open Scope Z_scope.

#[local] Opaque sshAgentErrorMessage.

(** ** Lines from the companion *)

Definition error_codes : list (list Z) := SSH_AGENT_ERROR_MESSAGES.*1.

(** A message the panel acts on. *)
Definition well_formed_message (m : list (list Z * jsval)) : Prop :=
  strict_eqb (obj_get m (js "v")) (JNum (NZ SSH_AGENT_CONTROL_VERSION)) = true /\
  exists type, obj_get m (js "type") = JStr type /\ type ∈ SSH_AGENT_EVENT_TYPES /\
    (type = js "ready" ->
       nonempty_string (obj_get m (js "socketPath")) = true /\
       nonempty_string (obj_get m (js "fifoPath")) = true /\
       nonempty_string (obj_get m (js "agentVersion")) = true).

Lemma existsb_str_eqb t l : existsb (str_eqb t) l = true <-> t ∈ l.
Proof.
  rewrite existsb_exists. setoid_rewrite str_eqb_eq. setoid_rewrite <- list_elem_of_In. naive_solver.
Qed.

Lemma parseAgentEvent_ok line m :
  parseAgentEvent line = LineOk m -> well_formed_message m.
Proof.
  unfold parseAgentEvent. intros H. repeat (case_match; try discriminate H). injection H as <-.
  match goal with E : negb _ = false |- _ => apply negb_false_iff in E; split; [exact E|] end.
  eexists. split; [eassumption|]. split; [by apply existsb_str_eqb|]. intros ->.
  match goal with E : _ && negb _ = false |- _ => rewrite str_eqb_refl in E; apply negb_false_iff in E; boolZ end.
  auto.
Qed.

Lemma parseAgentEvent_err line code fatal :
  parseAgentEvent line = LineErr code fatal ->
  (fatal = true /\ code ∈ [js "MALFORMED"; js "LINE_TOO_LONG"; js "VERSION_MISMATCH"; js "UNKNOWN_TYPE"])
  \/ (fatal = false /\ code = js "EMPTY").
Proof.
  unfold parseAgentEvent. intros H.
  repeat (case_match; try discriminate H); injection H as <- <-; (by right) || (left; split; [done|]; set_solver).
Qed.

(** ** The invariant *)

Definition running_or_dying (p : phase) : bool := match p with ready | restarting => true | _ => false end.

Record agent_inv (s : agent_state) : Prop := {
  inv_gate : gateOpen s = bool_decide (phase_of s = ready);
  inv_paths : phase_of s = ready ->
    nonempty_string (socketPath s) = true /\ nonempty_string (fifoPath s) = true
    /\ nonempty_string (agentVersion s) = true;
  inv_closed : running_or_dying (phase_of s) = false ->
    socketPath s = JStr [] /\ fifoPath s = JStr [] /\ agentVersion s = JStr [] /\ num_eqb (readyAtMs s) (NZ 0) = true;
  inv_failures : 0 <= failures s;
  inv_restarts : phase_of s <> failed -> failures s <= 5;
  inv_failed : phase_of s = failed -> failures s = SSH_AGENT_MAX_RESTARTS + 1 /\ errorCode s = js "CRASH_LOOP";
  inv_error : (errorCode s = [] /\ errorMessage s = [])
    \/ (errorCode s ∈ error_codes /\ errorMessage s = sshAgentErrorMessage (errorCode s));
  inv_disabled : phase_of s = disabled -> s = sshAgentInitialState
}.

Lemma agent_inv_initial : agent_inv sshAgentInitialState.
Proof. split; cbn; try done; try lia. auto. Qed.

Lemma copy_state s : sshAgentCopyState (Some s) = s.
Proof. by destruct s. Qed.

Lemma known_code c : existsb (str_eqb c) error_codes = true -> c ∈ error_codes.
Proof. apply existsb_str_eqb. Qed.

Ltac by_known_code := apply known_code; vm_compute; reflexivity.

(** A fatal parse result carries a code of the message table. *)
Lemma fatal_code line code : parseAgentEvent line = LineErr code true -> code ∈ error_codes.
Proof.
  intros [[_ H]|[? _]]%parseAgentEvent_err; [|done].
  repeat (apply elem_of_cons in H as [->|H]; [by_known_code|]). by apply elem_of_nil in H.
Qed.

Lemma fail_mid_run_inv s action code :
  agent_inv s -> phase_of s <> failed -> code ∈ error_codes -> agent_inv (sshAgentFailMidRun s action code).1.
Proof.
  intros [] Hf Hc. split; cbn; try done; try (by right). auto.
Qed.

Lemma fail_on_exit_inv s action nowMs :
  agent_inv s -> phase_of s <> failed -> agent_inv (sshAgentFailOnExit s s action nowMs).1.
Proof.
  intros Hs Hf. pose proof (inv_failures s Hs). pose proof (inv_restarts s Hs Hf).
  assert (Hn' : 1 <= (if wasHealthy s nowMs then 0 else failures s) + 1 <= 6)
    by (unfold SSH_AGENT_MAX_RESTARTS in *; destruct (wasHealthy s nowMs); lia).
  unfold sshAgentFailOnExit. set (n := _ + 1) in *.
  destruct (bool_decide (errorCode s = [])) eqn:Ee; destruct (Z.ltb_spec SSH_AGENT_MAX_RESTARTS n); cbn [fst].
  all: unfold SSH_AGENT_MAX_RESTARTS in *; constructor; cbn [phase_of gateOpen failures readyAtMs errorCode errorMessage
    socketPath fifoPath agentVersion running_or_dying]; try discriminate; try reflexivity; try lia; auto.
  all: try (intros []; reflexivity).
  all: try (intros _; split; [unfold SSH_AGENT_MAX_RESTARTS; lia|reflexivity]).
  all: try (right; split; [by_known_code|reflexivity]).
  apply bool_decide_eq_false in Ee. right. destruct (inv_error s Hs) as [[? _]|?]; [contradiction|assumption].
Qed.

(** Moving between phases in which nothing runs yet. *)
Lemma set_phase_inv s p :
  agent_inv s -> phase_of s <> failed -> running_or_dying (phase_of s) = false ->
  p = starting \/ p = handshaking -> agent_inv (set_phase s p).
Proof.
  intros [] Hf Hr Hp. split; cbn; try done; auto.
  - rewrite inv_gate0. by destruct Hp as [-> | ->], (phase_of s).
  - by destruct Hp as [-> | ->].
  - by destruct Hp as [-> | ->].
  - by destruct Hp as [-> | ->].
Qed.

(** Every event keeps the invariant. *)
Lemma agent_reduce_inv s ev : agent_inv s -> agent_inv (sshAgentReduce (Some s) ev).1.
Proof.
  intros Hs. unfold sshAgentReduce. cbn [default from_option id]. rewrite copy_state.
  destruct (kind ev) as [v| | |line|held| |].
  all: repeat match goal with
    | |- context [if ?b then _ else _] => destruct b eqn:?; cbn [fst]; try exact Hs
    | |- context [match parseAgentEvent ?l with _ => _ end] => destruct (parseAgentEvent l) as [m|code fatal] eqn:?
    end; boolZ.
  all: repeat match goal with H : bool_decide _ = _ |- _ =>
    first [apply bool_decide_eq_true in H | apply bool_decide_eq_false in H] end.
  all: try exact agent_inv_initial.
  all: try (apply fail_mid_run_inv; [done|congruence|by_known_code]).
  all: try (apply fail_on_exit_inv; congruence).
  - apply set_phase_inv; auto using agent_inv_initial.
  - apply set_phase_inv; auto; by rewrite Heqb0.
  - destruct (parseAgentEvent_ok _ _ Heqa) as (_ & type & Ht & _ & Hr).
    apply eqb_prop in Heqb1. rewrite Ht in Heqb2. cbn [strict_eqb] in Heqb2. apply str_eqb_eq in Heqb2.
    pose proof (inv_failures s Hs). pose proof (inv_restarts s Hs).
    split; cbn; try done; auto.
  - apply fail_mid_run_inv; [done|done|]. subst. by eapply fatal_code.
  - pose proof (inv_failures s Hs). pose proof (inv_restarts s Hs).
    split; cbn; try done; auto. right. split; [by_known_code|done].
  - apply set_phase_inv; auto. by destruct (phase_of s).
Qed.

Lemma agent_reachable_ok s : agent_reachable s -> agent_inv s.
Proof.
  apply (rtc_ind_r agent_inv); [apply agent_inv_initial|].
  intros x y _ [ev ->] Hx. by apply agent_reduce_inv.
Qed.

(** ** The gate *)

(** Case analysis on everything one transition looks at. *)
Ltac reduce_cases ev :=
  unfold sshAgentReduce; cbn [default from_option id]; rewrite copy_state;
  destruct (kind ev) as [v| | |line|held| |];
  repeat match goal with
    | |- context [if ?b then _ else _] => destruct b eqn:?
    | |- context [match parseAgentEvent ?l with _ => _ end] => destruct (parseAgentEvent l) as [m|code fatal] eqn:?
    end; boolZ;
  repeat match goal with H : bool_decide _ = _ |- _ =>
    first [apply bool_decide_eq_true in H | apply bool_decide_eq_false in H] end.

(** [sshAgentFailOnExit] always ends in [backoff] or [failed] with the gate shut. *)
Lemma fail_on_exit_shape s next action nowMs :
  exists p n code msg act, sshAgentFailOnExit s next action nowMs
    = (AgentState p false (JStr []) (JStr []) (JStr []) n (NZ 0) code msg, act)
    /\ n = (if wasHealthy s nowMs then 0 else failures s) + 1
    /\ p = (if SSH_AGENT_MAX_RESTARTS <? n then failed else backoff)
    /\ start act = start action.
Proof.
  unfold sshAgentFailOnExit. destruct (if bool_decide (errorCode next = []) then _ else _) as [code msg].
  set (n := _ + 1). destruct (SSH_AGENT_MAX_RESTARTS <? n) eqn:E; eexists _, n, _, _, _; by rewrite E.
Qed.

Lemma gate_open_cause s ev s' act :
  sshAgentReduce (Some s) ev = (s', act) -> gateOpen s = false -> gateOpen s' = true ->
  phase_of s = handshaking /\
  exists line m, kind ev = EvLine line /\ parseAgentEvent line = LineOk m
    /\ obj_get m (js "type") = JStr (js "ready")
    /\ phase_of s' = ready /\ socketPath s' = obj_get m (js "socketPath")
    /\ fifoPath s' = obj_get m (js "fifoPath") /\ agentVersion s' = obj_get m (js "agentVersion").
Proof.
  intros H Hc Ho. revert H. reduce_cases ev.
  all: try (intros [= <- <-]; cbn in Ho; congruence).
  - intros [= <- <-]. apply eqb_prop in Heqb1. symmetry in Heqb1.
    apply bool_decide_eq_true in Heqb1. split; [done|]. exists line, m. split_and!; try done.
    destruct (obj_get m (js "type")); cbn [strict_eqb] in Heqb2; try discriminate. by apply str_eqb_eq in Heqb2 as ->.
  - destruct (fail_on_exit_shape s s sshAgentNoAction (num_or0 (to_number (ev_nowMs ev)))) as (?&?&?&?&?&E&_).
    rewrite E. intros [= <- <-]. discriminate Ho.
Qed.

(** While the gate stays open, nothing of the state changes. *)
Lemma gate_stays_open s ev s' act :
  sshAgentReduce (Some s) ev = (s', act) -> phase_of s = ready -> gateOpen s' = true ->
  s' = s /\ (forall held, kind ev <> EvExited held) /\
  (forall line, kind ev = EvLine line ->
     parseAgentEvent line = LineErr (js "EMPTY") false \/
     exists m, parseAgentEvent line = LineOk m /\ obj_get m (js "type") <> JStr (js "ready")).
Proof.
  intros H Hr Ho. revert H. reduce_cases ev; try congruence.
  all: try (match goal with E : _ = _ :> bool |- _ => rewrite Hr in E; discriminate E end).
  all: try (intros [= <- <-]; cbn in Ho; first [discriminate Ho | split_and!; [done|done|intros ? [=]]; fail]).
  - intros [= <- <-]. split_and!; [done|done|]. intros ? [= <-]. right. exists m. split; [done|].
    intros E. by rewrite E in Heqb2.
  - intros [= <- <-]. subst. split_and!; [done|done|]. intros ? [= <-]. left.
    destruct (parseAgentEvent_err _ _ _ Heqa) as [[? _]|[_ ->]]; done.
  - destruct (fail_on_exit_shape s s sshAgentNoAction (num_or0 (to_number (ev_nowMs ev)))) as (?&?&?&?&?&E&_).
    rewrite E. intros [= <- <-]. discriminate Ho.
Qed.

(** ** Crash loops *)

(** One transition, as a labelled run; [start] requests are counted. *)
Fixpoint run (s : agent_state) (evs : list agent_event) : agent_state * Z :=
  match evs with
  | [] => (s, 0)
  | ev :: evs =>
      let '(s', act) := sshAgentReduce (Some s) ev in
      let '(s'', n) := run s' evs in
      (s'', n + if start act then 1 else 0)
  end.

(** An event that is neither a user decision nor an exit that counts as anything
    but a quick death. *)
Definition quick_death_only (s : agent_state) (ev : agent_event) : bool :=
  match kind ev with
  | EvEnabled _ => false
  | EvExited held => negb (is_true held) && negb (wasHealthy s (num_or0 (to_number (ev_nowMs ev))))
  | _ => true
  end.

Fixpoint quick_deaths (s : agent_state) (evs : list agent_event) : bool :=
  match evs with
  | [] => true
  | ev :: evs => quick_death_only s ev && quick_deaths (sshAgentReduce (Some s) ev).1 evs
  end.

(** Restarts the supervisor may still ask for. *)
Definition restarts_left (s : agent_state) : Z :=
  match phase_of s with
  | disabled | failed => 0
  | backoff | elsewhere => SSH_AGENT_MAX_RESTARTS - failures s + 1
  | _ => SSH_AGENT_MAX_RESTARTS - failures s
  end.

Lemma restart_budget s ev s' act :
  agent_inv s -> quick_death_only s ev = true -> sshAgentReduce (Some s) ev = (s', act) ->
  (if start act then 1 else 0) + restarts_left s' <= restarts_left s.
Proof.
  intros Hs Hq H. pose proof (inv_restarts s Hs) as Hr. unfold quick_death_only in Hq.
  unfold restarts_left, SSH_AGENT_MAX_RESTARTS. revert Hq H. reduce_cases ev; intros Hq; try discriminate Hq.
  all: try (rewrite andb_true_iff, !negb_true_iff in Hq; destruct Hq as [Hh Hw]).
  all: try (rewrite Hh in *; discriminate).
  all: try (destruct (fail_on_exit_shape s s sshAgentNoAction (num_or0 (to_number (ev_nowMs ev))))
              as (p & n & code' & msg & act' & E & Hn & Hp & Ha);
            rewrite E; rewrite Hw in Hn; unfold SSH_AGENT_MAX_RESTARTS in Hp; destruct (Z.ltb_spec 5 n); subst p).
  all: intros [= <- <-]; cbn in *; try congruence.
  all: try (destruct (phase_of s) eqn:?; cbn in *; try congruence; try lia; specialize (Hr ltac:(congruence)); lia).
  destruct (phase_of s); try lia; discriminate Heqb0.
Qed.

Lemma quick_death_bound s evs :
  agent_inv s -> quick_deaths s evs = true -> (run s evs).2 + restarts_left (run s evs).1 <= restarts_left s.
Proof.
  revert s. induction evs as [|ev evs IH]; intros s Hs Hq; cbn [run quick_deaths] in *; [cbn; lia|].
  apply andb_true_iff in Hq as [Hq Hqs]. pose proof (restart_budget s ev) as Hb.
  pose proof (agent_reduce_inv s ev Hs) as Hs'. destruct (sshAgentReduce (Some s) ev) as [s' act].
  specialize (Hb s' act Hs Hq eq_refl). specialize (IH s' Hs' Hqs). cbn [fst] in *.
  destruct (run s' evs) as [s'' n]. cbn [fst snd] in *. lia.
Qed.

Lemma restarts_left_range s : agent_inv s -> 0 <= restarts_left s <= 6.
Proof.
  intros Hs. pose proof (inv_restarts s Hs) as Hr. pose proof (inv_failures s Hs).
  unfold restarts_left, SSH_AGENT_MAX_RESTARTS. destruct (phase_of s); try lia; specialize (Hr ltac:(done)); lia.
Qed.

(** A crash-loop verdict stands until the user toggles the feature. *)
Lemma failed_step s ev : phase_of s = failed -> (forall v, kind ev <> EvEnabled v) ->
  sshAgentReduce (Some s) ev = (s, sshAgentNoAction).
Proof.
  intros Hf He. reduce_cases ev; try congruence; try (by destruct (He v)).
  all: match goal with E : _ = _ :> bool |- _ => rewrite Hf in E; discriminate E end.
Qed.

Lemma failed_run s evs : phase_of s = failed -> Forall (fun ev => forall v, kind ev <> EvEnabled v) evs ->
  run s evs = (s, 0).
Proof.
  intros Hf Hevs. induction Hevs as [|ev evs He Hevs IH]; [done|]. cbn [run].
  by rewrite failed_step, IH.
Qed.

(** ** Backoff *)

Lemma restart_delays :
  forallb (fun n => num_eqb (sshAgentRestartDelayMs (JNum (NZ (Z.of_nat n))))
                            (NZ (Z.min 30000 (500 * 2 ^ (Z.of_nat n - 1))))) (seq 1 1100) = true.
Proof. vm_compute. reflexivity. Qed.

Lemma restart_delay n : 1 <= n ->
  num_eqb (sshAgentRestartDelayMs (JNum (NZ n))) (NZ (Z.min 30000 (500 * 2 ^ (n - 1)))) = true.
Proof.
  intros Hn. destruct (Z.le_gt_cases n 1100) as [Hs|Hl].
  - pose proof restart_delays as H. rewrite forallb_forall in H. specialize (H (Z.to_nat n)).
    rewrite Z2Nat.id in H by lia. apply H, in_seq. lia.
  - unfold sshAgentRestartDelayMs. cbn [to_number num_floor NZ]. unfold Qfloor. rewrite Z.div_1_r.
    fold (NZ n). rewrite num_ltb_NZ. destruct (Z.ltb_spec n 1); [lia|]. rewrite Z.div_1_r.
    unfold num_pow2. destruct (Z.leb_spec 1024 (n - 1)); [|lia].
    replace (Z.min 30000 (500 * 2 ^ (n - 1))) with 30000; [reflexivity|].
    assert (2 ^ 10 <= 2 ^ (n - 1)) by (apply Z.pow_le_mono_r; lia). lia.
Qed.

(** ** Paths *)

(** ** Recovery *)

Definition tick (k : event_kind) : agent_event := AgentEvent k (JNum (NZ 1)).

Lemma run_cons s ev evs : (run s (ev :: evs)).1 = (run (sshAgentReduce (Some s) ev).1 evs).1.
Proof. cbn [run]. destruct (sshAgentReduce (Some s) ev) as [s' act]. cbn [fst]. by destruct (run s' evs). Qed.

Lemma started_step s : phase_of s = starting -> (sshAgentReduce (Some s) (tick EvStarted)).1 = set_phase s handshaking.
Proof. intros Hp. unfold sshAgentReduce. cbn [kind tick default id]. rewrite Hp, copy_state. reflexivity. Qed.

Lemma timer_step s : phase_of s = backoff \/ phase_of s = elsewhere -> (sshAgentReduce (Some s) (tick EvRestartTimer)).1 = set_phase s starting.
Proof. intros [Hp|Hp]; unfold sshAgentReduce; cbn [kind tick default id]; rewrite Hp, copy_state; reflexivity. Qed.

Lemma exit_step s : phase_of s = restarting -> failures s < SSH_AGENT_MAX_RESTARTS ->
  phase_of (sshAgentReduce (Some s) (tick (EvExited (JBool false)))).1 = backoff.
Proof.
  intros Hp Hf. unfold sshAgentReduce. cbn [kind tick default id]. rewrite Hp. cbn [bool_decide decide_rel orb is_true andb].
  match goal with |- context [sshAgentFailOnExit ?a ?b ?c ?d] => destruct (fail_on_exit_shape a b c d) as (p & n & code & msg & act & E & Hn & Hph & _) end.
  rewrite copy_state in E. cbn [ev_nowMs] in *. rewrite copy_state, E. cbn [fst].
  destruct (SSH_AGENT_MAX_RESTARTS <? n) eqn:L; [|done]. exfalso. apply Z.ltb_lt in L. rewrite Hn in L. destruct (wasHealthy _ _); unfold SSH_AGENT_MAX_RESTARTS in *; lia.
Qed.

Definition is_ready_line (line : jsval) : Prop := exists m, parseAgentEvent line = LineOk m /\ obj_get m (js "type") = JStr (js "ready").

Lemma ready_step s line : phase_of s = handshaking -> is_ready_line line -> gateOpen (sshAgentReduce (Some s) (tick (EvLine line))).1 = true.
Proof.
  intros Hp (m & Hl & Ht). unfold sshAgentReduce. cbn [kind tick default id]. rewrite Hp. cbn [bool_decide decide_rel orb andb negb].
  rewrite Hl. cbv zeta. rewrite Ht. cbn [strict_eqb]. by rewrite str_eqb_refl.
Qed.

(** A started companion that answers with a ready line opens the gate. *)
Lemma starting_opens s line : phase_of s = starting -> is_ready_line line -> gateOpen (run s [tick EvStarted; tick (EvLine line)]).1 = true.
Proof. intros Hp Hl. rewrite !run_cons, started_step by done. apply ready_step; [by destruct s|done]. Qed.

Lemma toggle_starts s :
  phase_of (run s [tick (EvEnabled (JBool false)); tick (EvEnabled (JBool true))]).1 = starting.
Proof. destruct s as [[] ? ? ? ? ? ? ? ?]; reflexivity. Qed.

Lemma run_app s evs evs' : (run s (evs ++ evs')).1 = (run (run s evs).1 evs').1.
Proof. revert s. induction evs as [|ev evs IH]; intros s; [done|]. cbn [app]. by rewrite !run_cons, IH. Qed.

(** Events the user has no part in. *)
Definition no_toggle (ev : agent_event) : Prop := forall v, kind ev <> EvEnabled v.

Lemma live_recovers s line : agent_inv s -> is_ready_line line -> phase_of s <> disabled -> phase_of s <> failed ->
  failures s < SSH_AGENT_MAX_RESTARTS ->
  exists evs, (length evs <= 4)%nat /\ Forall no_toggle evs /\ gateOpen (run s evs).1 = true.
Proof.
  intros Hi Hl Hd Hf Hn. set (go := [tick EvStarted; tick (EvLine line)]).
  assert (Hgo : Forall no_toggle go) by (repeat constructor; by intros ?).
  destruct (phase_of s) eqn:Hp; try done.
  - exists go. split_and!; [cbn; lia|done|by apply starting_opens].
  - exists [tick (EvLine line)]. split_and!; [cbn; lia|by inversion Hgo|]. rewrite run_cons. by apply ready_step.
  - exists []. split_and!; [cbn; lia|constructor|]. cbn. rewrite (inv_gate s Hi). by apply bool_decide_eq_true.
  - exists (tick (EvExited (JBool false)) :: tick EvRestartTimer :: go).
    split_and!; [cbn; lia|repeat (constructor; [by intros ?|]); done|].
    rewrite !run_cons, timer_step by (left; by apply exit_step). apply starting_opens; [by destruct (sshAgentReduce _ _).1|done].
  - exists (tick EvRestartTimer :: go). split_and!; [cbn; lia|by constructor|]. rewrite run_cons, timer_step by auto. apply starting_opens; [by destruct s|done].
  - exists (tick EvRestartTimer :: go). split_and!; [cbn; lia|by constructor|]. rewrite run_cons, timer_step by auto. apply starting_opens; [by destruct s|done].
Qed.

Lemma strip_slashes_spec fuel s :
  (length s <= fuel)%nat -> starts_with (js "/") s = true ->
  exists r, strip_slashes fuel s = r /\ starts_with (js "/") r = true
    /\ (r = js "/" \/ last r <> Some 47) /\ r `prefix_of` s.
Proof.
  revert s. induction fuel as [|fuel IH]; intros s Hl Hs.
  { destruct s; [done|cbn in Hl; lia]. }
  cbn [strip_slashes]. destruct (Nat.ltb_spec 1 (length s)); cbn [andb].
  - destruct (bool_decide (last s = Some 47)) eqn:E.
    + destruct (IH (take (length s - 1) s)) as (r & Hr & Hh & Hlast & Hp).
      * rewrite length_take. lia.
      * destruct s as [|c [|d s]]; cbn in *; [done|lia|done].
      * exists r. split_and!; try done. etransitivity; [done|]. apply prefix_take.
    + apply bool_decide_eq_false in E. exists s. split_and!; auto.
  - exists s. split_and!; auto. left. destruct s as [|c [|d s]]; cbn in *; [done| |lia].
    apply andb_true_iff in Hs as [->%Z.eqb_eq _]. done.
Qed.

(** A directory that passes: absolute, no dot segment, no trailing slash. *)
Definition clean_dir (d : list Z) : Prop :=
  starts_with (js "/") d = true /\ (d = js "/" \/ last d <> Some 47)
  /\ Forall (fun p => is_dot_segment p = false) (split_on (fun c => c =? 47) d).

Lemma cleanAbsoluteDir_clean v : cleanAbsoluteDir v = [] \/ clean_dir (cleanAbsoluteDir v).
Proof.
  destruct v as [| | | |dir| | |]; try (by left). cbn [cleanAbsoluteDir].
  destruct (starts_with (js "/") dir) eqn:Hs; [|by left].
  destruct (strip_slashes_spec (length dir) dir) as (r & -> & Hh & Hlast & _); [done|done|].
  destruct (existsb is_dot_segment _) eqn:E; [by left|right]. split_and!; try done.
  apply Forall_forall. intros p Hp. apply not_true_iff_false. intros Ht.
  apply not_true_iff_false in E. apply E, existsb_exists. exists p. by rewrite <- list_elem_of_In.
Qed.

Lemma strip_slashes_id fuel s : (s = js "/" \/ last s <> Some 47) -> strip_slashes fuel s = s.
Proof.
  intros Hs. destruct fuel; [done|]. cbn [strip_slashes]. destruct Hs as [->|Hs]; [done|].
  by rewrite bool_decide_false, andb_false_r.
Qed.

(** Clean directories are left alone. *)
Lemma cleanAbsoluteDir_id d : clean_dir d -> cleanAbsoluteDir (JStr d) = d.
Proof.
  intros (Hs & Hl & Hd). cbn [cleanAbsoluteDir]. rewrite Hs, strip_slashes_id by done.
  replace (existsb _ _) with false; [done|]. symmetry. apply not_true_iff_false. rewrite existsb_exists.
  intros (p & Hp & Ht). rewrite Forall_forall in Hd. rewrite Hd in Ht; [done|]. by apply list_elem_of_In.
Qed.

Lemma pluginDirFromUrl_clean v : pluginDirFromUrl v = [] \/ clean_dir (pluginDirFromUrl v).
Proof.
  destruct v as [| | | |[|c s]| | |]; try (by left). cbn [pluginDirFromUrl].
  repeat case_match; try (by left); apply cleanAbsoluteDir_clean.
Qed.

(** ** Accepted lines *)

Lemma parseAgentEvent_complete m :
  json_clean (JObj m) = true -> well_formed_message m ->
  utf8ByteLength (stringify (JObj m)) <= SSH_AGENT_MAX_LINE_BYTES ->
  parseAgentEvent (JStr (stringify (JObj m) ++ [10])) = LineOk m.
Proof.
  intros Hc (Hv & type & Ht & Hin & Hr) Hlen. unfold parseAgentEvent, text_present. cbn [is_nullish is_undef is_null orb to_string].
  assert (E10 : strip_last 10 (stringify (JObj m) ++ [10]) = stringify (JObj m)).
  { unfold strip_last. rewrite last_snoc, bool_decide_true by done. rewrite length_app, Nat.add_sub. apply take_app_length. }
  assert (Elast : exists t, stringify (JObj m) = t ++ [125]).
  { unfold stringify. cbn. eexists (123 :: _). done. }
  destruct Elast as [t Et]. rewrite E10.
  assert (E13 : strip_last 13 (stringify (JObj m)) = stringify (JObj m)).
  { unfold strip_last. by rewrite Et, last_snoc, bool_decide_false. }
  rewrite E13. rewrite bool_decide_false by (rewrite Et; by destruct t).
  destruct (Z.ltb_spec SSH_AGENT_MAX_LINE_BYTES (utf8ByteLength (stringify (JObj m)))); [lia|].
  rewrite parse_stringify, Hv, Ht by done. cbn [negb].
  rewrite (proj2 (existsb_str_eqb type _) Hin). destruct (str_eqb type (js "ready")) eqn:E; [|done].
  apply str_eqb_eq in E. destruct (Hr E) as (-> & -> & ->). done.
Qed.

(** ** Properties *)

(** C2: in every state the supervisor can reach, the gate is open exactly in phase
    ready (with the three fields of the handshake present), no path or start time
    is left once nothing runs, the failure count is at most five except in the
    crash-loop verdict, and the message shown is the fixed text of a known code. *)
Theorem supervisor_invariant s : agent_reachable s -> agent_inv s.
Proof. apply agent_reachable_ok. Qed.

Lemma supervisor_invariant_witness :
  agent_inv (sshAgentReduce (Some sshAgentInitialState) (AgentEvent (EvEnabled (JBool true)) (JNum (NZ 1)))).1.
Proof. apply supervisor_invariant. eapply rtc_once. eexists. reflexivity. Defined.

Definition ready_message : list (list Z * jsval) :=
  [(js "v", JNum (NZ 2)); (js "type", JStr (js "ready")); (js "socketPath", JStr (js "/run/user/1000/s"));
   (js "fifoPath", JStr (js "/run/user/1000/f")); (js "agentVersion", JStr (js "0.4.1"))].

Definition handshaking_state : agent_state :=
  AgentState handshaking false (JStr []) (JStr []) (JStr []) 0 (NZ 0) [] [].

Definition ready_event : agent_event :=
  AgentEvent (EvLine (JStr (stringify (JObj ready_message) ++ [10]))) (JNum (NZ 1000)).

(** The gate goes from shut to open in one way only: while the handshake is
    awaited, the companion sends a line that parses as a version-2 ready message
    with its socket, its FIFO and its version, and these become the state's. *)
Theorem gate_opens_only_on_ready s ev s' act :
  sshAgentReduce (Some s) ev = (s', act) -> gateOpen s = false -> gateOpen s' = true ->
  phase_of s = handshaking /\
  exists line m, kind ev = EvLine line /\ parseAgentEvent line = LineOk m
    /\ obj_get m (js "type") = JStr (js "ready")
    /\ phase_of s' = ready /\ socketPath s' = obj_get m (js "socketPath")
    /\ fifoPath s' = obj_get m (js "fifoPath") /\ agentVersion s' = obj_get m (js "agentVersion").
Proof. apply gate_open_cause. Qed.

Lemma gate_opens_only_on_ready_witness :
  phase_of handshaking_state = handshaking /\
  exists line m, kind ready_event = EvLine line /\ parseAgentEvent line = LineOk m
    /\ obj_get m (js "type") = JStr (js "ready").
Proof.
  destruct (gate_opens_only_on_ready handshaking_state ready_event _ _ (surjective_pairing _))
    as (Hp & line & m & Hk & Hl & Ht & _); [reflexivity|vm_compute; reflexivity|].
  split; [exact Hp|]. exists line, m. auto.
Defined.

(** While the gate is open it stays open only if nothing of the state
    changed: the companion did not exit, and any line it wrote was blank or a
    well-formed message other than a second ready.  Every other line shuts it. *)
Theorem gate_shuts_on_anything_else s ev s' act :
  sshAgentReduce (Some s) ev = (s', act) -> phase_of s = ready -> gateOpen s' = true ->
  s' = s /\ (forall held, kind ev <> EvExited held) /\
  (forall line, kind ev = EvLine line ->
     parseAgentEvent line = LineErr (js "EMPTY") false \/
     exists m, parseAgentEvent line = LineOk m /\ obj_get m (js "type") <> JStr (js "ready")).
Proof. apply gate_stays_open. Qed.

Definition ready_state : agent_state :=
  AgentState ready true (JStr (js "/s")) (JStr (js "/f")) (JStr (js "0.4.1")) 0 (NZ 1000) [] [].

Lemma gate_shuts_on_anything_else_witness :
  (sshAgentReduce (Some ready_state) (AgentEvent (EvLine (JStr [10])) (JNum (NZ 2000)))).1 = ready_state.
Proof.
  destruct (gate_shuts_on_anything_else ready_state (AgentEvent (EvLine (JStr [10])) (JNum (NZ 2000))) _ _
    (surjective_pairing _)) as [H _]; [reflexivity|reflexivity|exact H].
Defined.

(** C28: a companion that keeps dying quickly is not restarted forever: along any
    sequence of events without a user decision, a healthy run or a lock held by
    another process, the supervisor asks for at most six starts. *)
Theorem crash_loop_bound s evs :
  agent_reachable s -> quick_deaths s evs = true -> (run s evs).2 <= 6.
Proof.
  intros Hs%agent_reachable_ok Hq. pose proof (quick_death_bound s evs Hs Hq).
  pose proof (restarts_left_range s Hs). pose proof (restarts_left_range (run s evs).1) as Hr.
  assert (Hs' : agent_inv (run s evs).1).
  { clear -Hs. revert s Hs. induction evs as [|ev evs IH]; intros s Hs; cbn [run]; [done|].
    pose proof (agent_reduce_inv s ev Hs) as H. destruct (sshAgentReduce (Some s) ev) as [s' act].
    specialize (IH s' H). by destruct (run s' evs). }
  specialize (Hr Hs'). lia.
Qed.

(** Starts, dies at once, waits, starts again, ... *)
Definition dying_events : list agent_event :=
  concat (replicate 9 [AgentEvent EvStarted (JNum (NZ 1)); AgentEvent (EvExited (JBool false)) (JNum (NZ 2));
                       AgentEvent EvRestartTimer (JNum (NZ 3))]).

Lemma crash_loop_bound_witness :
  (run (set_phase sshAgentInitialState starting) dying_events).2 = 5 /\
  (run (set_phase sshAgentInitialState starting) dying_events).2 <= 6.
Proof.
  split; [vm_compute; reflexivity|]. apply crash_loop_bound; [|vm_compute; reflexivity].
  eapply rtc_once. exists (AgentEvent (EvEnabled (JBool true)) (JNum (NZ 1))). reflexivity.
Defined.

(** After the crash-loop verdict no event but the user's own toggle changes
    the state or asks for anything. *)
Theorem failed_until_toggled s evs :
  phase_of s = failed -> Forall (fun ev => forall v, kind ev <> EvEnabled v) evs -> run s evs = (s, 0).
Proof. apply failed_run. Qed.

Lemma failed_until_toggled_witness :
  run (set_phase sshAgentInitialState failed) [AgentEvent EvRestartTimer (JNum (NZ 1)); ready_event]
  = (set_phase sshAgentInitialState failed, 0).
Proof. apply failed_until_toggled; [reflexivity|repeat constructor; discriminate]. Defined.

(** C31: The supervisor always recovers.  From every reachable state, switching the
    agent off and on, the companion starting and a ready line open the gate; and
    unless it is off, has given up, or is at its last restart, four events without
    any user decision are enough. *)
Theorem supervisor_recovers s line : agent_reachable s -> is_ready_line line ->
  gateOpen (run s [tick (EvEnabled (JBool false)); tick (EvEnabled (JBool true)); tick EvStarted; tick (EvLine line)]).1 = true /\
  (phase_of s <> disabled -> phase_of s <> failed -> failures s < SSH_AGENT_MAX_RESTARTS ->
   exists evs, (length evs <= 4)%nat /\ Forall no_toggle evs /\ gateOpen (run s evs).1 = true).
Proof.
  intros Hs%agent_reachable_ok Hl. split; [|by apply (live_recovers s line)].
  change (gateOpen (run s ([tick (EvEnabled (JBool false)); tick (EvEnabled (JBool true))] ++ [tick EvStarted; tick (EvLine line)])).1 = true).
  rewrite run_app. apply starting_opens; [apply toggle_starts|done].
Qed.

Lemma supervisor_recovers_witness :
  gateOpen (run sshAgentInitialState [tick (EvEnabled (JBool false)); tick (EvEnabled (JBool true)); tick EvStarted;
    tick (EvLine (JStr (stringify (JObj ready_message) ++ [10])))]).1 = true.
Proof.
  apply (supervisor_recovers sshAgentInitialState); [apply rtc_refl|]. exists ready_message. split; vm_compute; reflexivity.
Defined.

(** The restart delay after [n] consecutive failures is 500 ms doubled
    [n - 1] times and cut at 30 s, also where the doubling overflows a double. *)
Theorem restart_backoff n : 1 <= n ->
  num_eqb (sshAgentRestartDelayMs (JNum (NZ n))) (NZ (Z.min 30000 (500 * 2 ^ (n - 1)))) = true.
Proof. apply restart_delay. Qed.

Lemma restart_backoff_witness : num_eqb (sshAgentRestartDelayMs (JNum (NZ 5000))) (NZ 30000) = true.
Proof. exact (restart_backoff 5000 ltac:(lia)). Defined.

(** The panel accepts exactly the well-formed messages: what is accepted has
    version 2, a known type and, for ready, its three fields; and every such
    message printed on one line within the size cap is accepted as itself. *)
Theorem control_lines_accepted m :
  (forall line, parseAgentEvent line = LineOk m -> well_formed_message m) /\
  (json_clean (JObj m) = true -> well_formed_message m ->
   utf8ByteLength (stringify (JObj m)) <= SSH_AGENT_MAX_LINE_BYTES ->
   parseAgentEvent (JStr (stringify (JObj m) ++ [10])) = LineOk m).
Proof. split; [intros line; apply parseAgentEvent_ok|apply parseAgentEvent_complete]. Qed.

(** The directory the helper executable is launched from is either empty
    (helper disabled) or absolute, without a dot segment in literal or
    percent-encoded form and without a trailing slash; such a directory is kept. *)
Theorem plugin_dir_clean :
  (forall url, pluginDirFromUrl url = [] \/ clean_dir (pluginDirFromUrl url)) /\
  (forall d, clean_dir d -> cleanAbsoluteDir (JStr d) = d).
Proof. split; [apply pluginDirFromUrl_clean|apply cleanAbsoluteDir_id]. Qed.
