(* ===== verification/SshPrompts.v ===== *)
(** * SSH signing prompts, grants, cooldown and vault lifecycle ([BitwardenModel.js])

    What the panel draws for a signing request, the queue of pending requests, the
    grants the user gave, the pause after repeated refusals, and what each vault
    event asks of the companion. *)

From Stdlib Require Import QArith_base Qround.
From S2P Require Import Prelude.
From S2P Require Import JsNum.
From S2P Require Import JsString.
From S2P Require Import JsValue.
From S2P Require Import Json.
From S2P Require Import SshAgent.
Local Open Scope Z_scope.

(** ** Text from other processes *)

Definition SSH_AGENT_REQUEST_DEADLINE_MS : Z := 120 * 1000.
Definition SSH_AGENT_MAX_NAME_CHARS : nat := 256.
Definition SSH_AGENT_MAX_PATH_CHARS : nat := 512.
Definition SSH_AGENT_MAX_DETAIL_CHARS : nat := 256.

(** [SSH_AGENT_INVISIBLE_RE] *)
Definition is_invisible (c : Z) : bool :=
  in_range 0 0x1f c || in_range 0x7f 0x9f c || in_range 0x200b 0x200f c
  || in_range 0x2028 0x202e c || in_range 0x2066 0x2069 c || (c =? 0xfeff).

(** [("0000" + c.toString(16)).slice(-4)] for a code unit. *)
Definition hex4 (c : Z) : list Z :=
  [hex_unit (c / 4096 mod 16); hex_unit (c / 256 mod 16); hex_unit (c / 16 mod 16); hex_unit (c mod 16)].

Definition visibleText (value : jsval) : list Z :=
  flat_map (fun c => if is_invisible c then 92 :: 117 :: hex4 c else [c]) (text_present value).

Definition boundedText (value : jsval) (limit : nat) : list Z :=
  let t := visibleText value in if (limit <? length t)%nat then take limit t else t.

Definition boundedPath (value : jsval) (limit : nat) : list Z :=
  let t := visibleText value in
  if (limit <? length t)%nat then 0x2026 :: drop (length t - (limit - 1)) t else t.

Definition isRequestId (v : jsval) : bool :=
  match v with
  | JNum n => num_is_finite n && num_eqb (num_floor n) n && num_leb (NZ 0) n
  | _ => false
  end.

(** ** Answers to the companion *)

(** [Math.min(max(0, Math.floor(Number(v))), SSH_AGENT_APPROVAL_WINDOW_MAX_SEC)],
    0 for what is not a finite number. *)
Definition grant_seconds (v : jsval) : num :=
  let seconds := num_floor (to_number v) in
  let seconds := if negb (num_is_finite seconds) || num_ltb seconds (NZ 0) then NZ 0 else seconds in
  num_min seconds (NZ SSH_AGENT_APPROVAL_WINDOW_MAX_SEC).

Definition sshAgentApproveLine (requestId grantSeconds untilScreenLock : jsval) : list Z :=
  if negb (isRequestId requestId) then []
  else
    let seconds := grant_seconds grantSeconds in
    agentControlLine (js "approve")
      ([(js "requestId", requestId);
        (js "grantSeconds", JNum (if is_true untilScreenLock then NZ 0 else seconds))]
       ++ if is_true untilScreenLock then [(js "untilScreenLock", JBool true)] else []).

Definition sshAgentDenyLine (requestId : jsval) : list Z :=
  if isRequestId requestId then agentControlLine (js "deny") [(js "requestId", requestId)] else [].

Definition sshAgentUnlockCancelledLine (requestId : jsval) : list Z :=
  if isRequestId requestId
  then agentControlLine (js "unlock_cancelled") [(js "requestId", requestId); (js "reason", JStr (js "user-cancelled"))]
  else [].

Definition sshAgentRevokeGrantLine (grantId : jsval) : list Z :=
  if isRequestId grantId then agentControlLine (js "revoke_grant") [(js "grantId", grantId)] else [].

Definition sshAgentOptionsLine (unlockOnDemand : jsval) : list Z :=
  agentControlLine (js "options") [(js "unlockOnDemand", JBool (is_true unlockOnDemand))].

Definition sshAgentRevokeGrantsLine : list Z := agentControlLine (js "revoke_grants") [].

(** ** Labels *)

Definition processNameFromPath (processPath : jsval) : list Z :=
  let t := visibleText processPath in
  let name := match last_index_of 47 t with Some cut => drop (cut + 1) t | None => t end in
  boundedText (JStr name) SSH_AGENT_MAX_NAME_CHARS.

(** [total % 60] of a non-negative whole number or infinity. *)
Definition num_mod60 (a : num) : num := match a with Fin q => NZ (Qfloor q mod 60) | _ => NaN end.

Definition formatDuration (seconds : num) : list Z :=
  let total := num_max (NZ 0) (num_or0 (num_floor seconds)) in
  let minutes := num_floor (num_div total 60) in
  let rest := num_mod60 total in
  if num_ltb (NZ 0) minutes && num_ltb (NZ 0) rest
  then num_to_string minutes ++ js "m " ++ num_to_string rest ++ js "s"
  else if num_ltb (NZ 0) minutes then num_to_string minutes ++ js "m"
  else num_to_string rest ++ js "s".

Definition SSH_AGENT_PROVENANCE_NOTE : list Z :=
  js "Reported by the system, not verified. Only the requesting user was checked.".
Definition SSH_AGENT_FORWARDED_WARNING : list Z :=
  js "Forwarded from a remote host. The program shown is the local ssh relaying it, not the one that will use the signature, so it can only be approved once.".

Definition sshAgentOperationLabel (operation : list Z) (detail : jsval) : list Z :=
  let t := boundedText detail SSH_AGENT_MAX_DETAIL_CHARS in
  if str_eqb operation (js "sshsig") then
    if str_eqb t (js "git") then js "Git commit or tag signature"
    else js "Signature for " ++ 34 :: t ++ [34]
  else if str_eqb operation (js "ssh-auth") then js "SSH login as " ++ t
  else if str_eqb operation (js "ssh-sign") then js "Unrecognised data -- approve only if you expect it"
  else [].

Definition sshAgentOperation (value : jsval) : list Z :=
  match value with
  | JStr v => if str_eqb v (js "sshsig") || str_eqb v (js "ssh-auth") || str_eqb v (js "ssh-sign") then v else []
  | _ => []
  end.

(** [/^SHA256:[A-Za-z0-9+/]{43}$/] *)
Definition is_host_key (s : list Z) : bool :=
  starts_with (js "SHA256:") s &&
  let r := drop (length (js "SHA256:")) s in
  (length r =? 43)%nat && forallb (fun c => is_alnum c || (c =? 43) || (c =? 47)) r.

Definition sshAgentHostKey (operation : list Z) (hostKey : jsval) : list Z :=
  match hostKey with
  | JStr k => if str_eqb operation (js "ssh-auth") && is_host_key k then k else []
  | _ => []
  end.

Definition sshAgentDestinationLabel (operation hostKey : list Z) : list Z :=
  if negb (str_eqb operation (js "ssh-auth")) then []
  else if bool_decide (hostKey = []) then js "Server not reported by the SSH client"
  else js "Server host key " ++ hostKey.

(** ** What a prompt draws *)

Record prompt_view := PromptView {
  pv_requestId : jsval;
  pv_keyId : list Z;
  pv_keyName : list Z;
  pv_fingerprint : list Z;
  pv_pid : num;
  pv_processPath : list Z;
  pv_processName : list Z;
  pv_operation : list Z;
  pv_operationLabel : list Z;
  pv_hostKey : list Z;
  pv_destinationLabel : list Z;
  pv_grantOffered : bool;
  pv_grantSeconds : num;
  pv_grantUntilScreenLock : bool;
  pv_grantLabel : list Z;
  pv_grantShortLabel : list Z;
  pv_forwardedWarning : list Z;
  pv_provenanceNote : list Z
}.

(** U+00B7, the dot between the two halves of the long label. *)
Definition middle_dot : list Z := [32; 0xb7; 32].

Definition sshAgentPromptView (message approvalWindowSec untilScreenLock : jsval) : prompt_view :=
  let request := js_or message (JObj []) in
  let window := num_max (NZ 0) (num_min (NZ SSH_AGENT_APPROVAL_WINDOW_MAX_SEC)
                  (num_or0 (num_floor (to_number approvalWindowSec)))) in
  let forwarded := is_true (get request (js "forwarded")) in
  let lock := is_true untilScreenLock in
  let grantOffered := is_true (get request (js "grantOffered")) && (lock || num_ltb (NZ 0) window) && negb forwarded in
  let operation := sshAgentOperation (get request (js "operation")) in
  let hostKey := sshAgentHostKey operation (get request (js "hostKey")) in
  let until := if lock then js "until screen lock" else formatDuration window in
  {| pv_requestId := if isRequestId (get request (js "requestId")) then get request (js "requestId") else JNum (NZ (-1));
     pv_keyId := boundedText (get request (js "keyId")) SSH_AGENT_MAX_NAME_CHARS;
     pv_keyName := boundedText (get request (js "keyName")) SSH_AGENT_MAX_NAME_CHARS;
     pv_fingerprint := boundedText (get request (js "fingerprint")) SSH_AGENT_MAX_NAME_CHARS;
     pv_pid := num_or0 (num_floor (to_number (get request (js "pid"))));
     pv_processPath := boundedPath (get request (js "processPath")) SSH_AGENT_MAX_PATH_CHARS;
     pv_processName := processNameFromPath (get request (js "processPath"));
     pv_operation := operation;
     pv_operationLabel := sshAgentOperationLabel operation (get request (js "operationDetail"));
     pv_hostKey := hostKey;
     pv_destinationLabel := sshAgentDestinationLabel operation hostKey;
     pv_grantOffered := grantOffered;
     pv_grantSeconds := if grantOffered && negb lock then window else NZ 0;
     pv_grantUntilScreenLock := grantOffered && lock;
     pv_grantLabel := if grantOffered then js "Approve for this program" ++ middle_dot ++ until else [];
     pv_grantShortLabel := if grantOffered then js "Approve " ++ until else [];
     pv_forwardedWarning := if forwarded then SSH_AGENT_FORWARDED_WARNING else [];
     pv_provenanceNote := SSH_AGENT_PROVENANCE_NOTE |}.

(** The fields two messages must agree on to be the same request. *)
Definition same_request_fields : list (list Z) :=
  [js "fingerprint"; js "pid"; js "processPath"; js "operation"; js "operationDetail"; js "hostKey";
   js "forwarded"; js "grantOffered"].

Definition sshAgentSameRequest (unlockMessage approvalMessage : jsval) : bool :=
  if negb (truthy unlockMessage) || negb (truthy approvalMessage) then false
  else forallb (fun f => strict_eqb (get unlockMessage f) (get approvalMessage f)) same_request_fields
       && nonempty_string (get unlockMessage (js "fingerprint")).

(** ** The queue of prompts *)

Definition requestId_of (m : jsval) : jsval := get m (js "requestId").

Definition as_list (v : jsval) : list jsval := match v with JArr l => l | _ => [] end.

Definition sshAgentEnqueuePrompt (queue message maxQueue : jsval) : list jsval :=
  let cap := match maxQueue with JNum n => if num_ltb (NZ 0) n then n else NZ 4 | _ => NZ 4 end in
  let l := as_list queue in
  if negb (truthy message) || negb (isRequestId (requestId_of message)) then l
  else if existsb (fun x => truthy x && strict_eqb (requestId_of x) (requestId_of message)) l then l
  else if num_leb cap (NZ (Z.of_nat (length l))) then l
  else l ++ [message].

(** [{next, remaining}] *)
Definition sshAgentDequeuePrompt (queue : jsval) : jsval * list jsval :=
  match queue with
  | JArr (x :: l) => (x, l)
  | _ => (JNull, [])
  end.

Definition sshAgentRemovePrompt (queue requestId : jsval) : list jsval :=
  List.filter (fun x => truthy x && negb (strict_eqb (requestId_of x) requestId)) (as_list queue).

Definition sshAgentPendingCount (activePrompt queue : jsval) : Z :=
  (if truthy activePrompt then 1 else 0) + Z.of_nat (length (as_list queue)).

(** ** Grants *)

Record grant_view := GrantView {
  gv_grantId : jsval;
  gv_keyName : list Z;
  gv_fingerprint : list Z;
  gv_pid : num;
  gv_processPath : list Z;
  gv_processName : list Z;
  gv_operationLabel : list Z;
  gv_hostKey : list Z;
  (** [None] is [null]: no expiry. *)
  gv_expiresAtMs : option num;
  gv_untilScreenLock : bool;
  gv_remainingSec : num;
  gv_remainingLabel : list Z
}.

Definition remaining_label (remaining : num) : list Z := formatDuration remaining ++ js " left".

Definition grant_view_of (now : num) (grant : jsval) : grant_view :=
  let remaining := num_max (NZ 0) (num_or0 (num_floor (to_number (get grant (js "expiresInSec"))))) in
  let operation := sshAgentOperation (get grant (js "operation")) in
  let lock := is_true (get grant (js "untilScreenLock")) in
  {| gv_grantId := get grant (js "grantId");
     gv_keyName := boundedText (get grant (js "keyName")) SSH_AGENT_MAX_NAME_CHARS;
     gv_fingerprint := boundedText (get grant (js "fingerprint")) SSH_AGENT_MAX_NAME_CHARS;
     gv_pid := num_or0 (num_floor (to_number (get grant (js "pid"))));
     gv_processPath := boundedPath (get grant (js "processPath")) SSH_AGENT_MAX_PATH_CHARS;
     gv_processName := processNameFromPath (get grant (js "processPath"));
     gv_operationLabel := sshAgentOperationLabel operation (get grant (js "operationDetail"));
     gv_hostKey := sshAgentHostKey operation (get grant (js "hostKey"));
     gv_expiresAtMs := if lock then None else Some (num_add now (num_mul remaining (NZ 1000)));
     gv_untilScreenLock := lock;
     gv_remainingSec := remaining;
     gv_remainingLabel := if num_ltb (NZ 0) remaining then remaining_label remaining else js "expiring" |}.

Definition sshAgentGrantViews (grants nowMs : jsval) : list grant_view :=
  let now := num_or0 (to_number nowMs) in
  map (grant_view_of now)
    (List.filter (fun g => isRequestId (get g (js "grantId")))
       (map (fun g => js_or g (JObj [])) (as_list grants))).

(** One view at [now]: kept, recomputed, or dropped. *)
Definition grant_at (now : num) (v : grant_view) : list grant_view :=
  match gv_expiresAtMs v with
  | Some expires =>
      if num_leb now (NZ 0) then [v]
      else
        let remaining := num_max (NZ 0) (num_ceil (num_div (num_sub expires now) 1000)) in
        if num_leb remaining (NZ 0) then []
        else [GrantView (gv_grantId v) (gv_keyName v) (gv_fingerprint v) (gv_pid v) (gv_processPath v)
                (gv_processName v) (gv_operationLabel v) (gv_hostKey v) (gv_expiresAtMs v)
                (gv_untilScreenLock v) remaining (remaining_label remaining)]
  | None => [v]
  end.

(** The views are the ones [sshAgentGrantViews] made. *)
Definition sshAgentGrantsAt (views : list grant_view) (nowMs : jsval) : list grant_view :=
  flat_map (grant_at (num_or0 (to_number nowMs))) views.

(** ** Cooldown *)

Definition sshAgentShouldPrompt (context : jsval) : bool :=
  is_object context && negb (is_true (get context (js "screenLocked"))).

Definition SSH_AGENT_COOLDOWN_AFTER : Z := 2.
Definition SSH_AGENT_COOLDOWN_MS : Z := 5 * 60 * 1000.

Record cooldown := Cooldown { refusals : Z; untilMs : num }.

Definition sshAgentCooldownInitial : cooldown := Cooldown 0 (NZ 0).

(** The outcomes the panel reports; any other string is [outcome_other]. *)
Inductive outcome := approved | resumed | denied | timeout | outcome_other.

Definition sshAgentCooldownAfter (state : option cooldown) (o : outcome) (nowMs : jsval) : cooldown :=
  let current := default sshAgentCooldownInitial state in
  let now := num_or0 (to_number nowMs) in
  match o with
  | approved | resumed => Cooldown 0 (NZ 0)
  | outcome_other => Cooldown (refusals current) (untilMs current)
  | denied | timeout =>
      let n := refusals current + 1 in
      Cooldown n (if SSH_AGENT_COOLDOWN_AFTER <=? n then num_add now (NZ SSH_AGENT_COOLDOWN_MS) else untilMs current)
  end.

Definition sshAgentCooldownActive (state : option cooldown) (nowMs : jsval) : bool :=
  num_ltb (num_or0 (to_number nowMs)) (untilMs (default sshAgentCooldownInitial state)).

(** [{active, remainingSec, message}] *)
Definition sshAgentCooldownStatus (state : option cooldown) (nowMs : jsval) : bool * num * list Z :=
  let current := default sshAgentCooldownInitial state in
  let now := num_or0 (to_number nowMs) in
  if num_leb (untilMs current) now then (false, NZ 0, [])
  else
    let remaining := num_ceil (num_div (num_sub (untilMs current) now) 1000) in
    (true, remaining,
     js "SSH signing requests are being refused after repeated unanswered prompts. Normal service resumes in "
     ++ formatDuration remaining ++ js ".").

(** ** Vault lifecycle *)

Inductive vault_state := vs_disabled | vs_logged_out | vs_loading | vs_unlocked | vs_locked_cached | vs_locked_empty.

Definition sshAgentVaultState (context : jsval) : vault_state :=
  let ctx k := truthy (get (js_or context (JObj [])) (js k)) in
  if negb (ctx "enabled"%string) || negb (ctx "helperReady"%string) then vs_disabled
  else if negb (ctx "loggedIn"%string) then vs_logged_out
  else if ctx "loading"%string then vs_loading
  else if ctx "unlocked"%string then vs_unlocked
  else if ctx "hasPublicCache"%string then vs_locked_cached else vs_locked_empty.

Definition SSH_AGENT_LOCK_EVENTS : list (list Z) := [js "lock"; js "screen-lock"; js "suspend"].
Definition SSH_AGENT_LOGOUT_EVENTS : list (list Z) := [js "logout"; js "account-change"].
Definition SSH_AGENT_LOAD_EVENTS : list (list Z) := [js "unlock"; js "sync"; js "startup"].

Record lifecycle_action := LifecycleAction {
  controlLines : list (list Z);
  cancelLoad : bool;
  startLoad : bool;
  awaitLockAck : bool;
  stopHelper : bool;
  clearPublic : bool;
  advanceEpoch : bool
}.

Definition sshAgentLifecycleTransition (event : list Z) (context : jsval) : lifecycle_action :=
  let ctx := js_or context (JObj []) in
  let live := truthy (get ctx (js "enabled")) && truthy (get ctx (js "helperReady")) in
  if str_eqb event (js "disable") || str_eqb event (js "shutdown")
  then LifecycleAction [] true false false true true false
  else if existsb (str_eqb event) SSH_AGENT_LOCK_EVENTS
  then LifecycleAction (if live then [sshAgentVaultLockedLine (get ctx (js "epoch"))] else []) true false live false false false
  else if existsb (str_eqb event) SSH_AGENT_LOGOUT_EVENTS
  then LifecycleAction (if live then [sshAgentLoggedOutLine] else []) true false false false true live
  else if existsb (str_eqb event) SSH_AGENT_LOAD_EVENTS
  then LifecycleAction [] false (live && truthy (get ctx (js "unlocked"))) false false false false
  else LifecycleAction [] false false false false false false.

(** ** Setup state *)

Inductive setup_state := setup_disabled | setup_enabled | setup_error.

(** [{state, busy, message}]; the phase is the supervisor's. *)
Definition sshAgentSetupState (enabled supervisable : jsval) (p : phase) (errorCode : list Z)
  : setup_state * bool * list Z :=
  if negb (truthy enabled)
  then (setup_disabled, false, js "The SSH agent is off. Your vault works normally; SSH keys stay read-only records.")
  else if negb (truthy supervisable)
  then (setup_error, false, js "The SSH agent needs a per-login runtime directory and could not find one. Without XDG_RUNTIME_DIR it refuses to start rather than use a path it cannot trust.")
  else match p with
       | ready => (setup_enabled, false, js "The SSH agent is running and serving its socket.")
       | starting | handshaking => (setup_enabled, true, js "Starting the SSH agent helper...")
       | _ => (setup_error, false, sshAgentErrorMessage (if bool_decide (errorCode = []) then js "EXITED" else errorCode))
       end.
