(* ===== verification/SshPromptsCorrect.v ===== *)
(** * Correctness of the SSH prompts, queue, grants, cooldown and lifecycle *)

From Stdlib Require Import QArith_base Qround.
From S2P Require Import Prelude.
From S2P Require Import JsNum.
From S2P Require Import JsString.
From S2P Require Import JsValue.
From S2P Require Import Json.
From S2P Require Import SshAgent.
From S2P Require Import SshPrompts.
Local Open Scope Z_scope.

(** ** Drawn text *)

Definition drawn (t : list Z) : Prop := Forall (fun c => is_invisible c = false) t.

Lemma hex_unit_visible d : 0 <= d < 16 -> is_invisible (hex_unit d) = false.
Proof. intros. unfold hex_unit, is_invisible, in_range. destruct (Z.ltb_spec d 10); lia. Qed.

Lemma hex4_visible c : drawn (hex4 c).
Proof. repeat constructor; apply hex_unit_visible, Z.mod_pos_bound; lia. Qed.

Lemma visibleText_drawn v : drawn (visibleText v).
Proof.
  unfold visibleText. induction (text_present v) as [|c t IH]; [constructor|]. cbn [flat_map].
  apply Forall_app_2; [|done]. destruct (is_invisible c) eqn:E.
  - constructor; [done|]. constructor; [done|]. apply hex4_visible.
  - by constructor.
Qed.

Lemma boundedText_ok v n : (length (boundedText v n) <= n)%nat /\ drawn (boundedText v n).
Proof.
  unfold boundedText. pose proof (visibleText_drawn v). destruct (Nat.ltb_spec n (length (visibleText v))).
  - rewrite length_take. split; [lia|]. by apply Forall_take.
  - split; [lia|done].
Qed.

Lemma boundedPath_ok v n : (0 < n)%nat -> (length (boundedPath v n) <= n)%nat /\ drawn (boundedPath v n).
Proof.
  intros Hn. unfold boundedPath. pose proof (visibleText_drawn v). destruct (Nat.ltb_spec n (length (visibleText v))).
  - cbn [length]. rewrite length_drop. split; [lia|]. constructor; [done|]. by apply Forall_drop.
  - split; [lia|done].
Qed.

(** ** Grant windows *)

Lemma num_floor_finite n : num_is_finite (num_floor n) = true -> exists z, num_floor n = NZ z.
Proof. destruct n; cbn; try done. intros _. eauto. Qed.

Lemma grant_seconds_range v : exists z, grant_seconds v = NZ z /\ 0 <= z <= SSH_AGENT_APPROVAL_WINDOW_MAX_SEC.
Proof.
  unfold grant_seconds, SSH_AGENT_APPROVAL_WINDOW_MAX_SEC.
  destruct (num_is_finite (num_floor (to_number v))) eqn:E; cbn [negb orb].
  - destruct (num_floor_finite _ E) as [z ->]. rewrite num_ltb_NZ. destruct (Z.ltb_spec z 0); rewrite num_min_NZ; eexists; (split; [reflexivity|lia]).
  - rewrite num_min_NZ. eexists; split; [reflexivity|lia].
Qed.

Lemma window_range v :
  exists z, num_max (NZ 0) (num_min (NZ SSH_AGENT_APPROVAL_WINDOW_MAX_SEC) (num_or0 (num_floor v))) = NZ z
    /\ 0 <= z <= SSH_AGENT_APPROVAL_WINDOW_MAX_SEC.
Proof.
  unfold SSH_AGENT_APPROVAL_WINDOW_MAX_SEC. destruct v as [|[]|q]; cbn [num_floor].
  - exists 0. split; [reflexivity|lia].
  - exists 0. split; [reflexivity|lia].
  - exists 900. split; [reflexivity|lia].
  - autorewrite with js_num. eexists; split; [reflexivity|lia].
Qed.

(** ** The queue *)

Definition request_ok (m : jsval) : Prop := truthy m = true /\ isRequestId (requestId_of m) = true.
Definition other_request (a b : jsval) : Prop := strict_eqb (requestId_of a) (requestId_of b) = false.

(** At most [cap] requests, each with a valid id, no id twice. *)
Record queue_inv (cap : Z) (q : list jsval) : Prop := {
  queue_bound : Z.of_nat (length q) <= cap;
  queue_valid : Forall request_ok q;
  queue_distinct : ForallOrdPairs other_request q
}.

Lemma ForallOrdPairs_snoc {A} (R : A -> A -> Prop) l x :
  ForallOrdPairs R l -> Forall (fun y => R y x) l -> ForallOrdPairs R (l ++ [x]).
Proof.
  induction 1 as [|y l Hy Hl IH]; intros Hx; cbn; [repeat constructor|].
  apply Forall_cons in Hx as [Hyx Hx]. constructor; [|by apply IH]. apply Forall_app_2; [done|by repeat constructor].
Qed.

Lemma ForallOrdPairs_filter {A} (R : A -> A -> Prop) p l :
  ForallOrdPairs R l -> ForallOrdPairs R (List.filter p l).
Proof.
  induction 1 as [|y l Hy Hl IH]; cbn; [constructor|]. destruct (p y); [|done].
  constructor; [|done]. rewrite Forall_forall in *. intros z Hz. apply Hy.
  apply list_elem_of_In, filter_In in Hz as [Hz _]. by apply list_elem_of_In.
Qed.

Lemma existsb_false {A} (p : A -> bool) l : existsb p l = false -> Forall (fun x => p x = false) l.
Proof.
  induction l as [|x l IH]; cbn; [constructor|]. intros [? ?]%orb_false_iff. constructor; auto.
Qed.

(** What [sshAgentEnqueuePrompt] does with a cap of [cap]. *)
Lemma enqueue_spec cap q m : 0 < cap ->
  sshAgentEnqueuePrompt (JArr q) m (JNum (NZ cap)) = q \/
  (sshAgentEnqueuePrompt (JArr q) m (JNum (NZ cap)) = q ++ [m] /\ request_ok m
   /\ Forall (fun x => truthy x && strict_eqb (requestId_of x) (requestId_of m) = false) q
   /\ Z.of_nat (length q) < cap).
Proof.
  intros Hc. unfold sshAgentEnqueuePrompt, as_list. autorewrite with js_num.
  destruct (Z.ltb_spec 0 cap); [|lia].
  destruct (truthy m) eqn:Et; cbn [negb orb]; [|by left].
  destruct (isRequestId (requestId_of m)) eqn:Ei; cbn [negb]; [|by left].
  destruct (existsb _ q) eqn:E; [by left|]. autorewrite with js_num.
  destruct (Z.leb_spec cap (Z.of_nat (length q))); [by left|right]. split_and!; try done. by apply existsb_false.
Qed.

Lemma enqueue_inv cap q m : 0 < cap -> queue_inv cap q ->
  queue_inv cap (sshAgentEnqueuePrompt (JArr q) m (JNum (NZ cap))).
Proof.
  intros Hc Hq. destruct (enqueue_spec cap q m Hc) as [-> | (-> & Hm & Hd & Hl)]; [done|]. destruct Hq as [Hb Hv Ho]. split.
  - rewrite length_app. cbn [length]. lia.
  - apply Forall_app_2; [done|by constructor].
  - apply ForallOrdPairs_snoc; [done|]. rewrite Forall_forall in *. intros x Hx.
    specialize (Hd x Hx). destruct (Hv x Hx) as [Ht _]. by rewrite Ht in Hd.
Qed.

Lemma dequeue_inv cap q : queue_inv cap q -> queue_inv cap (sshAgentDequeuePrompt (JArr q)).2.
Proof.
  intros [Hb Hv Ho]. destruct q as [|x q]; cbn; [by split|]. cbn in Hb.
  apply Forall_cons in Hv as [_ Hv]. split; [lia|done|by inversion Ho].
Qed.

Lemma remove_inv cap q r : queue_inv cap q -> queue_inv cap (sshAgentRemovePrompt (JArr q) r).
Proof.
  intros [Hb Hv Ho]. unfold sshAgentRemovePrompt. cbn [as_list]. split.
  - pose proof (filter_length_le (fun x => truthy x && negb (strict_eqb (requestId_of x) r)) q). lia.
  - rewrite Forall_forall in *. intros x Hx. apply Hv. apply list_elem_of_In, filter_In in Hx as [Hx _]. by apply list_elem_of_In.
  - by apply ForallOrdPairs_filter.
Qed.

(** The operations the panel performs on a queue of prompts. *)
Inductive queue_step (cap : Z) : list jsval -> list jsval -> Prop :=
| queue_enqueue q m : queue_step cap q (sshAgentEnqueuePrompt (JArr q) m (JNum (NZ cap)))
| queue_dequeue q : queue_step cap q (sshAgentDequeuePrompt (JArr q)).2
| queue_remove q r : queue_step cap q (sshAgentRemovePrompt (JArr q) r).

Lemma queue_reachable_inv cap q : 0 < cap -> rtc (queue_step cap) [] q -> queue_inv cap q.
Proof.
  intros Hc. apply (rtc_ind_r (queue_inv cap)).
  - split; [cbn; lia|constructor|constructor].
  - intros x y _ [] Hx; [by apply enqueue_inv|by apply dequeue_inv|by apply remove_inv].
Qed.

Lemma filter_Forall {A} (p : A -> bool) l : Forall (fun x => p x = true) l -> List.filter p l = l.
Proof. induction 1 as [|x l Hx Hl IH]; cbn; [done|]. by rewrite Hx, IH. Qed.

(** A removed id is gone and the others keep their order. *)
Lemma remove_exact q m q' : queue_inv 4 (q ++ m :: q') ->
  (forall x, x ∈ q ++ q' -> strict_eqb (requestId_of x) (requestId_of m) = false) ->
  strict_eqb (requestId_of m) (requestId_of m) = true ->
  sshAgentRemovePrompt (JArr (q ++ m :: q')) (requestId_of m) = q ++ q'.
Proof.
  intros [_ Hv _] Hd Hm. unfold sshAgentRemovePrompt. cbn [as_list]. rewrite List.filter_app. cbn [List.filter].
  rewrite Hm, andb_false_r, <- List.filter_app. apply filter_Forall, Forall_forall. intros x Hx. rewrite (Hd x Hx).
  rewrite Forall_forall in Hv. destruct (Hv x) as [-> _]; [|done]. set_solver.
Qed.

(** ** Cooldown *)

Lemma to_number_time t : num_or0 (to_number (JNum (NZ t))) = NZ t.
Proof. apply num_or0_NZ. Qed.

Lemma cooldown_after_two s o1 o2 t1 t2 t :
  o1 = denied \/ o1 = timeout -> o2 = denied \/ o2 = timeout ->
  0 <= refusals s -> 0 <= t2 < 2 ^ 52 ->
  sshAgentCooldownActive
    (Some (sshAgentCooldownAfter (Some (sshAgentCooldownAfter (Some s) o1 (JNum (NZ t1)))) o2 (JNum (NZ t2))))
    (JNum (NZ t)) = (t <? t2 + SSH_AGENT_COOLDOWN_MS).
Proof.
  intros H1 H2 Hs Ht. unfold sshAgentCooldownActive. cbn [default from_option id]. rewrite to_number_time.
  assert (E : untilMs (sshAgentCooldownAfter (Some (sshAgentCooldownAfter (Some s) o1 (JNum (NZ t1)))) o2 (JNum (NZ t2)))
    = NZ (t2 + SSH_AGENT_COOLDOWN_MS)).
  { unfold SSH_AGENT_COOLDOWN_MS. rewrite <- num_add_NZ by lia.
    destruct H1 as [-> | ->], H2 as [-> | ->]; cbn [sshAgentCooldownAfter default from_option id refusals untilMs];
      rewrite !to_number_time; (destruct (Z.leb_spec SSH_AGENT_COOLDOWN_AFTER (refusals s + 1 + 1)) as [|Hlt]; [done|];
      unfold SSH_AGENT_COOLDOWN_AFTER in Hlt; lia). }
  rewrite E. apply num_ltb_NZ.
Qed.

(** ** Control lines *)

(** A line is its message on one line: it reads back. *)
Lemma control_line_reads type fields :
  json_clean (control_message type fields) = true ->
  exists t, agentControlLine type fields = t ++ [10] /\ parse t = Some (control_message type fields).
Proof. intros H. eexists. split; [reflexivity|]. by apply parse_stringify. Qed.

Definition approve_fields (id seconds : Z) (lock : bool) : list (list Z * jsval) :=
  [(js "v", JNum (NZ 2)); (js "type", JStr (js "approve")); (js "requestId", JNum (NZ id));
   (js "grantSeconds", JNum (NZ seconds))]
  ++ if lock then [(js "untilScreenLock", JBool true)] else [].

Lemma isRequestId_NZ id : 0 <= id -> isRequestId (JNum (NZ id)) = true.
Proof. intros. unfold isRequestId. autorewrite with js_num. cbn [num_is_finite NZ]. lia. Qed.

Lemma approve_line id seconds lock : 0 <= id <= 2 ^ 53 ->
  exists t z, sshAgentApproveLine (JNum (NZ id)) seconds (JBool lock) = t ++ [10]
    /\ parse t = Some (JObj (approve_fields id z lock))
    /\ 0 <= z <= SSH_AGENT_APPROVAL_WINDOW_MAX_SEC /\ (lock = true -> z = 0).
Proof.
  intros Hid. unfold sshAgentApproveLine. rewrite isRequestId_NZ by lia. cbn [negb].
  destruct (grant_seconds_range seconds) as (z & -> & Hz). unfold SSH_AGENT_APPROVAL_WINDOW_MAX_SEC in *.
  assert (Hc : forall lock z, 0 <= z <= 900 -> json_clean (JObj (approve_fields id z lock)) = true).
  { intros l y Hy. apply json_clean_obj; [by destruct l|]. unfold approve_fields.
    repeat apply Forall_app_2; repeat constructor; try (apply json_clean_int; lia). by destruct l; repeat constructor. }
  exists (stringify (JObj (approve_fields id (if lock then 0 else z) lock))), (if lock then 0 else z).
  split; [by destruct lock|]. split; [apply parse_stringify, Hc; destruct lock; lia|]. destruct lock; split; lia || done.
Qed.

(** ** Properties *)

(** Whatever sequence of enqueue (cap 4), dequeue and remove operations the
    panel performs from the empty queue, at most four prompts wait, each with a
    valid request id and no id twice. *)
Theorem prompt_queue_invariant q : rtc (queue_step 4) [] q -> queue_inv 4 q.
Proof. apply queue_reachable_inv. lia. Qed.

Definition request (id : Z) : jsval := JObj [(js "requestId", JNum (NZ id))].

Lemma prompt_queue_invariant_witness :
  queue_inv 4 (sshAgentEnqueuePrompt (JArr [request 1]) (request 2) (JNum (NZ 4))).
Proof.
  apply prompt_queue_invariant. eapply rtc_l; [apply (queue_enqueue 4 [] (request 1))|].
  eapply rtc_l; [apply queue_enqueue|apply rtc_refl].
Defined.

(** The queue is first in, first out: a new request either leaves the queue as
    it was (invalid, already queued, or full) or goes to its end, the oldest one
    is taken first, and cancelling a request removes that one and keeps the order
    of the others. *)
Theorem prompt_queue_fifo q m q' x :
  (sshAgentEnqueuePrompt (JArr q) m (JNum (NZ 4)) = q \/
   sshAgentEnqueuePrompt (JArr q) m (JNum (NZ 4)) = q ++ [m]) /\
  sshAgentDequeuePrompt (JArr (x :: q)) = (x, q) /\
  (queue_inv 4 (q ++ m :: q') ->
   (forall y, y ∈ q ++ q' -> strict_eqb (requestId_of y) (requestId_of m) = false) ->
   strict_eqb (requestId_of m) (requestId_of m) = true ->
   sshAgentRemovePrompt (JArr (q ++ m :: q')) (requestId_of m) = q ++ q').
Proof.
  split; [|split; [done|apply remove_exact]].
  destruct (enqueue_spec 4 q m) as [?|(? & _)]; [lia|by left|by right].
Qed.

(** Every text a prompt draws from another process or a vault item is within
    its length bound and free of control, zero-width and bidirectional characters. *)
Theorem prompt_text_drawable msg window lock :
  let v := sshAgentPromptView msg window lock in
  Forall (fun t => (length t <= 256)%nat /\ drawn t)
    [pv_keyId v; pv_keyName v; pv_fingerprint v; pv_processName v]
  /\ (length (pv_processPath v) <= 512)%nat /\ drawn (pv_processPath v).
Proof.
  cbn zeta. split.
  - do 4 (apply Forall_cons_2; [apply boundedText_ok|]). constructor.
  - apply boundedPath_ok. unfold SSH_AGENT_MAX_PATH_CHARS. lia.
Qed.

(** A prompt offers a grant only when the companion did and the request was
    not forwarded, and the window it offers is at most 900 seconds. *)
Theorem grant_offer_bounded msg window lock :
  let v := sshAgentPromptView msg window lock in
  (pv_grantOffered v = true ->
     is_true (get (js_or msg (JObj [])) (js "grantOffered")) = true /\
     is_true (get (js_or msg (JObj [])) (js "forwarded")) = false) /\
  exists z, pv_grantSeconds v = NZ z /\ 0 <= z <= SSH_AGENT_APPROVAL_WINDOW_MAX_SEC /\
    (pv_grantOffered v = false -> z = 0 /\ pv_grantUntilScreenLock v = false).
Proof.
  cbn [sshAgentPromptView pv_grantOffered pv_grantSeconds pv_grantUntilScreenLock].
  destruct (window_range (to_number window)) as (z & -> & Hz). split.
  - intros H. boolZ. auto.
  - destruct (is_true _ && _ && _) eqn:E; cbn [andb]; [destruct (is_true lock)|]; cbn [negb].
    + exists 0. split_and!; try done.
    + exists z. split_and!; try done; lia.
    + exists 0. split_and!; try done.
Qed.

(** An approval sent to the companion is one JSON line with the request's id
    and at most 900 seconds of grant, whatever the setting holds; a grant until
    the screen locks carries no seconds. *)
Theorem approval_line_bounded id seconds lock : 0 <= id <= 2 ^ 53 ->
  exists t z, sshAgentApproveLine (JNum (NZ id)) seconds (JBool lock) = t ++ [10]
    /\ parse t = Some (JObj (approve_fields id z lock))
    /\ 0 <= z <= SSH_AGENT_APPROVAL_WINDOW_MAX_SEC /\ (lock = true -> z = 0).
Proof. apply approve_line. Qed.

Lemma approval_line_bounded_witness :
  exists t z, sshAgentApproveLine (JNum (NZ 7)) (JStr (js "86400")) (JBool false) = t ++ [10]
    /\ parse t = Some (JObj (approve_fields 7 z false))
    /\ 0 <= z <= SSH_AGENT_APPROVAL_WINDOW_MAX_SEC /\ (false = true -> z = 0).
Proof. apply approval_line_bounded. lia. Defined.

(** Two refusals in a row, denied or left to time out, pause the prompts for
    exactly five minutes from the second one; an approval lifts the pause. *)
Theorem cooldown_pauses s o1 o2 t1 t2 t :
  o1 = denied \/ o1 = timeout -> o2 = denied \/ o2 = timeout ->
  0 <= refusals s -> 0 <= t2 < 2 ^ 52 -> 0 <= t ->
  let s' := sshAgentCooldownAfter (Some (sshAgentCooldownAfter (Some s) o1 (JNum (NZ t1)))) o2 (JNum (NZ t2)) in
  sshAgentCooldownActive (Some s') (JNum (NZ t)) = (t <? t2 + SSH_AGENT_COOLDOWN_MS) /\
  sshAgentCooldownActive (Some (sshAgentCooldownAfter (Some s') approved (JNum (NZ t)))) (JNum (NZ t)) = false.
Proof.
  intros H1 H2 Hs Ht2 Ht. cbn zeta. split; [by apply cooldown_after_two|].
  unfold sshAgentCooldownActive. cbn [default from_option id sshAgentCooldownAfter untilMs].
  rewrite to_number_time, num_ltb_NZ. lia.
Qed.

Lemma cooldown_pauses_witness :
  sshAgentCooldownActive (Some (sshAgentCooldownAfter
    (Some (sshAgentCooldownAfter (Some sshAgentCooldownInitial) denied (JNum (NZ 10)))) timeout (JNum (NZ 20))))
    (JNum (NZ 300019)) = true.
Proof.
  exact (proj1 (cooldown_pauses sshAgentCooldownInitial denied timeout 10 20 300019
    (or_introl eq_refl) (or_intror eq_refl) ltac:(cbn; lia) ltac:(lia) ltac:(lia))).
Defined.

(** What a vault event asks of the companion.  Every lock, screen lock or
    suspend cancels a running load and, with a live helper, sends vault_locked and
    awaits its acknowledgement; logout and account change also drop the public
    keys; only disabling stops the helper; keys are loaded only on unlock, sync or
    startup with a live helper and an unlocked vault, never while cancelling. *)
Theorem lifecycle_actions event ctx :
  let a := sshAgentLifecycleTransition event ctx in
  let live := truthy (get (js_or ctx (JObj [])) (js "enabled")) && truthy (get (js_or ctx (JObj [])) (js "helperReady")) in
  (event ∈ SSH_AGENT_LOCK_EVENTS ->
     cancelLoad a = true /\ awaitLockAck a = live /\ clearPublic a = false /\
     controlLines a = (if live then [sshAgentVaultLockedLine (get (js_or ctx (JObj [])) (js "epoch"))] else [])) /\
  (event ∈ SSH_AGENT_LOGOUT_EVENTS ->
     cancelLoad a = true /\ clearPublic a = true /\ advanceEpoch a = live /\
     controlLines a = (if live then [sshAgentLoggedOutLine] else [])) /\
  (stopHelper a = true <-> event = js "disable" \/ event = js "shutdown") /\
  (startLoad a = true -> event ∈ SSH_AGENT_LOAD_EVENTS /\ cancelLoad a = false /\ live = true /\
     truthy (get (js_or ctx (JObj [])) (js "unlocked")) = true).
Proof.
  cbn zeta. set (live := truthy _ && truthy _). unfold sshAgentLifecycleTransition. fold live.
  assert (Hm : forall l, existsb (str_eqb event) l = true <-> event ∈ l).
  { intros l. rewrite existsb_exists. setoid_rewrite str_eqb_eq. setoid_rewrite <- list_elem_of_In. naive_solver. }
  destruct (str_eqb event (js "disable") || str_eqb event (js "shutdown")) eqn:E.
  { apply orb_true_iff in E. rewrite !str_eqb_eq in E. cbn.
    split_and!; [intros H|intros H|done|done]; exfalso; apply Hm in H; by destruct E as [-> | ->]. }
  apply orb_false_iff in E. rewrite !str_eqb_neq in E.
  destruct (existsb _ SSH_AGENT_LOCK_EVENTS) eqn:E1; [|destruct (existsb _ SSH_AGENT_LOGOUT_EVENTS) eqn:E2;
    [|destruct (existsb _ SSH_AGENT_LOAD_EVENTS) eqn:E3]]; cbn; (split_and!; [intros H|intros H| |]).
  all: try (split; [done|]; intros [-> | ->]; exfalso; naive_solver); try done; try (apply Hm in H; congruence).
  - exfalso. apply Hm in E1. repeat (apply elem_of_cons in E1 as [->|E1]; [by apply Hm in H|]). by apply elem_of_nil in E1.
  - intros Hl. apply andb_true_iff in Hl as [-> ->]. split_and!; try done. by apply Hm.
Qed.

(** A context that does not say whether the screen is locked gets its prompt. *)
Lemma unknown_screen_prompts : sshAgentShouldPrompt (JObj []) = true.
Proof. reflexivity. Qed.
