(* ===== verification/Actions.v ===== *)
(** * Handlers as actions

    A handler of a QML object changes the object's properties and does things to the
    world.  An action is the next state and the effects, in order.  [ok] is its
    specification: from a state in [P] it leads to one in [Q], with effects in [E].
    [along] says that an action follows a relation which sequences compose. *)

From S2P Require Import Prelude.

Section actions.
  Context {S X : Type}.

Definition act : Type := S -> S * list X.
Definition nothing : act := fun s => (s, []).
Definition emit (x : X) : act := fun s => (s, [x]).
Definition set (f : S -> S) : act := fun s => (f s, []).
Definition seq_act (a b : act) : act := fun s => let '(s1, e1) := a s in let '(s2, e2) := b s1 in (s2, e1 ++ e2).

(** What follows depends on the state found. *)
Definition reading (f : S -> act) : act := fun s => f s s.

(** The state and the effects of a sequence. *)
Lemma fst_seq (a b : act) s : (seq_act a b s).1 = (b (a s).1).1.
Proof. unfold seq_act. destruct (a s) as [s1 e1]. cbn. by destruct (b s1). Qed.
Lemma snd_seq (a b : act) s : (seq_act a b s).2 = (a s).2 ++ (b (a s).1).2.
Proof. unfold seq_act. destruct (a s) as [s1 e1]. cbn. by destruct (b s1). Qed.

(** ** Specifications *)

Definition ok (P Q : S -> Prop) (E : X -> Prop) (a : act) : Prop :=
  forall s, P s -> Q (a s).1 /\ Forall E (a s).2.

Lemma ok_nothing (P : S -> Prop) E : ok P P E nothing.
Proof. intros s Hs. split; [done|constructor]. Qed.

Lemma ok_emit (P : S -> Prop) (E : X -> Prop) x : E x -> ok P P E (emit x).
Proof. intros Hx s Hs. split; [done|]. by constructor. Qed.

Lemma ok_set (P Q : S -> Prop) E f : (forall s, P s -> Q (f s)) -> ok P Q E (set f).
Proof. intros Hf s Hs. split; [by apply Hf|constructor]. Qed.

Lemma ok_seq (P Q R : S -> Prop) E a b : ok P Q E a -> ok Q R E b -> ok P R E (seq_act a b).
Proof.
  intros Ha Hb s Hs. unfold seq_act. destruct (Ha s Hs) as [Q1 E1]. destruct (a s) as [s1 e1].
  destruct (Hb s1 Q1) as [R2 E2]. destruct (b s1) as [s2 e2]. cbn in *. split; [done|]. by apply Forall_app.
Qed.

Lemma ok_reading (P Q : S -> Prop) E f : (forall s, P s -> ok (fun s' => P s' /\ s' = s) Q E (f s)) -> ok P Q E (reading f).
Proof. intros Hf s Hs. by apply (Hf s Hs s). Qed.

(** When only the values read matter. *)
Lemma ok_read (P Q : S -> Prop) E f : (forall s, P s -> ok P Q E (f s)) -> ok P Q E (reading f).
Proof. intros Hf s Hs. by apply (Hf s Hs s). Qed.

Lemma ok_weaken (P P' Q Q' : S -> Prop) E a : (forall s, P' s -> P s) -> (forall s, Q s -> Q' s) -> ok P Q E a -> ok P' Q' E a.
Proof. intros HP HQ Ha s Hs. destruct (Ha s (HP s Hs)) as [H1 H2]. auto. Qed.

Lemma ok_if (P Q : S -> Prop) E (b : bool) x y :
  (b = true -> ok P Q E x) -> (b = false -> ok P Q E y) -> ok P Q E (if b then x else y).
Proof. destruct b; auto. Qed.

(** ** Effects heard by somebody

    [heard w es w']: an observer in [w] takes the effects [es] and is in [w'] after
    them.  [sends P Q a]: from a state and an observer in [P] the action leads to [Q],
    and its effects are taken. *)
Section heard.
  Context {W : Type} (heard : W -> list X -> W -> Prop).
  Context (heard_nil : forall w, heard w [] w).
  Context (heard_app : forall w1 w2 w3 e1 e2, heard w1 e1 w2 -> heard w2 e2 w3 -> heard w1 (e1 ++ e2) w3).

Definition sends (P Q : S -> W -> Prop) (a : act) : Prop :=
  forall s w, P s w -> exists w', heard w (a s).2 w' /\ Q (a s).1 w'.

Lemma sends_nothing (P : S -> W -> Prop) : sends P P nothing.
Proof. intros s w H. exists w. auto. Qed.

Lemma sends_set (P Q : S -> W -> Prop) f : (forall s w, P s w -> Q (f s) w) -> sends P Q (set f).
Proof. intros Hf s w H. exists w. split; [apply heard_nil|by apply Hf]. Qed.

Lemma sends_emit (P Q : S -> W -> Prop) x : (forall s w, P s w -> exists w', heard w [x] w' /\ Q s w') -> sends P Q (emit x).
Proof. intros Hx s w H. by apply Hx. Qed.

Lemma sends_seq (P Q R : S -> W -> Prop) a b : sends P Q a -> sends Q R b -> sends P R (seq_act a b).
Proof.
  intros Ha Hb s w H. destruct (Ha s w H) as (w1 & H1 & Q1). unfold seq_act. destruct (a s) as [s1 e1]. cbn in *.
  destruct (Hb s1 w1 Q1) as (w2 & H2 & R2). destruct (b s1) as [s2 e2]. cbn in *. exists w2. split; [by eapply heard_app|done].
Qed.

Lemma sends_assoc (P Q : S -> W -> Prop) a b c : sends P Q (seq_act (seq_act a b) c) -> sends P Q (seq_act a (seq_act b c)).
Proof.
  intros H s w HP. specialize (H s w HP). unfold seq_act in *. destruct (a s) as [s1 e1], (b s1) as [s2 e2], (c s2) as [s3 e3].
  by rewrite <- app_assoc in H.
Qed.

Lemma sends_reading (P Q : S -> W -> Prop) f : (forall s0, sends (fun s w => P s w /\ s = s0) Q (f s0)) -> sends P Q (reading f).
Proof. intros Hf s w H. by apply (Hf s s w). Qed.

(** When what is read does not matter. *)
Lemma sends_any (P Q : S -> W -> Prop) f : (forall s0, sends P Q (f s0)) -> sends P Q (reading f).
Proof. intros Hf s w H. by apply (Hf s s w). Qed.

Lemma sends_weaken (P P' Q Q' : S -> W -> Prop) a :
  sends P Q a -> (forall s w, P' s w -> P s w) -> (forall s w, Q s w -> Q' s w) -> sends P' Q' a.
Proof. intros Ha HP HQ s w H. destruct (Ha s w (HP _ _ H)) as (w' & H1 & H2). eauto. Qed.

Lemma sends_pure (P Q : S -> W -> Prop) (phi : Prop) a : (forall s w, P s w -> phi) -> (phi -> sends P Q a) -> sends P Q a.
Proof. intros Hp Ha s w H. by apply (Ha (Hp s w H)). Qed.
End heard.

(** ** Along a relation

    What an action keeps, as a relation between the state it finds, its effects and the
    state it leaves, which holds of a sequence when it holds of its parts. *)

Class Composes (R : S -> list X -> S -> Prop) : Prop := {
  compose_none : forall s, R s [] s;
  compose_emit : forall s x, R s [x] s;
  compose_seq : forall s1 s2 s3 e1 e2, R s1 e1 s2 -> R s2 e2 s3 -> R s1 (e1 ++ e2) s3
}.

Definition along (R : S -> list X -> S -> Prop) (a : act) : Prop := forall s, R s (a s).2 (a s).1.

Lemma along_nothing R `{!Composes R} : along R nothing.
Proof. intros s. apply compose_none. Qed.
Lemma along_emit R `{!Composes R} x : along R (emit x).
Proof. intros s. apply compose_emit. Qed.
Lemma along_set R f : (forall s, R s [] (f s)) -> along R (set f).
Proof. intros H s. apply H. Qed.
Lemma along_seq R `{!Composes R} a b : along R a -> along R b -> along R (seq_act a b).
Proof. intros Ha Hb s. rewrite fst_seq, snd_seq. eapply compose_seq; [apply Ha|apply Hb]. Qed.
Lemma along_reading R f : (forall s, along R (f s)) -> along R (reading f).
Proof. intros H s. apply H. Qed.
Lemma along_if R (b : bool) x y : along R x -> along R y -> along R (if b then x else y).
Proof. by destruct b. Qed.
End actions.

Arguments act : clear implicits.

Declare Scope act_scope.
Delimit Scope act_scope with act.
Notation "a ;; b" := (seq_act a b) (at level 100, b at level 200, right associativity) : act_scope.

Create HintDb along.
#[export] Hint Resolve along_nothing along_emit along_seq along_if : along.
#[export] Hint Extern 0 (Composes _) => typeclasses eauto : along.
#[export] Hint Extern 1 (along _ (set _)) => apply along_set; done : along.
#[export] Hint Extern 1 (along _ (reading _)) => apply along_reading; intro : along.
#[export] Hint Extern 2 (along _ (match ?x with _ => _ end)) => destruct x : along.
