(* ===== verification/PromptFlow.v ===== *)
(** * Signing prompts in the service ([Service.qml])

    The part of the service that shows signing and unlock requests of the companion,
    one at a time, and answers them.  Its state is the properties of the QML object,
    each handler a definition, composed from the functions of [SshPrompts].  A handler
    gives the next state and what it does: lines written to the companion, the panel
    opened or closed, unlock secrets dropped, a notification.  Opening and closing the
    panel are handlers elsewhere and are parameters here; so are the clock, the
    settings, and whether the companion's control channel is open.  The one-second
    ticks that only redraw countdowns are left out. *)

From S2P Require Import Prelude.
From S2P Require Import JsNum.
From S2P Require Import JsString.
From S2P Require Import JsValue.
From S2P Require Import SshAgent.
From S2P Require Import SshPrompts.
From S2P Require Import Actions.

(** ** State *)

Record panel := Panel { opened : bool; currentScreen : list Z }.

Record prompts := Prompts {
  sshPrompt : option prompt_view;
  sshPromptQueue : list jsval;
  sshUnlockRequest : option prompt_view;
  sshUnlockRaw : jsval;
  sshUnlockQueue : list jsval;
  sshPromotedOldId : jsval;
  sshPromotedRaw : jsval;
  sshGrantsAnnounced : list grant_view;
  sshCooldown : cooldown;
  sshCooldownAnnounced : bool;
  sshPromptStartedMs : num;
  sshPromptRemainingSec : num;
  screenBeforeSshApproval : list Z;
  sshPromptOpenedPanel : bool;
  shown_panel : panel
}.

(** What a handler finds around it. *)
Record surroundings := Surroundings {
  now : num;
  screenLocked : bool;
  approvalPopup : bool;             (** the setting that shows requests in a popup *)
  approvalWindowSec : jsval;
  approvalUntilScreenLock : jsval;
  vaultUnlocked : bool;             (** the vault's status *)
  channelOpen : bool;               (** the companion runs and its input is open *)
  open_panel : panel -> panel;
  close_panel : panel -> panel
}.

Inductive effect := Wrote (line : list Z) | ClearedUnlock | Notified.

Definition init_prompts (p : panel) : prompts :=
  Prompts None [] None JNull [] JNull JNull [] sshAgentCooldownInitial false (NZ 0) (NZ 0) (js "main") false p.

(** ** Handlers as actions *)

Notation act := (act prompts effect).
Local Open Scope act_scope.

Definition set_prompt (v : option prompt_view) (s : prompts) : prompts :=
  Prompts v (sshPromptQueue s) (sshUnlockRequest s) (sshUnlockRaw s) (sshUnlockQueue s) (sshPromotedOldId s) (sshPromotedRaw s)
    (sshGrantsAnnounced s) (sshCooldown s) (sshCooldownAnnounced s) (sshPromptStartedMs s) (sshPromptRemainingSec s)
    (screenBeforeSshApproval s) (sshPromptOpenedPanel s) (shown_panel s).
Definition set_queue (q : list jsval) (s : prompts) : prompts :=
  Prompts (sshPrompt s) q (sshUnlockRequest s) (sshUnlockRaw s) (sshUnlockQueue s) (sshPromotedOldId s) (sshPromotedRaw s)
    (sshGrantsAnnounced s) (sshCooldown s) (sshCooldownAnnounced s) (sshPromptStartedMs s) (sshPromptRemainingSec s)
    (screenBeforeSshApproval s) (sshPromptOpenedPanel s) (shown_panel s).
Definition set_unlock (v : option prompt_view) (raw : jsval) (s : prompts) : prompts :=
  Prompts (sshPrompt s) (sshPromptQueue s) v raw (sshUnlockQueue s) (sshPromotedOldId s) (sshPromotedRaw s)
    (sshGrantsAnnounced s) (sshCooldown s) (sshCooldownAnnounced s) (sshPromptStartedMs s) (sshPromptRemainingSec s)
    (screenBeforeSshApproval s) (sshPromptOpenedPanel s) (shown_panel s).
Definition set_unlock_queue (q : list jsval) (s : prompts) : prompts :=
  Prompts (sshPrompt s) (sshPromptQueue s) (sshUnlockRequest s) (sshUnlockRaw s) q (sshPromotedOldId s) (sshPromotedRaw s)
    (sshGrantsAnnounced s) (sshCooldown s) (sshCooldownAnnounced s) (sshPromptStartedMs s) (sshPromptRemainingSec s)
    (screenBeforeSshApproval s) (sshPromptOpenedPanel s) (shown_panel s).
Definition set_promoted (oldId raw : jsval) (s : prompts) : prompts :=
  Prompts (sshPrompt s) (sshPromptQueue s) (sshUnlockRequest s) (sshUnlockRaw s) (sshUnlockQueue s) oldId raw
    (sshGrantsAnnounced s) (sshCooldown s) (sshCooldownAnnounced s) (sshPromptStartedMs s) (sshPromptRemainingSec s)
    (screenBeforeSshApproval s) (sshPromptOpenedPanel s) (shown_panel s).
Definition set_grants (g : list grant_view) (s : prompts) : prompts :=
  Prompts (sshPrompt s) (sshPromptQueue s) (sshUnlockRequest s) (sshUnlockRaw s) (sshUnlockQueue s) (sshPromotedOldId s) (sshPromotedRaw s)
    g (sshCooldown s) (sshCooldownAnnounced s) (sshPromptStartedMs s) (sshPromptRemainingSec s)
    (screenBeforeSshApproval s) (sshPromptOpenedPanel s) (shown_panel s).
Definition set_cooldown (c : cooldown) (announced : bool) (s : prompts) : prompts :=
  Prompts (sshPrompt s) (sshPromptQueue s) (sshUnlockRequest s) (sshUnlockRaw s) (sshUnlockQueue s) (sshPromotedOldId s) (sshPromotedRaw s)
    (sshGrantsAnnounced s) c announced (sshPromptStartedMs s) (sshPromptRemainingSec s)
    (screenBeforeSshApproval s) (sshPromptOpenedPanel s) (shown_panel s).
Definition set_clock (started remaining : num) (s : prompts) : prompts :=
  Prompts (sshPrompt s) (sshPromptQueue s) (sshUnlockRequest s) (sshUnlockRaw s) (sshUnlockQueue s) (sshPromotedOldId s) (sshPromotedRaw s)
    (sshGrantsAnnounced s) (sshCooldown s) (sshCooldownAnnounced s) started remaining
    (screenBeforeSshApproval s) (sshPromptOpenedPanel s) (shown_panel s).
Definition set_surface (before : list Z) (openedPanel : bool) (p : panel) (s : prompts) : prompts :=
  Prompts (sshPrompt s) (sshPromptQueue s) (sshUnlockRequest s) (sshUnlockRaw s) (sshUnlockQueue s) (sshPromotedOldId s) (sshPromotedRaw s)
    (sshGrantsAnnounced s) (sshCooldown s) (sshCooldownAnnounced s) (sshPromptStartedMs s) (sshPromptRemainingSec s)
    before openedPanel p.

Definition with_request_id (id : jsval) (v : prompt_view) : prompt_view :=
  PromptView id (pv_keyId v) (pv_keyName v) (pv_fingerprint v) (pv_pid v) (pv_processPath v) (pv_processName v) (pv_operation v)
    (pv_operationLabel v) (pv_hostKey v) (pv_destinationLabel v) (pv_grantOffered v) (pv_grantSeconds v) (pv_grantUntilScreenLock v)
    (pv_grantLabel v) (pv_grantShortLabel v) (pv_forwardedWarning v) (pv_provenanceNote v).

Section handlers.
  Context (e : surroundings).

Definition sshAgentWrite (line : list Z) : act :=
  if bool_decide (line = []) then nothing else if channelOpen e then emit (Wrote line) else nothing.

(** ** Pausing *)

Definition noteSshCooldown : act := reading (fun s =>
  let '(active, _, _) := sshAgentCooldownStatus (Some (sshCooldown s)) (JNum (now e)) in
  if active && negb (sshCooldownAnnounced s) then set (set_cooldown (sshCooldown s) true) ;; emit Notified
  else if negb active then set (set_cooldown (sshCooldown s) false)
  else nothing).

Definition cooldown_after (o : outcome) : act :=
  set (fun s => set_cooldown (sshAgentCooldownAfter (Some (sshCooldown s)) o (JNum (now e))) (sshCooldownAnnounced s) s) ;; noteSshCooldown.

Definition resumeSshSigning : act := cooldown_after resumed.

Definition sshAgentMayPrompt (s : prompts) : bool :=
  if negb (sshAgentShouldPrompt (JObj [(js "screenLocked", JBool (screenLocked e))])) then false
  else negb (sshAgentCooldownActive (Some (sshCooldown s)) (JNum (now e))).

(** ** Showing *)

Definition sshApprovalPopupOpen (s : prompts) : bool :=
  approvalPopup e && (bool_decide (is_Some (sshPrompt s)) || bool_decide (is_Some (sshUnlockRequest s))).

Definition full_time : num := num_ceil (num_div (NZ SSH_AGENT_REQUEST_DEADLINE_MS) 1000).

Definition set_opened_panel (b : bool) (s : prompts) : prompts := set_surface (screenBeforeSshApproval s) b (shown_panel s) s.
Definition set_panel (p : panel) (s : prompts) : prompts := set_surface (screenBeforeSshApproval s) (sshPromptOpenedPanel s) p s.
Definition set_screen (name : list Z) (s : prompts) : prompts := set_panel (Panel (opened (shown_panel s)) name) s.

(** Whether the popup, and not the panel, shows the request: then the rest is
    skipped. *)
Definition startSshPromptClock (rest : act) : act :=
  set (set_clock (now e) full_time) ;;
  if approvalPopup e then set (set_opened_panel false) else rest.

Definition open_if_closed : act :=
  set (fun s => if opened (shown_panel s) then s else set_panel (open_panel e (shown_panel s)) s).

Definition SSH_APPROVAL : list Z := js "sshApproval".

Definition showSshApproval (message : jsval) : act :=
  set (set_prompt (Some (sshAgentPromptView message (approvalWindowSec e) (approvalUntilScreenLock e)))) ;;
  startSshPromptClock
    (set (fun s => if str_eqb (currentScreen (shown_panel s)) SSH_APPROVAL then s
                   else set_surface (currentScreen (shown_panel s)) (sshPromptOpenedPanel s) (shown_panel s) s) ;;
     set (fun s => if truthy (sshUnlockRaw s) then s else set_opened_panel (negb (opened (shown_panel s))) s) ;;
     open_if_closed ;;
     set (set_screen SSH_APPROVAL)).

(** The setting changed while a request was shown. *)
Definition onSshAgentApprovalPopupChanged : act := reading (fun s =>
  if negb (bool_decide (is_Some (sshPrompt s)) || bool_decide (is_Some (sshUnlockRequest s))) then nothing
  else if approvalPopup e then
    set (set_opened_panel false) ;;
    (if sshPromptOpenedPanel s && opened (shown_panel s) then set (fun s => set_panel (close_panel e (shown_panel s)) s) else nothing)
  else
    set (set_opened_panel (negb (opened (shown_panel s)))) ;;
    open_if_closed ;;
    (if bool_decide (is_Some (sshPrompt s)) then set (set_screen SSH_APPROVAL) else nothing)).

Definition dismissSshApproval : act := reading (fun s =>
  set (fun s => set_opened_panel false (set_unlock_queue [] (set_unlock None JNull (set_promoted JNull JNull (set_queue [] (set_prompt None s)))))) ;;
  set (fun s => if str_eqb (currentScreen (shown_panel s)) SSH_APPROVAL
                then set_screen (if str_eqb (screenBeforeSshApproval s) SSH_APPROVAL then js "main" else screenBeforeSshApproval s) s
                else s) ;;
  (if sshApprovalPopupOpen s then emit ClearedUnlock else nothing) ;;
  (if sshPromptOpenedPanel s
   then set (fun s => if opened (shown_panel s) then set_panel (close_panel e (shown_panel s)) s else s)
   else nothing)).

Definition advanceSshPrompt : act := reading (fun s =>
  let '(next, remaining) := sshAgentDequeuePrompt (JArr (sshPromptQueue s)) in
  set (set_queue remaining) ;;
  if truthy next then showSshApproval next else dismissSshApproval).

Definition advanceSshUnlock : act := reading (fun s =>
  let '(next, remaining) := sshAgentDequeuePrompt (JArr (sshUnlockQueue s)) in
  set (set_unlock_queue remaining) ;;
  if truthy next
  then set (set_unlock (Some (sshAgentPromptView next (JNum (NZ 0)) JUndef)) next) ;; set (set_clock (now e) full_time)
  else dismissSshApproval).

(** ** Answers of the user *)

Definition approveSshRequest (grantSeconds untilScreenLock : jsval) : act := reading (fun s =>
  match sshPrompt s with
  | None => nothing
  | Some v =>
      sshAgentWrite (sshAgentApproveLine (pv_requestId v) grantSeconds (JBool (is_true untilScreenLock && pv_grantUntilScreenLock v))) ;;
      cooldown_after approved ;;
      advanceSshPrompt
  end).

Definition denySshRequest : act := reading (fun s =>
  match sshUnlockRequest s, sshPrompt s with
  | Some u, _ => sshAgentWrite (sshAgentUnlockCancelledLine (pv_requestId u)) ;; cooldown_after denied ;; advanceSshUnlock
  | None, Some v => sshAgentWrite (sshAgentDenyLine (pv_requestId v)) ;; cooldown_after denied ;; advanceSshPrompt
  | None, None => dismissSshApproval
  end).

(** The queued requests that have an id. *)
Definition with_id (q : list jsval) : list jsval := List.filter (fun m => truthy m && truthy (requestId_of m)) q.
Fixpoint write_all_lines (lines : list (list Z)) : act :=
  match lines with
  | [] => nothing
  | l :: lines => sshAgentWrite l ;; write_all_lines lines
  end.

Definition denyAllSshRequests : act := reading (fun s =>
  write_all_lines
    (match sshPrompt s with Some v => [sshAgentDenyLine (pv_requestId v)] | None => [] end
     ++ map (fun m => sshAgentDenyLine (requestId_of m)) (with_id (sshPromptQueue s))
     ++ match sshUnlockRequest s with Some u => [sshAgentUnlockCancelledLine (pv_requestId u)] | None => [] end
     ++ map (fun m => sshAgentUnlockCancelledLine (requestId_of m)) (with_id (sshUnlockQueue s))) ;;
  cooldown_after denied ;;
  dismissSshApproval).

Definition expireSshRequest : act := reading (fun s =>
  if bool_decide (is_Some (sshPrompt s)) || bool_decide (is_Some (sshUnlockRequest s))
  then cooldown_after timeout ;; dismissSshApproval
  else nothing).

(** The countdown of the shown request, once a second. *)
Definition onSshPromptCountdown : act := reading (fun s =>
  let elapsed := num_sub (now e) (sshPromptStartedMs s) in
  let remaining := num_ceil (num_div (num_sub (NZ SSH_AGENT_REQUEST_DEADLINE_MS) elapsed) 1000) in
  set (set_clock (sshPromptStartedMs s) (num_max (NZ 0) remaining)) ;;
  if num_leb remaining (NZ 0) then expireSshRequest else nothing).

(** ** Messages of the companion *)

(** Whether the message took over the shown prompt. *)
Definition adopts (s : prompts) (message : jsval) : bool :=
  negb (is_null (sshPromotedOldId s)) && bool_decide (is_Some (sshPrompt s)) && sshAgentSameRequest (sshPromotedRaw s) message.
Definition adoptSshPrompt (message : jsval) : act :=
  set (fun s => set_promoted JNull JNull (set_prompt (with_request_id (requestId_of message) <$> sshPrompt s) s)).

Definition QUEUE_CAP : jsval := JNum (NZ 4).

Definition onApprovalRequired (message : jsval) : act := reading (fun s =>
  if negb (sshAgentMayPrompt s) then sshAgentWrite (sshAgentDenyLine (requestId_of message))
  else if adopts s message then adoptSshPrompt message
  else match sshPrompt s with
       | Some _ => set (fun s => set_queue (sshAgentEnqueuePrompt (JArr (sshPromptQueue s)) message QUEUE_CAP) s)
       | None => showSshApproval message
       end).

Definition onUnlockRequired (message : jsval) : act := reading (fun s =>
  if negb (sshAgentMayPrompt s) then sshAgentWrite (sshAgentUnlockCancelledLine (requestId_of message))
  else match sshUnlockRequest s with
       | Some _ => set (fun s => set_unlock_queue (sshAgentEnqueuePrompt (JArr (sshUnlockQueue s)) message QUEUE_CAP) s)
       | None =>
           set (set_unlock (Some (sshAgentPromptView message (JNum (NZ 0)) JUndef)) message) ;;
           startSshPromptClock
             (set (fun s => set_opened_panel (negb (opened (shown_panel s))) s) ;; open_if_closed)
       end).

(** A listing of identities is answered by its release. *)
Definition listing_answered (s : prompts) : bool :=
  bool_decide (is_Some (sshUnlockRequest s)) && negb (is_null (sshUnlockRaw s))
  && strict_eqb (get (sshUnlockRaw s) (js "reason")) (JStr (js "list-identities")).

(** The shown request is over. *)
Definition next_shown : act := reading (fun s =>
  if bool_decide (is_Some (sshPrompt s)) && negb (bool_decide (sshPromptQueue s = [])) then advanceSshPrompt
  else if bool_decide (is_Some (sshUnlockRequest s)) && negb (bool_decide (sshUnlockQueue s = [])) then advanceSshUnlock
  else dismissSshApproval).

Definition live_request (s : prompts) : option prompt_view := match sshPrompt s with Some v => Some v | None => sshUnlockRequest s end.

Definition onRequestCancelled (message : jsval) : act := reading (fun s =>
  let reason w := strict_eqb (get message (js "reason")) (JStr (js w)) in
  if match live_request s with Some v => strict_eqb (pv_requestId v) (requestId_of message) | None => false end then
    if reason "granted"%string then next_shown
    else if reason "released"%string then (if listing_answered s then next_shown else nothing)
    else cooldown_after timeout ;; next_shown
  else
    set (fun s => match sshPromptQueue s with [] => s | _ => set_queue (sshAgentRemovePrompt (JArr (sshPromptQueue s)) (requestId_of message)) s end) ;;
    set (fun s => match sshUnlockQueue s with [] => s | _ => set_unlock_queue (sshAgentRemovePrompt (JArr (sshUnlockQueue s)) (requestId_of message)) s end)).

Definition onGrantsChanged (message : jsval) : act :=
  set (set_grants (sshAgentGrantViews (get message (js "grants")) (JNum (now e)))).

(** ** An unlock *)

Definition promoteUnlockToApproval : act := reading (fun s =>
  let raw := sshUnlockRaw s in
  if negb (vaultUnlocked e) || negb (truthy raw) || bool_decide (is_Some (sshPrompt s)) then nothing
  else if strict_eqb (get raw (js "reason")) (JStr (js "list-identities")) then nothing
  else
    set (set_promoted (requestId_of raw) raw) ;;
    set (fun s => set_unlock_queue [] (set_unlock None JNull s)) ;;
    showSshApproval raw).
End handlers.

(** ** Events *)

Inductive flow_event :=
| ApprovalRequired (m : jsval)
| UnlockRequired (m : jsval)
| RequestCancelled (m : jsval)
| GrantsChanged (m : jsval)
| Approve (grantSeconds untilScreenLock : jsval)
| Deny
| DenyAll
| Countdown
| Resume
| PopupChanged
| StatusChanged.

Definition handle (e : surroundings) (ev : flow_event) : act :=
  match ev with
  | ApprovalRequired m => onApprovalRequired e m
  | UnlockRequired m => onUnlockRequired e m
  | RequestCancelled m => onRequestCancelled e m
  | GrantsChanged m => onGrantsChanged e m
  | Approve g u => approveSshRequest e g u
  | Deny => denySshRequest e
  | DenyAll => denyAllSshRequests e
  | Countdown => onSshPromptCountdown e
  | Resume => resumeSshSigning e
  | PopupChanged => onSshAgentApprovalPopupChanged e
  | StatusChanged => promoteUnlockToApproval e
  end.
