(* ===== verification/PromptFlowCorrect.v ===== *)
(** * Who answers what

    The service as a transition system: in every reachable state the queues are
    bounded and nothing waits unseen; every line written to the companion answers a
    request the companion made, and only a click approves; and, as long as nothing is
    queued behind a prompt that was promoted from an unlock and no companion goes while
    a request is shown, what a click approves is what the prompt shows. *)

From S2P Require Import Prelude.
From S2P Require Import JsNum.
From S2P Require Import JsString.
From S2P Require Import JsValue.
From S2P Require Import SshAgent.
From S2P Require Import SshPrompts.
From S2P Require Import SshPromptsCorrect.
From S2P Require Import Actions.
From S2P Require Import PromptFlow.

(** ** The transition system *)

(** The request a message of the companion makes. *)
Definition request_of (ev : flow_event) : list jsval :=
  match ev with ApprovalRequired m | UnlockRequired m => [m] | _ => [] end.

(** A message is an object. *)
Definition message_ok (ev : flow_event) : Prop := Forall (fun m => truthy m = true) (request_of ev).

(** ** What no handler of the clock, the pause or the panel touches *)

Record core_state := Core {
  c_prompt : option prompt_view; c_queue : list jsval; c_unlock : option prompt_view; c_raw : jsval; c_unlock_queue : list jsval;
  c_old : jsval; c_promoted : jsval
}.
Definition core (s : prompts) : core_state :=
  Core (sshPrompt s) (sshPromptQueue s) (sshUnlockRequest s) (sshUnlockRaw s) (sshUnlockQueue s) (sshPromotedOldId s) (sshPromotedRaw s).
Definition no_request : core_state := Core None [] None JNull [] JNull JNull.

(** A property of these fields alone. *)
Class OnCore (P : prompts -> Prop) : Prop := on_core s s' : core s = core s' -> P s -> P s'.
Ltac same_core H := refine (on_core _ _ _ H); try done.

Definition silent (E : effect -> Prop) : Prop := E Notified /\ E ClearedUnlock.

Section keeps.
  Context (e : surroundings) (P : prompts -> Prop) `{!OnCore P} (E : effect -> Prop) (HE : silent E).

Lemma keeps_note : ok P P E (noteSshCooldown e).
Proof.
  apply ok_reading. intros s Hs. destruct (sshAgentCooldownStatus _ _) as [[active r] m].
  apply ok_if; intros _; [eapply ok_seq; [|apply (ok_emit P), HE]|apply ok_if; intros _]; try apply ok_set; intros s' [Hs' ->];
    same_core Hs'.
Qed.

Lemma keeps_cooldown o : ok P P E (cooldown_after e o).
Proof. eapply ok_seq; [apply ok_set|apply keeps_note]. intros s Hs. same_core Hs. Qed.

Lemma keeps_clock n r : ok P P E (set (set_clock n r)).
Proof. apply ok_set. intros s Hs. same_core Hs. Qed.

Lemma keeps_surface f : (forall s, core (f s) = core s) -> ok P P E (set f).
Proof. intros Hf. apply ok_set. intros s Hs. same_core Hs. Qed.

Lemma keeps_open : ok P P E (open_if_closed e).
Proof. apply keeps_surface. intros s. by destruct (opened _). Qed.

Lemma keeps_start rest : ok P P E rest -> ok P P E (startSshPromptClock e rest).
Proof.
  intros Hr. eapply ok_seq; [apply keeps_clock|]. apply ok_if; intros _; [by apply keeps_surface|done].
Qed.

Lemma keeps_popup : ok P P E (onSshAgentApprovalPopupChanged e).
Proof.
  apply ok_read. intros s Hs.
  apply ok_if; intros _; [apply ok_nothing|]. apply ok_if; intros _.
  - eapply ok_seq; [by apply keeps_surface|]. apply ok_if; intros _; [by apply keeps_surface|apply ok_nothing].
  - eapply ok_seq; [by apply keeps_surface|]. eapply ok_seq; [apply keeps_open|].
    apply ok_if; intros _; [by apply keeps_surface|apply ok_nothing].
Qed.
End keeps.

(** ** What each handler does to them *)

#[export] Instance at_core c : OnCore (fun s => core s = c).
Proof. intros s s' E H. congruence. Qed.

(** One step, on the fields that matter. *)
Inductive moves (ev : flow_event) (c : core_state) : core_state -> Prop :=
| stays : moves ev c c
| dismissed : moves ev c no_request
| next_prompt m q w u : c_queue c = m :: q -> truthy m = true ->
    moves ev c (Core (Some (sshAgentPromptView m w u)) q (c_unlock c) (c_raw c) (c_unlock_queue c) (c_old c) (c_promoted c))
| next_unlock m q : c_unlock_queue c = m :: q -> truthy m = true ->
    moves ev c (Core (c_prompt c) (c_queue c) (Some (sshAgentPromptView m (JNum (NZ 0)) JUndef)) m q (c_old c) (c_promoted c))
| first_prompt m w u : ev = ApprovalRequired m -> c_prompt c = None ->
    moves ev c (Core (Some (sshAgentPromptView m w u)) (c_queue c) (c_unlock c) (c_raw c) (c_unlock_queue c) (c_old c) (c_promoted c))
| first_unlock m : ev = UnlockRequired m -> c_unlock c = None ->
    moves ev c (Core (c_prompt c) (c_queue c) (Some (sshAgentPromptView m (JNum (NZ 0)) JUndef)) m (c_unlock_queue c) (c_old c) (c_promoted c))
| queued_prompt m v : ev = ApprovalRequired m -> c_prompt c = Some v ->
    moves ev c (Core (c_prompt c) (sshAgentEnqueuePrompt (JArr (c_queue c)) m QUEUE_CAP) (c_unlock c) (c_raw c) (c_unlock_queue c) (c_old c) (c_promoted c))
| queued_unlock m v : ev = UnlockRequired m -> c_unlock c = Some v ->
    moves ev c (Core (c_prompt c) (c_queue c) (c_unlock c) (c_raw c) (sshAgentEnqueuePrompt (JArr (c_unlock_queue c)) m QUEUE_CAP) (c_old c) (c_promoted c))
| adopted m v : ev = ApprovalRequired m -> c_prompt c = Some v -> is_null (c_old c) = false -> sshAgentSameRequest (c_promoted c) m = true ->
    moves ev c (Core (Some (with_request_id (requestId_of m) v)) (c_queue c) (c_unlock c) (c_raw c) (c_unlock_queue c) JNull JNull)
| withdrawn q uq id : (q = c_queue c \/ q = sshAgentRemovePrompt (JArr (c_queue c)) id) ->
    (uq = c_unlock_queue c \/ uq = sshAgentRemovePrompt (JArr (c_unlock_queue c)) id) -> 
    moves ev c (Core (c_prompt c) q (c_unlock c) (c_raw c) uq (c_old c) (c_promoted c))
| promoted w u : truthy (c_raw c) = true -> c_prompt c = None ->
    moves ev c (Core (Some (sshAgentPromptView (c_raw c) w u)) (c_queue c) None JNull [] (requestId_of (c_raw c)) (c_raw c)).

(** The lines an event may write, from the fields it finds. *)
Definition refuses (c : core_state) (l : list Z) : Prop :=
  (exists v, c_prompt c = Some v /\ l = sshAgentDenyLine (pv_requestId v)) \/
  (exists m, m ∈ c_queue c /\ l = sshAgentDenyLine (requestId_of m)) \/
  (exists v, c_unlock c = Some v /\ l = sshAgentUnlockCancelledLine (pv_requestId v)) \/
  (exists m, m ∈ c_unlock_queue c /\ l = sshAgentUnlockCancelledLine (requestId_of m)).

Definition answers (c : core_state) (ev : flow_event) (l : list Z) : Prop :=
  match ev with
  | ApprovalRequired m => l = sshAgentDenyLine (requestId_of m)
  | UnlockRequired m => l = sshAgentUnlockCancelledLine (requestId_of m)
  | Approve g u => exists v, c_prompt c = Some v /\ l = sshAgentApproveLine (pv_requestId v) g (JBool (is_true u && pv_grantUntilScreenLock v))
  | Deny | DenyAll => refuses c l
  | _ => False
  end.

Definition answering (c : core_state) (ev : flow_event) (x : effect) : Prop :=
  match x with Wrote l => l <> [] /\ answers c ev l | _ => True end.

Lemma answering_silent c ev : silent (answering c ev).
Proof. done. Qed.

Lemma ok_write e (P : prompts -> Prop) (E : effect -> Prop) line : (line <> [] -> E (Wrote line)) -> ok P P E (sshAgentWrite e line).
Proof.
  intros H. unfold sshAgentWrite. apply ok_if; intros Hl; [apply ok_nothing|]. apply bool_decide_eq_false in Hl.
  apply ok_if; intros _; [by apply ok_emit, H|apply ok_nothing].
Qed.

Ltac surface := match goal with |- ok ?P _ _ _ => apply (keeps_surface P) end; intros ?; cbv beta; repeat case_match; done.

Section moved.
  Context (e : surroundings) (E : effect -> Prop) (HE : silent E).

Definition is_core (c : core_state) (s : prompts) : Prop := core s = c.
#[local] Instance is_core_on c : OnCore (is_core c) := at_core c.

Lemma dismiss_core c : ok (is_core c) (is_core no_request) E (dismissSshApproval e).
Proof.
  apply ok_read. intros s Hs. eapply ok_seq; [apply (ok_set _ (is_core no_request))|].
  { intros s' _. done. }
  eapply ok_seq; [surface|].
  eapply ok_seq; [apply (ok_if _ (is_core no_request)); intros _; [apply ok_emit, HE|apply ok_nothing]|].
  apply ok_if; intros _; [surface|apply ok_nothing].
Qed.

Lemma show_core m c : ok (is_core c)
  (is_core (Core (Some (sshAgentPromptView m (approvalWindowSec e) (approvalUntilScreenLock e))) (c_queue c) (c_unlock c) (c_raw c)
     (c_unlock_queue c) (c_old c) (c_promoted c))) E (showSshApproval e m).
Proof.
  set (c' := Core _ _ _ _ _ _ _). apply (ok_seq _ (is_core c')); [apply ok_set; by intros s <-|]. apply (keeps_start e (is_core c')).
  eapply ok_seq; [surface|].
  eapply ok_seq; [surface|].
  eapply ok_seq; [apply (keeps_open e _)|]. surface.
Qed.

Definition advanced (ev : flow_event) (c : core_state) (s : prompts) : Prop := moves ev c (core s).

Lemma advance_core ev c : ok (is_core c) (advanced ev c) E (advanceSshPrompt e).
Proof.
  apply ok_reading. intros s Hs. unfold is_core in Hs. subst c. destruct (sshAgentDequeuePrompt _) as [m q] eqn:Ed.
  eapply ok_seq; [apply (ok_set _ (is_core (core (set_queue q s)))); by intros s' [_ ->]|]. apply ok_if; intros Em.
  - eapply ok_weaken; [done| |apply show_core]. intros s' Hs'. unfold advanced. rewrite Hs'. apply (next_prompt ev (core s) m q); [|done].
    cbn. destruct (sshPromptQueue s); cbn in Ed; [by injection Ed as <- <-|by injection Ed as -> ->].
  - eapply ok_weaken; [done| |apply dismiss_core]. intros s' Hs'. unfold advanced. rewrite Hs'. constructor.
Qed.

Lemma advance_unlock_core ev c : ok (is_core c) (advanced ev c) E (advanceSshUnlock e).
Proof.
  apply ok_reading. intros s Hs. unfold is_core in Hs. subst c. destruct (sshAgentDequeuePrompt _) as [m q] eqn:Ed.
  eapply ok_seq; [apply (ok_set _ (is_core (core (set_unlock_queue q s)))); by intros s' [_ ->]|]. apply ok_if; intros Em.
  - eapply ok_weaken; [done|intros s' Hs'; exact Hs'|]. eapply ok_seq.
    + apply (ok_set _ (is_core (core (set_unlock (Some (sshAgentPromptView m (JNum (NZ 0)) JUndef)) m (set_unlock_queue q s))))).
      intros s' Hs'. unfold is_core, core in *. cbn. by injection Hs' as -> -> _ _ -> -> ->.
    + eapply ok_weaken; [done| |apply keeps_clock; apply _]. intros s' Hs'. unfold advanced. rewrite Hs'. cbn.
      apply (next_unlock ev (core s)); [|done]. cbn. destruct (sshUnlockQueue s); cbn in Ed; [by injection Ed as <- <-|by injection Ed as -> ->].
  - eapply ok_weaken; [done| |apply dismiss_core]. intros s' Hs'. unfold advanced. rewrite Hs'. constructor.
Qed.

(** A handler leads from [c] by a move of its event. *)
Definition leads (ev : flow_event) (c : core_state) (a : act) : Prop := ok (is_core c) (advanced ev c) (answering c ev) a.
End moved.

#[export] Instance is_core_instance c : OnCore (is_core c) := at_core c.
#[export] Hint Resolve answering_silent : core.

Section handled.
  Context (e : surroundings) (ev : flow_event) (c : core_state).
  Notation E := (answering c ev).

Lemma leads_keeps a : ok (is_core c) (is_core c) E a -> leads ev c a.
Proof. intros H. eapply ok_weaken; [done| |exact H]. intros s <-. constructor. Qed.

Lemma leads_nothing : leads ev c nothing.
Proof. apply leads_keeps, ok_nothing. Qed.

Lemma leads_seq a b : ok (is_core c) (is_core c) E a -> leads ev c b -> leads ev c (seq_act a b).
Proof. apply ok_seq. Qed.

Lemma leads_read f : (forall s, core s = c -> leads ev c (f s)) -> leads ev c (reading f).
Proof. apply ok_read. Qed.

Lemma leads_if (b : bool) x y : (b = true -> leads ev c x) -> (b = false -> leads ev c y) -> leads ev c (if b then x else y).
Proof. apply ok_if. Qed.

Lemma leads_set f c' : (forall s, core s = c -> core (f s) = c') -> moves ev c c' -> leads ev c (set f).
Proof. intros Hf Hm. apply ok_set. intros s Hs. unfold advanced. by rewrite (Hf s Hs). Qed.

Lemma leads_dismiss : leads ev c (dismissSshApproval e).
Proof. eapply ok_weaken; [done| |by apply dismiss_core]. intros s Hs. unfold advanced. rewrite Hs. constructor. Qed.

Lemma leads_advance : leads ev c (advanceSshPrompt e).
Proof. by apply advance_core. Qed.

Lemma leads_advance_unlock : leads ev c (advanceSshUnlock e).
Proof. by apply advance_unlock_core. Qed.

Lemma leads_cooldown o b : leads ev c b -> leads ev c (seq_act (cooldown_after e o) b).
Proof. apply leads_seq. by apply (keeps_cooldown e (is_core c)). Qed.

Lemma leads_write line b : answers c ev line -> leads ev c b -> leads ev c (seq_act (sshAgentWrite e line) b).
Proof. intros Ha. apply leads_seq, ok_write. by intros Hl. Qed.

Lemma leads_next : leads ev c (next_shown e).
Proof.
  apply leads_read. intros s _. apply leads_if; intros _; [apply leads_advance|]. apply leads_if; intros _; [apply leads_advance_unlock|apply leads_dismiss].
Qed.

Lemma leads_write_all lines b : Forall (answers c ev) lines -> leads ev c b -> leads ev c (seq_act (write_all_lines e lines) b).
Proof.
  intros Hl. apply leads_seq. induction Hl as [|l lines Hl _ IH]; cbn [write_all_lines]; [apply ok_nothing|].
  eapply ok_seq; [apply ok_write; by intros Hn|exact IH].
Qed.

Lemma leads_expire : leads ev c (expireSshRequest e).
Proof. apply leads_read. intros s _. apply leads_if; intros _; [apply leads_cooldown, leads_dismiss|apply leads_nothing]. Qed.
End handled.

Lemma handle_leads e ev c : leads ev c (handle e ev).
Proof.
  destruct ev as [m|m|m|m|g u| | | | | |]; cbn [handle].
  - apply leads_read. intros s Hs. apply leads_if; intros _; [apply leads_keeps, ok_write; by intros Hl|].
    apply leads_if; intros Ha.
    + apply andb_true_iff in Ha as [[Ha1%negb_true_iff Ha2%bool_decide_eq_true]%andb_true_iff Ha3].
      destruct (sshPrompt s) as [v|] eqn:Ev; [|by destruct Ha2]. subst c.
      eapply leads_set; [|eapply (adopted _ (core s) m v); done].
      intros s' Hs'. unfold core in *. cbn. injection Hs' as E1 -> -> -> -> _ _. by rewrite E1, Ev.
    + destruct (sshPrompt s) as [v|] eqn:Ev.
      * eapply leads_set; [|eapply (queued_prompt _ c m v); [done|by subst c]]. by intros s' <-.
      * eapply ok_weaken; [done| |by apply show_core]. intros s' Hs'. unfold advanced. rewrite Hs'. apply first_prompt; [done|by subst c].
  - apply leads_read. intros s Hs. apply leads_if; intros _; [apply leads_keeps, ok_write; by intros Hl|].
    destruct (sshUnlockRequest s) as [v|] eqn:Ev.
    + eapply leads_set; [|eapply (queued_unlock _ c m v); [done|by subst c]]. by intros s' <-.
    + set (c' := Core (c_prompt c) (c_queue c) (Some (sshAgentPromptView m (JNum (NZ 0)) JUndef)) m (c_unlock_queue c) (c_old c) (c_promoted c)).
      eapply (ok_seq _ (is_core c')); [apply ok_set; intros s' Hs'; unfold is_core, c'; by rewrite <- Hs'|]. eapply ok_weaken; [done| |].
      2: { apply (keeps_start e (is_core c')). eapply ok_seq; [surface|]. apply (keeps_open e (is_core c')). }
      intros s' Hs'. unfold advanced. rewrite Hs'. apply first_unlock; [done|by subst c].
  - apply leads_read. intros s Hs. apply leads_if; intros _.
    + apply leads_if; intros _; [apply leads_next|]. apply leads_if; intros _; [apply leads_if; intros _; [apply leads_next|apply leads_nothing]|].
      apply leads_cooldown, leads_next.
    + set (q := match c_queue c with [] => c_queue c | _ => sshAgentRemovePrompt (JArr (c_queue c)) (requestId_of m) end).
      set (uq := match c_unlock_queue c with [] => c_unlock_queue c | _ => sshAgentRemovePrompt (JArr (c_unlock_queue c)) (requestId_of m) end).
      set (c1 := Core (c_prompt c) q (c_unlock c) (c_raw c) (c_unlock_queue c) (c_old c) (c_promoted c)).
      set (c2 := Core (c_prompt c) q (c_unlock c) (c_raw c) uq (c_old c) (c_promoted c)).
      eapply (ok_seq _ (is_core c1)); [apply ok_set|eapply (ok_weaken _ _ (is_core c2)); [done| |apply ok_set]].
      * intros s' Hs'. clear Hs. subst c1 c2 q uq. destruct c. unfold is_core, core in *. injection Hs' as H1 H2 H3 H4 H5 H6 H7.
        rewrite H2. cbn -[sshAgentRemovePrompt]. destruct c_queue0; cbn -[sshAgentRemovePrompt]; congruence.
      * intros s' Hs'. unfold advanced. rewrite Hs'. apply (withdrawn _ _ q uq (requestId_of m)); subst q uq; case_match; auto.
      * intros s' Hs'. clear Hs. subst c1 c2 q uq. destruct c. unfold is_core, core in *. cbn -[sshAgentRemovePrompt] in *.
        injection Hs' as H1 H2 H3 H4 H5 H6 H7. rewrite H5. destruct c_unlock_queue0; cbn -[sshAgentRemovePrompt]; congruence.
  - apply leads_keeps. by apply (keeps_surface (is_core c)).
  - apply leads_read. intros s Hs. destruct (sshPrompt s) as [v|] eqn:Ev; [|apply leads_nothing].
    apply leads_write; [exists v; by subst c|]. apply leads_cooldown, leads_advance.
  - apply leads_read. intros s Hs. destruct (sshUnlockRequest s) as [u|] eqn:Eu; [|destruct (sshPrompt s) as [v|] eqn:Ev].
    + apply leads_write; [right; right; left; exists u; by subst c|]. apply leads_cooldown, leads_advance_unlock.
    + apply leads_write; [left; exists v; by subst c|]. apply leads_cooldown, leads_advance.
    + apply leads_dismiss.
  - apply leads_read. intros s Hs. apply leads_write_all; [|apply leads_cooldown, leads_dismiss]. subst c.
    assert (F : forall q m, m ∈ with_id q -> m ∈ q) by (intros q m Hm%list_elem_of_In; apply filter_In in Hm as [Hm _]; by apply list_elem_of_In).
    rewrite !Forall_app. split_and!.
    + destruct (sshPrompt s) as [v|] eqn:Ev; constructor; [|constructor]. left. exists v. by rewrite <- Ev.
    + apply Forall_map, Forall_forall. intros m Hm. right. left. eauto.
    + destruct (sshUnlockRequest s) as [v|] eqn:Ev; constructor; [|constructor]. right. right. left. exists v. by rewrite <- Ev.
    + apply Forall_map, Forall_forall. intros m Hm. right. right. right. eauto.
  - apply leads_read. intros s Hs. apply leads_seq; [by apply (keeps_clock (is_core c))|]. apply leads_if; intros _; [apply leads_expire|apply leads_nothing].
  - apply leads_keeps. by apply (keeps_cooldown e (is_core c)).
  - apply leads_keeps. by apply (keeps_popup e (is_core c)).
  - apply leads_read. intros s Hs. apply leads_if; intros Hr; [apply leads_nothing|]. apply leads_if; intros _; [apply leads_nothing|].
    apply orb_false_iff in Hr as [[_ Hr%negb_false_iff]%orb_false_iff Hp%bool_decide_eq_false].
    set (raw := sshUnlockRaw s) in *.
    apply (ok_seq _ (is_core (Core (c_prompt c) (c_queue c) (c_unlock c) (c_raw c) (c_unlock_queue c) (requestId_of raw) raw))); [apply ok_set; intros s' Hs'; unfold is_core; by rewrite <- Hs'|].
    apply (ok_seq _ (is_core (Core (c_prompt c) (c_queue c) None JNull [] (requestId_of raw) raw))).
    { apply ok_set. intros s' Hs'. unfold is_core, core in *. cbn. by injection Hs' as -> -> _ _ _ -> ->. }
    eapply ok_weaken; [done| |by apply show_core]. intros s' Hs'. unfold advanced. rewrite Hs'. cbn. subst c raw.
    apply (promoted _ (core s)); [done|]. cbn. destruct (sshPrompt s); [|done]. exfalso. apply Hp. eauto.
Qed.

(** ** Reachable states *)

(** The states reached, with the requests the companion made on the way; every state
    left behind satisfies [P]. *)
Inductive flow (P : prompts -> Prop) : list jsval -> prompts -> Prop :=
| flow_init p : flow P [] (init_prompts p)
| flow_step h s e ev : flow P h s -> P s -> message_ok ev -> flow P (h ++ request_of ev) (handle e ev s).1.

Lemma handle_moves e ev s : moves ev (core s) (core (handle e ev s).1) /\ Forall (answering (core s) ev) (handle e ev s).2.
Proof. apply (handle_leads e ev (core s)). done. Qed.

(** An invariant of the moves is one of the reachable states. *)
Lemma flow_ind_core (P : prompts -> Prop) (I : list jsval -> core_state -> Prop) :
  I [] no_request ->
  (forall h s ev c, P s -> message_ok ev -> I h (core s) -> moves ev (core s) c -> I (h ++ request_of ev) c) ->
  forall h s, flow P h s -> I h (core s).
Proof.
  intros H0 Hs h s. induction 1 as [p|h s e ev Hf IH HP Hm]; [done|]. eapply Hs; [done..|]. apply handle_moves.
Qed.

(** Nothing waits unseen, and a promotion belongs to something shown. *)
Record flow_inv (c : core_state) : Prop := {
  inv_queue : queue_inv 4 (c_queue c);
  inv_unlock_queue : queue_inv 4 (c_unlock_queue c);
  inv_seen : c_prompt c = None -> c_queue c = [] /\ is_null (c_old c) = true;
  inv_unlock_seen : c_unlock c = None -> c_unlock_queue c = [] /\ c_raw c = JNull;
  inv_unlock_raw : is_Some (c_unlock c) -> truthy (c_raw c) = true
}.

Lemma queue_inv_nil : queue_inv 4 [].
Proof. split; [cbn; lia|constructor|constructor]. Qed.

Lemma queue_inv_tail m q : queue_inv 4 (m :: q) -> queue_inv 4 q.
Proof. apply (dequeue_inv 4 (m :: q)). Qed.

#[local] Hint Resolve queue_inv_nil queue_inv_tail : core.

Lemma moves_inv ev c c' : message_ok ev -> flow_inv c -> moves ev c c' -> flow_inv c'.
Proof.
  intros Hm [Q U S US UR] M. destruct M as [ | |m q w u Eq Em|m q Eq Em|m w u -> Ep|m -> Eu|m v -> Ep|m v -> Eu|m v -> Ep Eo Es|q uq id Eq Eu|w u Er Ep];
    (split; cbn [c_prompt c_queue c_unlock c_raw c_unlock_queue c_old c_promoted no_request]); auto; try done.
  - rewrite Eq in Q. eauto.
  - rewrite Eq in U. eauto.
  - intros _. inversion Hm; subst. done.
  - apply enqueue_inv; [lia|done].
  - rewrite Ep. done.
  - apply enqueue_inv; [lia|done].
  - rewrite Eu. done.
  - destruct Eq as [-> | ->]; [done|by apply remove_inv].
  - destruct Eu as [-> | ->]; [done|by apply remove_inv].
  - intros Hn. destruct (S Hn) as [S1 S2]. split; [|done]. destruct Eq as [-> | ->]; [done|]. rewrite S1. done.
  - intros Hn. destruct (US Hn) as [S1 S2]. split; [|done]. destruct Eu as [-> | ->]; [done|]. rewrite S1. done.
Qed.

Lemma init_inv : flow_inv no_request.
Proof. split; cbn; auto; try done; by intros []. Qed.

(** ** Requests and answers *)

(** Whatever is shown or queued was asked. *)
Record asked (h : list jsval) (c : core_state) : Prop := {
  asked_prompt : forall v, c_prompt c = Some v -> isRequestId (pv_requestId v) = true -> exists m, m ∈ h /\ requestId_of m = pv_requestId v;
  asked_unlock : forall v, c_unlock c = Some v -> isRequestId (pv_requestId v) = true -> exists m, m ∈ h /\ requestId_of m = pv_requestId v;
  asked_raw : is_Some (c_unlock c) -> c_raw c ∈ h;
  asked_queue : forall m, m ∈ c_queue c -> m ∈ h;
  asked_unlock_queue : forall m, m ∈ c_unlock_queue c -> m ∈ h
}.

Lemma view_id m w u : truthy m = true -> isRequestId (pv_requestId (sshAgentPromptView m w u)) = true ->
  pv_requestId (sshAgentPromptView m w u) = requestId_of m.
Proof.
  unfold sshAgentPromptView, js_or. intros ->. cbn [pv_requestId]. fold (requestId_of m). by destruct (isRequestId (requestId_of m)).
Qed.

Lemma view_asked (h : list jsval) m w u v : truthy m = true -> m ∈ h -> Some (sshAgentPromptView m w u) = Some v -> isRequestId (pv_requestId v) = true ->
  exists m, m ∈ h /\ requestId_of m = pv_requestId v.
Proof. intros Ht Hm [= <-] Hi. exists m. split; [done|]. by rewrite view_id. Qed.

Lemma enqueued_elem q m x : x ∈ sshAgentEnqueuePrompt (JArr q) m QUEUE_CAP -> x ∈ q \/ x = m.
Proof. destruct (enqueue_spec 4 q m ltac:(lia)) as [E|[E _]]; unfold QUEUE_CAP; rewrite E; [by left|]. rewrite elem_of_app. set_solver. Qed.

Lemma removed_elem q id x : x ∈ sshAgentRemovePrompt (JArr q) id -> x ∈ q.
Proof. intros Hx%list_elem_of_In. apply filter_In in Hx as [Hx _]. by apply list_elem_of_In. Qed.

Lemma queue_truthy q m : queue_inv 4 q -> m ∈ q -> truthy m = true.
Proof. intros [_ V _]. rewrite Forall_forall in V. intros Hm. by destruct (V m Hm). Qed.

Lemma asked_mono h h' c : asked h c -> asked (h ++ h') c.
Proof.
  intros [P U R Q UQ]. split; [intros v Hv Hi; destruct (P v Hv Hi) as (m & Hm & E)|intros v Hv Hi; destruct (U v Hv Hi) as (m & Hm & E)|..];
    [exists m; split; [set_solver|done]..|set_solver|set_solver|set_solver].
Qed.

Lemma moves_asked h ev c c' : message_ok ev -> flow_inv c -> asked h c -> moves ev c c' -> asked (h ++ request_of ev) c'.
Proof.
  intros Hm I A0 M. apply (asked_mono h (request_of ev)) in A0. set (h' := h ++ request_of ev) in *.
  assert (In' : forall m, ev = ApprovalRequired m \/ ev = UnlockRequired m -> m ∈ h' /\ truthy m = true).
  { intros m [->| ->]; (split; [subst h'; cbn; set_solver|by inversion Hm]). }
  destruct A0 as [P U R Q UQ]. pose proof (queue_truthy (c_queue c)) as T1. pose proof (queue_truthy (c_unlock_queue c)) as T2.
  destruct I as [I1 I2 I3 I4 I5].
  destruct M as [ | |m q w u Eq Em|m q Eq Em|m w u -> Ep|m -> Eu|m v -> Ep|m v -> Eu|m v -> Ep Eo Es|q uq id Eq Eu|w u Er Ep];
    (split; cbn [c_prompt c_queue c_unlock c_raw c_unlock_queue c_old c_promoted no_request]); auto; try done; try (by intros []); try (by intros ? ?%elem_of_nil).
  - intros v. apply view_asked; [done|]. apply Q. rewrite Eq. set_solver.
  - intros x Hx. apply Q. rewrite Eq. set_solver.
  - intros v. apply view_asked; [done|]. apply UQ. rewrite Eq. set_solver.
  - intros _. apply UQ. rewrite Eq. set_solver.
  - intros x Hx. apply UQ. rewrite Eq. set_solver.
  - intros v. destruct (In' m); [auto|]. by apply view_asked.
  - intros v. destruct (In' m); [auto|]. by apply view_asked.
  - intros _. destruct (In' m); auto.
  - intros x [Hx| ->]%enqueued_elem; [auto|]. destruct (In' m); auto.
  - intros x [Hx| ->]%enqueued_elem; [auto|]. destruct (In' m); auto.
  - intros v' [= <-] _. exists m. destruct (In' m); auto.
  - intros x Hx. apply Q. destruct Eq as [-> | ->]; [done|by eapply removed_elem].
  - intros x Hx. apply UQ. destruct Eu as [-> | ->]; [done|by eapply removed_elem].
  - intros v. apply view_asked; [done|]. apply R. destruct (c_unlock c) eqn:E; [eauto|]. destruct (I4 eq_refl) as [_ X]. by rewrite X in Er.
Qed.

Lemma flow_asked P h s : flow P h s -> flow_inv (core s) /\ asked h (core s).
Proof.
  apply (flow_ind_core P (fun h c => flow_inv c /\ asked h c)).
  - split; [apply init_inv|]. split; cbn; done.
  - intros h' s' ev c _ Hm [I A] M. split; [by eapply moves_inv|by eapply moves_asked].
Qed.

Lemma line_valid id : sshAgentDenyLine id <> [] \/ sshAgentUnlockCancelledLine id <> [] -> isRequestId id = true.
Proof. unfold sshAgentDenyLine, sshAgentUnlockCancelledLine. destruct (isRequestId id); [done|]. by intros []. Qed.

(** A refusal answers something that was asked. *)
Lemma refuses_asked h c l : asked h c -> l <> [] -> refuses c l ->
  exists m, m ∈ h /\ isRequestId (requestId_of m) = true /\ (l = sshAgentDenyLine (requestId_of m) \/ l = sshAgentUnlockCancelledLine (requestId_of m)).
Proof.
  intros [P U _ Q UQ] Hl [(v & Ev & ->)|[(m & Hin & ->)|[(v & Ev & ->)|(m & Hin & ->)]]].
  - assert (Hi : isRequestId (pv_requestId v) = true) by (apply line_valid; auto). destruct (P v Ev Hi) as (m & Hin & E).
    exists m. rewrite E. auto.
  - exists m. split_and!; [auto|apply line_valid; auto|auto].
  - assert (Hi : isRequestId (pv_requestId v) = true) by (apply line_valid; auto). destruct (U v Ev Hi) as (m & Hin & E).
    exists m. rewrite E. auto.
  - exists m. split_and!; [auto|apply line_valid; auto|auto].
Qed.

(** ** What is shown *)

(** A view that stands for a request: it carries its id and draws that request, or one
    that agrees with it in all the fields [sshAgentSameRequest] compares: the key's
    fingerprint, the program and its pid, the operation, the server and the grant. *)
Definition stands_for (v : prompt_view) (m : jsval) : Prop :=
  exists raw w u, v = with_request_id (requestId_of m) (sshAgentPromptView raw w u) /\ (raw = m \/ sshAgentSameRequest raw m = true).

(** Nothing is queued behind a promoted prompt. *)
Definition promoted_alone (s : prompts) : Prop := is_null (sshPromotedOldId s) = true \/ sshPromptQueue s = [].

Record faithful (h : list jsval) (c : core_state) : Prop := {
  faithful_prompt : forall v, c_prompt c = Some v -> isRequestId (pv_requestId v) = true -> exists m, m ∈ h /\ stands_for v m;
  faithful_promoted : is_null (c_old c) = false -> truthy (c_promoted c) = true /\
    forall v, c_prompt c = Some v -> exists w u, v = sshAgentPromptView (c_promoted c) w u
}.

Lemma view_stands (h : list jsval) m w u v : truthy m = true -> m ∈ h -> Some (sshAgentPromptView m w u) = Some v -> isRequestId (pv_requestId v) = true ->
  exists m, m ∈ h /\ stands_for v m.
Proof.
  intros Ht Hm [= <-] Hi. exists m. split; [done|]. exists m, w, u. split; [|by left]. rewrite <- (view_id m w u) by done. reflexivity.
Qed.

Lemma moves_faithful h ev c c' : message_ok ev -> flow_inv c -> asked h c -> (is_null (c_old c) = true \/ c_queue c = []) ->
  faithful h c -> moves ev c c' -> faithful (h ++ request_of ev) c'.
Proof.
  intros Hm I [_ _ R Q _] Hal [F G] M. set (h' := h ++ request_of ev).
  assert (F' : forall v, c_prompt c = Some v -> isRequestId (pv_requestId v) = true -> exists m, m ∈ h' /\ stands_for v m).
  { intros v Hv Hi. destruct (F v Hv Hi) as (m & H1 & H2). exists m. subst h'. set_solver. }
  destruct I as [I1 _ I3 I4 I5].
  destruct M as [ | |m q w u Eq Em|m q Eq Em|m w u -> Ep|m -> Eu|m v -> Ep|m v -> Eu|m v -> Ep Eo Es|q uq id Eq Eu|w u Er Ep];
    (split; cbn [c_prompt c_queue c_unlock c_raw c_unlock_queue c_old c_promoted no_request]); try done.
  - intros v. apply view_stands; [done|]. subst h'. assert (m ∈ c_queue c) as Hin%Q by (rewrite Eq; set_solver). set_solver.
  - intros Ho. destruct Hal as [Hal|Hal]; [congruence|]. by rewrite Hal in Eq.
  - intros v. apply view_stands; [by inversion Hm|]. subst h'. cbn. set_solver.
  - intros Ho. destruct (I3 Ep) as [_ X]. congruence.
  - intros v' [= <-] Hi. exists m. split; [subst h'; cbn; set_solver|]. destruct (G Eo) as [_ G']. destruct (G' v Ep) as (w & u & ->).
    exists (c_promoted c), w, u. auto.
  - assert (is_Some (c_unlock c)) as Hu. { destruct (c_unlock c) eqn:E; [eauto|]. destruct (I4 eq_refl) as [_ X]. by rewrite X in Er. }
    intros v. apply view_stands; [done|]. subst h'. apply elem_of_app. left. auto.
  - intros _. split; [done|]. intros v [= <-]. eauto.
Qed.

(** The states reached while companions come and go, with the requests that the running
    one has made.  Nothing is queued behind a promoted prompt in a state left behind, and
    a companion is replaced only while no request is shown: its ids start again. *)
Inductive live_flow : list jsval -> prompts -> Prop :=
| live_init p : live_flow [] (init_prompts p)
| live_step h s e ev : live_flow h s -> promoted_alone s -> message_ok ev -> live_flow (h ++ request_of ev) (handle e ev s).1
| live_replaced h s : live_flow h s -> sshPrompt s = None -> sshUnlockRequest s = None -> live_flow [] s.

Lemma live_faithful h s : live_flow h s -> flow_inv (core s) /\ asked h (core s) /\ faithful h (core s) /\ Forall (fun m => truthy m = true) h.
Proof.
  induction 1 as [p|h s e ev _ (I & A & F & T) Hal Hm|h s _ (I & _ & F & _) Hp Hu].
  - split_and!; [apply init_inv|split; cbn; done|split; cbn; done|done].
  - destruct (handle_moves e ev s) as [M _]. split_and!; [by eapply moves_inv|by eapply moves_asked|by eapply moves_faithful|by apply Forall_app].
  - split; [done|]. destruct I as [_ _ I3 I4 _], (I3 Hp) as [Q _], (I4 Hu) as [UQ _]. cbn in Q, UQ. split_and!; [split; cbn|split; cbn|done].
    + by rewrite Hp.
    + by rewrite Hu.
    + rewrite Hu. by intros [].
    + rewrite Q. by intros ? ?%elem_of_nil.
    + rewrite UQ. by intros ? ?%elem_of_nil.
    + by rewrite Hp.
    + intros Ho. destruct (I3 Hp) as [_ E]. cbn in E. congruence.
Qed.

(** The two buttons of the approval screen ([SshApprovalScreen.qml]), and a grant for
    more than the one request. *)
Definition is_button (v : prompt_view) (g u : jsval) : Prop :=
  (g = JNum (NZ 0) /\ u = JUndef) \/ (g = JNum (pv_grantSeconds v) /\ u = JBool (pv_grantUntilScreenLock v)).
Definition longer (v : prompt_view) (g u : jsval) : Prop := g <> JNum (NZ 0) \/ is_true u && pv_grantUntilScreenLock v = true.

Lemma same_field f m m' : f ∈ same_request_fields -> sshAgentSameRequest m m' = true -> strict_eqb (get m f) (get m' f) = true.
Proof.
  intros Hf. unfold sshAgentSameRequest. destruct (_ || _); [done|]. intros [Ha _]%andb_true_iff. rewrite forallb_forall in Ha. apply Ha. by apply list_elem_of_In.
Qed.

Lemma offered_view m w u : truthy m = true -> pv_grantOffered (sshAgentPromptView m w u) = true -> is_true (get m (js "grantOffered")) = true.
Proof. unfold sshAgentPromptView, js_or. intros ->. cbn [pv_grantOffered]. by intros [[? _]%andb_true_iff _]%andb_true_iff. Qed.

Lemma button_offers m w until g u : is_button (sshAgentPromptView m w until) g u -> longer (sshAgentPromptView m w until) g u ->
  pv_grantOffered (sshAgentPromptView m w until) = true.
Proof.
  unfold is_button, longer, sshAgentPromptView. cbn [pv_grantSeconds pv_grantUntilScreenLock pv_grantOffered].
  match goal with |- context [if ?b && negb _ then _ else NZ 0] => destruct b end; [done|].
  cbn. intros [[-> ->]|[-> ->]] [Hl|Hl]; done.
Qed.

(** A view offers a longer grant only if its request does. *)
Lemma longer_offered v m g u : stands_for v m -> truthy m = true -> is_button v g u -> longer v g u -> is_true (get m (js "grantOffered")) = true.
Proof.
  intros (raw & w & until & -> & Hraw) Ht Hb Hl.
  assert (Ho : pv_grantOffered (sshAgentPromptView raw w until) = true) by (apply (button_offers raw w until g u); done).
  destruct Hraw as [->|Hs]; [by eapply offered_view|].
  assert (truthy raw = true) as Hr by (unfold sshAgentSameRequest in Hs; destruct (truthy raw); [done|by destruct (truthy m)]).
  apply offered_view in Ho; [|done]. pose proof (same_field (js "grantOffered") raw m ltac:(vm_compute; set_solver) Hs) as Hf.
  destruct (get raw (js "grantOffered")) as [| |[]| | | | |]; try done; by destruct (get m (js "grantOffered")) as [| |[]| | | | |].
Qed.

(** ** Runs for examples *)

Definition calm : surroundings :=
  Surroundings (NZ 1000) false true (JNum (NZ 300)) (JBool false) true true (fun _ => Panel true (js "main")) (fun _ => Panel false (js "main")).

Definition request (type program : string) (id : Z) : jsval :=
  JObj [(js "type", JStr (js type)); (js "requestId", JNum (NZ id)); (js "fingerprint", JStr (js "SHA256:k"));
        (js "processPath", JStr (js program)); (js "grantOffered", JBool true)].

Fixpoint run_flow (evs : list flow_event) (s : prompts) : prompts * list effect :=
  match evs with
  | [] => (s, [])
  | ev :: evs => let '(s1, e1) := handle calm ev s in let '(s2, e2) := run_flow evs s1 in (s2, e1 ++ e2)
  end.

Definition from_start (evs : list flow_event) : prompts * list effect := run_flow evs (init_prompts (Panel false (js "main"))).

(** What is on screen: the program and the id. *)
Definition on_screen (s : prompts) : option (list Z * jsval) := (fun v => (pv_processPath v, pv_requestId v)) <$> sshPrompt s.

(** ** Properties *)

(** C22: Whatever happens around it and in whatever order, the service keeps at most
    four requests of each kind waiting, each once and with a valid id; none waits
    unless one of its kind is shown, an unlock request is shown with its message, and
    a promotion is pending only while a prompt is shown. *)
Theorem nothing_waits_unseen h s : flow (fun _ => True) h s ->
  queue_inv 4 (sshPromptQueue s) /\ queue_inv 4 (sshUnlockQueue s) /\
  (sshPrompt s = None -> sshPromptQueue s = [] /\ is_null (sshPromotedOldId s) = true) /\
  (sshUnlockRequest s = None <-> truthy (sshUnlockRaw s) = false) /\
  (sshUnlockRequest s = None -> sshUnlockQueue s = []).
Proof.
  intros Hf. destruct (flow_asked _ _ _ Hf) as [[I1 I2 I3 I4 I5] _]. split_and!; [done|done|done| |by intros; apply I4].
  split; [intros E; destruct (I4 E) as [_ X]; cbn in X; by rewrite X|]. intros Ht. destruct (sshUnlockRequest s) eqn:E; [|done].
  cbn in I5. rewrite E in I5. rewrite I5 in Ht by eauto. done.
Qed.

Lemma nothing_waits_unseen_witness :
  let s := (handle calm (ApprovalRequired (request "approval_required" "/bin/git" 7)) (init_prompts (Panel false (js "main")))).1 in
  on_screen s = Some (js "/bin/git", JNum (NZ 7)) /\ queue_inv 4 (sshPromptQueue s).
Proof.
  split; [vm_compute; reflexivity|]. eapply proj1, (nothing_waits_unseen ([] ++ [request "approval_required" "/bin/git" 7])).
  apply (flow_step _ [] _ calm (ApprovalRequired (request "approval_required" "/bin/git" 7)) (flow_init _ _) I). by repeat constructor.
Defined.

(** Every line the service writes to the companion about a request answers a
    request the companion made, by its id, and only a click on approve approves. *)
Theorem only_asked_answered h s e ev : flow (fun _ => True) h s -> message_ok ev ->
  Forall (fun x => match x with
    | Wrote l => exists m, m ∈ h ++ request_of ev /\ isRequestId (requestId_of m) = true /\
        ((exists g u until, ev = Approve g u /\ l = sshAgentApproveLine (requestId_of m) g (JBool until)) \/
         l = sshAgentDenyLine (requestId_of m) \/ l = sshAgentUnlockCancelledLine (requestId_of m))
    | _ => True
    end) (handle e ev s).2.
Proof.
  intros Hf Hm. destruct (flow_asked _ _ _ Hf) as [_ A]. destruct (handle_moves e ev s) as [_ HE].
  eapply Forall_impl; [exact HE|]. intros [l| |]; [|done..]. intros [Hl Ha].
  destruct ev as [m|m|m|m|g u| | | | | |]; cbn [answers request_of] in Ha |- *; try done; rewrite ?app_nil_r.
  - exists m. subst l. split_and!; [set_solver|apply line_valid; auto|auto].
  - exists m. subst l. split_and!; [set_solver|apply line_valid; auto|auto].
  - destruct Ha as (v & Ev & ->). assert (Hi : isRequestId (pv_requestId v) = true).
    { revert Hl. unfold sshAgentApproveLine. by destruct (isRequestId _). }
    destruct (asked_prompt _ _ A v Ev Hi) as (m & Hin & E). exists m. rewrite E. split_and!; [done|done|]. left. eauto 6.
  - destruct (refuses_asked _ _ _ A Hl Ha) as (m & H1 & H2 & H3). exists m. auto.
  - destruct (refuses_asked _ _ _ A Hl Ha) as (m & H1 & H2 & H3). exists m. auto.
Qed.

Lemma only_asked_answered_witness :
  let s := init_prompts (Panel false (js "main")) in
  let ev := ApprovalRequired (request "approval_required" "/bin/git" 7) in
  flow (fun _ => True) [] s /\ message_ok ev /\
  Forall (fun x => match x with
    | Wrote l => exists m, m ∈ [] ++ request_of ev /\ isRequestId (requestId_of m) = true /\
        ((exists g u until, ev = Approve g u /\ l = sshAgentApproveLine (requestId_of m) g (JBool until)) \/
         l = sshAgentDenyLine (requestId_of m) \/ l = sshAgentUnlockCancelledLine (requestId_of m))
    | _ => True
    end) (handle calm ev s).2.
Proof.
  cbv zeta. assert (Hf : flow (fun _ => True) [] (init_prompts (Panel false (js "main")))) by constructor.
  assert (Hm : message_ok (ApprovalRequired (request "approval_required" "/bin/git" 7))) by (repeat constructor).
  split_and!; [exact Hf|exact Hm|]. exact (only_asked_answered [] _ calm _ Hf Hm).
Defined.

(** C12: As long as nothing is queued behind a prompt that was promoted from an unlock
    and no companion is replaced while a request is shown, a click approves what the
    prompt shows: the line carries the id of a request of the running companion, and the
    prompt draws that request, or one equal to it in the key, the program, the operation,
    the server and the grant.  It grants until the screen locks only if the prompt says
    so, and a button of the approval screen grants more than the one request only if
    that request offers it. *)
Theorem approved_is_shown h s e g u : live_flow h s ->
  Forall (fun x => match x with
    | Wrote l => exists v m, sshPrompt s = Some v /\ m ∈ h /\ stands_for v m /\
        l = sshAgentApproveLine (requestId_of m) g (JBool (is_true u && pv_grantUntilScreenLock v)) /\
        (is_button v g u -> longer v g u -> is_true (get m (js "grantOffered")) = true)
    | _ => True
    end) (handle e (Approve g u) s).2.
Proof.
  intros Hf. apply live_faithful in Hf as (_ & _ & [F _] & T). rewrite Forall_forall in T. destruct (handle_moves e (Approve g u) s) as [_ HE].
  eapply Forall_impl; [exact HE|]. intros [l| |]; [|done..]. intros [Hl (v & Ev & ->)].
  assert (Hi : isRequestId (pv_requestId v) = true). { revert Hl. unfold sshAgentApproveLine. by destruct (isRequestId _). }
  destruct (F v Ev Hi) as (m & Hin & Hst). exists v, m. split_and!; [done..| |by intros; eapply longer_offered; eauto].
  destruct Hst as (raw & w & u' & -> & _). reflexivity.
Qed.

Lemma approved_is_shown_witness :
  let ev := ApprovalRequired (request "approval_required" "/bin/git" 7) in
  let s := (handle calm ev (init_prompts (Panel false (js "main")))).1 in
  Forall (fun x => match x with
    | Wrote l => exists v m, sshPrompt s = Some v /\ m ∈ [] ++ request_of ev /\ stands_for v m /\
        l = sshAgentApproveLine (requestId_of m) (JNum (NZ 60)) (JBool (is_true (JBool false) && pv_grantUntilScreenLock v)) /\
        (is_button v (JNum (NZ 60)) (JBool false) -> longer v (JNum (NZ 60)) (JBool false) -> is_true (get m (js "grantOffered")) = true)
    | _ => True
    end) (handle calm (Approve (JNum (NZ 60)) (JBool false)) s).2 /\
  (handle calm (Approve (JNum (NZ 60)) (JBool false)) s).2 = [Wrote (sshAgentApproveLine (JNum (NZ 7)) (JNum (NZ 60)) (JBool false)); ClearedUnlock].
Proof.
  split; [|vm_compute; reflexivity]. apply approved_is_shown.
  apply (live_step [] _ calm _ (live_init _)); [by left|]. by repeat constructor.
Defined.

(** A promotion outlives its prompt.  A program asks while the vault is locked; after
    the unlock its prompt is shown and another program's request is queued behind it.
    The first is denied, the second is shown, and when the companion announces the
    first request under its new id, the prompt of the second takes that id: approving
    what is shown for [/bin/b] approves [/bin/a]. *)
Example promotion_outlives_prompt :
  let '(s, _) := from_start [UnlockRequired (request "unlock_required" "/bin/a" 1); StatusChanged;
                             ApprovalRequired (request "approval_required" "/bin/b" 2); Deny;
                             ApprovalRequired (request "approval_required" "/bin/a" 3)] in
  on_screen s = Some (js "/bin/b", JNum (NZ 3)) /\
  (handle calm (Approve (JNum (NZ 0)) JUndef) s).2 = [Wrote (sshAgentApproveLine (JNum (NZ 3)) (JNum (NZ 0)) (JBool false)); ClearedUnlock].
Proof. vm_compute. auto. Qed.

(** Denying the shown approval while an unlock request waits behind it refuses the
    unlock request, and the shown one is dropped without an answer. *)
Example deny_answers_the_other :
  let '(s, effects) := from_start [ApprovalRequired (request "approval_required" "/bin/a" 1);
                                   UnlockRequired (request "unlock_required" "/bin/b" 2); Deny] in
  on_screen s = None /\ effects = [Wrote (sshAgentUnlockCancelledLine (JNum (NZ 2))); ClearedUnlock].
Proof. vm_compute. auto. Qed.

(** A cancelled approval stays on screen when unlock requests are queued. *)
Example cancelled_stays_shown :
  let '(s, _) := from_start [ApprovalRequired (request "approval_required" "/bin/a" 1); UnlockRequired (request "unlock_required" "/bin/b" 2);
                             UnlockRequired (request "unlock_required" "/bin/c" 3); RequestCancelled (request "request_cancelled" "" 1)] in
  on_screen s = Some (js "/bin/a", JNum (NZ 1)) /\ pv_requestId <$> sshUnlockRequest s = Some (JNum (NZ 3)).
Proof. vm_compute. auto. Qed.

(** During the pause after two refusals queued prompts are still shown, and approving
    one ends the pause. *)
Example pause_still_prompts :
  let '(s, _) := from_start [ApprovalRequired (request "approval_required" "/bin/a" 1); ApprovalRequired (request "approval_required" "/bin/b" 2);
                             ApprovalRequired (request "approval_required" "/bin/c" 3); Deny; Deny] in
  sshAgentCooldownActive (Some (sshCooldown s)) (JNum (NZ 1000)) = true /\ on_screen s = Some (js "/bin/c", JNum (NZ 3)) /\
  sshAgentCooldownActive (Some (sshCooldown (handle calm (Approve (JNum (NZ 0)) JUndef) s).1)) (JNum (NZ 1000)) = false.
Proof. vm_compute. auto. Qed.
