(* ===== verification/Accounts.v ===== *)
(** * Account slots and the account registry ([BitwardenModel.js])

    Each account lives in a slot, a private bw data directory; the registry file
    says which slot holds which account and which one is active.  The registry is
    read back from a file anyone with the user's rights can edit, so reading it
    keeps only what is well-formed. *)

From Stdlib Require Import QArith_base Qround.
From S2P Require Import Prelude.
From S2P Require Import JsNum.
From S2P Require Import JsString.
From S2P Require Import JsUnicode.
From S2P Require Import JsValue.
From S2P Require Import Json.
Local Open Scope Z_scope.

(** ** Slots *)

Definition DEFAULT_ACCOUNT_SLOT : list Z := js "default".
Definition ACCOUNTS_VERSION : Z := 1.
Definition MAX_ACCOUNTS : nat := 10.
Definition ACCOUNTS_SUBDIR : list Z := js "qs-bitwarden-cli/accounts".
Definition ACCOUNTS_DIR : list Z := js "${XDG_DATA_HOME:-$HOME/.local/share}/" ++ ACCOUNTS_SUBDIR.
Definition APPDATA_ENV : list Z := js "BITWARDENCLI_APPDATA_DIR".

(** [/^[0-9a-f]{16}$/] *)
Definition is_slot_name (s : list Z) : bool := (length s =? 16)%nat && forallb is_hex_lower s.

Definition isAccountSlot (slot : jsval) : bool :=
  strict_eqb slot (JStr DEFAULT_ACCOUNT_SLOT) || is_slot_name (to_string slot).

Definition accountSlot (slot : jsval) : list Z :=
  match slot with
  | JStr s => if isAccountSlot slot then s else DEFAULT_ACCOUNT_SLOT
  | _ => DEFAULT_ACCOUNT_SLOT
  end.

Definition keyringEntryName (base : list Z) (slot : jsval) : list Z :=
  let s := accountSlot slot in
  if str_eqb s DEFAULT_ACCOUNT_SLOT then base else base ++ js "@" ++ s.

Definition is_slash (c : Z) : bool := c =? 47.

Definition accountAppDataDir (slot xdgDataHome home : jsval) : list Z :=
  let s := accountSlot slot in
  if str_eqb s DEFAULT_ACCOUNT_SLOT then []
  else
    let finish base := drop_trailing is_slash base ++ js "/" ++ ACCOUNTS_SUBDIR ++ js "/" ++ s in
    let base := text xdgDataHome in
    if starts_with (js "/") base then finish base
    else
      let h := text home in
      if starts_with (js "/") h then finish (drop_trailing is_slash h ++ js "/.local/share") else [].

Definition accountAppDataExport (slot : jsval) : list Z :=
  let s := accountSlot slot in
  if str_eqb s DEFAULT_ACCOUNT_SLOT then []
  else js "export " ++ APPDATA_ENV ++ js "=" ++ [34] ++ ACCOUNTS_DIR ++ js "/" ++ s ++ [34] ++ js "; ".

(** [Math.floor(Math.random() * 16)] is the parameter [draw]: draw [n] of a call.
    Attempt [a] uses draws [16 a .. 16 a + 15]; no slot name is inherited from
    [Object.prototype], so the [used] object is a list. *)
Definition drawn_slot (draw : nat -> Z) (attempt : nat) : list Z :=
  map (fun i => hex_unit (draw (16 * attempt + i)%nat)) (seq 0 16).

Fixpoint find_slot (draw : nat -> Z) (taken : list (list Z)) (attempt tries : nat) : list Z :=
  match tries with
  | O => []
  | S tries =>
      let slot := drawn_slot draw attempt in
      if existsb (str_eqb slot) taken then find_slot draw taken (S attempt) tries else slot
  end.

Definition newAccountSlot (draw : nat -> Z) (taken : list (list Z)) : list Z := find_slot draw taken 0 32.

(** ** The registry *)

Record account := Account {
  slot : list Z;
  email : list Z;
  userId : list Z;
  server : list Z;
  lastUsed : num
}.

(** The version field is the constant [ACCOUNTS_VERSION]. *)
Record registry := Registry { active : list Z; accounts : list account }.

Definition emptyAccountRegistry : registry := Registry DEFAULT_ACCOUNT_SLOT [].

Definition cleanAccountText (value : jsval) (max : nat) : list Z :=
  take max (List.filter (fun c => negb (is_control c)) (text_present value)).

(** [Math.max(0, Math.floor(Number(v)) || 0)] *)
Definition clean_time (v : jsval) : num := num_max (NZ 0) (num_or0 (num_floor (to_number v))).

(** The registry entry of a parsed element, if it is one. *)
Definition parse_account (a : jsval) : option account :=
  if negb (is_object a) then None
  else match get a (js "slot") with
       | JStr s =>
           if isAccountSlot (JStr s)
           then Some (Account s (cleanAccountText (get a (js "email")) 320)
                        (cleanAccountText (get a (js "userId")) 128)
                        (cleanAccountText (get a (js "server")) 512)
                        (clean_time (get a (js "lastUsed"))))
           else None
       | _ => None
       end.

(** The loop over the elements: stops at [MAX_ACCOUNTS], skips a slot seen before. *)
Fixpoint collect_accounts (l : list jsval) (out : list account) : list account :=
  match l with
  | [] => out
  | a :: l =>
      if (length out <? MAX_ACCOUNTS)%nat then
        match parse_account a with
        | None => collect_accounts l out
        | Some acc =>
            if existsb (str_eqb (slot acc)) (map slot out) then collect_accounts l out
            else collect_accounts l (out ++ [acc])
        end
      else out
  end.

Definition parseAccountRegistry (raw : jsval) : registry :=
  match parse (text raw) with
  | Some parsed =>
      if negb (is_object parsed) || negb (num_eqb (to_number (get parsed (js "version"))) (NZ ACCOUNTS_VERSION))
      then emptyAccountRegistry
      else
        let list := match get parsed (js "accounts") with JArr l => l | _ => [] end in
        let act := match get parsed (js "active") with
                   | JStr s => if isAccountSlot (JStr s) then s else DEFAULT_ACCOUNT_SLOT
                   | _ => DEFAULT_ACCOUNT_SLOT
                   end in
        Registry act (collect_accounts list [])
  | None => emptyAccountRegistry
  end.

(** The objects the registry holds, as [JSON.stringify] sees them. *)
Definition account_json (a : account) : jsval :=
  JObj [(js "slot", JStr (slot a)); (js "email", JStr (email a)); (js "userId", JStr (userId a));
        (js "server", JStr (server a)); (js "lastUsed", JNum (lastUsed a))].

Definition registry_json (r : registry) : jsval :=
  JObj [(js "version", JNum (NZ ACCOUNTS_VERSION)); (js "active", JStr (accountSlot (JStr (active r))));
        (js "accounts", JArr (map account_json (accounts r)))].

Definition serializeAccountRegistry (r : registry) : list Z := stringify (registry_json r).

Definition copyAccountRegistry (r : registry) : registry :=
  Registry (accountSlot (JStr (active r)))
    (map (fun a => Account (slot a) (email a) (userId a) (server a) (lastUsed a)) (accounts r)).

Definition registryAccount (r : registry) (s : list Z) : option account :=
  List.find (fun a => str_eqb (slot a) s) (accounts r).

Definition registryHasAccount (r : registry) (s : list Z) : bool :=
  match registryAccount r s with Some _ => true | None => false end.

(** [registryAccount] returns the stored object; assigning to it changes the
    first entry of the slot. *)
Fixpoint update_first (s : list Z) (f : account -> account) (l : list account) : list account :=
  match l with
  | [] => []
  | a :: l => if str_eqb (slot a) s then f a :: l else a :: update_first s f l
  end.

(** [x || y] on strings *)
Definition str_or (x y : list Z) : list Z := match x with [] => y | _ => x end.

Record note_result := NoteResult { note_registry : registry; note_retired : list (list Z); note_full : bool }.

(** [info && info.k] *)
Definition info_field (info : jsval) (k : list Z) : jsval := if truthy info then get info k else info.

Definition registryNoteAccount (reg : registry) (slot_arg info now : jsval) : note_result :=
  let r := copyAccountRegistry reg in
  let s := accountSlot slot_arg in
  let uid := cleanAccountText (info_field info (js "userId")) 128 in
  let srv := cleanAccountText (info_field info (js "server")) 512 in
  let retire a := negb (str_eqb (slot a) s) && negb (bool_decide (uid = []))
                  && str_eqb (userId a) uid && str_eqb (server a) srv in
  let retired := map slot (List.filter retire (accounts r)) in
  let kept := List.filter (fun a => negb (retire a)) (accounts r) in
  let fill a := Account (slot a) (str_or (cleanAccountText (info_field info (js "email")) 320) (email a))
                  (str_or uid (userId a)) srv (clean_time now) in
  match List.find (fun a => str_eqb (slot a) s) kept with
  | Some _ => NoteResult (Registry s (update_first s fill kept)) retired false
  | None =>
      if (MAX_ACCOUNTS <=? length kept)%nat then NoteResult reg [] true
      else NoteResult (Registry s (kept ++ [fill (Account s [] [] [] (NZ 0))])) retired false
  end.

Definition registryRemoveAccount (reg : registry) (s : jsval) : registry :=
  let r := copyAccountRegistry reg in
  Registry (active r) (List.filter (fun a => negb (strict_eqb (JStr (slot a)) s)) (accounts r)).

Definition registrySetActive (reg : registry) (s now : jsval) : registry :=
  let r := copyAccountRegistry reg in
  let act := accountSlot s in
  Registry act
    (if is_undef now then accounts r
     else update_first act (fun a => Account (slot a) (email a) (userId a) (server a) (clean_time now)) (accounts r)).

Definition slotForNewAccount (draw : nat -> Z) (r : registry) : list Z :=
  if negb (registryHasAccount r DEFAULT_ACCOUNT_SLOT) then DEFAULT_ACCOUNT_SLOT
  else newAccountSlot draw (map slot (accounts r)).

(** The scan keeps the first of the most recently used. *)
Definition registryNextAccount (r : registry) (leaving : list Z) : list Z :=
  let best := fold_left (fun best a =>
    if str_eqb (slot a) leaving then best
    else match best with
         | None => Some a
         | Some b => if num_ltb (lastUsed b) (lastUsed a) then Some a else best
         end) (accounts r) None in
  match best with Some a => slot a | None => [] end.

(** ** The account picker *)

Definition BITWARDEN_US_SERVER : list Z := js "https://vault.bitwarden.com".
Definition BITWARDEN_EU_SERVER : list Z := js "https://vault.bitwarden.eu".

(** [s.replace(/^https?:\/\//i, "")] *)
Definition strip_http (s : list Z) : list Z :=
  let low := map ascii_lower s in
  if starts_with (js "http://") low then drop 7 s
  else if starts_with (js "https://") low then drop 8 s else s.

Definition accountServerLabel (server : jsval) : list Z :=
  let s := drop_trailing is_slash (trim (text server)) in
  if bool_decide (s = []) || str_eqb s BITWARDEN_US_SERVER || str_eqb s (js "https://bitwarden.com") then []
  else if str_eqb s BITWARDEN_EU_SERVER || str_eqb s (js "https://bitwarden.eu") then js "EU"
  else strip_http s.

Record account_row := AccountRow {
  row_slot : list Z;
  row_email : list Z;
  row_server : list Z;
  row_label : list Z;
  row_active : bool
}.

Section rows.
  Context `{!CaseTables}.

Definition row_before (a b : account) : bool :=
  let x := to_lower (email a) in
  let y := to_lower (email b) in
  str_ltb x y || (negb (str_ltb y x) && str_ltb (slot a) (slot b)).

(** [sort] with that comparator, which never answers 0. *)
Fixpoint insert_row (a : account) (l : list account) : list account :=
  match l with
  | [] => [a]
  | b :: l => if row_before b a then b :: insert_row a l else a :: b :: l
  end.

Definition accountRows (r : registry) (activeSlot : list Z) : list account_row :=
  map (fun a =>
    let srv := accountServerLabel (JStr (server a)) in
    let name := str_or (email a) (js "Account") in
    AccountRow (slot a) name srv (name ++ if bool_decide (srv = []) then [] else js " (" ++ srv ++ js ")")
      (str_eqb (slot a) activeSlot))
    (foldr insert_row [] (accounts r)).
End rows.
