(* ===== verification/AccountsCorrect.v ===== *)
(** * Correctness of the account registry *)

From Stdlib Require Import QArith_base Qround.
From S2P Require Import Prelude.
From S2P Require Import JsNum.
From S2P Require Import JsString.
From S2P Require Import JsUnicode.
From S2P Require Import JsValue.
From S2P Require Import Json.
From S2P Require Import Accounts.
Local Open Scope Z_scope.

(** ** Lists of accounts *)

Lemma existsb_slot s l : existsb (str_eqb s) l = true <-> s ∈ l.
Proof. rewrite existsb_exists. setoid_rewrite str_eqb_eq. setoid_rewrite <- list_elem_of_In. naive_solver. Qed.

Lemma NoDup_map_filter (p : account -> bool) l : NoDup (map slot l) -> NoDup (map slot (List.filter p l)).
Proof.
  induction l as [|a l IH]; cbn; [done|]. intros [Ha Hl]%NoDup_cons. destruct (p a); cbn; [|auto].
  apply NoDup_cons. split; [|auto]. intros Hin. apply Ha. revert Hin. rewrite !list_elem_of_In, !in_map_iff.
  intros (b & Hb & [Hin _]%filter_In). eauto.
Qed.

Lemma Forall_List_filter {A} (P : A -> Prop) p l : Forall P l -> Forall P (List.filter p l).
Proof. induction 1; cbn; [constructor|]. destruct (p x); [by constructor|done]. Qed.

Lemma update_first_slots s f l : (forall a, slot (f a) = slot a) -> map slot (update_first s f l) = map slot l.
Proof. intros Hf. induction l as [|a l IH]; cbn; [done|]. destruct (str_eqb _ _); cbn; by rewrite ?Hf, ?IH. Qed.

Lemma update_first_Forall (P : account -> Prop) s f l :
  (forall a, slot a = s -> P a -> P (f a)) -> Forall P l -> Forall P (update_first s f l).
Proof.
  intros Hf. induction 1; cbn; [constructor|]. destruct (str_eqb _ _) eqn:E; constructor; auto.
  apply Hf; [by apply str_eqb_eq|done].
Qed.

Lemma update_first_length s f l : length (update_first s f l) = length l.
Proof. induction l as [|a l IH]; cbn; [done|]. destruct (str_eqb _ _); cbn; lia. Qed.

Lemma find_slot_None s l : List.find (fun a => str_eqb (slot a) s) l = None -> s ∉ map slot l.
Proof.
  intros H Hin. apply list_elem_of_In, in_map_iff in Hin as (a & <- & Ha).
  pose proof (List.find_none _ _ H a Ha) as E. cbn in E. by rewrite str_eqb_refl in E.
Qed.

(** ** Well-formed registries *)

Definition clean_text (max : nat) (t : list Z) : Prop :=
  (length t <= max)%nat /\ Forall (fun c => is_control c = false) t.

Record account_wf (a : account) : Prop := {
  wf_slot : isAccountSlot (JStr (slot a)) = true;
  wf_email : clean_text 320 (email a);
  wf_userId : clean_text 128 (userId a);
  wf_server : clean_text 512 (server a);
  wf_lastUsed : num_leb (NZ 0) (lastUsed a) = true
}.

Record registry_wf (r : registry) : Prop := {
  wf_active : isAccountSlot (JStr (active r)) = true;
  wf_count : (length (accounts r) <= MAX_ACCOUNTS)%nat;
  wf_distinct : NoDup (map slot (accounts r));
  wf_accounts : Forall account_wf (accounts r)
}.

Lemma isAccountSlot_str s : isAccountSlot (JStr s) = str_eqb s DEFAULT_ACCOUNT_SLOT || is_slot_name s.
Proof. done. Qed.

Lemma accountSlot_valid v : isAccountSlot (JStr (accountSlot v)) = true.
Proof. destruct v; try done. cbn [accountSlot]. by destruct (isAccountSlot (JStr s)) eqn:E. Qed.

Lemma accountSlot_id s : isAccountSlot (JStr s) = true -> accountSlot (JStr s) = s.
Proof. intros H. cbn [accountSlot]. by rewrite H. Qed.

Lemma cleanAccountText_clean v max : clean_text max (cleanAccountText v max).
Proof.
  unfold cleanAccountText. split; [rewrite length_take; lia|]. apply Forall_take.
  apply Forall_forall. intros c Hc. apply list_elem_of_In, filter_In in Hc as [_ Hc]. by apply negb_true_iff.
Qed.

Lemma clean_text_id max t : clean_text max t -> cleanAccountText (JStr t) max = t.
Proof.
  intros [Hl Hc]. unfold cleanAccountText, text_present. cbn [is_nullish is_undef is_null orb to_string].
  replace (List.filter _ t) with t; [by apply take_ge|].
  symmetry. clear Hl. induction Hc as [|c t Hc Ht IH]; cbn; [done|]. by rewrite Hc, IH.
Qed.

Lemma clean_time_nonneg v : num_leb (NZ 0) (clean_time v) = true.
Proof.
  unfold clean_time. destruct (to_number v) as [|[]|q]; try done. cbn [num_floor].
  autorewrite with js_num. lia.
Qed.

Lemma clean_time_id z : 0 <= z -> clean_time (JNum (NZ z)) = NZ z.
Proof. intros. unfold clean_time. cbn [to_number]. autorewrite with js_num. f_equal. lia. Qed.

Lemma parse_account_wf v a : parse_account v = Some a -> account_wf a.
Proof.
  unfold parse_account. intros H. repeat case_match; simplify_eq. split; cbn; try apply cleanAccountText_clean; [done|].
  apply clean_time_nonneg.
Qed.

Lemma empty_wf : registry_wf emptyAccountRegistry.
Proof. split; cbn; [done|unfold MAX_ACCOUNTS; lia|constructor|constructor]. Qed.

Lemma collect_accounts_wf l out :
  (length out <= MAX_ACCOUNTS)%nat -> NoDup (map slot out) -> Forall account_wf out ->
  let r := collect_accounts l out in
  (length r <= MAX_ACCOUNTS)%nat /\ NoDup (map slot r) /\ Forall account_wf r.
Proof.
  cbn zeta. revert out. induction l as [|v l IH]; intros out Hl Hn Hw; cbn [collect_accounts]; [done|].
  destruct (Nat.ltb_spec (length out) MAX_ACCOUNTS); [|done].
  destruct (parse_account v) as [a|] eqn:Ea; [|by apply IH].
  destruct (existsb _ _) eqn:E; [by apply IH|]. apply IH.
  - rewrite length_app. cbn. lia.
  - rewrite map_app. apply NoDup_app. split_and!; [done| |apply NoDup_singleton].
    intros s Hs ->%list_elem_of_singleton. apply not_true_iff_false in E. by apply E, existsb_slot.
  - apply Forall_app_2; [done|]. constructor; [by eapply parse_account_wf|done].
Qed.

Lemma parse_registry_wf raw : registry_wf (parseAccountRegistry raw).
Proof.
  unfold parseAccountRegistry. destruct (parse (text raw)) as [v|]; [|apply empty_wf].
  case_match; [apply empty_wf|].
  destruct (collect_accounts_wf (match get v (js "accounts") with JArr l => l | _ => [] end) [])
    as (Hl & Hn & Hw); [cbn; lia|constructor|constructor|].
  split; cbn; try done. by repeat case_match.
Qed.

Lemma copy_accounts r : accounts (copyAccountRegistry r) = accounts r.
Proof. cbn. rewrite <- map_id. apply map_ext. by intros []. Qed.

Lemma note_full_iff reg s info now :
  note_full (registryNoteAccount reg s info now) = true ->
  note_registry (registryNoteAccount reg s info now) = reg /\ note_retired (registryNoteAccount reg s info now) = [].
Proof. unfold registryNoteAccount. by repeat case_match. Qed.

Lemma str_or_clean max x y : clean_text max x -> clean_text max y -> clean_text max (str_or x y).
Proof. by destruct x. Qed.

Lemma note_wf reg s info now : registry_wf reg -> registry_wf (note_registry (registryNoteAccount reg s info now)).
Proof.
  intros Hr. destruct Hr as [Ha Hc Hd Hw] eqn:E; clear E. unfold registryNoteAccount.
  rewrite copy_accounts. set (retire := fun a => _ && _ && _ && _). set (kept := List.filter _ (accounts reg)).
  assert (Hk : Forall account_wf kept) by (by apply Forall_List_filter).
  assert (Hkd : NoDup (map slot kept)) by (by apply NoDup_map_filter).
  assert (Hkl : (length kept <= length (accounts reg))%nat) by apply filter_length_le.
  set (fill := fun a => Account _ _ _ _ _).
  assert (Hfill : forall a, account_wf a -> account_wf (fill a)).
  { intros a [? ? ? ? ?]. split; cbn [fill slot email userId server lastUsed];
      first [done | apply clean_time_nonneg | apply str_or_clean; [apply cleanAccountText_clean|done] | apply cleanAccountText_clean]. }
  destruct (List.find _ kept) eqn:Ef.
  - split; cbn [note_registry active accounts].
    + apply accountSlot_valid.
    + rewrite update_first_length. lia.
    + by rewrite update_first_slots.
    + apply update_first_Forall; auto.
  - destruct (Nat.leb_spec MAX_ACCOUNTS (length kept)); [done|]. split; cbn [note_registry active accounts].
    + apply accountSlot_valid.
    + rewrite length_app. cbn. lia.
    + rewrite map_app. apply NoDup_app. split_and!; [done| |apply NoDup_singleton].
      intros x Hx ->%list_elem_of_singleton. by apply (find_slot_None _ _ Ef).
    + apply Forall_app_2; [done|]. constructor; [|done]. apply Hfill.
      split; cbn; try (split; [cbn; lia|constructor]); [apply accountSlot_valid|done].
Qed.

Lemma remove_wf reg s : registry_wf reg -> registry_wf (registryRemoveAccount reg s).
Proof.
  intros [Ha Hc Hd Hw]. unfold registryRemoveAccount. rewrite copy_accounts.
  split; cbn [active accounts]; [apply accountSlot_valid| |by apply NoDup_map_filter|by apply Forall_List_filter].
  etransitivity; [apply filter_length_le|done].
Qed.

Lemma set_active_wf reg s now : registry_wf reg -> registry_wf (registrySetActive reg s now).
Proof.
  intros [Ha Hc Hd Hw]. unfold registrySetActive. rewrite copy_accounts.
  split; cbn [active accounts]; [apply accountSlot_valid|..]; destruct (is_undef now); try done.
  - by rewrite update_first_length.
  - by rewrite update_first_slots.
  - apply update_first_Forall; [|done]. intros a _ [? ? ? ? ?].
    split; cbn [slot email userId server lastUsed]; first [done | apply clean_time_nonneg].
Qed.

(** ** Round trip through the file *)

(** A registry [JSON.stringify] prints faithfully. *)
Definition account_printable (a : account) : Prop :=
  forallb is_unit (email a) = true /\ forallb is_unit (userId a) = true /\ forallb is_unit (server a) = true
  /\ exists z, lastUsed a = NZ z /\ 0 <= z <= 2 ^ 53.

Lemma is_hex_lower_unit c : is_hex_lower c = true -> is_unit c = true.
Proof. unfold is_hex_lower, is_unit, is_digit, in_range. lia. Qed.

Lemma slot_units s : isAccountSlot (JStr s) = true -> forallb is_unit s = true.
Proof.
  rewrite isAccountSlot_str, orb_true_iff, str_eqb_eq. intros [->|H]; [done|].
  unfold is_slot_name in H. apply andb_true_iff in H as [_ H]. apply forallb_Forall in H.
  apply forallb_Forall. eapply Forall_impl; [done|]. apply is_hex_lower_unit.
Qed.

Lemma account_json_clean a : account_wf a -> account_printable a -> json_clean (account_json a) = true.
Proof.
  intros Hw (He & Hu & Hs & z & Hz & Hr). apply json_clean_obj; [by vm_compute|]. rewrite Hz.
  do 4 (apply Forall_cons_2; [try done; apply slot_units, Hw|]). apply Forall_cons_2; [|constructor].
  apply json_clean_int. lia.
Qed.

Lemma registry_json_clean r : registry_wf r -> Forall account_printable (accounts r) -> json_clean (registry_json r) = true.
Proof.
  intros Hr Hp. apply json_clean_obj; [by vm_compute|].
  apply Forall_cons_2; [by apply json_clean_int|]. apply Forall_cons_2; [apply slot_units, accountSlot_valid|].
  apply Forall_cons_2; [|constructor]. cbn [snd json_clean]. apply forallb_Forall, Forall_map.
  pose proof (wf_accounts r Hr) as Hw. rewrite Forall_forall in *. intros a Ha. cbn. apply account_json_clean; auto.
Qed.

Lemma parse_account_json a : account_wf a -> account_printable a -> parse_account (account_json a) = Some a.
Proof.
  intros [Hsl He Hu Hsv _] (_ & _ & _ & z & Hz & Hr). destruct a as [s e u sv t]. cbn [slot email userId server lastUsed] in *. subst t.
  unfold parse_account. cbn [account_json is_object negb].
  change (get _ (js "slot")) with (JStr s). cbv beta iota. rewrite Hsl.
  change (get _ (js "email")) with (JStr e). change (get _ (js "userId")) with (JStr u).
  change (get _ (js "server")) with (JStr sv). change (get _ (js "lastUsed")) with (JNum (NZ z)).
  by rewrite !clean_text_id, clean_time_id by (done || lia).
Qed.

Lemma collect_accounts_back l out :
  Forall account_wf l -> Forall account_printable l -> NoDup (map slot (out ++ l)) ->
  (length (out ++ l) <= MAX_ACCOUNTS)%nat ->
  collect_accounts (map account_json l) out = out ++ l.
Proof.
  intros Hw Hp. revert out. induction l as [|a l IH]; intros out Hn Hl; cbn [map collect_accounts]; [by rewrite app_nil_r|].
  apply Forall_cons in Hw as [Ha Hw]. apply Forall_cons in Hp as [Hpa Hp].
  rewrite length_app in Hl. cbn [length] in Hl. destruct (Nat.ltb_spec (length out) MAX_ACCOUNTS); [|lia].
  rewrite parse_account_json by done. destruct (existsb _ _) eqn:E.
  - exfalso. apply existsb_slot in E. rewrite map_app in Hn. cbn in Hn. apply NoDup_app in Hn as (_ & Hd & _).
    apply (Hd _ E). left.
  - rewrite IH by (rewrite <- ?app_assoc; try done; rewrite !length_app; cbn [length]; lia). by rewrite <- app_assoc.
Qed.

Lemma registry_roundtrip_ok r :
  registry_wf r -> Forall account_printable (accounts r) ->
  parseAccountRegistry (JStr (serializeAccountRegistry r)) = r.
Proof.
  intros Hr Hp. unfold parseAccountRegistry, serializeAccountRegistry. rewrite text_JStr.
  rewrite parse_stringify by (by apply registry_json_clean).
  destruct Hr as [Ha Hc Hd Hw]. destruct r as [act l]. cbn [active accounts] in *.
  unfold registry_json. cbn [active accounts]. rewrite (accountSlot_id act Ha). cbn [is_object negb orb].
  change (get _ (js "version")) with (JNum (NZ 1)). change (get _ (js "accounts")) with (JArr (map account_json l)).
  change (get _ (js "active")) with (JStr act). cbv beta iota. rewrite Ha. cbn [to_number].
  change (negb (num_eqb (NZ 1) (NZ ACCOUNTS_VERSION))) with false. cbv iota.
  by rewrite (collect_accounts_back l []).
Qed.

(** ** Noting a sign-in *)

Lemma update_first_find s f l a : List.find (fun a => str_eqb (slot a) s) l = Some a ->
  slot (f a) = slot a -> List.find (fun a => str_eqb (slot a) s) (update_first s f l) = Some (f a).
Proof.
  intros H Hf. induction l as [|b l IH]; cbn in *; [done|]. destruct (str_eqb (slot b) s) eqn:E; cbn.
  - injection H as ->. by rewrite Hf, E.
  - rewrite E. auto.
Qed.

Lemma find_snoc s l a : List.find (fun a => str_eqb (slot a) s) l = None -> slot a = s ->
  List.find (fun a => str_eqb (slot a) s) (l ++ [a]) = Some a.
Proof.
  intros H Ha. induction l as [|b l IH]; cbn in *; [by rewrite Ha, str_eqb_refl|].
  destruct (str_eqb (slot b) s); [done|auto].
Qed.

(** The account [info] names. *)
Definition same_account (uid srv : list Z) (a : account) : Prop := userId a = uid /\ server a = srv.

Lemma note_spec reg sl info now :
  let s := accountSlot sl in
  let uid := cleanAccountText (info_field info (js "userId")) 128 in
  let srv := cleanAccountText (info_field info (js "server")) 512 in
  let res := registryNoteAccount reg sl info now in
  uid <> [] -> note_full res = false ->
  active (note_registry res) = s /\
  (exists a, registryAccount (note_registry res) s = Some a /\ same_account uid srv a) /\
  Forall (fun a => slot a = s \/ ~ same_account uid srv a) (accounts (note_registry res)) /\
  (forall t, t ∈ note_retired res <-> exists a, a ∈ accounts reg /\ slot a = t /\ t <> s /\ same_account uid srv a).
Proof.
  cbn zeta. unfold registryNoteAccount. rewrite copy_accounts. set (s := accountSlot sl).
  set (uid := cleanAccountText _ 128). set (srv := cleanAccountText _ 512). intros Hu.
  set (retire := fun a => _ && _ && _ && _). set (kept := List.filter _ (accounts reg)).
  set (fill := fun a => Account _ _ _ _ _).
  assert (Hret : forall a, retire a = true <-> slot a <> s /\ same_account uid srv a).
  { intros a. unfold retire, same_account. rewrite !andb_true_iff, !negb_true_iff, str_eqb_neq, bool_decide_eq_false, !str_eqb_eq. tauto. }
  assert (Hfill : forall a, same_account uid srv (fill a)) by (intros a; split; [by destruct uid|done]).
  assert (Hkept : Forall (fun a => slot a = s \/ ~ same_account uid srv a) kept).
  { apply Forall_forall. intros a Ha. apply list_elem_of_In, filter_In in Ha as [_ Ha%negb_true_iff].
    apply not_true_iff_false in Ha.
    assert (Hn : ~ (slot a <> s /\ same_account uid srv a)) by (rewrite <- Hret; exact Ha). destruct (decide (slot a = s)); [by left|right; tauto]. }
  assert (Hr : forall t, t ∈ map slot (List.filter retire (accounts reg)) <->
    exists a, a ∈ accounts reg /\ slot a = t /\ t <> s /\ same_account uid srv a).
  { intros t. rewrite list_elem_of_In, in_map_iff. setoid_rewrite filter_In. split.
    - intros (a & <- & Ha & Hra). apply Hret in Hra as [? ?]. exists a. by rewrite list_elem_of_In.
    - intros (a & Ha & <- & Hs & Hsa). exists a. rewrite list_elem_of_In in Ha. split_and!; [done|done|]. by apply Hret. }
  destruct (List.find _ kept) as [e|] eqn:Ef; [|destruct (MAX_ACCOUNTS <=? length kept)%nat]; intros Hf; [|done|].
  - cbn [note_registry note_retired accounts active]. split_and!; [done| | |done].
    + exists (fill e). split; [|done]. by apply update_first_find.
    + apply update_first_Forall; [|done]. intros a Ha _. by left.
  - cbn [note_registry note_retired accounts active]. split_and!; [done| | |done].
    + eexists. split; [|apply Hfill]. by apply find_snoc.
    + apply Forall_app_2; [done|]. constructor; [by left|done].
Qed.

(** ** Slots and keyring entries *)

Lemma hex_unit_hex d : 0 <= d < 16 -> is_hex_lower (hex_unit d) = true.
Proof. intros. unfold hex_unit, is_hex_lower, is_digit, in_range. destruct (Z.ltb_spec d 10); lia. Qed.

Lemma drawn_slot_name draw n : (forall i, 0 <= draw i < 16) -> is_slot_name (drawn_slot draw n) = true.
Proof.
  intros Hd. unfold is_slot_name, drawn_slot. rewrite length_map, length_seq. apply andb_true_iff. split; [done|].
  apply forallb_Forall, Forall_map, Forall_forall. intros i _. by apply hex_unit_hex.
Qed.

Lemma find_slot_fresh draw taken n k : (forall i, 0 <= draw i < 16) ->
  find_slot draw taken n k = [] \/
  (is_slot_name (find_slot draw taken n k) = true /\ find_slot draw taken n k ∉ taken).
Proof.
  intros Hd. revert n. induction k as [|k IH]; intros n; cbn [find_slot]; [by left|].
  destruct (existsb _ taken) eqn:E; [apply IH|right]. split; [by apply drawn_slot_name|].
  intros Hin%existsb_slot. congruence.
Qed.

Lemma at_split b1 b2 s1 s2 :
  64 ∉ b1 -> 64 ∉ b2 -> b1 ++ 64 :: s1 = b2 ++ 64 :: s2 -> b1 = b2 /\ s1 = s2.
Proof.
  revert b2. induction b1 as [|x b1 IH]; intros [|y b2] H1 H2 E; cbn in *; simplify_eq; try done.
  - exfalso. apply H2. left.
  - exfalso. apply H1. left.
  - destruct (IH b2) as [-> ->]; [set_solver|set_solver|done|done].
Qed.

Lemma entry_name_inj b1 b2 s1 s2 :
  64 ∉ b1 -> 64 ∉ b2 -> keyringEntryName b1 s1 = keyringEntryName b2 s2 ->
  b1 = b2 /\ accountSlot s1 = accountSlot s2.
Proof.
  intros H1 H2. unfold keyringEntryName.
  destruct (str_eqb (accountSlot s1) DEFAULT_ACCOUNT_SLOT) eqn:E1, (str_eqb (accountSlot s2) DEFAULT_ACCOUNT_SLOT) eqn:E2.
  - apply str_eqb_eq in E1, E2. by rewrite E1, E2.
  - intros ->. exfalso. apply H1. cbn. set_solver.
  - intros <-. exfalso. apply H2. cbn. set_solver.
  - cbn. by apply at_split.
Qed.

(** ** The next account *)

(** [lastUsed] of a registry is a whole number; its value. *)
Definition used (a : account) : Z := match lastUsed a with Fin q => Qnum q | _ => 0 end.
Definition whole (a : account) : Prop := lastUsed a = NZ (used a).

Definition pick (best : option account) (a : account) : option account :=
  match best with
  | None => Some a
  | Some b => if num_ltb (lastUsed b) (lastUsed a) then Some a else best
  end.

Lemma scan_filter leaving l best :
  fold_left (fun best a => if str_eqb (slot a) leaving then best else pick best a) l best
  = fold_left pick (List.filter (fun a => negb (str_eqb (slot a) leaving)) l) best.
Proof.
  revert best. induction l as [|a l IH]; intros best; cbn; [done|]. by destruct (str_eqb _ _); cbn; rewrite IH.
Qed.

Lemma pick_max l b : whole b -> Forall whole l ->
  exists m, fold_left pick l (Some b) = Some m /\ m ∈ b :: l /\ Forall (fun a => used a <= used m) (b :: l).
Proof.
  intros Hb Hl. revert b Hb. induction Hl as [|a l Ha Hl IH]; intros b Hb; cbn [fold_left].
  - exists b. split_and!; [done|left|by repeat constructor].
  - cbn [pick]. rewrite Ha, Hb, num_ltb_NZ. destruct (Z.ltb_spec (used b) (used a)).
    + destruct (IH a Ha) as (m & Hm & Hin & Hmax). exists m. split_and!; [done|set_solver|].
      apply Forall_cons in Hmax as [Hma Hmax]. repeat constructor; try done. lia.
    + destruct (IH b Hb) as (m & Hm & Hin & Hmax). exists m. split_and!; [done|set_solver|].
      apply Forall_cons in Hmax as [Hmb Hmax]. repeat constructor; try done. lia.
Qed.

Lemma next_account_spec r leaving : Forall whole (accounts r) ->
  (registryNextAccount r leaving = [] /\ Forall (fun a => slot a = leaving) (accounts r)) \/
  exists m, registryNextAccount r leaving = slot m /\ m ∈ accounts r /\ slot m <> leaving /\
    forall a, a ∈ accounts r -> slot a <> leaving -> used a <= used m.
Proof.
  intros Hw. unfold registryNextAccount. fold pick.
  change (fold_left _ (accounts r) None) with
    (fold_left (fun best a => if str_eqb (slot a) leaving then best else pick best a) (accounts r) None).
  rewrite scan_filter. set (p := fun a => negb _).
  assert (Hin : forall a, a ∈ List.filter p (accounts r) <-> a ∈ accounts r /\ slot a <> leaving).
  { intros a. rewrite !list_elem_of_In, filter_In. unfold p. by rewrite negb_true_iff, str_eqb_neq. }
  destruct (List.filter p (accounts r)) as [|b l] eqn:E; cbn [fold_left pick].
  - left. split; [done|]. apply Forall_forall. intros a Ha. destruct (decide (slot a = leaving)); [done|].
    exfalso. apply (not_elem_of_nil a). by apply Hin.
  - assert (Hbl : Forall whole (b :: l)) by (rewrite <- E; by apply Forall_List_filter).
    apply Forall_cons in Hbl as [Hb Hl]. destruct (pick_max l b Hb Hl) as (m & -> & Hm & Hmax).
    right. exists m. apply Hin in Hm as [Hm Hs]. split_and!; [done|done|done|].
    intros a Ha Hsa. rewrite Forall_forall in Hmax. by apply Hmax, Hin.
Qed.

(** ** Properties *)

(** Whatever the registry file holds, what is read from it is well-formed: an
    active slot, at most ten accounts in distinct slots, each slot a name the
    panel gives, texts bounded and free of control characters. *)
Theorem registry_parse_wf raw : registry_wf (parseAccountRegistry raw).
Proof. apply parse_registry_wf. Qed.

(** The operations the panel performs on its registry. *)
Inductive registry_step : registry -> registry -> Prop :=
| step_note r s info now : registry_step r (note_registry (registryNoteAccount r s info now))
| step_remove r s : registry_step r (registryRemoveAccount r s)
| step_active r s now : registry_step r (registrySetActive r s now).

(** C34: from a registry file, any sequence of sign-ins, removals and switches
    keeps the registry well-formed. *)
Theorem registry_reachable_wf raw r :
  rtc registry_step (parseAccountRegistry raw) r -> registry_wf r.
Proof.
  apply (rtc_ind_r registry_wf); [apply parse_registry_wf|].
  intros x y _ [] Hx; [by apply note_wf|by apply remove_wf|by apply set_active_wf].
Qed.

Definition alice : jsval :=
  JObj [(js "email", JStr (js "alice@example.com")); (js "userId", JStr (js "u1"));
        (js "server", JStr (js "https://vault.bitwarden.com"))].

Lemma registry_reachable_wf_witness :
  registry_wf (note_registry (registryNoteAccount (parseAccountRegistry (JStr [])) (JStr (js "default")) alice (JNum (NZ 5)))).
Proof. apply (registry_reachable_wf (JStr [])). eapply rtc_once. constructor. Defined.

(** C33: writing a well-formed registry and reading it back gives the same
    registry. *)
Theorem registry_roundtrip r :
  registry_wf r -> Forall account_printable (accounts r) ->
  parseAccountRegistry (JStr (serializeAccountRegistry r)) = r.
Proof. apply registry_roundtrip_ok. Qed.

Definition alice_registry : registry :=
  Registry (js "0123456789abcdef")
    [Account (js "0123456789abcdef") (js "alice@example.com") (js "u1") (js "https://vault.bitwarden.com") (NZ 17)].

Lemma registry_roundtrip_witness :
  parseAccountRegistry (JStr (serializeAccountRegistry alice_registry)) = alice_registry.
Proof.
  apply registry_roundtrip.
  - assert (E : alice_registry = parseAccountRegistry (JStr (serializeAccountRegistry alice_registry)))
      by (vm_compute; reflexivity).
    rewrite E. apply parse_registry_wf.
  - constructor; [|constructor]. split_and!; [reflexivity|reflexivity|reflexivity|]. exists 17. split; [reflexivity|lia].
Defined.

(** Noting what a slot holds makes that slot active, records the account in
    it, retires exactly the other slots that hold the same user on the same
    server, and leaves no second slot with that account. *)
Theorem note_account_unique reg sl info now :
  let s := accountSlot sl in
  let uid := cleanAccountText (info_field info (js "userId")) 128 in
  let srv := cleanAccountText (info_field info (js "server")) 512 in
  let res := registryNoteAccount reg sl info now in
  uid <> [] -> note_full res = false ->
  active (note_registry res) = s /\
  (exists a, registryAccount (note_registry res) s = Some a /\ same_account uid srv a) /\
  Forall (fun a => slot a = s \/ ~ same_account uid srv a) (accounts (note_registry res)) /\
  (forall t, t ∈ note_retired res <-> exists a, a ∈ accounts reg /\ slot a = t /\ t <> s /\ same_account uid srv a).
Proof. apply note_spec. Qed.

Lemma note_account_unique_witness :
  active (note_registry (registryNoteAccount alice_registry (JStr (js "default")) alice (JNum (NZ 20)))) = js "default".
Proof.
  refine (proj1 (note_account_unique alice_registry (JStr (js "default")) alice (JNum (NZ 20)) _ _));
    vm_compute; congruence.
Defined.

(** Keyring entries of different slots never share a name, whatever the
    entry, so no lookup for one account can answer with another's secret. *)
Theorem keyring_names_disjoint b1 b2 s1 s2 :
  64 ∉ b1 -> 64 ∉ b2 -> keyringEntryName b1 s1 = keyringEntryName b2 s2 ->
  b1 = b2 /\ accountSlot s1 = accountSlot s2.
Proof. apply entry_name_inj. Qed.

Lemma keyring_names_disjoint_witness :
  js "session" = js "session" /\
  accountSlot (JStr (js "../default")) = accountSlot (JStr (js "default")).
Proof.
  apply keyring_names_disjoint; [| |reflexivity]; apply (bool_decide_unpack (64 ∉ js "session")); vm_compute; exact I.
Defined.

(** A new slot is the default one if it is free, and otherwise sixteen
    hexadecimal digits not taken by any account, or empty after 32 draws that all
    collide.  [draw] stands for [Math.floor(Math.random() * 16)]. *)
Theorem new_slot_fresh draw r :
  (forall i, 0 <= draw i < 16) ->
  let s := slotForNewAccount draw r in
  s = [] \/ (isAccountSlot (JStr s) = true /\ registryHasAccount r s = false).
Proof.
  intros Hd. cbn zeta. unfold slotForNewAccount.
  destruct (registryHasAccount r DEFAULT_ACCOUNT_SLOT) eqn:E; cbn [negb]; [|by right].
  destruct (find_slot_fresh draw (map slot (accounts r)) 0 32 Hd) as [?|[Hn Hni]]; [by left|right].
  fold (newAccountSlot draw (map slot (accounts r))) in Hn, Hni.
  split; [rewrite isAccountSlot_str, Hn; apply orb_true_r|].
  unfold registryHasAccount, registryAccount. destruct (List.find _ _) as [a|] eqn:Ef; [|done].
  exfalso. apply List.find_some in Ef as [Ha Hs]. apply str_eqb_eq in Hs. apply Hni.
  rewrite <- Hs. apply list_elem_of_In, in_map. done.
Qed.

Lemma new_slot_fresh_witness :
  let s := slotForNewAccount (fun i => Z.of_nat i mod 16) (Registry [] [Account (js "default") [] [] [] (NZ 0)]) in
  s = [] \/ (isAccountSlot (JStr s) = true /\ registryHasAccount (Registry [] [Account (js "default") [] [] [] (NZ 0)]) s = false).
Proof. apply new_slot_fresh. intros i. apply Z.mod_pos_bound. lia. Defined.

(** When an account goes away the panel shows the most recently used of the
    others, and nothing exactly when there is no other. *)
Theorem next_account r leaving : Forall whole (accounts r) ->
  (registryNextAccount r leaving = [] /\ Forall (fun a => slot a = leaving) (accounts r)) \/
  exists m, registryNextAccount r leaving = slot m /\ m ∈ accounts r /\ slot m <> leaving /\
    forall a, a ∈ accounts r -> slot a <> leaving -> used a <= used m.
Proof. apply next_account_spec. Qed.

Lemma next_account_witness :
  (registryNextAccount alice_registry (js "default") = [] /\ Forall (fun a => slot a = js "default") (accounts alice_registry)) \/
  exists m, registryNextAccount alice_registry (js "default") = slot m /\ m ∈ accounts alice_registry /\ slot m <> js "default" /\
    forall a, a ∈ accounts alice_registry -> slot a <> js "default" -> used a <= used m.
Proof. apply next_account. repeat constructor. Defined.
