(* ===== verification/Shell.v ===== *)
(** * Shell command construction ([BitwardenModel.js])

    Every program the panel runs is an argument vector, most of them
    [bash -c script].  This file models how scripts are put together: quoting,
    output caps, private directories, keyring entries, supervised jobs and
    terminals.  In the literals below a backtick stands for a double quote; none
    of the scripts contains a backtick. *)

From S2P Require Import Prelude.
From S2P Require Import JsNum.
From S2P Require Import JsString.
From S2P Require Import JsUnicode.
From S2P Require Import JsValue.
From S2P Require Import Accounts.

(** A script literal. *)
Definition sh (s : string) : list Z := map (fun c => if c =? 96 then 34 else c) (js s).

(** A whole number in a script, [Number(n)] printed. *)
Definition num_text (n : Z) : list Z := Z_to_str n.

(** ** Caps *)

Definition MAX_ITEMS_BYTES : Z := 16 * 1024 * 1024.
Definition MAX_DETAIL_BYTES : Z := 4 * 1024 * 1024.
Definition MAX_SENDS_BYTES : Z := 8 * 1024 * 1024.
Definition MAX_COLLECTIONS_BYTES : Z := 2 * 1024 * 1024.
Definition MAX_FOLDERS_BYTES : Z := 2 * 1024 * 1024.
Definition MAX_ORGS_BYTES : Z := 2 * 1024 * 1024.
Definition MAX_STATUS_BYTES : Z := 64 * 1024.
Definition MAX_TOKEN_BYTES : Z := 4096.
Definition MAX_STDERR_BYTES : Z := 8192.
Definition MAX_MISC_BYTES : Z := 64 * 1024.

(** ** Quoting *)

(** [String(value || "")] between single quotes, each single quote closed,
    escaped and reopened. *)
Definition quote_text (s : list Z) : list Z :=
  39 :: flat_map (fun c => if c =? 39 then [39; 92; 39; 39] else [c]) s ++ [39].

Definition shellQuote (value : jsval) : list Z := quote_text (text value).

(** [maxStderrBytes] absent is [None]. *)
Definition cappedScript (script : list Z) (maxStderrBytes : option Z) : list Z :=
  match maxStderrBytes with
  | Some n => if n =? 0 then [] else js "exec 2> >(head -c " ++ num_text n ++ js " >&2); "
  | None => []
  end
  ++ js "set -o pipefail; " ++ script
  ++ [10] ++ js "__rc=$?" ++ [10] ++ sh "case `$__rc` in 141) __rc=0 ;; esac" ++ [10] ++ sh "exit `$__rc`".

(** [/^[a-zA-Z0-9_\-\.\/]+$/] *)
Definition is_plain_unit (c : Z) : bool := is_alnum c || (c =? 95) || (c =? 45) || (c =? 46) || (c =? 47).
Definition is_plain_arg (s : list Z) : bool := match s with [] => false | _ => forallb is_plain_unit s end.

Definition quote_arg (arg : list Z) : list Z := if is_plain_arg arg then arg else shellQuote (JStr arg).

(** The words of the bw call, before any cap. *)
Definition bw_words (args : list (list Z)) : list Z := js "bw" ++ flat_map (fun a => 32 :: quote_arg a) args.

Definition buildCappedCommand (args : list (list Z)) (maxStdoutBytes maxStderrBytes : option Z) : list (list Z) :=
  let inner := bw_words args
    ++ match maxStdoutBytes with
       | Some n => if n =? 0 then [] else js " | head -c " ++ num_text n
       | None => []
       end in
  [js "bash"; js "-c"; cappedScript inner maxStderrBytes].

(** ** Terminals *)

Definition terminalScript (inner : list Z) : list Z :=
  let command := js "bash -c " ++ shellQuote (JStr inner) in
  js "if command -v xdg-terminal-exec >/dev/null 2>&1; then exec xdg-terminal-exec " ++ command
  ++ js "; elif command -v kitty >/dev/null 2>&1; then exec kitty " ++ command
  ++ js "; elif command -v alacritty >/dev/null 2>&1; then exec alacritty -e " ++ command
  ++ js "; elif command -v foot >/dev/null 2>&1; then exec foot " ++ command
  ++ js "; else printf '%s" ++ [10] ++ js "' 'No supported terminal found' >&2; exit 1; fi".

(** ** Keyring entries *)

Definition KEYRING_SERVICE : list Z := js "qs-bitwarden-cli".
Definition KEYRING_SECRET_ENV : list Z := js "QSBW_SECRET".

Definition keyringAttributes (account : jsval) : list Z :=
  js " service " ++ shellQuote (JStr KEYRING_SERVICE) ++ js " account " ++ shellQuote account.

Definition keyringStoreScript (label account : jsval) : list Z :=
  js "printf '%s' " ++ sh "`$" ++ KEYRING_SECRET_ENV ++ sh "` | secret-tool store --label=" ++ shellQuote label
  ++ keyringAttributes account.

Definition keyringReadScript (account : jsval) : list Z :=
  js "secret-tool lookup" ++ keyringAttributes account ++ js " 2>/dev/null | head -c " ++ num_text MAX_TOKEN_BYTES.

Definition keyringLookupEntryCommand (account : jsval) : list (list Z) :=
  let script := js "stored=$(" ++ keyringReadScript account ++ js "); "
    ++ sh "__lookup_rc=$?; [ `$__lookup_rc` -eq 0 ] || exit `$__lookup_rc`; "
    ++ sh "printf '%s' `$stored`" in
  [js "bash"; js "-c"; cappedScript script None].

Definition keyringClearEntryCommand (account : list Z) : list (list Z) :=
  [js "secret-tool"; js "clear"; js "service"; KEYRING_SERVICE; js "account"; account].

Definition keyringHasEntryCommand (account : jsval) : list (list Z) :=
  let script := js "if secret-tool lookup" ++ keyringAttributes account
    ++ js " >/dev/null 2>&1; then echo yes; else echo no; fi" in
  [js "bash"; js "-c"; script].

(** ** Node options of every bw *)

Definition BW_LOGIN_CODE_FILE : list Z := js "bw-login-code.js".
Definition BW_FAST_EXIT_FILE : list Z := js "bw-fast-exit.js".

(** [file.replace(/([/\\])/g, "\\$1")] with a double quote for the slash *)
Definition escape_dq (s : list Z) : list Z := flat_map (fun c => if (c =? 34) || (c =? 92) then [92; c] else [c]) s.

Definition require_option (dir file : list Z) : list Z :=
  sh "--require `" ++ escape_dq (dir ++ js "/" ++ file) ++ [34].

Definition bwNodeOptions (pluginDir existing : jsval) : list Z :=
  let base := trim (text existing) in
  let dir := drop_trailing is_slash (text pluginDir) in
  if bool_decide (dir = []) then base
  else
    let option := join (js " ") (map (require_option dir) [BW_LOGIN_CODE_FILE; BW_FAST_EXIT_FILE]) in
    if bool_decide (base = []) then option else base ++ js " " ++ option.

(** ** Directories and supervised jobs *)

Definition RUNTIME_SUBDIR : list Z := js "qs-bitwarden-cli".

Definition privateDirScript (name : list Z) : list Z :=
  let d := sh "`$" ++ name ++ sh "`" in
  js "if [ -e " ++ d ++ js " ]; then [ -d " ++ d ++ js " ] && [ ! -L " ++ d ++ js " ] || exit 1; "
  ++ js "else (umask 077 && mkdir -p -- " ++ d ++ js ") || exit 1; fi; chmod 700 -- " ++ d ++ js " || exit 1; ".

Definition appDataDirPrelude : list Z :=
  sh "if [ -n `${" ++ APPDATA_ENV ++ sh ":-}` ]; then "
  ++ sh "__acct_parent=`$(dirname -- `$" ++ APPDATA_ENV ++ sh "`)`; "
  ++ sh "if [ -L `$__acct_parent` ]; then exit 1; fi; "
  ++ sh "(umask 077 && mkdir -p -- `$__acct_parent`) || exit 1; "
  ++ sh "__acct_dir=`$" ++ APPDATA_ENV ++ sh "`; " ++ privateDirScript (js "__acct_dir")
  ++ js "fi; ".

Definition supervisedProcessPrelude (cleanupCommand : list Z) : list Z :=
  js "__auth_job=''; "
  ++ js "__auth_cleanup() { trap - EXIT HUP INT TERM; "
  ++ sh "if [ -n `${__auth_job:-}` ]; then "
  ++ sh "kill -TERM -- `-$__auth_job` 2>/dev/null || true; "
  ++ sh "wait `$__auth_job` 2>/dev/null || true; fi; "
  ++ (if bool_decide (cleanupCommand = []) then [] else cleanupCommand ++ js "; ")
  ++ js "}; "
  ++ js "trap '__auth_cleanup' EXIT; "
  ++ js "trap '__auth_cleanup; exit 143' HUP INT TERM; ".

Definition supervisedProcessRun (command : list Z) : list Z :=
  js "set -m; (" ++ cappedScript command (Some MAX_STDERR_BYTES) ++ js ") & "
  ++ sh "__auth_job=$!; wait `$__auth_job`; __auth_rc=$?; "
  ++ sh "__auth_job=''; exit `$__auth_rc`".

Definition supervisedProcessCommand (command prelude : list Z) : list (list Z) :=
  [js "bash"; js "-c"; prelude ++ supervisedProcessPrelude [] ++ supervisedProcessRun command].

Inductive auth_channel := unlock_channel | login_channel | other_channel.

Definition authPasswordFifoName (channel : auth_channel) : list Z :=
  match channel with
  | unlock_channel => js "unlock-password.fifo"
  | login_channel => js "login-password.fifo"
  | other_channel => []
  end.

Definition authFifoPrelude (channel : auth_channel) : list Z :=
  let fifoName := authPasswordFifoName channel in
  if bool_decide (fifoName = []) then []
  else
    sh "test -n `${XDG_RUNTIME_DIR:-}` || exit 1; "
    ++ sh "__auth_dir=`$XDG_RUNTIME_DIR/" ++ RUNTIME_SUBDIR ++ sh "`; "
    ++ privateDirScript (js "__auth_dir")
    ++ sh "__auth_fifo=`$__auth_dir/" ++ fifoName ++ sh "`; "
    ++ sh "rm -f -- `$__auth_fifo`; "
    ++ sh "mkfifo -m 600 -- `$__auth_fifo` || exit 1; "
    ++ supervisedProcessPrelude (sh "rm -f -- `$__auth_fifo`").

Definition supervisedAuthCommand (channel : auth_channel) (command prelude : list Z) : list (list Z) :=
  [js "bash"; js "-c"; prelude ++ authFifoPrelude channel ++ supervisedProcessRun command].

(** ** Scrubbing collectors *)

Definition SCRUB_COMMAND : list (list Z) := [js "bash"; js "-c"; []].

Definition scrubCommand : list (list Z) := SCRUB_COMMAND.

Definition isScrubCommand (cmd : list (list Z)) : bool := bool_decide (cmd = SCRUB_COMMAND).

(** A process the scrub queue holds: an identity, whether it runs, its command. *)
Record proc := Proc { proc_id : Z; proc_running : bool; proc_command : list (list Z) }.

(** [{start, waiting}] *)
Definition scrubPass (procs : list proc) : list proc * list proc :=
  (List.filter (fun p => negb (proc_running p) && negb (isScrubCommand (proc_command p))) procs,
   List.filter (fun p => proc_running p || negb (isScrubCommand (proc_command p))) procs).

Definition finishScrub (procs : list proc) (finished : proc) : list proc :=
  List.filter (fun p => negb (proc_id p =? proc_id finished)) procs.
