(* ===== verification/ShellCorrect.v ===== *)
(** * Quoting is exact

    A reader of shell words, written from the POSIX rules for the constructs the
    quoting uses: single quotes, backslash, and plain characters.  Every other
    unquoted character (expansion, operators, redirection, glob, comment, double
    quote, newline) makes it fail, so a text it reads has no other meaning to a
    shell than its words. *)

From S2P Require Import Prelude.
From S2P Require Import JsNum.
From S2P Require Import JsString.
From S2P Require Import JsValue.
From S2P Require Import Accounts.
From S2P Require Import Shell.

(** ** A reader of shell words *)

Inductive lex_mode := Outside | Word | Quoted | Escaped.

(** [mode] is the reader's state, [cur] the word so far (reversed), [out] the
    words read (reversed). *)
Fixpoint lex (mode : lex_mode) (cur : list Z) (out : list (list Z)) (s : list Z) : option (list (list Z)) :=
  match s with
  | [] =>
      match mode with
      | Outside => Some (rev out)
      | Word => Some (rev (rev cur :: out))
      | Quoted | Escaped => None
      end
  | c :: s =>
      match mode with
      | Quoted => if c =? 39 then lex Word cur out s else lex Quoted (c :: cur) out s
      | Escaped => if c =? 10 then None else lex Word (c :: cur) out s
      | Outside | Word =>
          if c =? 32 then lex Outside [] (match mode with Word => rev cur :: out | _ => out end) s
          else if c =? 39 then lex Quoted cur out s
          else if c =? 92 then lex Escaped cur out s
          else if is_plain_unit c then lex Word (c :: cur) out s
          else None
      end
  end.

Definition shell_words (s : list Z) : option (list (list Z)) := lex Outside [] [] s.

(** ** Quoted text reads back *)

Lemma lex_quoted t cur out r :
  lex Quoted cur out (flat_map (fun c => if c =? 39 then [39; 92; 39; 39] else [c]) t ++ 39 :: r)
  = lex Word (rev t ++ cur) out r.
Proof.
  revert cur. induction t as [|c t IH]; intros cur; cbn [flat_map app]; [done|].
  destruct (Z.eqb_spec c 39) as [->|Hc]; cbn [app lex].
  - cbn. rewrite IH. cbn [rev]. by rewrite <- app_assoc.
  - rewrite (proj2 (Z.eqb_neq c 39) Hc), IH. cbn [rev]. by rewrite <- app_assoc.
Qed.

Lemma lex_quote_text t mode cur out r : mode = Outside \/ mode = Word ->
  lex mode cur out (quote_text t ++ r) = lex Word (rev t ++ cur) out r.
Proof.
  intros Hm. unfold quote_text. cbn [app]. rewrite <- app_assoc. cbn [app].
  transitivity (lex Quoted cur out (flat_map (fun c => if c =? 39 then [39; 92; 39; 39] else [c]) t ++ 39 :: r));
    [by destruct Hm as [-> | ->]|apply lex_quoted].
Qed.

Lemma lex_plain t mode cur out r :
  Forall (fun c => is_plain_unit c = true) t -> t <> [] -> mode = Outside \/ mode = Word ->
  lex mode cur out (t ++ r) = lex Word (rev t ++ cur) out r.
Proof.
  intros Ht. revert mode cur. induction Ht as [|c t Hc Ht IH]; intros mode cur Hne Hm; [done|]. cbn [app].
  assert (E : lex mode cur out (c :: t ++ r) = lex Word (c :: cur) out (t ++ r)).
  { assert (c <> 32 /\ c <> 39 /\ c <> 92) as (H1 & H2 & H3)
      by (unfold is_plain_unit, is_alnum, is_alpha, is_lower, is_upper, is_digit, in_range in Hc; lia).
    destruct Hm as [-> | ->]; cbn [lex]; rewrite (proj2 (Z.eqb_neq c 32) H1), (proj2 (Z.eqb_neq c 39) H2), (proj2 (Z.eqb_neq c 92) H3), Hc; done. }
  rewrite E. destruct t as [|d t]; [done|]. rewrite IH; [|done|by right]. cbn [rev]. by rewrite <- !app_assoc.
Qed.

Lemma lex_quote_arg a out r :
  lex Outside [] out (quote_arg a ++ r) = lex Word (rev a) out r.
Proof.
  unfold quote_arg. destruct (is_plain_arg a) eqn:E.
  - unfold is_plain_arg in E. destruct a as [|c a]; [done|]. apply forallb_Forall in E.
    rewrite lex_plain; [by rewrite app_nil_r|done|done|by left].
  - unfold shellQuote. rewrite text_JStr, lex_quote_text by (by left). by rewrite app_nil_r.
Qed.

Lemma lex_args args cur out :
  lex Word cur out (flat_map (fun a => 32 :: quote_arg a) args) = Some (rev out ++ rev cur :: args).
Proof.
  revert cur out. induction args as [|a args IH]; intros cur out; cbn [flat_map].
  - cbn. done.
  - cbn [app lex]. cbn [Z.eqb Pos.eqb]. rewrite lex_quote_arg, IH. cbn [rev]. rewrite rev_involutive, <- app_assoc. done.
Qed.

Lemma bw_words_read args : shell_words (bw_words args) = Some (js "bw" :: args).
Proof.
  unfold shell_words, bw_words. rewrite (lex_plain (js "bw")); [|by repeat constructor|done|by left].
  rewrite lex_args. done.
Qed.

(** ** Properties *)

(** C23: whatever an argument holds, quotes, dollar signs, newlines or operators,
    a shell reads the bw call back as exactly the argument vector it was built
    from, and a quoted value as that value alone: nothing can be injected. *)
Theorem command_words_exact :
  (forall args, shell_words (bw_words args) = Some (js "bw" :: args)) /\
  (forall v, shell_words (shellQuote v) = Some [text v]).
Proof.
  split; [apply bw_words_read|]. intros v. unfold shell_words, shellQuote.
  rewrite <- (app_nil_r (quote_text _)), lex_quote_text by (by left). cbn. by rewrite app_nil_r, rev_involutive.
Qed.

(** A scrub pass restarts exactly the idle processes whose collector may hold
    output, keeps every running or restarted one in the queue, and forgets the
    ones whose last command was the scrub itself. *)
Theorem scrub_pass_exact procs p :
  let '(start, waiting) := scrubPass procs in
  (p ∈ start <-> p ∈ procs /\ proc_running p = false /\ proc_command p <> scrubCommand) /\
  (p ∈ waiting <-> p ∈ procs /\ (proc_running p = true \/ proc_command p <> scrubCommand)) /\
  (p ∈ finishScrub waiting p -> False).
Proof.
  unfold scrubPass, finishScrub. rewrite !list_elem_of_In, !filter_In, !andb_true_iff, !orb_true_iff, !negb_true_iff.
  unfold isScrubCommand, scrubCommand. rewrite bool_decide_eq_false, Z.eqb_refl. naive_solver.
Qed.
