(* ===== verification/ShellReader.v ===== *)
(** * What a shell interprets in a script

    A reader of whole scripts at the level of quoting: which units a POSIX shell
    interprets and which are plain data.  Single quotes and backslashes make data;
    double quotes, [$( )], parentheses and [${ }] nest.  The scripts have no
    backquotes, comments or here-documents, so these are not read.  A parenthesis
    that ends a [case] pattern closes the innermost open one if there is one; in the
    scripts this happens outside double quotes only, where it changes nothing.

    A script with values in it is safe when the units the shell interprets do not
    depend on the values, and every value arrives as itself. *)

From S2P Require Import Prelude.
From S2P Require Import JsNum.
From S2P Require Import JsString.
From S2P Require Import JsValue.
From S2P Require Import Shell.

(** ** The reader *)

Inductive frame := InDouble | InParen | InBrace.
Inductive read_mode := Plain | Single | Escape | Dollar.

Record reader := Reader { r_stack : list frame; r_mode : read_mode }.

(** A unit of a script: interpreted, or data. *)
Inductive tok := Syntax (c : Z) | Data (c : Z).

Definition in_double (stack : list frame) : bool := match stack with InDouble :: _ => true | _ => false end.
Definition pop (f : frame) (stack : list frame) : list frame :=
  match f, stack with
  | InDouble, InDouble :: s | InParen, InParen :: s | InBrace, InBrace :: s => s
  | _, _ => stack
  end.

(** After a plain unit. *)
Definition plain_step (stack : list frame) (c : Z) : reader :=
  if c =? 92 then Reader stack Escape
  else if c =? 36 then Reader stack Dollar
  else if in_double stack then Reader (if c =? 34 then pop InDouble stack else stack) Plain
  else if c =? 39 then Reader stack Single
  else if c =? 34 then Reader (InDouble :: stack) Plain
  else if c =? 40 then Reader (InParen :: stack) Plain
  else if c =? 41 then Reader (pop InParen stack) Plain
  else if c =? 125 then Reader (pop InBrace stack) Plain
  else Reader stack Plain.

(** The quotes and backslashes that make data are not themselves reported. *)
Definition plain_tok (stack : list frame) (c : Z) : list tok :=
  if c =? 92 then [] else if (c =? 39) && negb (in_double stack) then [] else [Syntax c].

Definition read_step (r : reader) (c : Z) : list tok * reader :=
  let '(Reader stack mode) := r in
  match mode with
  | Plain => (plain_tok stack c, plain_step stack c)
  | Single => if c =? 39 then ([], Reader stack Plain) else ([Data c], Reader stack Single)
  | Escape => ([Data c], Reader stack Plain)
  | Dollar =>
      if c =? 40 then ([Syntax c], Reader (InParen :: stack) Plain)
      else if c =? 123 then ([Syntax c], Reader (InBrace :: stack) Plain)
      else (plain_tok stack c, plain_step stack c)
  end.

Fixpoint read_units (r : reader) (s : list Z) : list tok * reader :=
  match s with
  | [] => ([], r)
  | c :: s => let '(t, r) := read_step r c in let '(ts, r) := read_units r s in (t ++ ts, r)
  end.

Definition at_start : reader := Reader [] Plain.

(** Where a quoted value may stand, and where a script may end. *)
Definition unquoted (r : reader) : bool :=
  match r with Reader stack Plain => negb (in_double stack) | _ => false end.

(** [None]: the script ends inside a quotation. *)
Definition shell_read (script : list Z) : option (list tok) :=
  let '(ts, r) := read_units at_start script in if unquoted r then Some ts else None.

(** ** Scripts with values *)

(** A script's reading with holes for values. *)
Inductive slot := Fixed (t : tok) | Hole.

Fixpoint plug (shape : list slot) (values : list (list Z)) : list tok :=
  match shape with
  | [] => []
  | Fixed t :: shape => t :: plug shape values
  | Hole :: shape => match values with v :: vs => map Data v ++ plug shape vs | [] => plug shape [] end
  end.

Definition holes (shape : list slot) : nat := length (List.filter (fun s => match s with Hole => true | _ => false end) shape).

(** Whatever the accepted values, the shell reads the same script around them, and
    each of them as itself. *)
Definition injection_free {A} (ok : A -> Prop) (script : A -> list Z) (values : A -> list (list Z)) : Prop :=
  exists shape, forall a, ok a -> holes shape = length (values a) /\ shell_read (script a) = Some (plug shape (values a)).

(** ** A script as text and values *)

(** Units with no meaning of their own to a shell. *)
Definition word_unit (c : Z) : bool := is_plain_unit c || (c =? 43).

(** Text of the script, a quoted value, or a bare word of plain units (a number, an
    account slot). *)
Inductive part := Lit (s : list Z) | Val (t : list Z) | Word (t : list Z).

Definition part_text (p : part) : list Z := match p with Lit s => s | Val t => quote_text t | Word t => t end.
Definition part_words (ps : list part) : list (list Z) := flat_map (fun p => match p with Word t => [t] | _ => [] end) ps.
Definition render (ps : list part) : list Z := flat_map part_text ps.
Definition part_values (ps : list part) : list (list Z) := flat_map (fun p => match p with Val t => [t] | _ => [] end) ps.

Definition is_plain (r : reader) : bool := match r_mode r with Plain => true | _ => false end.

(** The reading of the parts; [None] when a value would not stand unquoted, a word
    not plain, or the end is inside a quotation. *)
Fixpoint shape_of (r : reader) (ps : list part) : option (list slot) :=
  match ps with
  | [] => if unquoted r then Some [] else None
  | Lit s :: ps => let '(ts, r) := read_units r s in sh ← shape_of r ps; Some (map Fixed ts ++ sh)
  | Val _ :: ps => if unquoted r then sh ← shape_of r ps; Some (Hole :: sh) else None
  | Word t :: ps => if is_plain r then sh ← shape_of r ps; Some (map Fixed (map Syntax t) ++ sh) else None
  end.

(** ** Reading *)

Lemma read_units_app r s t :
  read_units r (s ++ t) = ((read_units r s).1 ++ (read_units (read_units r s).2 t).1, (read_units (read_units r s).2 t).2).
Proof.
  revert r. induction s as [|c s IH]; intros r; cbn [app read_units fst snd]; [by destruct (read_units r t)|].
  destruct (read_step r c) as [t1 r1]. rewrite IH. destruct (read_units r1 s) as [t2 r2]; cbn [fst snd].
  by rewrite app_assoc.
Qed.

Lemma read_quoted stack t :
  read_units (Reader stack Single) (flat_map (fun c => if c =? 39 then [39; 92; 39; 39] else [c]) t ++ [39])
  = (map Data t, Reader stack Plain) \/ in_double stack = true.
Proof.
  destruct (in_double stack) eqn:Hd; [by right|left]. induction t as [|c t IH]; [done|]. cbn [flat_map map].
  destruct (Z.eqb_spec c 39) as [->|Hc]; rewrite <- app_assoc.
  - assert (E : forall s, read_units (Reader stack Single) ([39; 92; 39; 39] ++ s)
                 = (Data 39 :: (read_units (Reader stack Single) s).1, (read_units (Reader stack Single) s).2)).
    { intros s. cbn. rewrite Hd. by destruct (read_units (Reader stack Single) s). }
    by rewrite E, IH.
  - cbn [app read_units read_step]. rewrite (proj2 (Z.eqb_neq c 39) Hc). by rewrite IH.
Qed.

(** A quoted value is data and leaves the reader where it was. *)
Lemma read_value r t : unquoted r = true -> read_units r (quote_text t) = (map Data t, r).
Proof.
  destruct r as [stack []]; cbn [unquoted]; [|done..]. rewrite negb_true_iff. intros Hd.
  unfold quote_text. cbn. rewrite Hd. cbn. destruct (read_quoted stack t) as [->|]; congruence.
Qed.

Lemma read_word r t : is_plain r = true -> Forall (fun c => word_unit c = true) t -> read_units r t = (map Syntax t, r).
Proof.
  destruct r as [stack []]; [|done..]. intros _. induction 1 as [|c t Hc _ IH]; [done|]. cbn [read_units read_step map].
  assert (c <> 92 /\ c <> 36 /\ c <> 34 /\ c <> 39 /\ c <> 40 /\ c <> 41 /\ c <> 125) as (H1 & H2 & H3 & H4 & H5 & H6 & H7)
    by (unfold word_unit, is_plain_unit, is_alnum, is_alpha, is_lower, is_upper, is_digit, in_range in Hc; lia).
  unfold plain_tok, plain_step. rewrite !(proj2 (Z.eqb_neq _ _)) by done. cbn [andb]. destruct (in_double stack); by rewrite IH.
Qed.

Lemma plug_fixed ts shape values : plug (map Fixed ts ++ shape) values = ts ++ plug shape values.
Proof. induction ts as [|t ts IH]; cbn; [done|by rewrite IH]. Qed.

Lemma holes_fixed ts shape : holes (map Fixed ts ++ shape) = holes shape.
Proof. unfold holes. induction ts as [|t ts IH]; cbn; [done|exact IH]. Qed.

Lemma read_parts ps r shape : Forall (Forall (fun c => word_unit c = true)) (part_words ps) -> shape_of r ps = Some shape ->
  (read_units r (render ps)).1 = plug shape (part_values ps) /\ unquoted (read_units r (render ps)).2 = true
  /\ holes shape = length (part_values ps).
Proof.
  revert r shape. induction ps as [|[s|t|t] ps IH]; intros r shape Hw; cbn [shape_of].
  - destruct (unquoted r) eqn:E; [|done]. intros [= <-]. done.
  - unfold render. cbn [flat_map part_text]. fold (render ps). rewrite read_units_app.
    destruct (read_units r s) as [ts r1]; cbn [fst snd]. destruct (shape_of r1 ps) as [sh|] eqn:E; [|done].
    intros [= <-]. apply (IH _ _ Hw) in E as (E1 & E2 & E3). change (part_values (Lit s :: ps)) with (part_values ps).
    by rewrite plug_fixed, holes_fixed, E1.
  - destruct (unquoted r) eqn:Hu; [|done]. unfold render. cbn [flat_map part_text]. fold (render ps).
    rewrite read_units_app, (read_value r t Hu); cbn [fst snd]. destruct (shape_of r ps) as [sh|] eqn:E; [|done].
    intros [= <-]. apply (IH _ _ Hw) in E as (E1 & E2 & E3). change (part_values (Val t :: ps)) with (t :: part_values ps).
    cbn [plug length]. rewrite E1. split_and!; [done..|]. unfold holes in *. cbn. by rewrite E3.
  - apply Forall_cons in Hw as [Hp Hw]. destruct (is_plain r) eqn:Hr; [|done]. unfold render. cbn [flat_map part_text]. fold (render ps).
    rewrite read_units_app, (read_word r t Hr Hp); cbn [fst snd]. destruct (shape_of r ps) as [sh|] eqn:E; [|done].
    intros [= <-]. apply (IH _ _ Hw) in E as (E1 & E2 & E3). change (part_values (Word t :: ps)) with (part_values ps).
    by rewrite plug_fixed, holes_fixed, E1.
Qed.

(** A script given as parts whose shape does not depend on the values. *)
Lemma parts_injection_free {A} (ok : A -> Prop) (script : A -> list Z) (values : A -> list (list Z)) (ps : A -> list part) shape :
  (forall a, ok a -> script a = render (ps a)) -> (forall a, Forall (Forall (fun c => word_unit c = true)) (part_words (ps a))) -> (forall a, values a = part_values (ps a)) ->
  (forall a, shape_of at_start (ps a) = Some shape) ->
  injection_free ok script values.
Proof.
  intros Hs Hw Hv Hp. exists shape. intros a Ha. rewrite Hs, Hv by done. destruct (read_parts _ _ _ (Hw a) (Hp a)) as (E1 & E2 & E3).
  split; [done|]. unfold shell_read. destruct (read_units at_start (render (ps a))) as [ts r]; cbn [fst snd] in *.
  by rewrite E2, E1.
Qed.

(** ** Finding the parts of a script *)

Class Renders (s : list Z) (ps : list part) := renders : s = render ps.

#[export] Hint Opaque sh js app num_text quote_text shellQuote cappedScript keyringAttributes : typeclass_instances.

Lemma render_app ps qs : render (ps ++ qs) = render ps ++ render qs.
Proof. apply flat_map_app. Qed.

(** Text known to be a bare word. *)
Class WordText (t : list Z) := word_text : Forall (fun c => word_unit c = true) t.

#[export] Instance renders_word t : WordText t -> Renders t [Word t] | 50.
Proof. intros _. unfold Renders, render. cbn. by rewrite app_nil_r. Qed.
#[export] Instance renders_app s t ps qs : Renders s ps -> Renders t qs -> Renders (s ++ t) (ps ++ qs).
Proof. unfold Renders. intros -> ->. by rewrite render_app. Qed.
#[export] Instance renders_value v : Renders (shellQuote v) [Val (text v)] | 1.
Proof. unfold Renders, render, shellQuote. cbn. by rewrite app_nil_r. Qed.
#[export] Instance renders_string s : Renders (shellQuote (JStr s)) [Val s] | 0.
Proof. unfold Renders, render, shellQuote. cbn [flat_map part_text]. by rewrite text_JStr, app_nil_r. Qed.
#[export] Instance renders_text s : Renders s [Lit s] | 100.
Proof. unfold Renders, render. cbn. by rewrite app_nil_r. Qed.
#[export] Instance renders_capped s ps n : Renders s ps ->
  Renders (cappedScript s n) (Lit (match n with Some n => if n =? 0 then [] else js "exec 2> >(head -c " ++ num_text n ++ js " >&2); " | None => [] end
                                   ++ js "set -o pipefail; ") :: ps ++ [Lit (drop (length (js "set -o pipefail; ")) (cappedScript [] None))]).
Proof.
  unfold Renders. intros ->. unfold render at 2. cbn [flat_map part_text]. rewrite flat_map_app. cbn [flat_map part_text].
  rewrite app_nil_r. fold (render ps). unfold cappedScript. rewrite <- !app_assoc. reflexivity.
Qed.
#[export] Instance renders_keyring account ps : Renders (shellQuote account) ps ->
  Renders (keyringAttributes account) (Lit (js " service ") :: Val KEYRING_SERVICE :: Lit (js " account ") :: ps).
Proof.
  unfold Renders, keyringAttributes. intros ->. unfold shellQuote. rewrite text_JStr. done.
Qed.

(** The script of a bash command. *)
Definition script_of (cmd : list (list Z)) : list Z := default [] (cmd !! 2%nat).

(** ** Bare words *)

Lemma digits_word s : Forall (fun c => is_digit c = true) s -> WordText s.
Proof.
  intros H. eapply Forall_impl; [exact H|]. intros c Hc. cbn beta in Hc. unfold word_unit, is_plain_unit, is_alnum.
  by rewrite Hc, !orb_true_r.
Qed.

Lemma word_app s t : WordText s -> WordText t -> WordText (s ++ t).
Proof. apply Forall_app_2. Qed.

Lemma word_literal s : forallb word_unit s = true -> WordText s.
Proof. apply forallb_Forall. Qed.

Lemma zeros_word n : WordText (replicate n 48).
Proof. by apply Forall_replicate. Qed.

Lemma format_decimal_word ds n : WordText ds -> WordText (format_decimal ds n).
Proof.
  intros Hd. unfold format_decimal. repeat case_match; subst;
    repeat first [ apply word_app | apply zeros_word | apply digits_word, nat_to_str_digits | by apply word_literal
                 | by apply Forall_take | by apply Forall_drop | exact Hd ].
  all: apply Forall_cons in Hd as [Hc Hd]; apply (word_app [_]); [by constructor|].
  all: repeat first [ apply word_app | apply digits_word, nat_to_str_digits | by apply word_literal | exact Hd ].
Qed.

Lemma Z_to_str_word z : WordText (Z_to_str z).
Proof. unfold Z_to_str. case_match; [apply (word_app [45])|]; try by apply word_literal. all: apply digits_word, nat_to_str_digits. Qed.

(** A printed number is a word. *)
#[export] Instance number_word a : WordText (num_to_string a).
Proof.
  assert (P : forall q, WordText (pos_to_string q)).
  { intros q. unfold pos_to_string. case_match. apply format_decimal_word, digits_word, nat_to_str_digits. }
  destruct a as [|[]|]; cbn [num_to_string]; try by apply word_literal.
  repeat case_match; [apply Z_to_str_word|apply (word_app [45]); [by apply word_literal|apply P]|apply P].
Qed.
