(* ===== verification/Auth.v ===== *)
(** * Signing in ([BitwardenModel.js])

    Session keys in bw's output, the remembered two-step methods, what bw's
    replies to a login mean, the servers a master password may be sent to, the
    windows in which a handed-over session is accepted, PINs, and the URLs an item
    may open. *)

From Stdlib Require Import QArith_base Qround.
From S2P Require Import Prelude.
From S2P Require Import JsNum.
From S2P Require Import JsString.
From S2P Require Import JsUnicode.
From S2P Require Import JsValue.
From S2P Require Import Json.
From S2P Require Import Accounts.
From S2P Require Import Shell.
Local Open Scope Z_scope.

(** ** Session keys *)

(** [A-Za-z0-9+/=_-] *)
Definition is_token_unit (c : Z) : bool :=
  is_alnum c || (c =? 43) || (c =? 47) || (c =? 61) || (c =? 95) || (c =? 45).

Definition is_token (s : list Z) : bool := (32 <=? length s)%nat && forallb is_token_unit s.

Definition isSessionToken (value : jsval) : bool := is_token (trim (text value)).

(** The pattern BW_SESSION, equals sign, an optional double quote, and a run of
    units other than double quote and line breaks, at the start of [s]: the run. *)
Definition session_group_at (s : list Z) : option (list Z) :=
  let name := js "BW_SESSION=" in
  if starts_with name s then
    let r := drop (length name) s in
    let r := match strip_unit 34 r with Some r' => r' | None => r end in
    match (span (fun c => negb ((c =? 34) || (c =? 10) || (c =? 13))) r).1 with
    | [] => None
    | g => Some g
    end
  else None.

(** The leftmost match. *)
Fixpoint session_group (s : list Z) : option (list Z) :=
  match session_group_at s with
  | Some g => Some g
  | None => match s with [] => None | _ :: s => session_group s end
  end.

Definition extractSessionToken (raw : jsval) : list Z :=
  let s := trim (text raw) in
  let from_lines := default [] (List.find is_token (map trim (split_on (fun c => c =? 10) s))) in
  match session_group s with
  | Some g => if isSessionToken (JStr g) then trim g else from_lines
  | None => from_lines
  end.

(** ** Vault generation *)

Definition vaultReadIsStale (startedEpoch currentEpoch hasSession : jsval) : bool :=
  if negb (truthy hasSession) then true
  else negb (num_eqb (to_number startedEpoch) (to_number currentEpoch)).

(** ** Two-step methods *)

Record two_factor := TwoFactor { tf_method : Z; tf_label : list Z; tf_hint : list Z }.

Definition TWO_FACTOR_METHODS : list two_factor :=
  [TwoFactor 0 (js "Authenticator app") (js "The rotating 6-digit code from your authenticator.");
   TwoFactor 3 (js "YubiKey OTP") (js "Touch the key to type its one-time password.");
   TwoFactor 1 (js "Email") (js "Bitwarden sends a code to your login address when you choose this.")].

Definition twoFactorMethods : list two_factor := TWO_FACTOR_METHODS.

Definition isTwoFactorMethod (method : jsval) : bool :=
  existsb (fun e => strict_eqb (JNum (NZ (tf_method e))) method) TWO_FACTOR_METHODS.

Definition twoFactorMethodLabel (method : jsval) : list Z :=
  match List.find (fun e => strict_eqb (JNum (NZ (tf_method e))) method) TWO_FACTOR_METHODS with
  | Some e => tf_label e
  | None => []
  end.

Definition MAX_REMEMBERED_ACCOUNTS : Z := 10.

(** [for (var k in v)] on an object or an array. *)
Definition for_in_keys (v : jsval) : list (list Z) :=
  match v with
  | JObj kvs => (entries kvs).*1
  | JArr l => map (fun i => nat_to_str (Z.of_nat i)) (seq 0 (length l))
  | _ => []
  end.

(** [o[k] = n] with a number: assigning one to [__proto__] does nothing. *)
Definition put_number (kvs : list (list Z * jsval)) (k : list Z) (n : num) : list (list Z * jsval) :=
  if str_eqb k (js "__proto__") then kvs else obj_set kvs k (JNum n).

Section two_factor_store.
  Context `{!CaseTables}.

Definition twoFactorAccountKey (email : jsval) : list Z := to_lower (trim (text email)).

(** A number or a non-blank string, floored; anything else is NaN. *)
Definition setting_number (raw : jsval) : num :=
  match raw with
  | JNum n => num_floor n
  | JStr s => if bool_decide (trim s = []) then NaN else num_floor (string_to_num s)
  | _ => NaN
  end.

Definition rememberedTwoFactorMethodFor (store email : jsval) : num :=
  let key := twoFactorAccountKey email in
  if bool_decide (key = []) || negb (is_object store) then NZ (-1)
  else
    let m := setting_number (get store key) in
    if num_is_finite m && isTwoFactorMethod (JNum m) then m else NZ (-1).

(** One entry of the old store: kept, skipped, or over the cap. *)
Definition remember_step (store : jsval) (key : list Z) (acc : list (list Z * jsval) * Z) (k : list Z)
  : list (list Z * jsval) * Z :=
  let '(next, kept) := acc in
  let other := twoFactorAccountKey (JStr k) in
  if bool_decide (other = []) || str_eqb other key then acc
  else
    let existing := rememberedTwoFactorMethodFor store (JStr k) in
    if num_ltb existing (NZ 0) then acc
    else if MAX_REMEMBERED_ACCOUNTS - 1 <=? kept then acc
    else (put_number next other existing, kept + 1).

(** [None] is [null]. *)
Definition rememberTwoFactorMethodIn (store email method : jsval) : option (list (list Z * jsval)) :=
  let key := twoFactorAccountKey email in
  match method with
  | JNum m =>
      if bool_decide (key = []) || negb (isTwoFactorMethod method) then None
      else
        let '(next, _) :=
          if is_object store then fold_left (remember_step store key) (for_in_keys store) ([], 0) else ([], 0) in
        Some (put_number next key m)
  | _ => None
  end.

Definition forget_step (store : jsval) (key : list Z) (next : list (list Z * jsval)) (k : list Z) : list (list Z * jsval) :=
  let other := twoFactorAccountKey (JStr k) in
  if bool_decide (other = []) || str_eqb other key then next
  else
    let existing := rememberedTwoFactorMethodFor store (JStr k) in
    if num_leb (NZ 0) existing then put_number next other existing else next.

Definition forgetTwoFactorMethodIn (store email : jsval) : option (list (list Z * jsval)) :=
  let key := twoFactorAccountKey email in
  if bool_decide (key = []) || negb (is_object store) then None
  else Some (fold_left (forget_step store key) (for_in_keys store) []).

(** ** bw's replies to a login *)

Definition combinedOutput (stdoutText stderrText : jsval) : list Z :=
  to_lower (text stderrText ++ [10] ++ text stdoutText).

(** Some suffix of [s] matches. *)
Fixpoint search (p : list Z -> bool) (s : list Z) : bool :=
  p s || match s with [] => false | _ :: s => search p s end.

Definition loginPromptRanOutOfInput (stdoutText stderrText : jsval) : bool :=
  let out := combinedOutput stdoutText stderrText in
  contains (js "err_use_after_close") out || contains (js "readline was closed") out.

(** [w1\s+w2...]: the words in order, white space between, and what follows. *)
Fixpoint words_at (ws : list (list Z)) (s : list Z) : option (list Z) :=
  match ws with
  | [] => Some s
  | [w] => if starts_with w s then Some (drop (length w) s) else None
  | w :: ws =>
      if starts_with w s then
        match span is_space (drop (length w) s) with
        | (_ :: _, r) => words_at ws r
        | ([], _) => None
        end
      else None
  end.

Definition is_newline (c : Z) : bool := (c =? 10) || (c =? 13).

(** [\s*code\s+is\s+required[.!]?\s*(?=$|[\r\n])] at the start of [s] *)
Definition code_required_at (s : list Z) : bool :=
  match words_at [js "code"; js "is"; js "required"] (drop_while is_space s) with
  | Some r =>
      let r := match r with c :: r' => if (c =? 46) || (c =? 33) then r' else r | [] => r end in
      let '(ws, rest) := span is_space r in
      bool_decide (rest = []) || existsb is_newline ws
  | None => false
  end.

Definition loginCodeIsRequiredChallenge (stdoutText stderrText : jsval) : bool :=
  let out := combinedOutput stdoutText stderrText in
  code_required_at out
  || search (fun s => match s with c :: r => is_newline c && code_required_at r | [] => false end) out.

Definition optional_sep (s : list Z) : list Z :=
  match s with c :: r => if (c =? 32) || (c =? 95) || (c =? 45) then r else s | [] => s end.

Definition second_factor_at (s : list Z) : bool :=
  (starts_with (js "two") s &&
     let r := optional_sep (drop 3 s) in starts_with (js "step") r || starts_with (js "factor") r)
  || starts_with (js "2fa") s
  || (starts_with (js "verification") s && starts_with (js "code") (optional_sep (drop 12 s))).

Definition loginNeedsSecondFactor (stdoutText stderrText : jsval) : bool :=
  search second_factor_at (combinedOutput stdoutText stderrText)
  || loginCodeIsRequiredChallenge stdoutText stderrText.

Definition loginNeedsDeviceVerification (stdoutText stderrText codeWasSent : jsval) : bool :=
  if negb (truthy codeWasSent) then false else loginCodeIsRequiredChallenge stdoutText stderrText.

Definition TWOFACTOR_CODE_FLAG : list Z := js "--qsbw-code-from-env".

Definition loginCodeChannelMissing (stdoutText stderrText : jsval) : bool :=
  contains (js "unknown option '" ++ TWOFACTOR_CODE_FLAG ++ js "'") (combinedOutput stdoutText stderrText).

Definition loginNeedsMethodChoice (stdoutText stderrText : jsval) : bool :=
  search (fun s => bool_decide (is_Some (words_at [js "no"; js "provider"; js "selected"] s)))
    (combinedOutput stdoutText stderrText).

Definition loginHasNoUsableProvider (stdoutText stderrText : jsval) : bool :=
  search (fun s => bool_decide (is_Some (words_at [js "no"; js "providers"; js "available"; js "for"; js "this"; js "client"] s)))
    (combinedOutput stdoutText stderrText).

(** ** Servers *)

Definition loginServerUrlFor (region customUrl : jsval) : list Z :=
  let choice := to_lower (text region) in
  if str_eqb choice (js "eu") then BITWARDEN_EU_SERVER
  else if str_eqb choice (js "custom") then trim (text customUrl)
  else BITWARDEN_US_SERVER.

End two_factor_store.

(** A URL scheme, letter first, and the rest after it. *)
Definition scheme_of (s : list Z) : option (list Z * list Z) :=
  match s with
  | c :: r =>
      if is_alpha c
      then let '(a, b) := span (fun c => is_alnum c || (c =? 43) || (c =? 46) || (c =? 45)) r in Some (c :: a, b)
      else None
  | [] => None
  end.

(** One to three digits, then the rest. *)
Definition dotted_octet (s : list Z) : option (list Z) :=
  match strip_unit 46 s with
  | Some r => let '(ds, r) := span is_digit r in
              if (1 <=? length ds)%nat && (length ds <=? 3)%nat then Some r else None
  | None => None
  end.

Definition three_octets (s : list Z) : option (list Z) :=
  a ← dotted_octet s; b ← dotted_octet a; dotted_octet b.

(** [LOOPBACK_HOST_RE] *)
Definition is_loopback (host : list Z) : bool :=
  let low := map ascii_lower host in
  str_eqb low (js "localhost") || str_eqb low (js "[::1]") || str_eqb low (js "::1")
  || (starts_with (js "127") host &&
      match three_octets (drop 3 host) with Some [] => true | _ => false end).

(** [host.replace(/:\d*$/, "")] *)
Definition strip_port (host : list Z) : list Z :=
  match (span is_digit (rev host)).2 with
  | c :: r => if c =? 58 then rev r else host
  | [] => host
  end.

(** The host of what follows the scheme: up to the first slash, question mark or
    hash, after any user information, without the port. *)
Definition url_host (rest : list Z) : list Z :=
  let host := (span (fun c => negb ((c =? 47) || (c =? 63) || (c =? 35))) rest).1 in
  let host := match last_index_of 64 host with Some i => drop (i + 1) host | None => host end in
  strip_port host.

(** The empty string accepts. *)
Definition validateServerUrl (raw : jsval) : list Z :=
  let url := trim (text raw) in
  if bool_decide (url = []) then []
  else if contains [92] url then js "Server URL must not contain backslashes"
  else
    match scheme_of url with
    | Some (scheme, r) =>
        if starts_with (js "://") r then
          let scheme := map ascii_lower scheme in
          if negb (str_eqb scheme (js "http")) && negb (str_eqb scheme (js "https"))
          then js "Server URL must be http or https, not " ++ scheme ++ js ":"
          else
            let host := url_host (drop 3 r) in
            if bool_decide (host = []) then js "Server URL is missing a host name"
            else if str_eqb scheme (js "http") && negb (is_loopback host)
            then js "Refusing to send your master password over plain http to " ++ host
                 ++ js ". Use https:// (http is allowed only for localhost)."
            else []
        else js "Server URL must start with https:// (or http:// for localhost)"
    | None => js "Server URL must start with https:// (or http:// for localhost)"
    end.

Definition serverConfigPrefix (serverUrl : jsval) : list Z :=
  let url := trim (text serverUrl) in
  if bool_decide (url = []) then []
  else js "bw config server " ++ shellQuote (JStr url) ++ js " >/dev/null 2>&1 && ".

(** ** Interactive output *)

(** [.replace(/\x1b\[[0-9;?]*[A-Za-z]/g, "")] *)
Fixpoint strip_csi (fuel : nat) (s : list Z) : list Z :=
  match fuel, s with
  | S fuel, c :: r =>
      if c =? 27 then
        match strip_unit 91 r with
        | Some r' =>
            match (span (fun c => is_digit c || (c =? 59) || (c =? 63)) r').2 with
            | x :: rest => if is_alpha x then strip_csi fuel rest else c :: strip_csi fuel r
            | [] => c :: strip_csi fuel r
            end
        | None => c :: strip_csi fuel r
        end
      else c :: strip_csi fuel r
  | _, _ => []
  end.

(** The two-unit escapes: ESC and one of [@-Z], backslash to underscore. *)
Fixpoint strip_esc (s : list Z) : list Z :=
  match s with
  | c :: r =>
      match r with
      | x :: rest => if (c =? 27) && (in_range 64 90 x || in_range 92 95 x) then strip_esc rest else c :: strip_esc r
      | [] => [c]
      end
  | [] => []
  end.

(** The lines kept: not blank, not a prompt, not holding the code. *)
Definition keep_line (code line : list Z) : bool :=
  negb (bool_decide (line = [])) && negb (starts_with (js "?") line)
  && negb (negb (bool_decide (code = [])) && contains code line).

Definition sanitizeInteractiveStderr (raw secret : jsval) : list Z :=
  let t := text raw in
  let t := strip_csi (length t) t in
  let t := map (fun c => if c =? 13 then 10 else c) (strip_esc t) in
  let code := trim (text secret) in
  take 300 (join (js " ") (List.filter (keep_line code) (map trim (split_on (fun c => c =? 10) t)))).

Definition loginDiagnostic (stdoutText stderrText exitCode branch : jsval) : list Z :=
  js "exit=" ++ to_string exitCode
  ++ js " stdout=" ++ Z_to_str (Z.of_nat (length (text stdoutText))) ++ js "b"
  ++ js " branch=" ++ text_or branch (js "?")
  ++ js " stderr=" ++ stringify (JStr (take 200 (sanitizeInteractiveStderr stderrText (JStr [])))).

(** ** Windows on the wall clock *)

Definition HANDOFF_WINDOW_MS : Z := 10 * 60 * 1000.
Definition SECOND_FACTOR_WINDOW_MS : Z := 5 * 60 * 1000.

Definition windowOpen (startedAt now : jsval) (windowMs : Z) : bool :=
  let began := to_number startedAt in
  if negb (num_is_finite began) || num_leb began (NZ 0) then false
  else
    let elapsed := num_sub (to_number now) began in
    if negb (num_is_finite elapsed) || num_ltb elapsed (NZ 0) then false
    else num_leb elapsed (NZ windowMs).

Definition secondFactorWindowOpen (startedAt now : jsval) : bool := windowOpen startedAt now SECOND_FACTOR_WINDOW_MS.
Definition handoffWindowOpen (startedAt now : jsval) : bool := windowOpen startedAt now HANDOFF_WINDOW_MS.

Definition screenIsLocked (raw : jsval) : bool := str_eqb (trim (text raw)) (js "true").

(** ** PINs *)

Definition PIN_MIN_LENGTH : Z := 6.
Definition PIN_RECOMMENDED_LENGTH : Z := 8.
Definition PIN_UNLOCK_MIN_LENGTH : Z := 4.

(** The empty string accepts. *)
Definition validatePin (pin confirm : jsval) : list Z :=
  let p := text pin in
  if Z.of_nat (length p) <? PIN_MIN_LENGTH then js "PIN must be at least " ++ Z_to_str PIN_MIN_LENGTH ++ js " digits"
  else if negb (forallb is_digit p) then js "PIN must contain only digits"
  else if negb (is_undef confirm) && negb (str_eqb (text confirm) p) then js "PINs do not match"
  else [].

(** ** Opening an item's URI *)

Inductive openable := OpenUrl (url : list Z) | RefuseScheme (scheme : list Z) | RefuseAmbiguous.

Definition normalizeOpenableUrl (raw : jsval) : openable :=
  let target := trim (text raw) in
  if bool_decide (target = []) then RefuseScheme []
  else if contains [92] target then RefuseAmbiguous
  else if existsb (fun c => in_range 0 0x20 c || (c =? 0x7f)) target then RefuseAmbiguous
  else
    let low := map ascii_lower target in
    if starts_with (js "http://") low || starts_with (js "https://") low then OpenUrl target
    else
      match scheme_of target with
      | Some (scheme, c :: r) =>
          if (c =? 58) && negb (match r with d :: _ => is_digit d | [] => false end)
          then RefuseScheme (map ascii_lower scheme)
          else OpenUrl (js "https://" ++ target)
      | _ => OpenUrl (js "https://" ++ target)
      end.
