(* ===== verification/AuthCorrect.v ===== *)
(** * Correctness of the sign-in helpers *)

From Stdlib Require Import QArith_base Qround.
From S2P Require Import Prelude.
From S2P Require Import JsNum.
From S2P Require Import JsString.
From S2P Require Import JsUnicode.
From S2P Require Import JsValue.
From S2P Require Import Json.
From S2P Require Import Accounts.
From S2P Require Import Shell.
From S2P Require Import Auth.
Local Open Scope Z_scope.

(** ** Session keys *)

Lemma token_unit_not_space c : is_token_unit c = true -> is_space c = false.
Proof. unfold is_token_unit, is_alnum, is_alpha, is_lower, is_upper, is_digit, is_space, in_range. lia. Qed.

Lemma token_trim s : is_token s = true -> trim s = s.
Proof.
  unfold is_token. intros [_ Hs%forallb_Forall]%andb_true_iff. apply trim_id.
  - destruct Hs; [done|by apply token_unit_not_space].
  - destruct (last s) as [c|] eqn:E; [|done]. apply token_unit_not_space.
    apply last_Some in E as [l ->]. by apply Forall_app in Hs as [_ [? _]%Forall_cons].
Qed.

Lemma extract_is_token raw : extractSessionToken raw = [] \/ is_token (extractSessionToken raw) = true.
Proof.
  unfold extractSessionToken.
  assert (Hl : let r := default [] (List.find is_token (map trim (split_on (fun c => c =? 10) (trim (text raw))))) in
    r = [] \/ is_token r = true).
  { cbn zeta. destruct (List.find _ _) as [t|] eqn:E; [|by left]. right. by apply List.find_some in E as [_ ?]. }
  destruct (session_group _) as [g|]; [|done]. destruct (isSessionToken (JStr g)) eqn:E; [|done].
  right. unfold isSessionToken in E. by rewrite text_JStr in E.
Qed.

(** A session key contains no newline, equals sign sequence or quote that could
    be taken for bw's other output form unless it holds the variable's name. *)
Lemma split_on_none p s : Forall (fun c => p c = false) s -> split_on p s = [s].
Proof. induction 1 as [|c s Hc Hs IH]; cbn; [done|]. by rewrite Hc, IH. Qed.

Lemma token_no_newline s : is_token s = true -> Forall (fun c => (c =? 10) = false) s.
Proof.
  unfold is_token. intros [_ Hs%forallb_Forall]%andb_true_iff. eapply Forall_impl; [done|].
  intros c Hc. cbn in Hc. unfold is_token_unit, is_alnum, is_alpha, is_lower, is_upper, is_digit, in_range in Hc. lia.
Qed.

Lemma extract_raw tok : is_token tok = true -> session_group tok = None -> extractSessionToken (JStr tok) = tok.
Proof.
  intros Ht Hg. unfold extractSessionToken. rewrite text_JStr, token_trim, Hg by done.
  rewrite split_on_none by (by apply token_no_newline). cbn [map List.find default]. by rewrite token_trim, Ht.
Qed.

(** The line bw prints without [--raw]. *)
Definition export_line (tok : list Z) : list Z := js "$ export BW_SESSION=" ++ [34] ++ tok ++ [34].

Lemma export_line_ends tok : trim (export_line tok) = export_line tok.
Proof.
  apply trim_id; [done|]. unfold export_line. rewrite !app_assoc, last_snoc. done.
Qed.

Lemma session_group_export tok : is_token tok = true -> session_group (export_line tok) = Some tok.
Proof.
  intros Ht.
  assert (H : session_group_at (js "BW_SESSION=" ++ [34] ++ tok ++ [34]) = Some tok).
  { unfold session_group_at. rewrite drop_app_length.
    change (starts_with (js "BW_SESSION=") (js "BW_SESSION=" ++ [34] ++ tok ++ [34])) with true. cbv iota. cbn [app strip_unit].
    change (34 =? 34) with true. cbv iota. rewrite (span_all _ tok [34]); [|..|done].
    - cbn [fst]. unfold is_token in Ht. destruct tok; [done|done].
    - unfold is_token in Ht. apply andb_true_iff in Ht as [_ Ht%forallb_Forall]. eapply Forall_impl; [done|].
      intros c Hc. cbn in Hc |- *. unfold is_token_unit, is_alnum, is_alpha, is_lower, is_upper, is_digit, in_range in Hc. lia. }
  unfold export_line. change (js "$ export BW_SESSION=") with (js "$ export " ++ js "BW_SESSION="). rewrite <- app_assoc.
  revert H. generalize (js "BW_SESSION=" ++ [34] ++ tok ++ [34]). intros r H.
  assert (Hstep : forall c s, (c =? 66) = false -> session_group (c :: s) = session_group s).
  { intros c s Hc. cbn [session_group]. unfold session_group_at. change (starts_with (js "BW_SESSION=") (c :: s)) with ((66 =? c) && starts_with (js "W_SESSION=") s).
    by rewrite Z.eqb_sym, Hc. }
  cbn [js app]. rewrite !Hstep by reflexivity. destruct r; cbn [session_group]; by rewrite H.
Qed.

Lemma extract_export tok : is_token tok = true -> extractSessionToken (JStr (export_line tok)) = tok.
Proof.
  intros Ht. unfold extractSessionToken. rewrite text_JStr, export_line_ends, session_group_export by done.
  unfold isSessionToken. rewrite text_JStr, token_trim, Ht by done. done.
Qed.

(** ** Interactive output *)

Lemma sanitize_hides raw secret :
  let code := trim (text secret) in
  code <> [] -> 32 ∉ code -> contains code (sanitizeInteractiveStderr raw secret) = false.
Proof.
  cbn zeta. intros Hne Hsp. apply not_true_iff_false. intros H. unfold sanitizeInteractiveStderr in H.
  apply contains_take in H. apply contains_join in H; [|done|done].
  apply Exists_exists in H as (line & Hin & Hc). apply list_elem_of_In, filter_In in Hin as [_ Hk].
  unfold keep_line in Hk. rewrite Hc, (bool_decide_false (trim (text secret) = [])) in Hk by done.
  cbn [negb andb] in Hk. by rewrite andb_false_r in Hk.
Qed.

Lemma sanitize_length raw secret : (length (sanitizeInteractiveStderr raw secret) <= 300)%nat.
Proof. unfold sanitizeInteractiveStderr. rewrite length_take. lia. Qed.

(** ** Servers *)

Definition no_unit (p : Z -> bool) (s : list Z) : Prop := Forall (fun c => p c = false) s.
Definition ends_authority (c : Z) : bool := (c =? 47) || (c =? 63) || (c =? 35).

Lemma last_index_app c a b : last_index_of c b = None -> last_index_of c (a ++ c :: b) = Some (length a).
Proof.
  intros Hb. induction a as [|x a IH]; cbn.
  - by rewrite Hb, Z.eqb_refl.
  - by rewrite IH.
Qed.

Lemma last_index_none c s : no_unit (fun x => x =? c) s -> last_index_of c s = None.
Proof. induction 1 as [|x s Hx Hs IH]; cbn; [done|]. by rewrite IH, Hx. Qed.

Lemma strip_port_digits h ds : Forall (fun c => is_digit c = true) ds -> strip_port (h ++ 58 :: ds) = h.
Proof.
  intros Hd. unfold strip_port. rewrite rev_app_distr. cbn [rev]. rewrite <- app_assoc. cbn [app].
  rewrite span_all; [|by apply Forall_rev|done]. cbn [snd]. by rewrite rev_involutive.
Qed.

(** The host found in an authority with user information and a port. *)
Lemma url_host_exact user h ds path :
  no_unit ends_authority user -> no_unit ends_authority h -> no_unit (fun c => c =? 64) h ->
  Forall (fun c => is_digit c = true) ds -> match path with [] => True | c :: _ => ends_authority c = true end ->
  url_host (user ++ 64 :: h ++ 58 :: ds ++ path) = h.
Proof.
  intros Hu Hh Ha Hd Hp. unfold url_host.
  replace (user ++ 64 :: h ++ 58 :: ds ++ path) with ((user ++ 64 :: h ++ 58 :: ds) ++ path)
    by (rewrite <- app_assoc; cbn; do 2 f_equal; by rewrite <- app_assoc).
  rewrite span_all; cycle 1.
  - assert (Hn : forall c, ends_authority c = false -> negb ((c =? 47) || (c =? 63) || (c =? 35)) = true)
      by (intros c Hc; unfold ends_authority in Hc; by rewrite Hc).
    apply Forall_app_2; [exact (Forall_impl _ _ _ Hu Hn)|]. constructor; [done|].
    apply Forall_app_2; [exact (Forall_impl _ _ _ Hh Hn)|]. constructor; [done|].
    eapply Forall_impl; [done|]. cbn. intros c Hc. unfold is_digit, in_range in Hc. lia.
  - destruct path as [|c path]; [done|]. unfold ends_authority in Hp. by rewrite Hp.
  - cbn [fst]. rewrite last_index_app.
    + rewrite Nat.add_1_r. replace (drop (S (length user)) (user ++ 64 :: h ++ 58 :: ds)) with (h ++ 58 :: ds).
      * by apply strip_port_digits.
      * rewrite <- (Nat.add_1_r (length user)), <- drop_drop, drop_app_length. done.
    + apply last_index_none. apply Forall_app_2; [done|]. constructor; [done|].
      eapply Forall_impl; [done|]. cbn. intros c Hc. unfold is_digit, in_range in Hc. lia.
Qed.

(** Whatever is accepted and is not the default server is https, or http to a
    loopback host. *)
Lemma validate_sound raw :
  validateServerUrl raw = [] -> trim (text raw) <> [] ->
  contains [92] (trim (text raw)) = false /\
  exists scheme rest, scheme_of (trim (text raw)) = Some (scheme, js "://" ++ rest) /\ url_host rest <> [] /\
    (map ascii_lower scheme = js "https" \/ (map ascii_lower scheme = js "http" /\ is_loopback (url_host rest) = true)).
Proof.
  unfold validateServerUrl. intros H Hne. rewrite bool_decide_false in H by done.
  destruct (contains [92] _) eqn:Hb; [done|]. split; [done|].
  destruct (scheme_of _) as [[scheme r]|]; [|done]. destruct (starts_with (js "://") r) eqn:Er; [|done].
  apply starts_with_spec in Er as [rest ->]. exists scheme, rest. split; [done|].
  change (drop 3 (js "://" ++ rest)) with rest in H.
  destruct (negb (str_eqb (map ascii_lower scheme) (js "http")) && negb (str_eqb (map ascii_lower scheme) (js "https"))) eqn:Es; [done|].
  destruct (bool_decide (url_host rest = [])) eqn:Eh; [done|]. apply bool_decide_eq_false in Eh. split; [done|].
  destruct (str_eqb (map ascii_lower scheme) (js "http")) eqn:E1; cbn [andb negb] in H, Es.
  - right. apply str_eqb_eq in E1. split; [done|]. by destruct (is_loopback (url_host rest)).
  - left. by apply negb_false_iff, str_eqb_eq in Es.
Qed.

(** ** Two-step methods *)

Definition is_method (z : Z) : Prop := z = 0 \/ z = 1 \/ z = 3.

Lemma isTwoFactorMethod_NZ z : isTwoFactorMethod (JNum (NZ z)) = true <-> is_method z.
Proof.
  unfold isTwoFactorMethod, is_method, TWO_FACTOR_METHODS. cbn [existsb strict_eqb tf_method].
  autorewrite with js_num. rewrite !orb_true_iff, !Z.eqb_eq. split; [|lia]. intros [?|[?|[?|?]]]; [lia..|done].
Qed.

Lemma put_number_dom kvs k n k' : k' ∈ (put_number kvs k n).*1 -> k' = k \/ k' ∈ kvs.*1.
Proof. unfold put_number. case_match; [by right|apply obj_set_dom]. Qed.

Lemma obj_set_length kvs k v : (length (obj_set kvs k v) <= S (length kvs))%nat.
Proof. induction kvs as [|[k' v'] kvs IH]; cbn; [lia|]. destruct (str_eqb k' k); cbn; lia. Qed.

Lemma put_number_length kvs k n : (length (put_number kvs k n) <= S (length kvs))%nat.
Proof. unfold put_number. case_match; [lia|apply obj_set_length]. Qed.

(** Every value of a store is a method. *)
Definition methods_only (kvs : list (list Z * jsval)) : Prop :=
  Forall (fun kv => exists z, kv.2 = JNum (NZ z) /\ is_method z) kvs.

Lemma obj_set_Forall (P : jsval -> Prop) kvs k v :
  Forall (fun kv => P kv.2) kvs -> P v -> Forall (fun kv => P kv.2) (obj_set kvs k v).
Proof.
  intros Hk Hv. induction Hk as [|[k' v'] kvs Hk Hkvs IH]; cbn; [by repeat constructor|].
  destruct (str_eqb k' k); constructor; done.
Qed.

Lemma put_number_methods kvs k z : methods_only kvs -> is_method z -> methods_only (put_number kvs k (NZ z)).
Proof.
  intros Hk Hz. unfold put_number. case_match; [done|].
  apply (obj_set_Forall (fun v => exists z, v = JNum (NZ z) /\ is_method z)); eauto.
Qed.

Section store.
  Context `{!CaseTables}.

Lemma setting_number_whole v : num_is_finite (setting_number v) = true -> exists z, setting_number v = NZ z.
Proof.
  destruct v; cbn; try done.
  - destruct n; cbn; [done|done|eauto].
  - case_match; [done|]. destruct (string_to_num s); cbn; [done|done|eauto].
Qed.

Lemma remembered_cases store email :
  rememberedTwoFactorMethodFor store email = NZ (-1) \/
  exists z, rememberedTwoFactorMethodFor store email = NZ z /\ is_method z.
Proof.
  unfold rememberedTwoFactorMethodFor. case_match; [by left|].
  destruct (num_is_finite _) eqn:Ef; cbn [andb]; [|by left].
  destruct (setting_number_whole _ Ef) as [z Hz]. rewrite Hz.
  destruct (isTwoFactorMethod (JNum (NZ z))) eqn:E; [|by left]. right. exists z. by apply isTwoFactorMethod_NZ in E.
Qed.

Lemma remember_step_inv store key next kept k :
  methods_only next -> key ∉ next.*1 -> Z.of_nat (length next) <= kept <= 9 ->
  let '(next', kept') := remember_step store key (next, kept) k in
  methods_only next' /\ key ∉ next'.*1 /\ Z.of_nat (length next') <= kept' <= 9.
Proof.
  intros Hm Hk Hl. unfold remember_step. destruct (bool_decide _ || _) eqn:E; [done|].
  apply orb_false_iff in E as [_ E%str_eqb_neq].
  destruct (num_ltb _ _) eqn:Ee; [done|]. destruct (Z.leb_spec (MAX_REMEMBERED_ACCOUNTS - 1) kept); [done|].
  unfold MAX_REMEMBERED_ACCOUNTS in *. destruct (remembered_cases store (JStr k)) as [Hr|(z & Hr & Hz)]; rewrite Hr in Ee |- *; [done|].
  split_and!; [by apply put_number_methods| | |lia].
  - by intros [?|?]%put_number_dom.
  - pose proof (put_number_length next (twoFactorAccountKey (JStr k)) (NZ z)). lia.
Qed.

Lemma remember_fold_inv store key ks next kept :
  methods_only next -> key ∉ next.*1 -> Z.of_nat (length next) <= kept <= 9 ->
  let '(next', kept') := fold_left (remember_step store key) ks (next, kept) in
  methods_only next' /\ key ∉ next'.*1 /\ Z.of_nat (length next') <= kept' <= 9.
Proof.
  revert next kept. induction ks as [|k ks IH]; intros next kept Hm Hk Hl; cbn [fold_left]; [done|].
  pose proof (remember_step_inv store key next kept k Hm Hk Hl) as Hs.
  destruct (remember_step store key (next, kept) k) as [next' kept']. naive_solver.
Qed.

Lemma remembered_own kvs email z :
  twoFactorAccountKey email <> [] -> own (twoFactorAccountKey email) kvs = Some (JNum (NZ z)) -> is_method z ->
  rememberedTwoFactorMethodFor (JObj kvs) email = NZ z.
Proof.
  intros Hk Ho Hz. unfold rememberedTwoFactorMethodFor. rewrite bool_decide_false by done. cbn [orb is_object negb].
  cbn [get]. unfold obj_get. rewrite Ho. cbn [setting_number]. rewrite num_floor_NZ. cbn [num_is_finite NZ andb].
  fold (NZ z). by rewrite (proj2 (isTwoFactorMethod_NZ z) Hz).
Qed.

Lemma remember_spec store email z :
  twoFactorAccountKey email <> [] -> twoFactorAccountKey email <> js "__proto__" -> is_method z ->
  exists next, rememberTwoFactorMethodIn store email (JNum (NZ z)) = Some next
    /\ rememberedTwoFactorMethodFor (JObj next) email = NZ z
    /\ methods_only next /\ Z.of_nat (length next) <= MAX_REMEMBERED_ACCOUNTS.
Proof.
  intros Hk Hp Hz. unfold rememberTwoFactorMethodIn. rewrite bool_decide_false, (proj2 (isTwoFactorMethod_NZ z) Hz) by done.
  cbn [orb negb].
  assert (H0 : methods_only [] /\ twoFactorAccountKey email ∉ @nil (list Z) /\ Z.of_nat (length (@nil (list Z * jsval))) <= 0 <= 9)
    by (split_and!; [constructor|apply not_elem_of_nil|cbn; lia|lia]).
  destruct H0 as (Hm0 & Hk0 & Hl0).
  assert (Hfold : let '(next, kept) := (if is_object store then fold_left (remember_step store (twoFactorAccountKey email)) (for_in_keys store) ([], 0) else ([], 0)) in
    methods_only next /\ twoFactorAccountKey email ∉ next.*1 /\ Z.of_nat (length next) <= kept <= 9).
  { destruct (is_object store); [|done]. by apply remember_fold_inv. }
  destruct (if is_object store then _ else _) as [next kept]. destruct Hfold as (Hm & Hni & Hl).
  eexists. split; [reflexivity|]. split_and!.
  - apply remembered_own; [done| |done]. unfold put_number. rewrite (proj2 (str_eqb_neq _ _) Hp). apply own_set_eq.
  - by apply put_number_methods.
  - pose proof (put_number_length next (twoFactorAccountKey email) (NZ z)). unfold MAX_REMEMBERED_ACCOUNTS. lia.
Qed.

Lemma forget_fold store key ks next : key ∉ next.*1 -> key ∉ (fold_left (forget_step store key) ks next).*1.
Proof.
  revert next. induction ks as [|k ks IH]; intros next Hn; cbn [fold_left]; [done|]. apply IH.
  unfold forget_step. destruct (bool_decide _ || _) eqn:E; [done|]. apply orb_false_iff in E as [_ E%str_eqb_neq].
  case_match; [|done]. by intros [?|?]%put_number_dom.
Qed.

Lemma setting_number_proto k : setting_number (proto_get k) = NaN.
Proof. unfold proto_get. by repeat case_match. Qed.

Lemma forget_spec store email next :
  forgetTwoFactorMethodIn store email = Some next -> rememberedTwoFactorMethodFor (JObj next) email = NZ (-1).
Proof.
  unfold forgetTwoFactorMethodIn. case_match; [done|]. intros [= <-]. unfold rememberedTwoFactorMethodFor.
  case_match; [done|]. cbn [get]. unfold obj_get.
  rewrite (proj2 (own_None _ _)) by (apply forget_fold, not_elem_of_nil). by rewrite setting_number_proto.
Qed.
End store.

(** ** Windows *)

Lemma window_exact began now w : 0 <= began < 2 ^ 52 -> 0 <= now < 2 ^ 52 ->
  windowOpen (JNum (NZ began)) (JNum (NZ now)) w = (0 <? began) && (began <=? now) && (now <=? began + w).
Proof.
  intros Hb Hn. unfold windowOpen. cbn [to_number num_is_finite NZ negb orb]. fold (NZ began) (NZ now).
  rewrite num_sub_NZ, num_leb_NZ by lia. cbn [num_is_finite NZ negb orb]. fold (NZ (now - began)).
  rewrite num_ltb_NZ, num_leb_NZ. destruct (Z.leb_spec began 0); [lia|]. destruct (Z.ltb_spec (now - began) 0); lia.
Qed.

(** ** Properties *)

(** What is taken from bw's output as a session key is empty or has the shape
    of one (at least 32 units of its alphabet, so no space, quote or line break);
    a key printed alone, or in the export line, is found exactly. *)
Theorem session_key_extracted :
  (forall raw, extractSessionToken raw = [] \/ is_token (extractSessionToken raw) = true) /\
  (forall tok, is_token tok = true -> session_group tok = None -> extractSessionToken (JStr tok) = tok) /\
  (forall tok, is_token tok = true -> extractSessionToken (JStr (export_line tok)) = tok).
Proof. split_and!; [apply extract_is_token|apply extract_raw|apply extract_export]. Qed.

(** The text kept of an interactive login's stderr is at most 300 units and
    does not contain the device code, whatever bw echoed. *)
Theorem device_code_hidden raw secret :
  trim (text secret) <> [] -> 32 ∉ trim (text secret) ->
  contains (trim (text secret)) (sanitizeInteractiveStderr raw secret) = false /\
  (length (sanitizeInteractiveStderr raw secret) <= 300)%nat.
Proof. intros Hne Hsp. split; [by apply sanitize_hides|apply sanitize_length]. Qed.

Lemma device_code_hidden_witness :
  contains (js "123456") (sanitizeInteractiveStderr (JStr (js "? Code: 123456")) (JStr (js "123456 "))) = false.
Proof.
  refine (proj1 (device_code_hidden (JStr (js "? Code: 123456")) (JStr (js "123456 ")) _ _)); [discriminate|].
  apply (bool_decide_unpack (32 ∉ js "123456")). vm_compute. exact I.
Defined.

(** A server URL that passes names no backslash and is https, or http to a
    loopback host; and the host that is judged is the one a request goes to, also
    behind user information and a port: a remote host dressed with localhost in
    its user part, path or query is refused over http. *)
Theorem server_url_safe raw :
  (validateServerUrl raw = [] -> trim (text raw) <> [] ->
   contains [92] (trim (text raw)) = false /\
   exists scheme rest, scheme_of (trim (text raw)) = Some (scheme, js "://" ++ rest) /\ url_host rest <> [] /\
     (map ascii_lower scheme = js "https" \/ (map ascii_lower scheme = js "http" /\ is_loopback (url_host rest) = true))) /\
  (forall user h ds path,
     no_unit ends_authority user -> no_unit ends_authority h -> no_unit (fun c => c =? 64) h ->
     Forall (fun c => is_digit c = true) ds -> match path with [] => True | c :: _ => ends_authority c = true end ->
     url_host (user ++ 64 :: h ++ 58 :: ds ++ path) = h).
Proof. split; [apply validate_sound|apply url_host_exact]. Qed.

(** Remembering a two-step method for an account makes it the method found
    for that account, in a store of at most ten accounts that holds nothing but
    known methods; forgetting it leaves none. *)
Theorem two_factor_store {C : CaseTables} store email z :
  twoFactorAccountKey email <> [] -> twoFactorAccountKey email <> js "__proto__" -> is_method z ->
  (exists next, rememberTwoFactorMethodIn store email (JNum (NZ z)) = Some next
    /\ rememberedTwoFactorMethodFor (JObj next) email = NZ z
    /\ methods_only next /\ Z.of_nat (length next) <= MAX_REMEMBERED_ACCOUNTS) /\
  (forall next, forgetTwoFactorMethodIn store email = Some next ->
     rememberedTwoFactorMethodFor (JObj next) email = NZ (-1)).
Proof. intros Hk Hp Hz. split; [by apply remember_spec|intros next; apply forget_spec]. Qed.

Lemma two_factor_store_witness :
  exists next, rememberTwoFactorMethodIn JNull (JStr (js " Alice@Example.com ")) (JNum (NZ 3)) = Some next
    /\ rememberedTwoFactorMethodFor (JObj next) (JStr (js " Alice@Example.com ")) = NZ 3
    /\ methods_only next /\ Z.of_nat (length next) <= MAX_REMEMBERED_ACCOUNTS.
Proof.
  refine (proj1 (two_factor_store JNull (JStr (js " Alice@Example.com ")) 3 _ _ _));
    [vm_compute; congruence|vm_compute; congruence|right; right; reflexivity].
Defined.

(** An item's URI is opened only as http or https, with no control character,
    space or backslash in it. *)
Theorem openable_only_http raw url :
  normalizeOpenableUrl raw = OpenUrl url ->
  (starts_with (js "http://") (map ascii_lower url) = true \/ starts_with (js "https://") (map ascii_lower url) = true) /\
  contains [92] url = false /\ Forall (fun c => (in_range 0 0x20 c || (c =? 0x7f)) = false) url.
Proof.
  unfold normalizeOpenableUrl. set (t := trim (text raw)). intros H.
  destruct (bool_decide (t = [])); [done|]. destruct (contains [92] t) eqn:Hb; [done|].
  destruct (existsb _ t) eqn:Hc; [done|].
  assert (Ht : Forall (fun c => (in_range 0 0x20 c || (c =? 0x7f)) = false) t).
  { clear -Hc. induction t as [|c t IH]; [constructor|]. cbn in Hc. apply orb_false_iff in Hc as [? ?]. constructor; auto. }
  assert (Hs : contains [92] (js "https://" ++ t) = false).
  { apply not_true_iff_false. rewrite contains_spec. intros (a & b & E). apply not_true_iff_false in Hb. apply Hb, contains_spec.
    assert (Hin : 92 ∈ js "https://" ++ t) by (rewrite E; set_solver).
    apply elem_of_app in Hin as [Hin|Hin]; [exfalso; apply (bool_decide_unpack (92 ∉ js "https://")) in Hin; [done|vm_compute; exact I]|].
    apply list_elem_of_split in Hin as (x & y & ->). by exists x, y. }
  assert (Hf : Forall (fun c => (in_range 0 0x20 c || (c =? 0x7f)) = false) (js "https://" ++ t))
    by (apply Forall_app_2; [by repeat constructor|done]).
  destruct (starts_with (js "http://") (map ascii_lower t) || starts_with (js "https://") (map ascii_lower t)) eqn:Eh.
  - injection H as <-. split; [by apply orb_true_iff|done].
  - assert (url = js "https://" ++ t) as -> by (repeat case_match; congruence). split; [by right|done].
Qed.

Lemma openable_only_http_witness :
  starts_with (js "http://") (js "https://example.com:8080/x") = true \/ starts_with (js "https://") (js "https://example.com:8080/x") = true.
Proof.
  exact (proj1 (openable_only_http (JStr (js " example.com:8080/x")) (js "https://example.com:8080/x") eq_refl)).
Defined.
