(* ===== verification/Settings.v ===== *)
(** * Settings, auto-lock and the vault host ([BitwardenModel.js])

    The settings live in a file nothing validates, so every read goes through the
    schema.  The schema's descriptions are display text and are left out. *)

From Stdlib Require Import QArith_base Qround.
From S2P Require Import Prelude.
From S2P Require Import JsNum.
From S2P Require Import JsString.
From S2P Require Import JsUnicode.
From S2P Require Import JsValue.
From S2P Require Import SshAgent.
From S2P Require Import Auth.
Local Open Scope Z_scope.

(** ** Schema *)

Inductive setting_type :=
| IntSetting (min max step default : Z) (unit zeroLabel : list Z)
| BoolSetting (default : bool).

Inductive setting_group := general | security | sshAgent.

#[export] Instance setting_group_eq_dec : EqDecision setting_group.
Proof. solve_decision. Defined.

(** [shownWhen] reads other settings through [value]. *)
Record setting := Setting {
  s_key : list Z;
  s_group : setting_group;
  s_type : setting_type;
  s_label : list Z;
  s_shownWhen : option ((list Z -> jsval) -> bool)
}.

Definition SETTINGS_GROUPS : list (setting_group * list Z) :=
  [(general, js "General"); (security, js "Security"); (sshAgent, js "SSH Agent")].

Definition int_setting (key : string) (group : setting_group) (label unit : string) (min max step : Z) (zero : string)
    (default : Z) : setting :=
  Setting (js key) group (IntSetting min max step default (js unit) (js zero)) (js label) None.
Definition bool_setting (key : string) (group : setting_group) (label : string) (default : bool) : setting :=
  Setting (js key) group (BoolSetting default) (js label) None.

Definition SETTINGS_SCHEMA : list setting :=
  [int_setting "autoLockMinutes" security "Lock the vault after" "minutes" 0 1440 5 "Never" 15;
   int_setting "clearClipboardSec" security "Clear clipboard after" "seconds" 0 300 5 "Never" 30;
   bool_setting "lockOnScreenLock" security "Lock when the screen locks" true;
   bool_setting "lockOnSuspend" security "Lock when the machine suspends" true;
   bool_setting "rememberSession" security "Remember session in keyring" true;
   bool_setting "fingerprintUnlock" security "Unlock with fingerprint" false;
   bool_setting "fidoUnlock" security "Unlock with FIDO2 key" false;
   bool_setting "pinUnlock" security "Unlock with PIN" false;
   bool_setting "usePinentry" security "Type secrets in pinentry" true;
   bool_setting "sshAgentEnabled" sshAgent "Act as your SSH agent" false;
   bool_setting "sshAgentUnlockOnDemand" sshAgent "Unlock on demand" false;
   bool_setting "sshAgentApprovalPopup" sshAgent "Use centered approval popup" true;
   bool_setting "sshAgentApprovalUntilScreenLock" sshAgent "Approve until the screen locks" false;
   Setting (js "sshAgentApprovalWindowSec") sshAgent
     (IntSetting 0 SSH_AGENT_APPROVAL_WINDOW_MAX_SEC 30 120 (js "seconds") (js "Always ask"))
     (js "Approve for this long")
     (Some (fun value => truthy (value (js "sshAgentEnabled")) && negb (truthy (value (js "sshAgentApprovalUntilScreenLock")))));
   bool_setting "closeOnCopy" general "Close panel on copy" true;
   bool_setting "colorizeIcon" general "Colorize menu-bar icon" false;
   int_setting "autoCopyTotpSec" general "Auto-copy TOTP after" "seconds" 0 30 1 "Off" 3;
   bool_setting "suggestOnOpen" general "Suggest for active window" true].

(** ** Rows of the settings screen *)

Definition groupLabelFor (g : setting_group) : list Z :=
  match List.find (fun p => bool_decide (p.1 = g)) SETTINGS_GROUPS with Some p => p.2 | None => [] end.

(** Entries in group order; the first of each carries the group's label. *)
Definition groupedSettings : list (setting * list Z) :=
  flat_map (fun g =>
    match List.filter (fun s => bool_decide (s_group s = g.1)) SETTINGS_SCHEMA with
    | [] => []
    | s :: rest => (s, g.2) :: map (fun s => (s, [])) rest
    end) SETTINGS_GROUPS.

Inductive settings_row :=
| GroupRow (group : setting_group) (label : list Z)
| SettingRow (entry : setting) (lastInGroup : bool).

(** The loop that puts a heading before each group's first row; [seen] holds the
    groups already headed. *)
Fixpoint heading_rows (rows : list setting) (seen : list setting_group) : list settings_row :=
  match rows with
  | [] => []
  | entry :: rest =>
      let g := s_group entry in
      let heading := if bool_decide (g ∈ seen) then [] else [GroupRow g (groupLabelFor g)] in
      let is_last := match rest with [] => true | next :: _ => negb (bool_decide (s_group next = g)) end in
      heading ++ SettingRow entry is_last :: heading_rows rest (if bool_decide (g ∈ seen) then seen else g :: seen)
  end.

(** [showSsh] is [sshUiAvailable(deps, checked)]; [value] absent is [None]. *)
Definition visibleSettings (showSsh : bool) (value : option (list Z -> jsval)) : list settings_row :=
  heading_rows
    (List.filter (fun s =>
       if negb showSsh && bool_decide (s_group s = sshAgent) then false
       else match s_shownWhen s, value with
            | Some shown, Some v => shown v
            | _, _ => true
            end) (map fst groupedSettings)) [].

(** ** Reading values *)

Definition settingSchemaEntry (key : list Z) : option setting :=
  List.find (fun s => str_eqb (s_key s) key) SETTINGS_SCHEMA.

Definition intSetting (key : list Z) (raw : jsval) : num :=
  let n := setting_number raw in
  match settingSchemaEntry key with
  | Some {| s_type := IntSetting min max _ default _ _ |} =>
      let n := if negb (num_is_finite n) || num_ltb n (NZ min) then NZ default else n in
      num_max (NZ min) (num_min (NZ max) n)
  | _ => if num_is_finite n then n else NZ 0
  end.

Definition boolSetting (key : list Z) (raw : jsval) : bool :=
  match raw with
  | JBool b => b
  | _ => match settingSchemaEntry key with
         | Some {| s_type := BoolSetting default |} => default
         | _ => false
         end
  end.

(** [None] is [undefined]: nothing is written. *)
Definition settingWriteValue (key : list Z) (value : jsval) : option jsval :=
  if str_eqb key (js "twoFactorMethods") then
    match value with
    | JObj kvs =>
        Some (JObj (fold_left (fun m kv =>
          if isTwoFactorMethod kv.2 && negb (str_eqb kv.1 (js "__proto__")) then obj_set m kv.1 kv.2 else m)
          (entries kvs) []))
    | _ => None
    end
  else
    match settingSchemaEntry key with
    | Some {| s_type := BoolSetting _ |} => Some (JBool (boolSetting key value))
    | Some {| s_type := IntSetting _ _ _ _ _ _ |} => Some (JNum (intSetting key value))
    | None => None
    end.

(** ** Auto-lock *)

Definition AUTO_LOCK_POLL_MS : Z := 30000.

(** [m * 60 * 1000] *)
Definition minutes_ms (m : num) : num := num_mul (num_mul m (NZ 60)) (NZ 1000).

Definition autoLockPollMs (minutes : jsval) : num :=
  let m := num_floor (to_number minutes) in
  if negb (num_is_finite m) || num_leb m (NZ 0) then NZ AUTO_LOCK_POLL_MS
  else num_max (NZ 1000) (num_min (minutes_ms m) (NZ AUTO_LOCK_POLL_MS)).

Definition autoLockExpired (armedAt minutes now : jsval) : bool :=
  let m := num_floor (to_number minutes) in
  if negb (num_is_finite m) || num_leb m (NZ 0) then false
  else
    let start := to_number armedAt in
    let at_ := to_number now in
    if negb (num_is_finite start) || num_leb start (NZ 0) || negb (num_is_finite at_) then false
    else num_leb (minutes_ms m) (num_sub at_ start).

(** ** Labels *)

Definition plainLabel (value : jsval) : list Z := text_present value.

Definition clipLabel (value max : jsval) : list Z :=
  let t := text_present value in
  let limit := num_max (NZ 1) (num_floor (num_or0 (to_number max))) in
  if num_leb (NZ (Z.of_nat (length t))) limit then t
  else match limit with
       | Fin q =>
           let limit := Z.to_nat (Qfloor q) in
           if (limit <=? 3)%nat then take limit t else take (limit - 3) t ++ js "..."
       | _ => t
       end.

(** ** The vault host *)

Definition VAULT_HOST_TIMEOUT_MS : Z := 3000.

Inductive host_decision := host_shared | host_private | host_wait.

Definition vaultHostDecision (found elapsedMs timeoutMs : jsval) : host_decision :=
  if truthy found then host_shared
  else
    let limit := to_number timeoutMs in
    let limit := if num_leb (NZ 0) limit then limit else NZ VAULT_HOST_TIMEOUT_MS in
    if num_leb limit (to_number elapsedMs) then host_private else host_wait.

(** The index of the first element that satisfies [p]. *)
Fixpoint find_index (p : jsval -> bool) (l : list jsval) (i : Z) : option Z :=
  match l with
  | [] => None
  | x :: l => if p x then Some i else find_index p l (i + 1)
  end.

Definition presenterIndex (views focusedScreen : jsval) : Z :=
  match views with
  | JArr ((_ :: _) as l) =>
      match find_index (fun v => truthy v && is_true (get v (js "opened"))) l 0 with
      | Some i => i
      | None =>
          let focused := text focusedScreen in
          if bool_decide (focused = []) then 0
          else default 0 (find_index (fun v => truthy v && str_eqb (text (get v (js "screen"))) focused) l 0)
      end
  | _ => -1
  end.
