(* ===== verification/Generator.v ===== *)
(** * The password generator ([BitwardenModel.js])

    The options of the generator and how they become arguments of [bw generate] or
    a query to [bw serve], and the strength shown for them.  Generation itself is
    bw's.  [Math.log] is approximated by an implementation as it likes: it is a
    parameter, of which only the sign is known. *)

From Stdlib Require Import QArith_base Qround.
From S2P Require Import Prelude.
From S2P Require Import JsNum.
From S2P Require Import JsString.
From S2P Require Import JsUnicode.
From S2P Require Import JsValue.
From S2P Require Import Json.
From S2P Require Import JsUri.
From S2P Require Import Shell.
Local Open Scope Z_scope.

(** ** Options *)

Record gen_options := GenOptions {
  g_type : jsval;
  g_length : num;
  g_uppercase : jsval;
  g_lowercase : jsval;
  g_numbers : jsval;
  g_special : jsval;
  g_minNumber : num;
  g_minSpecial : num;
  g_ambiguous : jsval;
  g_words : num;
  g_separator : jsval;
  g_capitalize : jsval;
  g_includeNumber : jsval
}.

(** The option [k] of [opts] if it is set, else its default. *)
Definition opt_or (opts : jsval) (k : string) (d : jsval) : jsval :=
  match opts with
  | JObj kvs => match own (js k) kvs with
                | Some JUndef | None => d
                | Some v => v
                end
  | _ => d
  end.

Definition LENGTH_LIMITS : Z * Z := (5, 128).
Definition WORDS_LIMITS : Z * Z := (3, 20).
Definition MIN_LIMITS : Z * Z := (0, 9).

Definition clampInt (value : jsval) (limit : Z * Z) : num :=
  let n := num_floor (to_number value) in
  let n := if num_is_nan n then NZ limit.1 else n in
  num_max (NZ limit.1) (num_min (NZ limit.2) n).

Definition normalizeGeneratorOptions (opts : jsval) : gen_options :=
  let length := clampInt (opt_or opts "length" (JNum (NZ 14))) LENGTH_LIMITS in
  let words := clampInt (opt_or opts "words" (JNum (NZ 3))) WORDS_LIMITS in
  let minNumber := clampInt (opt_or opts "minNumber" (JNum (NZ 1))) MIN_LIMITS in
  let minSpecial := clampInt (opt_or opts "minSpecial" (JNum (NZ 1))) MIN_LIMITS in
  let uppercase := opt_or opts "uppercase" (JBool true) in
  let lowercase := opt_or opts "lowercase" (JBool true) in
  let numbers := opt_or opts "numbers" (JBool true) in
  let special := opt_or opts "special" (JBool false) in
  let lowercase :=
    if negb (truthy uppercase) && negb (truthy lowercase) && negb (truthy numbers) && negb (truthy special)
    then JBool true else lowercase in
  let minNumber := if truthy numbers then minNumber else NZ 0 in
  let minSpecial := if truthy special then minSpecial else NZ 0 in
  let required := num_add (if truthy numbers then minNumber else NZ 0) (if truthy special then minSpecial else NZ 0) in
  let length := if num_ltb length required then num_min (NZ LENGTH_LIMITS.2) required else length in
  {| g_type := opt_or opts "type" (JStr (js "password"));
     g_length := length;
     g_uppercase := uppercase;
     g_lowercase := lowercase;
     g_numbers := numbers;
     g_special := special;
     g_minNumber := minNumber;
     g_minSpecial := minSpecial;
     g_ambiguous := opt_or opts "ambiguous" (JBool false);
     g_words := words;
     g_separator := js_or (opt_or opts "separator" (JStr (js "-"))) (JStr (js "-"));
     g_capitalize := opt_or opts "capitalize" (JBool false);
     g_includeNumber := opt_or opts "includeNumber" (JBool false) |}.

(** ** Parameters *)

(** A bare flag has the value [true]. *)
Definition flag (name : string) (on : jsval) : list (list Z * jsval) :=
  if truthy on then [(js name, JBool true)] else [].

Definition generatorParams (opts : jsval) : list (list Z * jsval) :=
  let o := normalizeGeneratorOptions opts in
  if strict_eqb (g_type o) (JStr (js "passphrase")) then
    [(js "passphrase", JBool true); (js "words", JNum (g_words o)); (js "separator", g_separator o)]
    ++ flag "capitalize" (g_capitalize o) ++ flag "includeNumber" (g_includeNumber o)
  else
    flag "uppercase" (g_uppercase o) ++ flag "lowercase" (g_lowercase o)
    ++ flag "number" (g_numbers o) ++ flag "special" (g_special o)
    ++ [(js "length", JNum (g_length o))]
    ++ (if truthy (g_numbers o) then [(js "minNumber", JNum (g_minNumber o))] else [])
    ++ (if truthy (g_special o) then [(js "minSpecial", JNum (g_minSpecial o))] else [])
    ++ flag "ambiguous" (g_ambiguous o).

Definition query_pair (p : list Z * jsval) : option (list Z) :=
  if is_true p.2 then Some (p.1 ++ js "=true")
  else v ← encodeURIComponent (to_string p.2); Some (p.1 ++ js "=" ++ v).

(** [None] is the exception of [encodeURIComponent]. *)
Definition generateServeUrl (opts : jsval) : option (list Z) :=
  q ← mapM query_pair (generatorParams opts);
  Some (js "http://localhost/generate?" ++ join (js "&") q).

Definition generate_args (opts : jsval) : list (list Z) :=
  js "generate" :: flat_map (fun p => (js "--" ++ p.1) :: if is_true p.2 then [] else [to_string p.2]) (generatorParams opts).

Definition generateCommand (opts : jsval) : list (list Z) :=
  buildCappedCommand (generate_args opts) (Some MAX_TOKEN_BYTES) None.

(** ** Strength *)

(** [Math.log] of an integer from 2 on: a positive double. *)
Class Logarithm := {
  math_log : Z -> Q;
  math_log_pos n : 2 <= n -> (0 < math_log n)%Q;
}.

Definition generator_pool (o : gen_options) : Z :=
  let some (b : jsval) (n : Z) := if truthy b then n else 0 in
  some (g_uppercase o) 26 + some (g_lowercase o) 26 + some (g_numbers o) 10 + some (g_special o) 26 - some (g_ambiguous o) 6.

Definition generatorEntropyBits `{!Logarithm} (o : gen_options) : num :=
  if strict_eqb (g_type o) (JStr (js "passphrase")) then
    num_add (num_mul (g_words o) (fl (129 # 10))) (if truthy (g_includeNumber o) then fl (33 # 10) else NZ 0)
  else num_mul (g_length o) (fl (math_log (Z.max (generator_pool o) 2) / math_log 2)).

Definition generatorStrengthLabel (bits : num) : list Z :=
  if num_leb (NZ 120) bits then js "Excellent"
  else if num_leb (NZ 90) bits then js "Strong"
  else if num_leb (NZ 60) bits then js "Good"
  else if num_leb (NZ 40) bits then js "Fair"
  else js "Weak".

(** [{bits, label, fraction}] *)
Definition generatorStrength `{!Logarithm} (opts : jsval) : num * list Z * num :=
  let bits := generatorEntropyBits (normalizeGeneratorOptions opts) in
  (num_round bits, generatorStrengthLabel bits, num_max (NZ 0) (num_min (NZ 1) (num_div bits 128))).

(** ** Answers *)

Definition parseServeGenerated (raw : list Z) : list Z :=
  match parse raw with
  | Some parsed =>
      if negb (truthy parsed) || negb (is_true (get parsed (js "success"))) || negb (truthy (get parsed (js "data")))
      then [] else text (get (get parsed (js "data")) (js "data"))
  | None => []
  end.

Definition generatorProbeIsForeign (exitCode stdout : jsval) : bool :=
  negb (num_eqb (to_number exitCode) (NZ 7) && bool_decide (trim (text stdout) = [])).

(** [{giveUp, dropValue, useCli}] *)
Definition generatorServeExitAction (state : jsval) : bool * bool * bool :=
  let st := js_or state (JObj []) in
  if truthy (get st (js "stopping")) then (false, false, false)
  else
    let strandedValue := truthy (get st (js "wasReady")) in
    (true, strandedValue, (strandedValue || truthy (get st (js "busy"))) && truthy (get st (js "onGeneratorScreen"))).
