(* ===== verification/SettingsCorrect.v ===== *)
(** * Correctness of settings, auto-lock and generator options *)

From Stdlib Require Import QArith_base Qround.
From S2P Require Import Prelude.
From S2P Require Import JsNum.
From S2P Require Import JsString.
From S2P Require Import JsUnicode.
From S2P Require Import JsValue.
From S2P Require Import Json.
From S2P Require Import JsUri.
From S2P Require Import Shell.
From S2P Require Import ShellCorrect.
From S2P Require Import Auth.
From S2P Require Import AuthCorrect.
From S2P Require Import SshAgent.
From S2P Require Import Settings.
From S2P Require Import Generator.
Local Open Scope Z_scope.

(** ** Integer settings *)

Lemma clamp_range lo hi n : lo <= hi -> exists z, num_max (NZ lo) (num_min (NZ hi) (NZ n)) = NZ z /\ lo <= z <= hi
  /\ (lo <= n <= hi -> z = n).
Proof. intros. rewrite num_min_NZ, num_max_NZ. eexists. split; [reflexivity|]. split; lia. Qed.

Lemma schema_sane : forallb (fun s => match s_type s with
  | IntSetting lo hi _ d _ _ => (lo <=? d) && (d <=? hi) | BoolSetting _ => true end) SETTINGS_SCHEMA = true.
Proof. reflexivity. Qed.

Lemma schema_default key s lo hi st d u zl :
  settingSchemaEntry key = Some s -> s_type s = IntSetting lo hi st d u zl -> lo <= d <= hi.
Proof.
  intros Hs Ht. apply List.find_some in Hs as [Hs _]. pose proof schema_sane as H.
  rewrite forallb_forall in H. specialize (H s Hs). rewrite Ht in H. lia.
Qed.

Lemma intSetting_spec key s lo hi st d u zl raw :
  settingSchemaEntry key = Some s -> s_type s = IntSetting lo hi st d u zl ->
  exists z, intSetting key raw = NZ z /\ lo <= z <= hi /\
    (forall n, setting_number raw = NZ n -> lo <= n -> z = Z.min n hi) /\
    (setting_number raw = NaN -> z = d).
Proof.
  intros Hs Ht. pose proof (schema_default _ _ _ _ _ _ _ _ Hs Ht) as Hd. unfold intSetting. rewrite Hs.
  destruct s as [k g ty l sw]. cbn in Ht. subst ty. cbv beta iota.
  destruct (setting_number raw) as [| |q] eqn:E.
  - cbn [num_is_finite negb orb]. destruct (clamp_range lo hi d) as (z & Hz & Hr & Heq); [lia|].
    exists z. split_and!; try done; try lia.
  - cbn [num_is_finite negb orb]. destruct (clamp_range lo hi d) as (z & Hz & Hr & Heq); [lia|].
    exists z. split_and!; try done; lia.
  - destruct (setting_number_whole raw) as [n Hn]; [by rewrite E|]. rewrite Hn in E. injection E as <-. fold (NZ n).
    cbn [num_is_finite NZ negb orb]. fold (NZ n). rewrite num_ltb_NZ. destruct (Z.ltb_spec n lo).
    + destruct (clamp_range lo hi d) as (z & Hz & Hr & Heq); [lia|]. exists z. split_and!; try done; try lia.
      intros m [= <-]. lia.
    + rewrite num_min_NZ, num_max_NZ. eexists. split; [reflexivity|]. split_and!; try done; try lia.
      intros m [= <-]. lia.
Qed.

(** ** Auto-lock *)

Lemma minutes_ms_NZ m : 0 <= m < 2 ^ 37 -> minutes_ms (NZ m) = NZ (m * 60000).
Proof. intros. unfold minutes_ms. rewrite !num_mul_NZ by lia. f_equal. lia. Qed.

Lemma auto_lock_exact armed m now : 0 <= armed < 2 ^ 52 -> 0 <= m < 2 ^ 37 -> 0 <= now < 2 ^ 52 ->
  autoLockExpired (JNum (NZ armed)) (JNum (NZ m)) (JNum (NZ now))
  = (0 <? m) && (0 <? armed) && (armed + m * 60000 <=? now).
Proof.
  intros Ha Hm Hn. unfold autoLockExpired. cbn [to_number]. rewrite num_floor_NZ. cbn [num_is_finite NZ negb orb].
  fold (NZ m) (NZ armed) (NZ now). rewrite !num_leb_NZ. destruct (Z.leb_spec m 0); [lia|].
  destruct (Z.leb_spec armed 0); cbn [orb]; [lia|]. rewrite minutes_ms_NZ, num_sub_NZ, num_leb_NZ by lia. lia.
Qed.

Lemma auto_lock_poll m : 0 <= m < 2 ^ 37 ->
  exists z, autoLockPollMs (JNum (NZ m)) = NZ z /\ 1000 <= z <= 30000 /\ (0 < m -> z <= m * 60000).
Proof.
  intros Hm. unfold autoLockPollMs, AUTO_LOCK_POLL_MS. cbn [to_number]. rewrite num_floor_NZ. cbn [num_is_finite NZ negb orb].
  fold (NZ m). rewrite num_leb_NZ. destruct (Z.leb_spec m 0).
  - exists 30000. split_and!; try done; lia.
  - rewrite minutes_ms_NZ, num_min_NZ, num_max_NZ by lia. eexists. split; [reflexivity|]. split; lia.
Qed.

(** ** Generator options *)

Lemma clampInt_range v lo hi : lo <= hi -> exists z, clampInt v (lo, hi) = NZ z /\ lo <= z <= hi.
Proof.
  intros H. unfold clampInt. cbn [fst snd]. destruct (to_number v) as [|[]|q]; cbn [num_floor num_is_nan].
  - destruct (clamp_range lo hi lo) as (z & ? & ? & _); eauto.
  - exists lo. cbn [num_min num_max NZ num_ltb]. split; [done|lia].
  - exists hi. change (num_min (NZ hi) (Inf false)) with (NZ hi). rewrite num_max_NZ. split; [f_equal; lia|lia].
  - destruct (clamp_range lo hi (Qfloor q)) as (z & ? & ? & _); eauto.
Qed.

(** What [bw generate] requires of its options. *)
Record gen_valid (o : gen_options) : Prop := {
  gen_length : exists n, g_length o = NZ n /\ 5 <= n <= 128 /\
    exists a b, g_minNumber o = NZ a /\ g_minSpecial o = NZ b /\ 0 <= a <= 9 /\ 0 <= b <= 9 /\ a + b <= n
      /\ (truthy (g_numbers o) = false -> a = 0) /\ (truthy (g_special o) = false -> b = 0);
  gen_words : exists n, g_words o = NZ n /\ 3 <= n <= 20;
  gen_charset : truthy (g_uppercase o) || truthy (g_lowercase o) || truthy (g_numbers o) || truthy (g_special o) = true;
  gen_separator : truthy (g_separator o) = true
}.

Lemma normalize_valid opts : gen_valid (normalizeGeneratorOptions opts).
Proof.
  unfold normalizeGeneratorOptions.
  destruct (clampInt_range (opt_or opts "length" (JNum (NZ 14))) 5 128) as (n & Hn & Hnr); [lia|].
  destruct (clampInt_range (opt_or opts "words" (JNum (NZ 3))) 3 20) as (w & Hw & Hwr); [lia|].
  destruct (clampInt_range (opt_or opts "minNumber" (JNum (NZ 1))) 0 9) as (a & Ha & Har); [lia|].
  destruct (clampInt_range (opt_or opts "minSpecial" (JNum (NZ 1))) 0 9) as (b & Hb & Hbr); [lia|].
  unfold LENGTH_LIMITS, WORDS_LIMITS, MIN_LIMITS. rewrite Hn, Hw, Ha, Hb.
  split; cbn [g_length g_minNumber g_minSpecial g_numbers g_special g_words g_uppercase g_lowercase g_separator snd].
  - destruct (truthy (opt_or opts "numbers" (JBool true))), (truthy (opt_or opts "special" (JBool false)));
      rewrite num_add_NZ, num_ltb_NZ, num_min_NZ by lia;
      match goal with |- context [?x <? ?y] => destruct (Z.ltb_spec x y) end;
      (eexists; split; [reflexivity|]; split; [lia|]; eexists _, _; split; [reflexivity|]; split; [reflexivity|]; repeat split; lia || done).
  - eauto.
  - destruct (truthy (opt_or opts "uppercase" (JBool true))) eqn:E1, (truthy (opt_or opts "lowercase" (JBool true))) eqn:E2,
      (truthy (opt_or opts "numbers" (JBool true))) eqn:E3, (truthy (opt_or opts "special" (JBool false))) eqn:E4;
      cbn [negb andb]; rewrite ?E2; reflexivity.
  - unfold js_or. by destruct (truthy (opt_or opts "separator" (JStr (js "-")))) eqn:E.
Qed.

(** The label of a passphrase by its number of words. *)
Definition passphrase_label (words : Z) (number : bool) : list Z :=
  js (if (10 <=? words)%Z then "Excellent"%string else if (7 <=? words)%Z then "Strong"%string
      else if (5 <=? words)%Z then "Good"%string else if ((4 <=? words)%Z || number)%bool then "Fair"%string else "Weak"%string).

Lemma words_cases n : 3 <= n <= 20 -> In n (map Z.of_nat (seq 3 18)).
Proof. intros H. apply in_map_iff. exists (Z.to_nat n). rewrite in_seq. lia. Qed.

(** A passphrase is labelled by its words alone, whatever the logarithm is. *)
Lemma passphrase_strength `{!Logarithm} opts : strict_eqb (g_type (normalizeGeneratorOptions opts)) (JStr (js "passphrase")) = true ->
  exists n, g_words (normalizeGeneratorOptions opts) = NZ n /\ 3 <= n <= 20 /\
    (generatorStrength opts).1.2 = passphrase_label n (truthy (g_includeNumber (normalizeGeneratorOptions opts))).
Proof.
  intros Ht. destruct (gen_words _ (normalize_valid opts)) as (n & Hn & Hr). exists n. split_and!; [done|lia..|].
  unfold generatorStrength, generatorEntropyBits. cbn [fst snd]. rewrite Ht, Hn. apply words_cases in Hr. revert n Hr Hn.
  apply (proj1 (List.Forall_forall (fun n => _ -> _) _)).
  destruct (truthy _); repeat constructor.
Qed.

Lemma unit_clamp a : num_is_nan a = false -> exists r, num_max (NZ 0) (num_min (NZ 1) a) = Fin r /\ (0 <= r <= 1)%Q.
Proof.
  assert (H0 : (0 <= 0 # 1 <= 1)%Q) by (split; discriminate). assert (H1 : (0 <= 1 # 1 <= 1)%Q) by (split; discriminate).
  destruct a as [|[]|q]; [done|exists (0 # 1)%Q; done|exists (1 # 1)%Q; done|intros _].
  unfold num_min, NZ, num_ltb, Qltb. destruct (q ?= 1 # 1)%Q eqn:E1; [exists (1 # 1)%Q; done| |exists (1 # 1)%Q; done].
  apply Qlt_alt in E1. unfold num_max, num_ltb, Qltb.
  destruct (0 # 1 ?= q)%Q eqn:E2; [exists (0 # 1)%Q; done| |exists (0 # 1)%Q; done].
  apply Qlt_alt in E2. exists q. split; [done|]. split; by apply Qlt_le_weak.
Qed.

Lemma fl_num q : num_is_nan (fl q) = false.
Proof. unfold fl. by repeat case_match. Qed.

Lemma num_div_num a k : num_is_nan a = false -> num_is_nan (num_div a k) = false.
Proof. destruct a; [done..|]. intros _. apply fl_num. Qed.

(** The meter always has a length between nothing and the whole. *)
Lemma strength_fraction `{!Logarithm} opts : exists r, (generatorStrength opts).2 = Fin r /\ (0 <= r <= 1)%Q.
Proof.
  apply unit_clamp, num_div_num. unfold generatorEntropyBits. pose proof (normalize_valid opts) as V. case_match.
  - destruct (gen_words _ V) as (n & -> & Hn). unfold NZ at 1, num_mul.
    assert (exists x, fl (129 # 10) = Fin x) as [x ->] by (eexists; reflexivity).
    pose proof (fl_num ((n # 1) * x)) as H1. destruct (fl ((n # 1) * x)) as [| |y]; [done| |];
      destruct (truthy _); cbn [num_add NZ num_is_nan]; rewrite ?fl_num; try reflexivity; apply fl_num.
  - destruct (gen_length _ V) as (n & -> & Hn & _). unfold num_mul, NZ. destruct (fl (math_log _ / _)) eqn:E.
    + pose proof (fl_num (math_log (generator_pool (normalizeGeneratorOptions opts) `max` 2) / math_log 2)) as H1. by rewrite E in H1.
    + destruct (Qeq_bool _ _) eqn:Eq; [|done]. apply Qeq_bool_iff in Eq. unfold Qeq in Eq. cbn in Eq. lia.
    + apply fl_num.
Qed.

(** ** Properties *)

(** An integer setting read from the unvalidated file is always within its
    schema's bounds: a readable value at or above the floor is kept or cut at the
    ceiling, and an unreadable one gives the default, never zero by accident. *)
Theorem int_setting_bounded key s lo hi st d u zl raw :
  settingSchemaEntry key = Some s -> s_type s = IntSetting lo hi st d u zl ->
  exists z, intSetting key raw = NZ z /\ lo <= z <= hi /\
    (forall n, setting_number raw = NZ n -> lo <= n -> z = Z.min n hi) /\
    (setting_number raw = NaN -> z = d).
Proof. apply intSetting_spec. Qed.

Lemma int_setting_bounded_witness :
  exists z, intSetting (js "autoLockMinutes") (JStr (js "soon")) = NZ z /\ 0 <= z <= 1440 /\
    (forall n, setting_number (JStr (js "soon")) = NZ n -> 0 <= n -> z = Z.min n 1440) /\
    (setting_number (JStr (js "soon")) = NaN -> z = 15).
Proof. eapply int_setting_bounded; reflexivity. Defined.

(** The vault locks exactly when the armed time plus the configured minutes
    has passed on the wall clock; zero minutes or an unarmed timer never locks,
    and the poll that notices it runs at least every 30 s and never less often
    than the window itself. *)
Theorem auto_lock_deadline armed m now :
  0 <= armed < 2 ^ 52 -> 0 <= m < 2 ^ 37 -> 0 <= now < 2 ^ 52 ->
  autoLockExpired (JNum (NZ armed)) (JNum (NZ m)) (JNum (NZ now))
    = (0 <? m) && (0 <? armed) && (armed + m * 60000 <=? now) /\
  exists z, autoLockPollMs (JNum (NZ m)) = NZ z /\ 1000 <= z <= 30000 /\ (0 < m -> z <= m * 60000).
Proof. intros Ha Hm Hn. split; [by apply auto_lock_exact|by apply auto_lock_poll]. Qed.

Lemma auto_lock_deadline_witness :
  autoLockExpired (JNum (NZ 1000)) (JNum (NZ 15)) (JNum (NZ 901000)) = true.
Proof. exact (proj1 (auto_lock_deadline 1000 15 901000 ltac:(lia) ltac:(lia) ltac:(lia))). Defined.

(** Whatever options are stored, the ones used make [bw generate] succeed: at
    least one character set, a length between 5 and 128 with room for the required
    digits and symbols, 3 to 20 words and a separator; and the shell passes bw
    exactly these arguments. *)
Theorem generator_options_valid opts :
  gen_valid (normalizeGeneratorOptions opts) /\
  shell_words (bw_words (generate_args opts)) = Some (js "bw" :: generate_args opts).
Proof. split; [apply normalize_valid|apply bw_words_read]. Qed.
