(* ===== verification/Items.v ===== *)
(** * Vault items ([BitwardenModel.js])

    Reading bw's item lists into the rows the panel draws, the detail of one item,
    the public view of an item whose secrets the helper holds, the row edits around
    a save, and search.  Rows are JavaScript objects. *)

From Stdlib Require Import QArith_base Qround.
From S2P Require Import Prelude.
From S2P Require Import JsNum.
From S2P Require Import JsString.
From S2P Require Import JsUnicode.
From S2P Require Import JsValue.
From S2P Require Import Json.
Local Open Scope Z_scope.

(** [v.k] *)
Definition fld (v : jsval) (k : string) : jsval := get v (js k).
(** [v.k || {}] *)
Definition fld_obj (v : jsval) (k : string) : jsval := js_or (fld v k) (JObj []).
(** [{k: String(v.k || "")}] *)
Definition text_field (v : jsval) (k : string) : list Z * jsval := (js k, JStr (text (fld v k))).
Definition jbool (b : bool) : jsval := JBool b.
Definition strings (l : list (list Z)) : jsval := JArr (map JStr l).

(** ** Lists *)

Definition MAX_LIST_ENTRIES : nat := 4096.

(** Arrays, or objects with a sane [length]. *)
Definition toList (value : jsval) : list jsval :=
  match value with
  | JArr l => take MAX_LIST_ENTRIES l
  | JObj kvs =>
      match obj_get kvs (js "length") with
      | JNum (Fin q) =>
          if num_ltb (Fin q) (NZ 0) || negb (num_eqb (Fin q) (num_floor (Fin q))) then []
          else map (fun i => obj_get kvs (nat_to_str (Z.of_nat i)))
                 (seq 0 (Nat.min MAX_LIST_ENTRIES (Z.to_nat (Qfloor q))))
      | JNum (Inf false) => map (fun i => obj_get kvs (nat_to_str (Z.of_nat i))) (seq 0 MAX_LIST_ENTRIES)
      | _ => []
      end
  | _ => []
  end.

Definition idList (ids : jsval) : list (list Z) := map to_string (toList ids).

Definition parseJsonArray (raw : list Z) : list jsval :=
  match parse raw with Some (JArr l) => l | _ => [] end.

(** ** Status, organizations, folders *)

Definition parseStatus (raw : list Z) : option jsval :=
  match parse raw with
  | Some st =>
      if is_object st then
        let status := fld st "status" in
        Some (JObj [(js "authenticated", jbool (negb (strict_eqb status (JStr (js "unauthenticated")))));
                    (js "locked", jbool (strict_eqb status (JStr (js "locked"))));
                    (js "unlocked", jbool (strict_eqb status (JStr (js "unlocked"))));
                    text_field st "userEmail"; text_field st "userId"; text_field st "lastSync"; text_field st "serverUrl"])
      else None
  | None => None
  end.

Definition parseOrganizations (raw : list Z) : list jsval :=
  map (fun o => JObj [text_field o "id"; (js "name", JStr (text_or (fld o "name") (js "Organization")));
                      (js "status", JNum (to_number (js_or (fld o "status") (JNum (NZ 0)))))])
    (List.filter is_object (parseJsonArray raw)).

Section collated.
  Context `{!Collation}.

(** [a.name.localeCompare(b.name, ...) <= 0]; names are strings. *)
Definition name_of (v : jsval) : list Z := to_string (fld v "name").
Definition names_le (a b : jsval) : bool := name_le (name_of a) (name_of b).

Definition is_favorite (v : jsval) : bool := truthy (fld v "favorite").

(** [compareItems(a, b) <= 0]: favorites first, then by name. *)
Definition items_le (a b : jsval) : bool :=
  if Bool.eqb (is_favorite a) (is_favorite b) then names_le a b else is_favorite a.

Definition parseFolders (raw : list Z) : list jsval :=
  sort_by names_le
    (map (fun f => JObj [(js "id", JStr (to_string (fld f "id"))); (js "name", JStr (text_or (fld f "name") (js "Folder")))])
       (List.filter (fun f => is_object f && truthy (fld f "id")) (parseJsonArray raw))).

Definition parseCollections (raw : list Z) : list jsval :=
  sort_by names_le
    (map (fun c => JObj [(js "id", JStr (to_string (fld c "id"))); (js "name", JStr (text_or (fld c "name") (js "Collection")));
                         (js "organizationId", JStr (text (fld c "organizationId")))])
       (List.filter (fun c => is_object c && truthy (fld c "id")) (parseJsonArray raw))).

(** [entries] are the rows parsed above, so their ids are strings. *)
Definition nameById (entries : list jsval) (id : jsval) : list Z :=
  if negb (truthy id) then []
  else match List.find (fun e => strict_eqb (fld e "id") id) entries with
       | Some e => name_of e
       | None => []
       end.

Definition collectionNames (collections : list jsval) (ids : jsval) : list (list Z) :=
  sort_by name_le
    (List.filter (fun n => negb (bool_decide (n = [])))
       (map (fun id => nameById collections (JStr (to_string id))) (toList ids))).

Definition orgPlaceLabel (item : jsval) (organizations collections : list jsval) : list Z :=
  if negb (truthy item) || negb (truthy (fld item "organizationId")) then []
  else
    let org := nameById organizations (fld item "organizationId") in
    match collectionNames collections (fld item "collectionIds") with
    | [] => org
    | n :: rest =>
        let place := n ++ match rest with [] => [] | _ => js " +" ++ Z_to_str (Z.of_nat (length rest)) end in
        if negb (bool_decide (org = [])) && (1 <? length organizations)%nat then org ++ js " / " ++ place else place
    end.

End collated.

(** ** Types *)

Definition ITEM_TYPES : list (list Z * jsval) :=
  [(js "1", JStr (js "login")); (js "2", JStr (js "secureNote")); (js "3", JStr (js "card"));
   (js "4", JStr (js "identity")); (js "5", JStr (js "sshKey"))].

Definition itemTypeName (type : jsval) : jsval := js_or (obj_get ITEM_TYPES (to_string type)) (JStr (js "login")).

Definition itemTypeLabel (type : jsval) : list Z :=
  let t := itemTypeName type in
  let named s := strict_eqb t (JStr (js s)) in
  if named "login"%string then js "Login"
  else if named "secureNote"%string then js "Secure Note"
  else if named "card"%string then js "Card"
  else if named "identity"%string then js "Identity"
  else if named "sshKey"%string then js "SSH Key"
  else js "Item".

(** The icon of a type, a character of the icon font in UTF-16. *)
Definition itemTypeGlyph (type : jsval) : list Z :=
  let t := itemTypeName type in
  let named s := strict_eqb t (JStr (js s)) in
  if named "login"%string then [56192; 57099]
  else if named "secureNote"%string then [56192; 56857]
  else if named "card"%string then [56195; 57327]
  else if named "identity"%string then [61447]
  else if named "sshKey"%string then [56194; 56512]
  else [56193; 57216].

(** ** Attachments *)

Definition ATTACHMENT_UNITS : list (list Z) := [js "B"; js "KB"; js "MB"; js "GB"; js "TB"].

Fixpoint scale_size (fuel : nat) (n : num) (unit : nat) : num * nat :=
  match fuel with
  | O => (n, unit)
  | S fuel =>
      if num_leb (NZ 1024) n && (unit <? 4)%nat then scale_size fuel (num_div n 1024) (S unit) else (n, unit)
  end.

(** [x.toFixed(2)] of a non-negative value. *)
Definition to_fixed2 (x : num) : list Z :=
  match x with
  | Fin q =>
      if num_ltb x (Fin (inject_Z (10 ^ 21))) then
        let n := Qfloor (q * inject_Z 100 + (1 # 2)) in
        let frac := n mod 100 in
        Z_to_str (n / 100) ++ js "." ++ [48 + frac / 10; 48 + frac mod 10]
      else num_to_string x
  | _ => num_to_string x
  end.

(** [t.replace(/\.?0+$/, "")] *)
Definition strip_zeros (t : list Z) : list Z :=
  let r := drop_trailing (fun c => c =? 48) t in
  if (length r =? length t)%nat then t
  else if bool_decide (last r = Some 46) then take (length r - 1) r else r.

Definition formatAttachmentSize (bytes : jsval) : list Z :=
  if is_nullish bytes || bool_decide (trim (to_string bytes) = []) then []
  else
    let n := to_number bytes in
    if negb (num_is_finite n) || num_ltb n (NZ 0) then []
    else
      let '(n, unit) := scale_size 4 n 0 in
      let value := if (unit =? 0)%nat then num_to_string (num_round n)
                   else strip_zeros (to_fixed2 (num_div (num_round (num_mul n (NZ 100))) 100)) in
      value ++ js " " ++ nth unit ATTACHMENT_UNITS [].

(** [String(x || "") || d] *)
Definition text_else (v : jsval) (d : list Z) : list Z := match text v with [] => d | t => t end.

Definition parseAttachments (raw : jsval) : list jsval :=
  map (fun a => JObj [(js "id", JStr (to_string (fld a "id")));
                      (js "fileName", JStr (text_else (fld a "fileName") (js "attachment")));
                      text_field a "size";
                      (js "sizeName", JStr (text_else (fld a "sizeName") (formatAttachmentSize (fld a "size"))))])
    (List.filter (fun a => truthy a && truthy (fld a "id")) (toList raw)).

Definition is_separator (c : Z) : bool := (c =? 47) || (c =? 92).
(** What [.] does not match. *)
Definition is_line_end (c : Z) : bool := (c =? 10) || (c =? 13) || (c =? 8232) || (c =? 8233).

(** [name.replace(/^.*[\\/]/, "")]: up to the last separator of the first line. *)
Fixpoint last_separator (s : list Z) : option nat :=
  match s with
  | [] => None
  | c :: r =>
      if is_separator c
      then Some (match last_separator r with Some i => S i | None => 0%nat end)
      else if is_line_end c then None
      else S <$> last_separator r
  end.

Definition safeAttachmentFileName (raw : jsval) : list Z :=
  let name := text raw in
  let name := match last_separator name with Some i => drop (S i) name | None => name end in
  let name := map (fun c => if is_control c || is_separator c then 95 else c) name in
  let name := drop_trailing is_space (drop_while (fun c => is_space c || (c =? 46) || (c =? 45)) name) in
  let name :=
    if (128 <? length name)%nat then
      let ext := match last_index_of 46 name with
                 | Some dot => if (0 <? dot)%nat && (length name - dot <=? 12)%nat then drop dot name else []
                 | None => []
                 end in
      take (128 - length ext) name ++ ext
    else name in
  match name with [] => js "attachment" | _ => name end.

Definition parentDirectory (path : jsval) : list Z :=
  let p := text path in
  match last_index_of 47 p with
  | None => []
  | Some O => js "/"
  | Some cut => take cut p
  end.

Definition baseName (path : jsval) : list Z :=
  let p := text path in
  match last_index_of 47 p with None => p | Some cut => drop (S cut) p end.

(** ** Logins, cards, identities *)

Definition loginUris (login : jsval) : list (list Z) :=
  map (fun u => to_string (fld u "uri"))
    (List.filter (fun u => truthy u && truthy (fld u "uri")) (toList (fld login "uris"))).

(** [None] is [null]. *)
Definition uriMatchValue (match_ : jsval) : option num :=
  if is_nullish match_ || strict_eqb match_ (JStr []) then None
  else
    let n := to_number match_ in
    if num_eqb n (num_floor n) && num_leb (NZ 0) n && num_leb n (NZ 5) then Some n else None.

Definition opt_num (n : option num) : jsval := match n with Some n => JNum n | None => JNull end.

(** Elements with their positions. *)
Fixpoint indexed {A} (l : list A) (i : Z) : list (Z * A) :=
  match l with [] => [] | x :: l => (i, x) :: indexed l (i + 1) end.

Definition loginUriEntries (login : jsval) : list jsval :=
  map (fun ix => JObj [(js "uri", JStr (text_present (fld ix.2 "uri"))); (js "match", opt_num (uriMatchValue (fld ix.2 "match")));
                       (js "sourceIndex", JNum (NZ ix.1))])
    (List.filter (fun ix => is_object ix.2) (indexed (toList (if truthy login then fld login "uris" else login)) 0)).

Definition CARD_FIELDS : list string :=
  ["cardholderName"; "brand"; "number"; "expMonth"; "expYear"; "code"]%string.

Definition IDENTITY_FIELDS : list string :=
  ["title"; "firstName"; "middleName"; "lastName"; "username"; "company"; "email"; "phone"; "ssn";
   "passportNumber"; "licenseNumber"; "address1"; "address2"; "address3"; "city"; "state"; "postalCode"; "country"]%string.

Definition cardDetail (card : jsval) : jsval :=
  if truthy card then JObj (map (text_field card) CARD_FIELDS) else JNull.

Definition identityDetail (identity : jsval) : jsval :=
  if truthy identity then JObj (map (text_field identity) IDENTITY_FIELDS) else JNull.

Definition nonEmptyParts (parts : list jsval) : list (list Z) :=
  List.filter (fun p => negb (bool_decide (p = []))) (map (fun p => trim (text p)) parts).

Definition identityFullName (identity : jsval) : list Z :=
  if truthy identity
  then join (js " ") (nonEmptyParts [fld identity "title"; fld identity "firstName"; fld identity "middleName"; fld identity "lastName"])
  else [].

(** ** Custom fields *)

(** [values[id]]: the numeric keys of the table. *)
Definition linked_values (item : jsval) : list (Z * jsval) :=
  let it := js_or item (JObj []) in
  let login := fld_obj it "login" in
  let card := fld_obj it "card" in
  let identity := fld_obj it "identity" in
  [(100, fld login "username"); (101, fld login "password");
   (300, fld card "cardholderName"); (301, fld card "expMonth"); (302, fld card "expYear");
   (303, fld card "code"); (304, fld card "brand"); (305, fld card "number");
   (400, fld identity "title"); (401, fld identity "middleName");
   (402, fld identity "address1"); (403, fld identity "address2"); (404, fld identity "address3");
   (405, fld identity "city"); (406, fld identity "state"); (407, fld identity "postalCode");
   (408, fld identity "country"); (409, fld identity "company"); (410, fld identity "email");
   (411, fld identity "phone"); (412, fld identity "ssn"); (413, fld identity "username");
   (414, fld identity "passportNumber"); (415, fld identity "licenseNumber");
   (416, fld identity "firstName"); (417, fld identity "lastName");
   (418, JStr (identityFullName identity))].

Definition linkedCustomFieldValue (item linkedId : jsval) : list Z :=
  let id := to_number linkedId in
  match List.find (fun kv => num_eqb id (NZ kv.1)) (linked_values item) with
  | Some kv => text_present kv.2
  | None => []
  end.

Definition linkedCustomFieldIsSensitive (linkedId : jsval) : bool :=
  existsb (fun k => num_eqb (to_number linkedId) (NZ k)) [101; 303; 305; 412; 414; 415].

Definition custom_field (item : jsval) (ix : Z * jsval) : jsval :=
  let field := ix.2 in
  let type := to_number (js_or (fld field "type") (JNum (NZ 0))) in
  let is_type k := num_eqb type (NZ k) in
  let linkedId := if is_nullish (fld field "linkedId") then JNull else JNum (to_number (fld field "linkedId")) in
  JObj [text_field field "name"; (js "index", JNum (NZ ix.1));
        (js "value", JStr (if is_type 3 then linkedCustomFieldValue item linkedId else text_present (fld field "value")));
        (js "type", JNum type); (js "linkedId", linkedId);
        (js "sensitive", jbool (is_type 1 || (is_type 3 && linkedCustomFieldIsSensitive linkedId)))].

Definition itemCustomFields (fields item : jsval) : list jsval :=
  map (custom_field item)
    (List.filter (fun ix => truthy ix.2 && truthy (fld ix.2 "name")) (indexed (toList fields) 0)).

(** ** Rows *)

Definition repromptValue (value : jsval) : Z := if num_eqb (to_number value) (NZ 1) then 1 else 0.

(** [x ? String(x) : null] *)
Definition id_or_null (v : jsval) : jsval := text_or_null v.

(** Four bullets and a space. *)
Definition bullets : list Z := [8226; 8226; 8226; 8226; 32].

Definition card_subtitle (card : jsval) : list Z :=
  if truthy card then
    let number := text (fld card "number") in
    let last4 := if (4 <=? length number)%nat then drop (length number - 4) number else number in
    (if truthy (fld card "brand") then to_string (fld card "brand") ++ js " " else [])
    ++ (if bool_decide (last4 = []) then [] else bullets ++ last4)
  else [].

(** [s.replace(/^https?:\/\//, "").replace(/\/.*$/, "")] *)
Definition strip_scheme (s : list Z) : list Z :=
  if starts_with (js "http://") s then drop 7 s else if starts_with (js "https://") s then drop 8 s else s.

Fixpoint strip_path (s : list Z) : list Z :=
  match s with
  | [] => []
  | c :: r => if (c =? 47) && negb (existsb is_line_end r) then [] else c :: strip_path r
  end.

Definition item_subtitle (it login : jsval) (uris : list (list Z)) : list Z :=
  if truthy (fld login "username") then to_string (fld login "username")
  else match uris with
  | u :: _ => strip_path (strip_scheme u)
  | [] =>
      let cs := card_subtitle (js_or (fld it "card") JNull) in
      if negb (bool_decide (cs = [])) then cs
      else
        let identity := fld it "identity" in
        let ids := if truthy identity
                   then match identityFullName identity with [] => text (fld identity "email") | n => n end else [] in
        if negb (bool_decide (ids = [])) then ids
        else if strict_eqb (fld it "type") (JNum (NZ 2)) then js "Secure Note" else []
  end.

(** The fields common to a row and a detail. *)
Definition item_head (it : jsval) : list (list Z * jsval) :=
  [text_field it "id"; (js "organizationId", id_or_null (fld it "organizationId"));
   (js "collectionIds", strings (idList (fld it "collectionIds"))); (js "folderId", id_or_null (fld it "folderId"));
   (js "name", JStr (text_or (fld it "name") (js "Untitled")));
   (js "type", itemTypeName (fld it "type")); (js "typeCode", JNum (to_number (js_or (fld it "type") (JNum (NZ 1)))));
   (js "favorite", jbool (truthy (fld it "favorite")))].

(** [it.qsbwHeld] when it is an object, else [null]. *)
Definition held_of (it : jsval) : jsval := if is_object (fld it "qsbwHeld") then fld it "qsbwHeld" else JNull.

Definition parse_item (it : jsval) : jsval :=
  let login := fld_obj it "login" in
  let uris := loginUris login in
  let attachments := parseAttachments (fld it "attachments") in
  let held := held_of it in
  let is_held := is_object held in
  JObj (item_head it ++
    [text_field login "username"; text_field login "password";
     (js "hasPassword", jbool (truthy (fld login "password") || (is_held && truthy (fld held "password"))));
     (js "hasTotp", jbool (truthy (fld login "totp") || (is_held && truthy (fld held "totp"))));
     (js "totpKey", JStr (text (fld login "totp")));
     (js "uris", strings uris);
     (js "reprompt", JNum (NZ (repromptValue (fld it "reprompt"))));
     (js "attachments", JArr attachments);
     (js "hasAttachments", jbool (0 <? length attachments)%nat);
     (js "subtitle", JStr (item_subtitle it login uris));
     (js "card", cardDetail (fld it "card"));
     (js "identity", identityDetail (fld it "identity"));
     text_field it "notes";
     (js "hasNotes", jbool (truthy (fld it "notes") || (is_held && truthy (fld held "notes"))));
     (js "fields", JArr (if is_held then itemCustomFields (fld it "fields") it else []));
     (js "heldFlags", held);
     (js "rawObject", if is_held then JNull else it);
     (js "secretsHeld", jbool is_held)]).

Section rows.
  Context `{!Collation}.

Definition sort_items (l : list jsval) : list jsval := sort_by items_le l.

(** [raw] as JSON text or as an array already parsed. *)
Definition parseItems (raw : jsval) : list jsval :=
  let arr := match raw with JArr l => l | _ => parseJsonArray (to_string raw) end in
  sort_items (map parse_item (List.filter is_object arr)).

(** [a || b || c] on text *)
Definition first_text (vs : list jsval) : list Z :=
  match List.find truthy vs with Some v => to_string v | None => [] end.

Definition ssh_raw (it : jsval) (publicKey fingerprint : list Z) : jsval :=
  JObj [(js "id", JStr (to_string (fld it "id"))); (js "name", JStr (text_or (fld it "name") (js "Untitled")));
        (js "type", JNum (NZ 5)); (js "organizationId", id_or_null (fld it "organizationId"));
        (js "collectionIds", strings (idList (fld it "collectionIds"))); (js "folderId", id_or_null (fld it "folderId"));
        (js "favorite", jbool (truthy (fld it "favorite"))); (js "reprompt", JNum (NZ (repromptValue (fld it "reprompt"))));
        (js "sshKey", JObj [(js "publicKey", JStr publicKey); (js "fingerprint", JStr fingerprint)])].

Definition parse_ssh_key (it : jsval) : jsval :=
  let key := fld_obj it "sshKey" in
  let publicKey := first_text [fld key "publicKey"; fld it "publicKey"] in
  let fingerprint := first_text [fld key "fingerprint"; fld key "keyFingerprint"; fld it "fingerprint"; fld it "keyFingerprint"] in
  let raw := ssh_raw it publicKey fingerprint in
  let subtitle := match fingerprint with [] => match publicKey with [] => js "SSH Key" | p => p end | f => f end in
  JObj [(js "id", JStr (to_string (fld it "id"))); (js "organizationId", fld raw "organizationId");
        (js "collectionIds", fld raw "collectionIds"); (js "folderId", fld raw "folderId"); (js "name", fld raw "name");
        (js "type", JStr (js "sshKey")); (js "typeCode", JNum (NZ 5)); (js "favorite", fld raw "favorite");
        (js "username", JStr []); (js "password", JStr []); (js "hasPassword", jbool false); (js "hasTotp", jbool false);
        (js "totpKey", JStr []); (js "uris", JArr []); (js "reprompt", fld raw "reprompt"); (js "attachments", JArr []);
        (js "hasAttachments", jbool false); (js "subtitle", JStr subtitle); (js "notes", JStr []);
        (js "publicKey", JStr publicKey); (js "fingerprint", JStr fingerprint); (js "rawObject", raw)].

Definition parseSshKeys (keys : jsval) : list jsval :=
  let arr := match keys with JArr l => l | _ => [] end in
  sort_items (map parse_ssh_key (List.filter (fun it => is_object it && truthy (fld it "id")) arr)).

(** ** The sanitized vault read *)

Record envelope := Envelope { env_items : list jsval; env_sshKeys : list jsval; env_confirmed : bool }.

(** The capability as the string the envelope carries. *)
Definition capability (confirmed : bool) : list Z := if confirmed then js "confirmed" else js "unconfirmed".

Definition parseSanitizedEnvelope (raw : list Z) : option envelope :=
  match parse raw with
  | Some env =>
      match fld env "items", fld env "sshKeys" with
      | JArr items, JArr keys =>
          let expected := (0 <? length keys)%nat in
          if negb (is_undef (fld env "sshCapability")) && negb (strict_eqb (fld env "sshCapability") (JStr (capability expected)))
          then None
          else
            let sshKeys := parseSshKeys (JArr keys) in
            Some (Envelope (sort_items (parseItems (JArr items) ++ sshKeys)) sshKeys expected)
      | _, _ => None
      end
  | None => None
  end.

(** [{state, keyCount, message}] *)
Definition sshCapabilityOf (parsed : option envelope) : list Z * Z * list Z :=
  match parsed with
  | None => (js "unknown", 0, js "SSH key availability has not been checked yet.")
  | Some e =>
      if env_confirmed e
      then let n := Z.of_nat (length (env_sshKeys e)) in
           (js "confirmed", n, if n =? 1 then js "1 SSH key found." else Z_to_str n ++ js " SSH keys found.")
      else (js "unconfirmed", 0, js "No SSH keys were returned. Server support remains unconfirmed.")
  end.

Definition parseSanitizedItems (raw : list Z) : list jsval :=
  match parseSanitizedEnvelope raw with Some e => env_items e | None => [] end.

Definition readSanitizedVault (raw : list Z) : list jsval * (list Z * Z * list Z) :=
  let e := parseSanitizedEnvelope raw in
  (match e with Some e => env_items e | None => [] end, sshCapabilityOf e).

(** ** Rows around a save *)

Definition PENDING_ID_PREFIX : list Z := js "qsbw-pending:".
Definition pendingItemId (seed : jsval) : list Z := PENDING_ID_PREFIX ++ to_string seed.
Definition isPendingItemId (id : jsval) : bool := starts_with PENDING_ID_PREFIX (text id).

Definition has_id (id : jsval) (row : jsval) : bool := truthy row && strict_eqb (fld row "id") id.

Definition findItemById (items id : jsval) : option jsval := List.find (has_id id) (toList items).

(** [JSON.parse(JSON.stringify(payload))] of an object, then the two fields set. *)
Definition optimisticItem (payload itemId : jsval) : option jsval :=
  if negb (truthy payload) then None
  else
    match parse (stringify payload) with
    | Some (JObj draft) =>
        let draft := obj_set (obj_set draft (js "id") (JStr (text itemId))) (js "object") (JStr (js "item")) in
        match parseItems (JArr [JObj draft]) with
        | [JObj row] => Some (JObj (obj_set row (js "pending") (jbool true)))
        | _ => None
        end
    | _ => None
    end.

Definition replace_rows (existing : list jsval) (id : jsval) (replacement : option jsval) : list jsval :=
  flat_map (fun row => if has_id id row then option_list replacement else [row]) existing.

Definition replaceItemById (items id : jsval) (replacement : option jsval) : list jsval :=
  let existing := toList items in
  let out := replace_rows existing id replacement in
  let out := if existsb (has_id id) existing then out else out ++ option_list replacement in
  sort_items out.

(** [None] is [null]: the caller reloads.  The list [env_items] already holds the
    SSH keys. *)
Definition spliceSavedItem (items : jsval) (raw : list Z) (replacingId : jsval) : option (list jsval) :=
  match parseSanitizedEnvelope raw with
  | None => None
  | Some e =>
      match env_items e ++ env_sshKeys e with
      | [one] =>
          if truthy one && truthy (fld one "id")
          then Some (replaceItemById items (if truthy replacingId then JStr (to_string replacingId) else fld one "id") (Some one))
          else None
      | _ => None
      end
  end.
End rows.

(** ** Details *)

Definition itemDetailFromObject (it : jsval) : option jsval :=
  if negb (is_object it) then None
  else if num_eqb (to_number (fld it "type")) (NZ 5) then
    let sshKey := fld_obj it "sshKey" in
    Some (JObj [text_field it "id"; (js "organizationId", id_or_null (fld it "organizationId"));
      (js "collectionIds", strings (idList (fld it "collectionIds"))); (js "folderId", id_or_null (fld it "folderId"));
      (js "name", JStr (text_or (fld it "name") (js "Untitled")));
      (js "type", JStr (js "sshKey")); (js "typeCode", JNum (NZ 5)); (js "favorite", jbool (truthy (fld it "favorite")));
      (js "notes", JStr []); (js "username", JStr []); (js "password", JStr []); (js "hasPassword", jbool false);
      (js "hasTotp", jbool false); (js "totpKey", JStr []); (js "uris", JArr []);
      (js "reprompt", JNum (NZ (repromptValue (fld it "reprompt")))); (js "attachments", JArr []);
      (js "hasAttachments", jbool false); (js "card", JNull); (js "identity", JNull); (js "fields", JArr []);
      (js "publicKey", JStr (first_text [fld sshKey "publicKey"; fld it "publicKey"]));
      (js "fingerprint", JStr (first_text [fld sshKey "fingerprint"; fld sshKey "keyFingerprint"; fld it "fingerprint"; fld it "keyFingerprint"]));
      (js "rawObject", it)])
  else
    let login := fld_obj it "login" in
    let attachments := parseAttachments (fld it "attachments") in
    Some (JObj (item_head it ++
      [text_field it "notes"; text_field login "username"; text_field login "password";
       (js "hasPassword", jbool (truthy (fld login "password"))); (js "hasNotes", jbool (truthy (fld it "notes")));
       (js "hasTotp", jbool (truthy (fld login "totp"))); (js "totpKey", JStr (text (fld login "totp")));
       (js "uris", strings (loginUris login)); (js "reprompt", JNum (NZ (repromptValue (fld it "reprompt"))));
       (js "attachments", JArr attachments); (js "hasAttachments", jbool (0 <? length attachments)%nat);
       (js "card", cardDetail (fld it "card")); (js "identity", identityDetail (fld it "identity"));
       (js "fields", JArr (itemCustomFields (fld it "fields") it)); (js "rawObject", it)])).

Definition parseItemDetail (raw : list Z) : option jsval :=
  match parse raw with Some it => itemDetailFromObject it | None => None end.

(** ** The public view *)

Definition WITHHELD : list Z := [8226].

(** Whether the row of a secret is drawn. *)
Definition secret_shown (src : jsval) (flag : string) (value : list Z) : bool :=
  let flags := if is_object (fld src "heldFlags") then fld src "heldFlags" else JObj [] in
  if is_undef (fld flags flag) then truthy (fld src "secretsHeld") || negb (bool_decide (value = []))
  else truthy (fld flags flag).

(** The placeholder in place of a secret, or nothing. *)
Definition withheld (src : jsval) (flag : string) (value : list Z) : jsval :=
  JStr (if secret_shown src flag value then WITHHELD else []).

Definition public_card (src card : jsval) : jsval :=
  if negb (truthy card) then JNull
  else JObj (map (fun k =>
    let value := text (fld card k) in
    (js k, if String.eqb k "number" then JStr (if bool_decide (value = []) then [] else WITHHELD)
           else if String.eqb k "code" then withheld src "cardCode" value
           else JStr value)) CARD_FIELDS).

Definition public_identity (src identity : jsval) : jsval :=
  if negb (truthy identity) then JNull
  else JObj (map (fun k =>
    let value := text (fld identity k) in
    (js k, if String.eqb k "ssn" || String.eqb k "passportNumber" || String.eqb k "licenseNumber"
           then withheld src k value else JStr value)) IDENTITY_FIELDS).

Definition public_field (f : jsval) : jsval :=
  JObj [(js "name", fld f "name"); (js "value", if truthy (fld f "sensitive") then JStr WITHHELD else fld f "value");
        (js "type", fld f "type"); (js "linkedId", fld f "linkedId"); (js "sensitive", fld f "sensitive"); (js "index", fld f "index")].

Definition publicItemDetail (src : jsval) : option jsval :=
  if negb (is_object src) then None
  else
    let attachments := toList (fld src "attachments") in
    Some (JObj
      [text_field src "id"; (js "organizationId", id_or_null (fld src "organizationId"));
       (js "collectionIds", strings (idList (fld src "collectionIds"))); (js "folderId", id_or_null (fld src "folderId"));
       (js "name", JStr (text_or (fld src "name") (js "Untitled"))); (js "type", fld src "type");
       (js "typeCode", JNum (to_number (js_or (fld src "typeCode") (JNum (NZ 1)))));
       (js "favorite", jbool (truthy (fld src "favorite"))); (js "notes", JStr []); text_field src "username";
       (js "password", JStr []); (js "hasPassword", jbool (truthy (fld src "hasPassword")));
       (js "hasNotes", jbool (truthy (fld src "hasNotes") || truthy (fld src "notes")));
       (js "hasTotp", jbool (truthy (fld src "hasTotp"))); (js "totpKey", JStr []); (js "uris", JArr (toList (fld src "uris")));
       (js "reprompt", JNum (NZ (repromptValue (fld src "reprompt")))); (js "attachments", JArr attachments);
       (js "hasAttachments", jbool (0 <? length attachments)%nat); (js "card", public_card src (fld src "card"));
       (js "identity", public_identity src (fld src "identity")); (js "fields", JArr (map public_field (toList (fld src "fields"))));
       (js "rawObject", JNull); (js "secretsWithheld", jbool true)]).

(** [None] is [null].  The last field with the index wins. *)
Definition detailSecretValue (detail key : jsval) : option (list Z) :=
  if negb (is_object detail) then None
  else
    let card := fld_obj detail "card" in
    let identity := fld_obj detail "identity" in
    let values := [(js "password", fld detail "password"); (js "notes", fld detail "notes");
                   (js "cardNumber", fld card "number"); (js "cardCode", fld card "code"); (js "ssn", fld identity "ssn");
                   (js "passportNumber", fld identity "passportNumber"); (js "licenseNumber", fld identity "licenseNumber")] in
    let value := default JUndef (own (to_string key) values) in
    let prefix := js "customField:" in
    let value :=
      if starts_with prefix (to_string key) then
        let index := string_to_num (drop (length prefix) (to_string key)) in
        fold_left (fun value f => if strict_eqb (fld f "index") (JNum index) then fld f "value" else value)
          (toList (fld detail "fields")) value
      else value in
    if is_nullish value then None else Some (to_string value).

(** ** Search and filters *)

Section search.
  Context `{!CaseTables}.

(** [String(value || "").toLowerCase().indexOf(q) !== -1] *)
Definition has_text (q : list Z) (value : jsval) : bool := contains q (to_lower (text value)).

(** [s.replace(/\D/g, "")] *)
Definition digits_only (s : list Z) : list Z := List.filter is_digit s.

(** The last four digits of a card number, as the row shows them. *)
Definition matches_card (q : list Z) (card : jsval) : bool :=
  has_text q (fld card "brand") || has_text q (fld card "cardholderName")
  || (let digits := digits_only (text (fld card "number")) in
      (4 <=? length digits)%nat && contains (digits_only q) (drop (length digits - 4) digits)
      && negb (bool_decide (digits_only q = []))).

Definition matches_identity (q : list Z) (identity : jsval) : bool :=
  has_text q (JStr (identityFullName identity)) || has_text q (fld identity "email")
  || has_text q (fld identity "username") || has_text q (fld identity "company").

Definition matchesQuery (item query : jsval) : bool :=
  if negb (truthy query) then true
  else
    let q := trim (to_lower (to_string query)) in
    if bool_decide (q = []) then true
    else
      let notesSearchable := negb (num_eqb (to_number (fld item "reprompt")) (NZ 1)) in
      has_text q (fld item "name") || has_text q (fld item "username")
      || (notesSearchable && has_text q (fld item "notes"))
      || has_text q (fld item "publicKey") || has_text q (fld item "fingerprint")
      || (truthy (fld item "card") && matches_card q (fld item "card"))
      || (truthy (fld item "identity") && matches_identity q (fld item "identity"))
      || existsb (has_text q) (toList (fld item "uris")).

Definition matchesOrganizationFilter (item : jsval) (organization : list Z) : bool :=
  if str_eqb organization (js "personal") then negb (truthy (fld item "organizationId"))
  else str_eqb organization (js "all") || strict_eqb (fld item "organizationId") (JStr organization).

Definition matchesFolderFilter (item : jsval) (folder : list Z) : bool :=
  if str_eqb folder (js "none") then negb (truthy (fld item "folderId"))
  else str_eqb folder (js "all") || strict_eqb (fld item "folderId") (JStr folder).

Definition matchesCategoryFilter (item : jsval) (category : list Z) : bool :=
  if str_eqb category (js "favorite") then truthy (fld item "favorite")
  else str_eqb category (js "all") || str_eqb (to_lower (text (fld item "type"))) (to_lower category).

Definition filterItems (items query category selectedOrg selectedFolder : jsval) : list jsval :=
  match items with
  | JArr items =>
      let q := trim (to_lower (text query)) in
      let cat := to_lower (text_or category (js "all")) in
      let org := text_or selectedOrg (js "all") in
      let folder := text_or selectedFolder (js "all") in
      List.filter (fun it =>
        matchesOrganizationFilter it org && matchesFolderFilter it folder && matchesCategoryFilter it cat
        && (bool_decide (q = []) || matchesQuery it (JStr q))) items
  | _ => []
  end.
End search.
