(* ===== verification/Payload.v ===== *)
(** * Create and edit payloads ([BitwardenModel.js])

    What a save sends to bw.  An edit writes the form over a copy of the stored
    item: anything the form did not change is written back exactly as stored. *)

From Stdlib Require Import QArith_base Qround.
From S2P Require Import Prelude.
From S2P Require Import JsNum.
From S2P Require Import JsString.
From S2P Require Import JsUnicode.
From S2P Require Import JsValue.
From S2P Require Import Json.
From S2P Require Import Items.
Local Open Scope Z_scope.

Definition object := list (list Z * jsval).

(** ** The form *)

(** The empty string accepts. *)
Definition validateItemForm (name organizationId collectionIds customFields : jsval) : list Z :=
  if bool_decide (trim (text name) = []) then js "Item title is required"
  else
    let isOrg := truthy organizationId && negb (strict_eqb organizationId (JStr (js "personal")))
                 && negb (strict_eqb organizationId (JStr (js "all"))) in
    if isOrg && match collectionIds with JArr (_ :: _) => false | _ => true end
    then js "Pick at least one collection for an organization item"
    else
      match List.find (fun ix => negb (truthy ix.2) || bool_decide (trim (text (fld ix.2 "name")) = []))
              (indexed (toList customFields) 0) with
      | Some ix => js "Custom field " ++ Z_to_str (ix.1 + 1) ++ js " needs a label"
      | None => []
      end.

Definition MASK : list Z := replicate 8 8226.
Definition maskString (str : jsval) : list Z := if truthy str then MASK else [].

Definition selectedOrganizationId (organizationId : jsval) : jsval :=
  if negb (truthy organizationId) || strict_eqb organizationId (JStr (js "personal")) || strict_eqb organizationId (JStr (js "all"))
  then JNull else JStr (to_string organizationId).

Definition selectedFolderId (folderId : jsval) : jsval :=
  if negb (truthy folderId) || strict_eqb folderId (JStr (js "all")) || strict_eqb folderId (JStr (js "none"))
  then JNull else JStr (to_string folderId).

(** [null] is [JNull]. *)
Definition selectedCollectionIds (collectionIds : jsval) : jsval :=
  match collectionIds with JArr ((_ :: _) as l) => JArr l | _ => JNull end.

(** [clean] absent is [None]. *)
Definition formValue (stored typed : jsval) (clean : option (list Z -> jsval)) : jsval :=
  let value := text_present typed in
  let had := text_present stored in
  if str_eqb value had then (if is_undef stored then JStr value else stored)
  else match clean with Some f => f value | None => JStr value end.

Definition trimmedText (value : list Z) : jsval := JStr (trim value).
Definition trimmedOrNull (value : list Z) : jsval := match trim value with [] => JNull | t => JStr t end.

(** [o[k] = formValue(o[k], typed, clean)] *)
Definition set_form (o : object) (k : string) (typed : jsval) (clean : option (list Z -> jsval)) : object :=
  obj_set o (js k) (formValue (obj_get o (js k)) typed clean).

Definition updateLoginFields (login : object) (username password totp : jsval) : object :=
  let login := set_form login "username" username (Some trimmedText) in
  let login := set_form login "password" password None in
  set_form login "totp" totp (Some trimmedOrNull).

(** [for (k in first) replaced[k] = first[k]] *)
Definition copy_object (v : jsval) : object :=
  match v with
  | JObj kvs => fold_left (fun o kv => obj_set o kv.1 kv.2) (entries kvs) []
  | JArr l => map (fun ix => (nat_to_str ix.1, ix.2)) (indexed l 0)
  | _ => []
  end.

Definition editedUris (stored typed : jsval) : jsval :=
  let t := text_present typed in
  match List.filter is_object (toList stored) with
  | [] =>
      match trim t with
      | [] => if is_undef stored then JArr [] else stored
      | u => JArr [JObj [(js "match", JNull); (js "uri", JStr u)]]
      end
  | first :: rest =>
      if str_eqb t (text_present (fld first "uri")) then JArr (first :: rest)
      else match trim t with
           | [] => JArr rest
           | u =>
               let replaced := copy_object first in
               let replaced := obj_set replaced (js "match") (if is_undef (fld first "match") then JNull else fld first "match") in
               let replaced := obj_set replaced (js "uri") (JStr u) in
               JArr (JObj replaced :: rest)
           end
  end.

(** Every field of a type, in order. *)
Definition set_fields (keys : list string) (o : object) (fields : jsval) : object :=
  let f := js_or fields (JObj []) in
  fold_left (fun o k => set_form o k (fld f k) (Some trimmedText)) keys o.

Definition updateCardFields (card : object) (fields : jsval) : object := set_fields CARD_FIELDS card fields.
Definition updateIdentityFields (identity : object) (fields : jsval) : object := set_fields IDENTITY_FIELDS identity fields.

Section payloads.
  Context `{!CaseTables}.

Definition clean_field (field : jsval) : jsval :=
  let type := to_number (fld field "type") in
  let type := if num_ltb type (NZ 0) || num_ltb (NZ 3) type || num_is_nan type then NZ 0 else type in
  JObj ([(js "name", JStr (to_string (fld field "name"))); (js "type", JNum type)] ++
    (if num_eqb type (NZ 3)
     then (js "value", JNull) :: if is_nullish (fld field "linkedId") then [] else [(js "linkedId", JNum (to_number (fld field "linkedId")))]
     else if num_eqb type (NZ 2)
     then [(js "value", JStr (if is_true (fld field "value") || str_eqb (to_lower (to_string (fld field "value"))) (js "true")
                              then js "true" else js "false"))]
     else [(js "value", JStr (text_present (fld field "value")))])).

Definition customFieldsPayload (fields : jsval) : list jsval :=
  map clean_field
    (List.filter (fun f => truthy f && negb (bool_decide (trim (text (fld f "name")) = []))) (toList fields)).

(** [if (customFields !== undefined) payload.fields = ...] *)
Definition set_custom_fields (payload : object) (customFields : jsval) : object :=
  if is_undef customFields then payload else obj_set payload (js "fields") (JArr (customFieldsPayload customFields)).

(** The form's values, in the order of the parameters. *)
Record form := Form {
  f_name : jsval; f_username : jsval; f_password : jsval; f_totp : jsval; f_uri : jsval; f_notes : jsval;
  f_favorite : jsval; f_organizationId : jsval; f_folderId : jsval; f_collectionIds : jsval;
  f_typeFields : jsval; f_customFields : jsval
}.

(** [None] is [null]. *)
Definition buildCreatePayload (typeCode : jsval) (f : form) : option object :=
  let is_type k := num_eqb (to_number typeCode) (NZ k) in
  if is_type 5 then None
  else
    let organizationId := selectedOrganizationId (f_organizationId f) in
    let payload :=
      [(js "type", JNum (to_number (js_or typeCode (JNum (NZ 1)))));
       (js "name", JStr (trim (text_or (f_name f) (js "Untitled"))));
       (js "notes", JStr (text_present (f_notes f)));
       (js "favorite", JBool (truthy (f_favorite f)));
       (js "organizationId", organizationId);
       (js "folderId", selectedFolderId (f_folderId f))] in
    let collections := selectedCollectionIds (f_collectionIds f) in
    let payload := if truthy organizationId && truthy collections then obj_set payload (js "collectionIds") collections else payload in
    let payload :=
      if is_type 1 then
        let login := updateLoginFields [] (f_username f) (f_password f) (f_totp f) in
        obj_set payload (js "login") (JObj (obj_set login (js "uris") (editedUris JUndef (f_uri f))))
      else if is_type 2 then obj_set payload (js "secureNote") (JObj [(js "type", JNum (NZ 0))])
      else if is_type 3 then obj_set payload (js "card") (JObj (updateCardFields [] (f_typeFields f)))
      else if is_type 4 then obj_set payload (js "identity") (JObj (updateIdentityFields [] (f_typeFields f)))
      else payload in
    Some (set_custom_fields payload (f_customFields f)).

(** [payload.k], an object to write into; [{}] if it is falsy. *)
Definition sub_object (payload : object) (k : string) : object :=
  match obj_get payload (js k) with JObj o => o | _ => [] end.

(** The fields every edit writes. *)
Definition edit_common (payload : object) (f : form) : object :=
  let payload := set_form payload "name" (JStr (text_or (f_name f) (js "Untitled"))) (Some trimmedText) in
  let payload := set_form payload "notes" (f_notes f) None in
  let payload := obj_set payload (js "favorite") (JBool (truthy (f_favorite f))) in
  let organizationId := selectedOrganizationId (f_organizationId f) in
  let payload := obj_set payload (js "organizationId") organizationId in
  let payload := obj_set payload (js "folderId") (selectedFolderId (f_folderId f)) in
  if truthy organizationId
  then obj_set payload (js "collectionIds")
         (js_or (selectedCollectionIds (f_collectionIds f)) (js_or (obj_get payload (js "collectionIds")) (JArr [])))
  else obj_delete payload (js "collectionIds").

(** The fields of the item's own type.  The stored sub-objects are objects or
    absent. *)
Definition edit_typed (payload : object) (f : form) : object :=
  let type := obj_get payload (js "type") in
  if strict_eqb type (JNum (NZ 1)) || negb (truthy type) then
    let login := updateLoginFields (sub_object payload "login") (f_username f) (f_password f) (f_totp f) in
    obj_set payload (js "login") (JObj (obj_set login (js "uris") (editedUris (obj_get login (js "uris")) (f_uri f))))
  else if strict_eqb type (JNum (NZ 3)) && truthy (f_typeFields f)
  then obj_set payload (js "card") (JObj (updateCardFields (sub_object payload "card") (f_typeFields f)))
  else if strict_eqb type (JNum (NZ 4)) && truthy (f_typeFields f)
  then obj_set payload (js "identity") (JObj (updateIdentityFields (sub_object payload "identity") (f_typeFields f)))
  else payload.

(** An SSH key is never edited. *)
Definition is_ssh_item (existingItem : jsval) : bool :=
  truthy existingItem &&
  (num_eqb (to_number (js_or (fld existingItem "typeCode") (fld existingItem "type"))) (NZ 5)
   || (truthy (fld existingItem "rawObject") && num_eqb (to_number (fld (fld existingItem "rawObject") "type")) (NZ 5))).

(** The copy an edit starts from. *)
Definition edit_base (existingItem : jsval) : object :=
  if truthy existingItem && truthy (fld existingItem "rawObject")
  then match parse (stringify (fld existingItem "rawObject")) with Some (JObj o) => o | _ => [] end
  else [].

Definition buildEditPayload (existingItem : jsval) (f : form) : option object :=
  if is_ssh_item existingItem then None
  else Some (set_custom_fields (edit_typed (edit_common (edit_base existingItem) f) f) (f_customFields f)).
End payloads.
