(* ===== verification/ItemsCorrect.v ===== *)
(** * Correctness of item rows, the public view, search and payloads *)

From Stdlib Require Import QArith_base Qround Sorting.Sorted.
From S2P Require Import Prelude.
From S2P Require Import JsNum.
From S2P Require Import JsString.
From S2P Require Import JsUnicode.
From S2P Require Import JsValue.
From S2P Require Import Json.
From S2P Require Import Items.
From S2P Require Import Payload.
Local Open Scope Z_scope.

(** ** Order of rows *)

Section order.
  Context `{!Collation}.

Lemma items_le_total a b : items_le a b = false -> items_le b a = true.
Proof.
  unfold items_le.
  destruct (is_favorite a), (is_favorite b); cbn [Bool.eqb]; try done; apply name_le_total.
Qed.

Lemma items_le_trans a b c : items_le a b = true -> items_le b c = true -> items_le a c = true.
Proof.
  unfold items_le. destruct (is_favorite a), (is_favorite b), (is_favorite c); cbn [Bool.eqb]; try done; apply name_le_trans.
Qed.

Lemma sort_items_sorted l : sorted_by items_le (sort_items l).
Proof. apply sort_by_sorted; [apply items_le_total|apply items_le_trans]. Qed.

(** ** Replacing a row *)

Lemma replace_rows_none rows id r : existsb (has_id id) rows = false -> replace_rows rows id r = rows.
Proof.
  unfold replace_rows. induction rows as [|x rows IH]; cbn; [done|]. intros [-> Hn]%orb_false_iff. cbn. by rewrite IH.
Qed.

(** Rows with distinct ids: at most one is replaced. *)
Definition ids_distinct (rows : list jsval) : Prop :=
  forall id, (length (List.filter (has_id id) rows) <= 1)%nat.

Lemma filter_none {A} (p : A -> bool) l : existsb p l = false -> List.filter p l = [] /\ List.filter (fun x => negb (p x)) l = l.
Proof.
  induction l as [|x l IH]; cbn; [done|]. intros [-> Hn]%orb_false_iff. cbn. destruct (IH Hn) as [-> ->]. done.
Qed.

Lemma filter_nil_existsb {A} (p : A -> bool) l : List.filter p l = [] -> existsb p l = false.
Proof. induction l as [|x l IH]; cbn; [done|]. by destruct (p x). Qed.

Lemma replace_rows_perm rows id r : (length (List.filter (has_id id) rows) <= 1)%nat -> existsb (has_id id) rows = true ->
  replace_rows rows id r ≡ₚ option_list r ++ List.filter (fun x => negb (has_id id x)) rows.
Proof.
  unfold replace_rows. induction rows as [|x rows IH]; cbn [existsb flat_map List.filter]; [done|].
  destruct (has_id id x); cbn [negb orb length].
  - intros Hl _. assert (E : existsb (has_id id) rows = false).
    { apply filter_nil_existsb. destruct (List.filter (has_id id) rows); [done|cbn in Hl; lia]. }
    fold (replace_rows rows id r). rewrite replace_rows_none by done. by rewrite (proj2 (filter_none _ _ E)).
  - intros Hl He. rewrite (IH Hl He). cbn. by rewrite Permutation_middle.
Qed.

(** Putting a saved item into the list of rows with distinct ids keeps every
    other row exactly once, holds the new row exactly once when there is one (none
    on a removal), and leaves the list in display order: favorites first, then by
    name. *)
Theorem replace_item_spec rows id r :
  (length rows <= MAX_LIST_ENTRIES)%nat -> ids_distinct rows ->
  let out := replaceItemById (JArr rows) id r in
  sorted_by items_le out /\ out ≡ₚ option_list r ++ List.filter (fun x => negb (has_id id x)) rows.
Proof.
  intros Hl Hd. cbn zeta. unfold replaceItemById. split; [apply sort_items_sorted|].
  unfold sort_items. rewrite sort_by_perm. cbn [toList]. rewrite take_ge by done.
  destruct (existsb (has_id id) rows) eqn:E; [by apply replace_rows_perm|].
  rewrite replace_rows_none by done. rewrite (proj2 (filter_none _ _ E)). apply Permutation_app_comm.
Qed.
End order.

(** ** Attachment names *)

Lemma drop_while_head_false p s c r : drop_while p s = c :: r -> p c = false.
Proof. intros H. pose proof (drop_while_spec p s) as Hs. by rewrite H in Hs. Qed.

Lemma drop_trailing_prefix p s : exists t, s = drop_trailing p s ++ t.
Proof.
  unfold drop_trailing. destruct (drop_while_suffix p (rev s)) as (a & E & _). exists (rev a).
  rewrite <- rev_app_distr, <- E. by rewrite rev_involutive.
Qed.

Lemma Forall_drop_while (P : Z -> Prop) p s : Forall P s -> Forall P (drop_while p s).
Proof. intros Hs. destruct (drop_while_suffix p s) as (a & E & _). rewrite E in Hs. by apply Forall_app in Hs as [_ ?]. Qed.

Lemma Forall_drop_trailing (P : Z -> Prop) p s : Forall P s -> Forall P (drop_trailing p s).
Proof. intros Hs. unfold drop_trailing. apply Forall_rev, Forall_drop_while, Forall_rev. done. Qed.

Definition inert_unit (c : Z) : Prop := is_control c = false /\ is_separator c = false.
Definition inert_head (c : Z) : bool := negb (is_space c || (c =? 46) || (c =? 45)).

Lemma clean_units s : Forall inert_unit (map (fun c => if is_control c || is_separator c then 95 else c) s).
Proof.
  induction s as [|c s IH]; constructor; [|done]. destruct (is_control c) eqn:E1, (is_separator c) eqn:E2; cbn; by split.
Qed.

(** A name made safe is short, inert and visible. *)
Lemma safe_name raw :
  let n := safeAttachmentFileName raw in
  n <> [] /\ (length n <= 128)%nat /\ Forall inert_unit n /\ match n with c :: _ => inert_head c = true | [] => True end.
Proof.
  unfold safeAttachmentFileName. set (base := match last_separator _ with Some _ => _ | None => _ end).
  set (m := map _ base). set (d := drop_while _ m). set (t := drop_trailing is_space d).
  assert (Ht : Forall inert_unit t) by (apply Forall_drop_trailing, Forall_drop_while, clean_units).
  assert (Hh : match t with c :: _ => inert_head c = true | [] => True end).
  { destruct t as [|c r] eqn:E; [done|]. destruct (drop_trailing_prefix is_space d) as [u Hu]. fold t in Hu. rewrite E in Hu.
    unfold inert_head. apply negb_true_iff.
    exact (drop_while_head_false (fun c => is_space c || (c =? 46) || (c =? 45)) m c (r ++ u) Hu). }
  clearbody t. clear d m base. cbn zeta.
  destruct (Nat.ltb_spec 128 (length t)) as [Hl|Hl].
  - set (ext := match last_index_of 46 t with Some _ => _ | None => _ end).
    assert (He : (length ext <= 12)%nat /\ Forall inert_unit ext).
    { unfold ext. destruct (last_index_of 46 t) as [i|]; [|split; [cbn; lia|constructor]].
      destruct ((0 <? i)%nat && (length t - i <=? 12)%nat) eqn:E; [|split; [cbn; lia|constructor]].
      apply andb_true_iff in E as [_ E%Nat.leb_le]. rewrite length_drop. split; [done|by apply Forall_drop]. }
    destruct He as [Hel Hei]. destruct t as [|c r]; [cbn in Hl; lia|].
    assert (E : exists k, (128 - length ext)%nat = S k) by (exists (127 - length ext)%nat; lia). destruct E as [k Ek].
    rewrite Ek. cbn [take app]. split_and!; [done| | |done].
    + cbn [length] in *. rewrite length_app, length_take. lia.
    + apply Forall_cons in Ht as [Hc Hr]. constructor; [done|]. apply Forall_app_2; [by apply Forall_take|done].
  - destruct t as [|c r]; [split_and!; [done|cbn; lia|repeat constructor|done]|]. split_and!; done.
Qed.

(** Every unit of a safe name comes from the name, an underscore or the fallback. *)
Lemma safe_name_units (P : Z -> Prop) raw : P 95 -> Forall P (js "attachment") -> Forall P (text raw) -> Forall P (safeAttachmentFileName raw).
Proof.
  intros H95 Ha Hs. unfold safeAttachmentFileName. set (base := match last_separator _ with Some _ => _ | None => _ end).
  assert (Hb : Forall P base) by (unfold base; destruct (last_separator _); [by apply Forall_drop|done]).
  set (t := drop_trailing is_space _).
  assert (Ht : Forall P t).
  { apply Forall_drop_trailing, Forall_drop_while, Forall_fmap. eapply Forall_impl; [exact Hb|]. intros c Hc. unfold compose. by destruct (_ || _). }
  clearbody t. cbv zeta.
  assert (Hn : Forall P (if (128 <? length t)%nat then
      let ext := match last_index_of 46 t with Some dot => if (0 <? dot)%nat && (length t - dot <=? 12)%nat then drop dot t else [] | None => [] end in
      take (128 - length ext) t ++ ext else t)).
  { destruct (128 <? length t)%nat; [|done]. cbv zeta. apply Forall_app_2; [by apply Forall_take|].
    destruct (last_index_of 46 t); [|done]. destruct (_ && _); [by apply Forall_drop|done]. }
  cbv zeta in Hn. by destruct (if (128 <? length t)%nat then _ else _).
Qed.

(** Whatever a server names an attachment, the file name it is saved under is
    not empty, has at most 128 units, holds no control character and no path
    separator, and starts with neither a dot, a dash nor a space: it can neither
    leave the directory, hide, nor be read as an option. *)
Theorem safe_name_spec raw :
  let n := safeAttachmentFileName raw in
  n <> [] /\ (length n <= 128)%nat /\ Forall inert_unit n /\ match n with c :: _ => inert_head c = true | [] => True end.
Proof. exact (safe_name raw). Qed.

(** ** The public view *)

Lemma fld_set_ne kvs k k' v : str_eqb (js k) (js k') = false -> fld (JObj (obj_set kvs (js k) v)) k' = fld (JObj kvs) k'.
Proof. intros Hne%str_eqb_neq. unfold fld. cbn [get]. unfold obj_get. by rewrite own_set_ne. Qed.

(** Nothing, or the placeholder. *)
Definition withheld_value (v : jsval) : Prop := v = JStr [] \/ v = JStr WITHHELD \/ v = JUndef.

Lemma withheld_ok src flag value : withheld_value (withheld src flag value).
Proof. unfold withheld. destruct (secret_shown src flag value); [by right; left|by left]. Qed.

Lemma public_card_withheld src card :
  withheld_value (fld (public_card src card) "number") /\ withheld_value (fld (public_card src card) "code").
Proof.
  unfold public_card. destruct (truthy card); cbn [negb]; [|split; by right; right].
  change (fld _ "code") with (withheld src "cardCode" (text (fld card "code"))). split; [|apply withheld_ok].
  change (fld _ "number") with (JStr (if bool_decide (text (fld card "number") = []) then [] else WITHHELD)).
  case_bool_decide; [by left|by right; left].
Qed.

Lemma public_identity_withheld src identity k :
  k = "ssn"%string \/ k = "passportNumber"%string \/ k = "licenseNumber"%string ->
  withheld_value (fld (public_identity src identity) k).
Proof.
  intros Hk. unfold public_identity. destruct (truthy identity); cbn [negb]; [|by right; right].
  destruct Hk as [->|[->| ->]].
  - change (fld _ "ssn") with (withheld src "ssn" (text (fld identity "ssn"))). apply withheld_ok.
  - change (fld _ "passportNumber") with (withheld src "passportNumber" (text (fld identity "passportNumber"))). apply withheld_ok.
  - change (fld _ "licenseNumber") with (withheld src "licenseNumber" (text (fld identity "licenseNumber"))). apply withheld_ok.
Qed.

Lemma public_field_withheld f : truthy (fld f "sensitive") = true -> fld (public_field f) "value" = JStr WITHHELD.
Proof. intros H. change (fld (public_field f) "value") with (if truthy (fld f "sensitive") then JStr WITHHELD else fld f "value"). by rewrite H. Qed.

(** The fields of a source the public view never looks at. *)
Lemma public_ignores kvs k v :
  k = "password"%string \/ k = "totpKey"%string \/ k = "rawObject"%string ->
  publicItemDetail (JObj (obj_set kvs (js k) v)) = publicItemDetail (JObj kvs).
Proof.
  intros Hk. unfold publicItemDetail, text_field, public_card, public_identity, withheld, secret_shown.
  cbn [is_object negb]. destruct Hk as [->|[->| ->]]; rewrite !fld_set_ne by reflexivity; reflexivity.
Qed.

(** ** Search *)

Section searching.
  Context `{!CaseTables}.

(** The notes of an item that asks for the master password are not searched. *)
Lemma reprompt_notes_hidden kvs v q : num_eqb (to_number (fld (JObj kvs) "reprompt")) (NZ 1) = true ->
  matchesQuery (JObj (obj_set kvs (js "notes") v)) q = matchesQuery (JObj kvs) q.
Proof.
  intros Hr. unfold matchesQuery. rewrite (fld_set_ne kvs "notes" "reprompt"), Hr by reflexivity. cbn [negb andb].
  by rewrite !fld_set_ne by reflexivity.
Qed.

(** Every row that passes was in the list, in the same order. *)
Lemma filter_sublist items q c o f : filterItems (JArr items) q c o f `sublist_of` items.
Proof.
  unfold filterItems. induction items as [|x items IH]; cbn [List.filter]; [done|].
  match goal with |- context [if ?b then _ else _] => destruct b end; by constructor.
Qed.
End searching.

(** ** Edits *)

Lemma obj_set_same o k v : own k o = Some v -> obj_set o k v = o.
Proof.
  induction o as [|[k' v'] o IH]; cbn; [done|]. destruct (str_eqb k' k) eqn:E; [|by intros; rewrite IH].
  intros [= ->]. done.
Qed.

Lemma obj_delete_absent o k : own k o = None -> obj_delete o k = o.
Proof.
  induction o as [|[k' v'] o IH]; cbn; [done|]. destruct (str_eqb k' k); [done|]. intros H. cbn. unfold obj_delete in IH. by rewrite IH.
Qed.

Lemma own_set_form o k typed clean k' : js k <> k' -> own k' (set_form o k typed clean) = own k' o.
Proof. apply own_set_ne. Qed.

Lemma set_form_same o k typed clean v :
  own (js k) o = Some v -> is_undef v = false -> text_present typed = text_present v -> set_form o k typed clean = o.
Proof.
  intros Ho Hu Ht. unfold set_form, obj_get. rewrite Ho. unfold formValue. rewrite Ht, str_eqb_refl, Hu. by apply obj_set_same.
Qed.

(** The keys of a payload an edit may write. *)
Definition edit_keys : list (list Z) :=
  [js "name"; js "notes"; js "favorite"; js "organizationId"; js "folderId"; js "collectionIds"; js "login";
   js "card"; js "identity"; js "fields"].

Lemma edit_base_clean row kvs :
  truthy row = true -> fld row "rawObject" = JObj kvs -> json_clean (JObj kvs) = true -> edit_base row = kvs.
Proof. intros Hr Hf Hc. unfold edit_base. rewrite Hr, Hf. cbn [truthy andb]. by rewrite parse_stringify. Qed.

Section edits.
  Context `{!CaseTables}.

Ltac frame Hk := first [intros ->; apply Hk; unfold edit_keys; set_solver].

Lemma edit_common_frame o f k : k ∉ edit_keys -> own k (edit_common o f) = own k o.
Proof.
  intros Hk. assert (Hne : forall j, j ∈ edit_keys -> j <> k) by (intros j Hj ->; done).
  assert (Hm : forall j, existsb (str_eqb j) edit_keys = true -> j <> k).
  { intros j Hj. apply Hne. apply existsb_exists in Hj as (x & Hx & ->%str_eqb_eq). by apply list_elem_of_In. }
  unfold edit_common. destruct (truthy _);
    rewrite ?own_set_ne, ?own_delete_ne, ?own_set_ne, ?own_set_form by (apply Hm; vm_compute; reflexivity); done.
Qed.

Lemma edit_typed_frame o f k : k ∉ edit_keys -> own k (edit_typed o f) = own k o.
Proof.
  intros Hk. assert (Hm : forall j, existsb (str_eqb j) edit_keys = true -> j <> k).
  { intros j Hj ->. apply Hk. apply existsb_exists in Hj as (x & Hx & ->%str_eqb_eq). by apply list_elem_of_In. }
  unfold edit_typed. repeat case_match; try done; apply own_set_ne, Hm; vm_compute; reflexivity.
Qed.

(** C32: A save never touches a field of the stored item outside those the form
    edits: whatever else the vault keeps in the item, known to this program or
    not, is sent back as it was read, through the JSON copy the edit starts from. *)
Theorem edit_frame row kvs f k payload :
  truthy row = true -> fld row "rawObject" = JObj kvs -> json_clean (JObj kvs) = true ->
  buildEditPayload row f = Some payload -> k ∉ edit_keys -> own k payload = own k kvs.
Proof.
  intros Hr Hf Hc Hb Hk. unfold buildEditPayload in Hb. destruct (is_ssh_item row); [done|]. injection Hb as <-.
  rewrite (edit_base_clean row kvs) by done.
  assert (E : own k (set_custom_fields (edit_typed (edit_common kvs f) f) (f_customFields f)) = own k (edit_typed (edit_common kvs f) f)).
  { unfold set_custom_fields. case_match; [done|]. apply own_set_ne. intros <-. apply Hk. unfold edit_keys. set_solver. }
  by rewrite E, edit_typed_frame, edit_common_frame.
Qed.

(** ** A form that changes nothing *)

Lemma own_get o k v : own k o = Some v -> obj_get o k = v.
Proof. unfold obj_get. by intros ->. Qed.

Lemma edited_uris_same l : Forall (fun u => is_object u = true) l -> (length l <= MAX_LIST_ENTRIES)%nat ->
  editedUris (JArr l) (match l with u :: _ => JStr (text_present (fld u "uri")) | [] => JStr [] end) = JArr l.
Proof.
  intros Hl Hn. unfold editedUris. cbn [toList]. rewrite take_ge by done.
  assert (E : List.filter is_object l = l).
  { clear Hn. induction Hl as [|u l Hu Hl IH]; cbn; [done|]. by rewrite Hu, IH. }
  rewrite E. destruct l as [|u l]; [done|]. cbn [text_present is_nullish is_undef is_null orb to_string]. by rewrite str_eqb_refl.
Qed.

End edits.

(** ** Properties of the rows as a whole *)

Section listing.
  Context `{!CaseTables}.

(** Two rows that differ in their notes only, under a query. *)
Lemma filter_one_notes kvs v q c o f : num_eqb (to_number (fld (JObj kvs) "reprompt")) (NZ 1) = true ->
  (filterItems (JArr [JObj (obj_set kvs (js "notes") v)]) q c o f = []) <-> (filterItems (JArr [JObj kvs]) q c o f = []).
Proof.
  intros Hr. unfold filterItems. cbn [List.filter]. rewrite reprompt_notes_hidden by done.
  unfold matchesOrganizationFilter, matchesFolderFilter, matchesCategoryFilter. rewrite !fld_set_ne by reflexivity.
  match goal with |- context [if ?b then _ else _] => destruct b end; by split.
Qed.

(** Searching only selects: the rows shown are rows of the list, in its order
    and no more often; and an item that asks for the master password is shown or
    not whatever its notes say, so searching cannot be used to guess them. *)
Theorem search_selects items q c o f kvs v :
  filterItems (JArr items) q c o f `sublist_of` items
  /\ (num_eqb (to_number (fld (JObj kvs) "reprompt")) (NZ 1) = true ->
      (filterItems (JArr [JObj (obj_set kvs (js "notes") v)]) q c o f = []) <-> (filterItems (JArr [JObj kvs]) q c o f = [])).
Proof. split; [apply filter_sublist|apply filter_one_notes]. Qed.
End listing.

Definition empty_text (d : jsval) (k : string) : Prop := fld d k = JStr [].

(** The view of an item the panel keeps while the helper holds its secrets
    has no password, notes, TOTP key or raw item; its card number and code and the
    numbers of its identity are absent or the placeholder; every custom field
    marked sensitive has the placeholder for its value; and changing the
    password, the TOTP key or the raw item of the source changes nothing in it. *)
Theorem public_detail_withholds kvs :
  exists d, publicItemDetail (JObj kvs) = Some d
  /\ empty_text d "password" /\ empty_text d "notes" /\ empty_text d "totpKey" /\ fld d "rawObject" = JNull
  /\ withheld_value (fld (fld d "card") "number") /\ withheld_value (fld (fld d "card") "code")
  /\ (forall k, k = "ssn"%string \/ k = "passportNumber"%string \/ k = "licenseNumber"%string ->
        withheld_value (fld (fld d "identity") k))
  /\ (exists l, fld d "fields" = JArr (map public_field l)
        /\ Forall (fun f => truthy (fld f "sensitive") = true -> fld (public_field f) "value" = JStr WITHHELD) l)
  /\ (forall k v, k = "password"%string \/ k = "totpKey"%string \/ k = "rawObject"%string ->
        publicItemDetail (JObj (obj_set kvs (js k) v)) = Some d).
Proof.
  set (src := JObj kvs). destruct (publicItemDetail src) as [d|] eqn:E; [|by unfold publicItemDetail in E].
  exists d. split; [done|].
  assert (Ec : fld d "card" = public_card src (fld src "card")) by (unfold publicItemDetail in E; injection E as <-; reflexivity).
  assert (Ei : fld d "identity" = public_identity src (fld src "identity")) by (unfold publicItemDetail in E; injection E as <-; reflexivity).
  rewrite Ec, Ei. split_and!; try (unfold publicItemDetail in E; injection E as <-; reflexivity).
  - apply public_card_withheld.
  - apply public_card_withheld.
  - intros k. apply public_identity_withheld.
  - exists (toList (fld src "fields")). split; [unfold publicItemDetail in E; injection E as <-; reflexivity|].
    apply Forall_forall. intros f _. apply public_field_withheld.
  - intros k v Hk. by rewrite (public_ignores kvs k v Hk).
Qed.

(** ** Witnesses *)

Definition row_named (id name : string) : jsval := JObj [(js "id", JStr (js id)); (js "name", JStr (js name))].
Definition two_rows : list jsval := [row_named "a" "mail"; row_named "b" "bank"].

Lemma two_rows_distinct : ids_distinct two_rows.
Proof.
  intros id. unfold two_rows. cbn [List.filter].
  destruct (has_id id (row_named "a" "mail")) eqn:Ea, (has_id id (row_named "b" "bank")) eqn:Eb; try (cbn [length]; lia). exfalso.
  destruct id; try done. unfold has_id in Ea, Eb. apply andb_true_iff in Ea as [_ Ea], Eb as [_ Eb].
  apply str_eqb_eq in Ea. apply str_eqb_eq in Eb. rewrite <- Ea in Eb. done.
Qed.

Lemma replace_item_spec_witness :
  sorted_by items_le (replaceItemById (JArr two_rows) (JStr (js "a")) (Some (row_named "a" "Mail box"))).
Proof. apply (replace_item_spec two_rows); [vm_compute; lia|apply two_rows_distinct]. Defined.

(** A personal login as bw prints it, with a field this program does not know. *)
Definition login_part : object :=
  [(js "username", JStr (js " me ")); (js "password", JStr (js "p ")); (js "totp", JNull);
   (js "uris", JArr [JObj [(js "match", JNull); (js "uri", JStr (js "https://a.example"))]])].
Definition login_item : object :=
  [(js "object", JStr (js "item")); (js "id", JStr (js "i-1")); (js "type", JNum (NZ 1)); (js "name", JStr (js " Mail"));
   (js "notes", JNull); (js "favorite", JBool false); (js "organizationId", JNull); (js "folderId", JNull);
   (js "login", JObj login_part); (js "passwordHistory", JArr [JNull])].
Definition login_row : jsval := JObj [(js "typeCode", JNum (NZ 1)); (js "rawObject", JObj login_item)].

Definition renamed_form : form :=
  Form (JStr (js "Post")) (JStr (js "me")) (JStr (js "new")) (JStr []) (JStr []) (JStr []) (JBool true)
    (JStr (js "personal")) JNull JUndef JUndef (JArr []).

Lemma edit_frame_witness :
  exists payload, buildEditPayload login_row renamed_form = Some payload
  /\ own (js "passwordHistory") payload = Some (JArr [JNull]).
Proof.
  eexists. split; [reflexivity|]. rewrite (edit_frame login_row login_item renamed_form);
    [vm_compute; reflexivity|reflexivity|reflexivity|vm_compute; reflexivity|reflexivity|].
  intros Hin%list_elem_of_In. by vm_compute in Hin; repeat destruct Hin as [Hin|Hin].
Defined.

(** ** A saved SSH key *)

Section splicing.
  Context `{!Collation}.

(** The items of an envelope already hold its SSH keys. *)
Lemma envelope_items raw e : parseSanitizedEnvelope raw = Some e ->
  exists rows, env_items e ≡ₚ rows ++ env_sshKeys e.
Proof.
  unfold parseSanitizedEnvelope. destruct (parse raw) as [env|]; [|done].
  destruct (fld env "items") as [| | | | |items| |]; try done. destruct (fld env "sshKeys") as [| | | | |keys| |]; try done.
  match goal with |- context [if ?b then _ else _] => destruct b end; [done|]. intros [= <-]. cbn [env_items env_sshKeys].
  eexists. apply sort_by_perm.
Qed.

(** C39: A save whose answer holds an SSH key is never spliced into the list: the
    key is counted among the items and again among the keys, so the answer never
    counts as the one saved item and the caller reloads the whole vault. *)
Theorem ssh_key_never_spliced items raw e id :
  parseSanitizedEnvelope raw = Some e -> env_sshKeys e <> [] -> spliceSavedItem items raw id = None.
Proof.
  intros He Hk. unfold spliceSavedItem. rewrite He. destruct (envelope_items raw e He) as [rows Hp].
  apply Permutation_length in Hp. rewrite length_app in Hp.
  destruct (env_sshKeys e) as [|k ks]; [done|]. destruct (env_items e) as [|x l]; [cbn in Hp; lia|]. by destruct l.
Qed.
End splicing.

Definition saved_ssh_key : list Z :=
  stringify (JObj [(js "items", JArr []); (js "sshKeys", JArr [JObj [(js "id", JStr (js "k-1")); (js "name", JStr (js "key"))]])]).

Lemma ssh_key_never_spliced_witness : spliceSavedItem (JArr []) saved_ssh_key (JStr (js "k-1")) = None.
Proof. eapply ssh_key_never_spliced; [vm_compute; reflexivity|done]. Defined.
