(* ===== verification/EditForm.v ===== *)
(** * The edit form in the service ([Service.qml])

    How the form of an item is filled from its detail, and the payload a save builds
    from the form.  The properties of the form are strings, so a value assigned to one
    is its text. *)

From S2P Require Import Prelude.
From S2P Require Import JsNum.
From S2P Require Import JsString.
From S2P Require Import JsUnicode.
From S2P Require Import JsValue.
From S2P Require Import Items.
From S2P Require Import Payload.
Local Open Scope Z_scope.

(** [a || b || ""] *)
Definition or_empty (a b : jsval) : jsval := js_or a (js_or b (JStr [])).

(** [item.rawObject && item.rawObject.login ? item.rawObject.login : null] *)
Definition raw_login (item : jsval) : jsval :=
  let raw := fld item "rawObject" in
  if truthy raw && truthy (fld raw "login") then fld raw "login" else JNull.

Definition raw_login_field (item : jsval) (k : string) : jsval :=
  if truthy (raw_login item) then fld (raw_login item) k else JStr [].

(** The first website exactly as stored. *)
Definition form_uri (item : jsval) : jsval :=
  match loginUriEntries (if truthy (fld item "rawObject") then fld (fld item "rawObject") "login" else JNull) with
  | entry :: _ => fld entry "uri"
  | [] => match fld item "uris" with JArr (u :: _) => u | _ => JStr [] end
  end.

Section form.
  Context `{!CaseTables}.

Definition customFieldBooleanValue (value : jsval) : bool :=
  is_true value || str_eqb (to_lower (to_string value)) (js "true").

Definition copied_field (field : jsval) : jsval :=
  JObj [text_field field "name";
        (js "value", if num_eqb (to_number (fld field "type")) (NZ 2) then JBool (customFieldBooleanValue (fld field "value"))
                     else JStr (text_present (fld field "value")));
        (js "type", JNum (to_number (js_or (fld field "type") (JNum (NZ 0)))));
        (js "linkedId", if is_nullish (fld field "linkedId") then JNull else JNum (to_number (fld field "linkedId")));
        (js "revealed", JBool false)].

Definition copyCustomFieldsForForm (fields : jsval) : list jsval :=
  match js_or fields (JArr []) with
  | JArr l => map copied_field (List.filter truthy l)
  | _ => []
  end.

(** [clearTypeFields] and what is loaded over it. *)
Definition loadTypeFields (item : jsval) : jsval * jsval :=
  (JObj (map (text_field (js_or (fld item "card") (JObj []))) CARD_FIELDS),
   JObj (map (text_field (js_or (fld item "identity") (JObj []))) IDENTITY_FIELDS)).

Definition formTypeFields (typeCode : num) (fields : jsval * jsval) : jsval :=
  if num_eqb typeCode (NZ 3) then fields.1
  else if num_eqb typeCode (NZ 4) then fields.2
  else JNull.

Definition startEditItemNow (item : jsval) (detailPassword : jsval) : form :=
  let raw := fld item "rawObject" in
  Form (JStr (text (fld item "name"))) (JStr (text (fld item "username")))
    (or_empty detailPassword (raw_login_field item "password"))
    (or_empty (fld item "totpKey") (raw_login_field item "totp"))
    (form_uri item)
    (JStr (text (fld item "notes"))) (JBool (truthy (fld item "favorite")))
    (JStr (text (fld item "organizationId"))) (JStr (text (fld item "folderId")))
    (if truthy raw && truthy (fld raw "collectionIds") then fld raw "collectionIds" else JArr [])
    (formTypeFields (to_number (js_or (fld item "typeCode") (JNum (NZ 1)))) (loadTypeFields item))
    (JArr (copyCustomFieldsForForm (if truthy raw && truthy (fld raw "fields") then fld raw "fields" else fld item "fields"))).

(** The payload of a save of an edited item; [None] where the form is refused. *)
Definition saveItemForm (detailItem : jsval) (f : form) : option object :=
  if truthy (fld detailItem "secretsWithheld") then None
  else if negb (bool_decide (validateItemForm (f_name f) (f_organizationId f) (f_collectionIds f) (f_customFields f) = [])) then None
  else buildEditPayload detailItem f.
End form.
