(* ===== verification/EditFormCorrect.v ===== *)
(** * A save that changes nothing

    An item as [bw] prints it, opened, put into the form and saved without a change,
    along the whole way the service takes: the detail, the form and the payload. *)

From S2P Require Import Prelude.
From S2P Require Import JsNum.
From S2P Require Import JsString.
From S2P Require Import JsUnicode.
From S2P Require Import JsValue.
From S2P Require Import Json.
From S2P Require Import Items.
From S2P Require Import Payload.
From S2P Require Import ItemsCorrect.
From S2P Require Import EditForm.
Local Open Scope Z_scope.

(** ** What [bw] prints *)

Definition text_or_none (v : jsval) : Prop := v = JNull \/ exists s, v = JStr s.
Definition has_texts (keys : list string) (o : object) : Prop :=
  forall k, k ∈ keys -> exists v, own (js k) o = Some v /\ text_or_none v.

Record stored_login (login : object) : Prop := {
  sl_texts : has_texts ["username"; "password"; "totp"]%string login;
  sl_uris : exists u, own (js "uris") login = Some u /\
    (u = JNull \/ exists l, u = JArr l /\ Forall (fun x => is_object x = true) l /\ (length l <= MAX_LIST_ENTRIES)%nat)
}.

(** A custom field: text, hidden text, a checkbox or a link. *)
Definition stored_field (f : jsval) : Prop :=
  exists n t, is_object f = true /\ fld f "name" = JStr n /\ trim n <> [] /\ fld f "type" = JNum (NZ t) /\
    ((0 <= t <= 1 /\ text_or_none (fld f "value") /\ is_nullish (fld f "linkedId") = true)
     \/ (t = 2 /\ (fld f "value" = JStr (js "true") \/ fld f "value" = JStr (js "false")) /\ is_nullish (fld f "linkedId") = true)
     \/ (t = 3 /\ is_nullish (fld f "value") = true /\ exists k, fld f "linkedId" = JNum k)).

Definition real_id (s : list Z) (reserved : list (list Z)) : Prop := s <> [] /\ s ∉ reserved.

(** An item of the types that are edited: a personal one, or one of an organization,
    which is in some collection. *)
Record stored_item (o : object) (t : Z) : Prop := {
  si_type : own (js "type") o = Some (JNum (NZ t)) /\ 1 <= t <= 4;
  si_name : exists n, own (js "name") o = Some (JStr n) /\ trim n <> [];
  si_notes : exists v, own (js "notes") o = Some v /\ text_or_none v;
  si_favorite : exists b, own (js "favorite") o = Some (JBool b);
  si_place : own (js "organizationId") o = Some JNull
    \/ exists g c cs, own (js "organizationId") o = Some (JStr g) /\ real_id g [js "personal"; js "all"]
       /\ own (js "collectionIds") o = Some (JArr (c :: cs));
  si_folder : exists v, own (js "folderId") o = Some v /\ (v = JNull \/ exists s, v = JStr s /\ real_id s [js "all"; js "none"]);
  si_login : t = 1 -> exists login, own (js "login") o = Some (JObj login) /\ stored_login login;
  si_card : t = 3 -> exists card, own (js "card") o = Some (JObj card) /\ has_texts CARD_FIELDS card;
  si_identity : t = 4 -> exists identity, own (js "identity") o = Some (JObj identity) /\ has_texts IDENTITY_FIELDS identity;
  si_fields : obj_get o (js "fields") = JUndef \/ obj_get o (js "fields") = JNull
    \/ exists l, obj_get o (js "fields") = JArr l /\ Forall stored_field l /\ (length l <= MAX_LIST_ENTRIES)%nat
}.

(** What a custom field says: its label, its type, its text and what it links to. *)
Definition field_reads (f : jsval) : jsval * jsval * list Z * jsval :=
  (fld f "name", fld f "type", text_present (fld f "value"), if is_nullish (fld f "linkedId") then JNull else fld f "linkedId").

(** What is kept of the item: a personal one loses its empty list of collections. *)
Definition without_collections (o : object) : object :=
  if truthy (obj_get o (js "organizationId")) then o else obj_delete o (js "collectionIds").

(** ** Texts *)

Lemma text_or_none_text v : text_or_none v -> text_present (JStr (text v)) = text_present v.
Proof. intros [->|[s ->]]; [done|]. by rewrite text_JStr. Qed.

Lemma trim_nonempty n : trim n <> [] -> n <> [].
Proof. by intros H ->. Qed.

(** A box filled with the stored text. *)
Lemma set_form_stored o k typed clean v : own (js k) o = Some v -> text_or_none v -> text_present typed = text v -> set_form o k typed clean = o.
Proof.
  intros Ho Hv Ht. apply (set_form_same o k typed clean v); [done|by destruct Hv as [->|[s ->]]|].
  rewrite Ht. by destruct Hv as [->|[s ->]]; [|rewrite text_JStr].
Qed.

Lemma set_fields_stored keys o src : has_texts keys o -> (forall k, k ∈ keys -> fld src k = JStr (text (obj_get o (js k)))) ->
  is_object src = true -> set_fields keys o src = o.
Proof.
  intros Hk Hs Ho. assert (js_or src (JObj []) = src) as E by (by destruct src). unfold set_fields. rewrite E. clear E.
  revert Hk Hs. generalize keys at 1 2 3 as ks. intros ks. induction ks as [|k ks IH]; intros Hk Hs; [done|]. cbn [fold_left].
  destruct (Hk k) as (v & Hv & Ht); [by left|]. rewrite (set_form_stored o k _ _ v) by (done || rewrite (Hs k) by (by left); unfold obj_get; by rewrite Hv).
  apply IH; [intros j Hj; apply Hk; by right|intros j Hj; apply Hs; by right].
Qed.

(** ** Custom fields *)

Section custom.
  Context `{!CaseTables}.

Lemma lower_bool b : str_eqb (to_lower (to_string (JBool b))) (js "true") = b.
Proof. rewrite to_lower_ascii by (by destruct b). by destruct b. Qed.

Lemma stored_field_kept f : stored_field f ->
  truthy f = true /\ trim (text (fld (copied_field f) "name")) <> [] /\ truthy (copied_field f) = true
  /\ field_reads (clean_field (copied_field f)) = field_reads f.
Proof.
  intros (n & t & Ho & Hn & Ht & Hty & Hc). assert (En : text (fld f "name") = n) by (by rewrite Hn, text_JStr).
  split_and!; [by destruct f|change (fld (copied_field f) "name") with (JStr (text (fld f "name"))); by rewrite text_JStr, En|done|].
  assert (Et : js_or (fld f "type") (JNum (NZ 0)) = JNum (NZ t)). { rewrite Hty. unfold js_or. cbn. destruct t; done. }
  unfold copied_field. rewrite Et, Hty. change (to_number (JNum (NZ t))) with (NZ t).
  assert (Ef : text_field f "name" = (js "name", JStr n)) by (unfold text_field; by rewrite En). rewrite Ef. unfold field_reads at 2. rewrite Hn, Hty.
  destruct Hc as [(Ht01 & Hv & Hl)|[(-> & Hv & Hl)|(-> & Hv & k & Hl)]].
  - rewrite Hl. assert (Hcase : t = 0 \/ t = 1) by lia. destruct Hv as [->|[s ->]], Hcase as [->| ->]; done.
  - rewrite Hl. assert (Hb : exists b, fld f "value" = JStr (to_string (JBool b))) by (destruct Hv; [by exists true|by exists false]).
    destruct Hb as [b ->]. assert (Eb : customFieldBooleanValue (JStr (to_string (JBool b))) = b) by (unfold customFieldBooleanValue; apply lower_bool).
    change (num_eqb (NZ 2) (NZ 2)) with true. cbn [Bool.eqb]. rewrite Eb. unfold clean_field. cbn [fld get]. unfold field_reads.
    match goal with |- context [if is_true ?v || str_eqb (to_lower ?s) _ then _ else _] =>
      assert (is_true v || str_eqb (to_lower s) (js "true") = b) as -> by (change v with (JBool b); rewrite lower_bool; by destruct b) end.
    destruct b; done.
  - rewrite Hl. destruct (fld f "value"); try done; done.
Qed.

Lemma copied_fields l : Forall stored_field l -> copyCustomFieldsForForm (JArr l) = map copied_field l.
Proof.
  intros Hl. unfold copyCustomFieldsForForm, js_or. cbn [truthy]. f_equal. induction Hl as [|f l Hf _ IH]; [done|]. cbn.
  destruct (stored_field_kept f Hf) as [-> _]. by rewrite IH.
Qed.

Lemma sent_fields l : Forall stored_field l -> (length l <= MAX_LIST_ENTRIES)%nat ->
  customFieldsPayload (JArr (map copied_field l)) = map (fun f => clean_field (copied_field f)) l.
Proof.
  intros Hl Hn. unfold customFieldsPayload. cbn [toList]. rewrite take_ge by (by rewrite length_map). rewrite <- (map_map copied_field clean_field). f_equal. clear Hn.
  induction Hl as [|f l Hf _ IH]; [done|]. destruct (stored_field_kept f Hf) as (_ & H1 & H2 & _). cbn [map List.filter]. rewrite H2, bool_decide_false by done.
  cbn [negb andb]. by rewrite IH.
Qed.

Lemma fields_accepted l i : Forall stored_field l ->
  List.find (fun ix => negb (truthy ix.2) || bool_decide (trim (text (fld ix.2 "name")) = [])) (indexed (map copied_field l) i) = None.
Proof.
  intros Hl. revert i. induction Hl as [|f l Hf _ IH]; intros i; [done|]. cbn [map indexed List.find snd].
  destruct (stored_field_kept f Hf) as (_ & H1 & H2 & _). rewrite H2, bool_decide_false by done. apply IH.
Qed.
End custom.

(** ** The detail *)

Record detail_of (o : object) (t : Z) (d : jsval) : Prop := {
  do_object : truthy d = true;
  do_name : fld d "name" = JStr (text_or (obj_get o (js "name")) (js "Untitled"));
  do_username : fld d "username" = JStr (text (fld (fld_obj (JObj o) "login") "username"));
  do_password : fld d "password" = JStr (text (fld (fld_obj (JObj o) "login") "password"));
  do_totp : fld d "totpKey" = JStr (text (fld (fld_obj (JObj o) "login") "totp"));
  do_notes : fld d "notes" = JStr (text (obj_get o (js "notes")));
  do_favorite : fld d "favorite" = JBool (truthy (obj_get o (js "favorite")));
  do_org : fld d "organizationId" = id_or_null (obj_get o (js "organizationId"));
  do_folder : fld d "folderId" = id_or_null (obj_get o (js "folderId"));
  do_uris : fld d "uris" = strings (loginUris (fld_obj (JObj o) "login"));
  do_card : fld d "card" = cardDetail (obj_get o (js "card"));
  do_identity : fld d "identity" = identityDetail (obj_get o (js "identity"));
  do_fields : fld d "fields" = JArr (itemCustomFields (obj_get o (js "fields")) (JObj o));
  do_type : fld d "typeCode" = JNum (NZ t);
  do_held : fld d "secretsWithheld" = JUndef;
  do_raw : fld d "rawObject" = JObj o
}.

Lemma detail_spec o t d : own (js "type") o = Some (JNum (NZ t)) -> 1 <= t <= 4 -> itemDetailFromObject (JObj o) = Some d -> detail_of o t d.
Proof.
  intros Hty Ht. assert (Et : fld (JObj o) "type" = JNum (NZ t)) by (unfold fld; cbn [get]; unfold obj_get; by rewrite Hty).
  assert (E5 : num_eqb (to_number (JNum (NZ t))) (NZ 5) = false) by (assert (t = 1 \/ t = 2 \/ t = 3 \/ t = 4) as [->|[->|[->| ->]]] by lia; reflexivity).
  assert (Ec : to_number (js_or (JNum (NZ t)) (JNum (NZ 1))) = NZ t) by (assert (t = 1 \/ t = 2 \/ t = 3 \/ t = 4) as [->|[->|[->| ->]]] by lia; reflexivity).
  unfold itemDetailFromObject. cbn [is_object negb]. unfold item_head. rewrite Et, E5, Ec. intros [= <-]. split; reflexivity.
Qed.

(** ** The way back *)

Section unchanged.
  Context `{!CaseTables} (o : object) (t : Z) (d : jsval).
  Context (Ho : stored_item o t) (Hd : detail_of o t d).
  Notation f := (startEditItemNow d (fld d "password")).

Lemma opened_org : obj_get o (js "organizationId") = JNull /\ f_organizationId f = JStr []
  \/ exists g c cs, obj_get o (js "organizationId") = JStr g /\ f_organizationId f = JStr g /\ g <> [] /\ selectedOrganizationId (JStr g) = JStr g
     /\ obj_get o (js "collectionIds") = JArr (c :: cs) /\ own (js "organizationId") o = Some (JStr g) /\ own (js "collectionIds") o = Some (JArr (c :: cs)).
Proof.
  unfold startEditItemNow. cbn [f_organizationId]. rewrite (do_org _ _ _ Hd). destruct (si_place _ _ Ho) as [E|(g & c & cs & E & [Hne Hres] & Ec)].
  - left. rewrite (own_get _ _ _ E). done.
  - right. exists g, c, cs. rewrite (own_get _ _ _ E), (own_get _ _ _ Ec). assert (truthy (JStr g) = true) as Hg by (cbn; by rewrite bool_decide_false).
    assert (Hg' : text (JStr g) = g) by apply text_JStr. unfold id_or_null, text_or_null. rewrite Hg. cbn [to_string]. rewrite Hg'. split_and!; try done.
    unfold selectedOrganizationId. rewrite Hg. cbn [negb orb strict_eqb]. assert (str_eqb g (js "personal") = false) as ->.
    { apply str_eqb_neq. intros ->. apply Hres. by left. }
    assert (str_eqb g (js "all") = false) as ->; [|done]. apply str_eqb_neq. intros ->. apply Hres. right. by left.
Qed.

Lemma opened_folder : exists v, own (js "folderId") o = Some v /\ selectedFolderId (f_folderId f) = v.
Proof.
  destruct (si_folder _ _ Ho) as (v & E & Hv). exists v. split; [done|]. unfold startEditItemNow. cbn [f_folderId]. rewrite (do_folder _ _ _ Hd), (own_get _ _ _ E).
  destruct Hv as [->|(s & -> & Hne & Hres)]; [done|]. assert (truthy (JStr s) = true) as Hs by (cbn; by rewrite bool_decide_false).
  unfold id_or_null, text_or_null. rewrite Hs. cbn [to_string]. rewrite text_JStr. unfold selectedFolderId. rewrite Hs. cbn [negb orb strict_eqb].
  assert (str_eqb s (js "all") = false) as ->. { apply str_eqb_neq. intros ->. apply Hres. by left. }
  assert (str_eqb s (js "none") = false) as ->; [|done]. apply str_eqb_neq. intros ->. apply Hres. right. by left.
Qed.

Lemma opened_name n : own (js "name") o = Some (JStr n) -> trim n <> [] -> f_name f = JStr n.
Proof.
  intros E Hn. unfold startEditItemNow. cbn [f_name]. rewrite (do_name _ _ _ Hd), (own_get _ _ _ E), text_JStr. f_equal.
  unfold text_or. cbn [truthy to_string]. apply trim_nonempty in Hn. by rewrite bool_decide_false.
Qed.

Lemma common_kept : edit_common o f = without_collections o.
Proof.
  unfold edit_common. destruct (si_name _ _ Ho) as (n & Hn & Hne). rewrite (opened_name n Hn Hne).
  assert (text_or (JStr n) (js "Untitled") = n) as -> by (unfold text_or; cbn; by rewrite bool_decide_false by (by apply trim_nonempty)).
  rewrite (set_form_stored o "name" _ _ (JStr n)) by (done || (by right; eexists) || (by rewrite text_JStr)).
  destruct (si_notes _ _ Ho) as (v & Hv & Hvt).
  rewrite (set_form_stored o "notes" _ _ v) by (done || (unfold startEditItemNow; cbn [f_notes]; rewrite (do_notes _ _ _ Hd), (own_get _ _ _ Hv), text_JStr; done)).
  destruct (si_favorite _ _ Ho) as [b Hb]. rewrite (obj_set_same o (js "favorite")).
  2: { rewrite Hb. unfold startEditItemNow. cbn [f_favorite truthy]. rewrite (do_favorite _ _ _ Hd), (own_get _ _ _ Hb). by destruct b. }
  destruct opened_folder as (fv & Hfv & ->). unfold without_collections.
  destruct opened_org as [[Eo ->]|(g & c & cs & Eo & -> & Hg & Hsel & Ec & Ho' & Hc')].
  - rewrite Eo. change (selectedOrganizationId (JStr [])) with JNull. cbn [truthy].
    assert (Hn' : own (js "organizationId") o = Some JNull) by (destruct (si_place _ _ Ho) as [|(g & c & cs & E & _)]; [done|rewrite (own_get _ _ _ E) in Eo; done]).
    rewrite (obj_set_same o (js "organizationId")) by done. by rewrite (obj_set_same o (js "folderId")).
  - rewrite Hsel, Eo. cbn [truthy]. rewrite bool_decide_false by done. cbn [negb]. rewrite (obj_set_same o (js "organizationId")) by done.
    rewrite (obj_set_same o (js "folderId")) by done. apply obj_set_same. unfold startEditItemNow. cbn [f_collectionIds]. rewrite (do_raw _ _ _ Hd).
    change (fld (JObj o) "collectionIds") with (obj_get o (js "collectionIds")). rewrite Ec. by rewrite Hc'.
Qed.

Lemma without_own k : k <> js "collectionIds" -> own k (without_collections o) = own k o.
Proof. intros Hk. unfold without_collections. destruct (truthy _); [done|]. by apply own_delete_ne. Qed.

(** ** The fields of each type *)

Lemma or_empty_text v w : text_or_none v -> w = v -> text_present (or_empty (JStr (text v)) w) = text v.
Proof.
  intros Hv ->. unfold or_empty, js_or. cbn [truthy]. destruct (bool_decide (text v = [])) eqn:E; cbn [negb]; [|done].
  apply bool_decide_eq_true in E. rewrite E. destruct Hv as [->|[s ->]]; [done|]. rewrite text_JStr in E. by subst.
Qed.

Section login.
  Context (login : object) (Hl : own (js "login") o = Some (JObj login)) (Hs : stored_login login).

Lemma opened_login : fld_obj (JObj o) "login" = JObj login /\ raw_login d = JObj login.
Proof.
  unfold raw_login, fld_obj. rewrite (do_raw _ _ _ Hd). change (fld (JObj o) "login") with (obj_get o (js "login")). by rewrite (own_get _ _ _ Hl).
Qed.

Lemma login_texts : text_present (f_username f) = text (obj_get login (js "username"))
  /\ text_present (f_password f) = text (obj_get login (js "password")) /\ text_present (f_totp f) = text (obj_get login (js "totp")).
Proof.
  destruct opened_login as [E1 E2]. unfold startEditItemNow. cbn [f_username f_password f_totp].
  rewrite (do_username _ _ _ Hd), (do_password _ _ _ Hd), (do_totp _ _ _ Hd), E1. unfold raw_login_field. rewrite E2. cbn [truthy].
  change (fld (JObj login)) with (fun k => obj_get login (js k)). cbn beta.
  split_and!; [cbn; by rewrite text_JStr| |]; (apply or_empty_text; [|done]);
    [destruct (sl_texts _ Hs "password"%string) as (v & Hv & ?)|destruct (sl_texts _ Hs "totp"%string) as (v & Hv & ?)];
    try (by rewrite (own_get _ _ _ Hv)); set_solver.
Qed.

Lemma login_fields_kept : updateLoginFields login (f_username f) (f_password f) (f_totp f) = login.
Proof.
  destruct login_texts as (E1 & E2 & E3). unfold updateLoginFields.
  destruct (sl_texts _ Hs "username"%string) as (u & Hu & Hut); [set_solver|]. destruct (sl_texts _ Hs "password"%string) as (p & Hp & Hpt); [set_solver|].
  destruct (sl_texts _ Hs "totp"%string) as (q & Hq & Hqt); [set_solver|].
  rewrite (own_get _ _ _ Hu) in E1. rewrite (own_get _ _ _ Hp) in E2. rewrite (own_get _ _ _ Hq) in E3.
  by rewrite (set_form_stored login "username" _ _ u), (set_form_stored login "password" _ _ p), (set_form_stored login "totp" _ _ q).
Qed.

Lemma uris_kept : editedUris (obj_get login (js "uris")) (f_uri f) = obj_get login (js "uris").
Proof.
  destruct opened_login as [E1 _], (sl_uris _ Hs) as (u & Hu & Hcase). unfold startEditItemNow, form_uri. cbn [f_uri]. rewrite (do_raw _ _ _ Hd), (do_uris _ _ _ Hd), E1.
  change (fld (JObj o) "login") with (obj_get o (js "login")). rewrite (own_get _ _ _ Hl), (own_get _ _ _ Hu). cbn [truthy].
  unfold loginUriEntries, loginUris. cbn [truthy]. change (fld (JObj login) "uris") with (obj_get login (js "uris")). rewrite (own_get _ _ _ Hu).
  destruct Hcase as [->|(l & -> & Hobj & Hlen)]; [done|].
  match goal with |- editedUris _ ?x = _ => assert (x = match l with y :: _ => JStr (text_present (fld y "uri")) | [] => JStr [] end) as -> end;
    [|by apply edited_uris_same].
  cbn [toList]. rewrite take_ge by done. destruct l as [|x l]; [done|]. cbn [indexed List.filter snd]. apply Forall_cons_1 in Hobj as [-> _]. done.
Qed.

Lemma login_kept : t = 1 -> edit_typed (without_collections o) f = without_collections o.
Proof.
  intros E1. unfold edit_typed. destruct (si_type _ _ Ho) as [Hty _]. assert (obj_get (without_collections o) (js "type") = JNum (NZ 1)) as ->.
  { apply own_get. rewrite without_own by done. by rewrite Hty, E1. }
  change (strict_eqb (JNum (NZ 1)) (JNum (NZ 1))) with true. cbn [orb]. assert (own (js "login") (without_collections o) = Some (JObj login)) as El by by rewrite without_own.
  unfold sub_object. rewrite (own_get _ _ _ El), login_fields_kept, uris_kept. destruct (sl_uris _ Hs) as (u & Hu & _).
  rewrite (obj_set_same login) by (by rewrite (own_get _ _ _ Hu)). by apply obj_set_same.
Qed.
End login.

(** A card or an identity. *)
Lemma kind_kept kind keys part : own (js kind) o = Some (JObj part) -> has_texts keys part -> js kind <> js "collectionIds" ->
  obj_set (without_collections o) (js kind) (JObj (set_fields keys (sub_object (without_collections o) kind) (JObj (map (text_field (JObj (map (text_field (JObj part)) keys))) keys))))
  = without_collections o.
Proof.
  intros Hp Hk Hne. assert (own (js kind) (without_collections o) = Some (JObj part)) as E by by rewrite without_own.
  unfold sub_object. rewrite (own_get _ _ _ E). rewrite set_fields_stored; [by apply obj_set_same|done| |done].
  assert (Hget : forall src k, k ∈ keys -> fld (JObj (map (text_field src) keys)) k = JStr (text (fld src k))).
  { intros src k Hin. clear -Hin. unfold fld. cbn [get]. unfold obj_get. induction keys as [|j ks IH]; [by apply elem_of_nil in Hin|]. cbn [map own fst text_field].
    destruct (str_eqb (js j) (js k)) eqn:Ejk; [apply str_eqb_eq in Ejk; unfold fld; by rewrite Ejk|]. apply IH. apply elem_of_cons in Hin as [->|?]; [by rewrite str_eqb_refl in Ejk|done]. }
  intros k Hin. rewrite !Hget by done. by rewrite text_JStr.
Qed.

Lemma typed_kept : edit_typed (without_collections o) f = without_collections o.
Proof.
  destruct (si_type _ _ Ho) as [Hty Ht]. assert (t = 1 \/ t = 2 \/ t = 3 \/ t = 4) as Hcase by lia.
  assert (E : obj_get (without_collections o) (js "type") = JNum (NZ t)) by (apply own_get; by rewrite without_own).
  destruct Hcase as [E1|[E2|[E3|E4]]].
  - destruct (si_login _ _ Ho E1) as (login & Hl & Hs). by apply (login_kept login).
  - unfold edit_typed. rewrite E, E2. done.
  - destruct (si_card _ _ Ho E3) as (card & Hc & Hk). unfold edit_typed. rewrite E, E3. unfold startEditItemNow. cbn [f_typeFields]. rewrite (do_type _ _ _ Hd), E3.
    unfold loadTypeFields. rewrite (do_card _ _ _ Hd), (own_get _ _ _ Hc). apply (kind_kept "card" CARD_FIELDS card Hc Hk). done.
  - destruct (si_identity _ _ Ho E4) as (idn & Hc & Hk). unfold edit_typed. rewrite E, E4. unfold startEditItemNow. cbn [f_typeFields]. rewrite (do_type _ _ _ Hd), E4.
    unfold loadTypeFields. rewrite (do_identity _ _ _ Hd), (own_get _ _ _ Hc). apply (kind_kept "identity" IDENTITY_FIELDS idn Hc Hk). done.
Qed.

(** ** The custom fields, and the checks of a save *)

Definition stored_fields : list jsval := match obj_get o (js "fields") with JArr l => l | _ => [] end.

Lemma fields_opened : f_customFields f = JArr (map copied_field stored_fields) /\ Forall stored_field stored_fields /\ (length stored_fields <= MAX_LIST_ENTRIES)%nat.
Proof.
  unfold startEditItemNow, stored_fields. cbn [f_customFields]. rewrite (do_raw _ _ _ Hd), (do_fields _ _ _ Hd). cbn [truthy andb].
  change (fld (JObj o) "fields") with (obj_get o (js "fields")). destruct (si_fields _ _ Ho) as [->|[->|(l & -> & Hl & Hn)]]; [by repeat constructor; cbn; lia..|].
  cbn [truthy]. by rewrite copied_fields.
Qed.

Lemma form_accepted : validateItemForm (f_name f) (f_organizationId f) (f_collectionIds f) (f_customFields f) = [].
Proof.
  destruct (si_name _ _ Ho) as (n & Hn & Hne), fields_opened as (-> & Hf & Hlen). rewrite (opened_name n Hn Hne). unfold validateItemForm.
  rewrite text_JStr, bool_decide_false by done. cbn [toList]. rewrite take_ge by (by rewrite length_map). rewrite fields_accepted by done.
  destruct opened_org as [[_ ->]|(g & c & cs & _ & _ & _ & _ & Ec & _)]; [done|]. unfold startEditItemNow. cbn [f_collectionIds]. rewrite (do_raw _ _ _ Hd).
  change (fld (JObj o) "collectionIds") with (obj_get o (js "collectionIds")). rewrite Ec. cbn [truthy andb]. by rewrite andb_false_r.
Qed.

Lemma not_ssh : is_ssh_item d = false.
Proof.
  destruct (si_type _ _ Ho) as [Hty Ht]. unfold is_ssh_item. rewrite (do_object _ _ _ Hd), (do_raw _ _ _ Hd), (do_type _ _ _ Hd).
  change (fld (JObj o) "type") with (obj_get o (js "type")). rewrite (own_get _ _ _ Hty).
  assert (t = 1 \/ t = 2 \/ t = 3 \/ t = 4) as [->|[->|[->| ->]]] by lia; reflexivity.
Qed.

Lemma saved_spec : json_clean (JObj o) = true ->
  saveItemForm d f = Some (obj_set (without_collections o) (js "fields") (JArr (map (fun x => clean_field (copied_field x)) stored_fields))).
Proof.
  intros Hc. unfold saveItemForm. rewrite (do_held _ _ _ Hd). cbn [truthy]. rewrite form_accepted. cbn [bool_decide]. rewrite bool_decide_true by done. cbn [negb].
  unfold buildEditPayload. rewrite not_ssh, (edit_base_clean d o (do_object _ _ _ Hd) (do_raw _ _ _ Hd) Hc), common_kept, typed_kept.
  destruct fields_opened as (-> & Hf & Hn). unfold set_custom_fields. cbn [is_undef]. by rewrite sent_fields.
Qed.
End unchanged.

(** ** The property *)


(** A personal login as [bw] prints it. *)
Definition bank_login : object :=
  [(js "username", JStr (js "me")); (js "password", JStr (js "  hunter2 ")); (js "totp", JNull);
   (js "uris", JArr [JObj [(js "match", JNum (NZ 3)); (js "uri", JStr (js "https://bank.example"))]; JObj [(js "match", JNull); (js "uri", JStr (js "app"))]])].
Definition bank_fields : list jsval :=
  [JObj [(js "name", JStr (js "PIN")); (js "value", JStr (js " 12 ")); (js "type", JNum (NZ 1)); (js "linkedId", JNull)];
   JObj [(js "name", JStr (js "active")); (js "value", JStr (js "true")); (js "type", JNum (NZ 2)); (js "linkedId", JNull)];
   JObj [(js "name", JStr (js "user")); (js "value", JNull); (js "type", JNum (NZ 3)); (js "linkedId", JNum (NZ 100))]].
Definition bank_item : object :=
  [(js "object", JStr (js "item")); (js "id", JStr (js "i-1")); (js "type", JNum (NZ 1)); (js "name", JStr (js "Bank "));
   (js "notes", JStr (js " two ")); (js "favorite", JBool false); (js "organizationId", JNull); (js "folderId", JNull);
   (js "collectionIds", JArr []); (js "fields", JArr bank_fields); (js "login", JObj bank_login); (js "passwordHistory", JArr [JNull])].

Lemma bank_item_stored : stored_item bank_item 1.
Proof.
  split; try done.
  - by exists (js "Bank ").
  - exists (JStr (js " two ")). split; [done|]. right. by eexists.
  - by exists false.
  - by left.
  - exists JNull. split; [done|by left].
  - intros _. exists bank_login. split; [done|]. split.
    + intros k Hk. apply list_elem_of_In in Hk. destruct Hk as [<-|[<-|[<-|[]]]]; eexists; (split; [reflexivity|]); (by left) || (right; by eexists).
    + eexists. split; [reflexivity|]. right. eexists. split_and!; [reflexivity|by repeat constructor|vm_compute; lia].
  - right. right. exists bank_fields. split_and!; [done| |vm_compute; lia].
    apply Forall_cons_2; [exists (js "PIN"), 1|apply Forall_cons_2; [exists (js "active"), 2|apply Forall_cons_2; [exists (js "user"), 3|constructor]]];
      (split_and!; [done|done|done|done|]).
    + left. split_and!; [lia|lia| |done]. right. by eexists.
    + right. left. split_and!; [done|by left|done].
    + right. right. split_and!; [done|done|by eexists].
Qed.

