(* ===== verification/Context.v ===== *)
(** * Context matching ([BitwardenModel.js])

    What the focused window says about the site or application in front, and how
    well an item matches it. *)

From Stdlib Require Import QArith_base.
From S2P Require Import Prelude.
From S2P Require Import JsNum.
From S2P Require Import JsString.
From S2P Require Import JsUnicode.
From S2P Require Import JsValue.
From S2P Require Import Regex.
From S2P Require Import Items.
Local Open Scope Z_scope.

(** ** Tables *)

(** [table[w]] of an object used as a set: names of [Object.prototype] count. *)
Definition in_table (t : list (list Z)) (w : list Z) : bool := existsb (str_eqb w) t || truthy (proto_get w).

Definition GENERIC_LABELS : list (list Z) :=
  [js "www"; js "www2"; js "web"; js "app"; js "apps"; js "mobile"; js "my"; js "secure"; js "login";
   js "signin"; js "sign"; js "logon"; js "auth"; js "oauth"; js "sso"; js "idp"; js "account";
   js "accounts"; js "portal"; js "admin"; js "dash"; js "dashboard"; js "console"; js "home"; js "welcome";
   js "overview"; js "page"; js "site"; js "online"; js "cloud"; js "server"; js "service"; js "services";
   js "api"; js "cdn"; js "static"; js "assets"; js "local"; js "localhost"; js "localdomain";
   js "internal"; js "intranet"; js "lan"; js "dev"; js "test"; js "staging"; js "prod"; js "the"; js "and";
   js "for"; js "with"; js "your"; js "new"; js "inbox"; js "settings"].

Definition TLDS : list (list Z) :=
  [js "com"; js "org"; js "net"; js "edu"; js "gov"; js "mil"; js "int"; js "io"; js "co"; js "ai";
   js "app"; js "dev"; js "me"; js "tv"; js "cc"; js "info"; js "biz"; js "name"; js "pro"; js "xyz";
   js "online"; js "site"; js "shop"; js "store"; js "tech"; js "cloud"; js "page"; js "blog"; js "wiki";
   js "news"; js "media"; js "email"; js "chat"; js "social"; js "games"; js "software"; js "systems";
   js "network"; js "digital"; js "finance"; js "bank"; js "money"; js "health"; js "life"; js "world";
   js "space"; js "link"; js "click"; js "one"; js "run"; js "sh"; js "gg"; js "fm"; js "to"; js "ly";
   js "us"; js "uk"; js "ca"; js "au"; js "nz"; js "de"; js "fr"; js "es"; js "it"; js "nl"; js "be";
   js "ch"; js "at"; js "se"; js "no"; js "dk"; js "fi"; js "pl"; js "cz"; js "pt"; js "ie"; js "gr";
   js "ru"; js "ua"; js "tr"; js "il"; js "in"; js "jp"; js "cn"; js "kr"; js "hk"; js "tw"; js "sg";
   js "my"; js "id"; js "th"; js "vn"; js "ph"; js "br"; js "mx"; js "ar"; js "cl"; js "za"; js "eu";
   js "local"; js "lan"; js "home"; js "internal"; js "arpa"; js "localdomain"].

Definition MULTI_SLD : list (list Z) := [js "co"; js "com"; js "net"; js "org"; js "ac"; js "gov"; js "edu"; js "or"; js "ne"].

Definition BRAND_ALIASES : list (list Z * list Z) :=
  [(js "gmail", js "google"); (js "googlemail", js "google"); (js "youtube", js "google");
   (js "hotmail", js "microsoft"); (js "outlook", js "microsoft"); (js "live", js "microsoft");
   (js "onedrive", js "microsoft"); (js "office", js "microsoft"); (js "microsoft365", js "microsoft");
   (js "icloud", js "apple"); (js "appleid", js "apple");
   (js "fb", js "facebook"); (js "messenger", js "facebook"); (js "instagram", js "facebook")].

(** [/a|b|.../i.test(cls)] *)
Definition class_has (names : list (list Z)) (cls : list Z) : bool :=
  existsb (fun n => contains n (map ascii_lower cls)) names.

Definition BROWSER_CLASSES : list (list Z) :=
  [js "chrome"; js "chromium"; js "firefox"; js "brave"; js "zen"; js "vivaldi"; js "edge"; js "opera"; js "epiphany";
   js "qutebrowser"; js "librewolf"; js "floorp"; js "waterfox"; js "thorium"; js "helium"].
Definition TERMINAL_CLASSES : list (list Z) :=
  [js "foot"; js "alacritty"; js "kitty"; js "ghostty"; js "terminal"; js "konsole"; js "wezterm"; js "xterm"; js "rxvt";
   js "tilix"; js "st-256color"].
Definition SHELL_CLASSES : list (list Z) :=
  [js "quickshell"; js "dms"; js "dankmaterialshell"; js "omarchy"; js "omarchy-shell"; js "omarchy-menu"].

Definition is_shell_class (cls : list Z) : bool := existsb (str_eqb (map ascii_lower cls)) SHELL_CLASSES.

(** ** Expressions *)

Section expressions.
Local Open Scope re_scope.

(** [a-zA-Z0-9-] *)
Definition host_unit : re := One (fun c => is_alnum c || (c =? 45)).

Definition REMOTE_SESSION_RE : re :=
  Alt Bol space ⋅ alts [lit_i (js "ssh"); lit_i (js "mosh"); lit_i (js "sftp")] ⋅ plus space
  ⋅ Star (lit (js "-") ⋅ plus (One (fun c => negb (is_space c))) ⋅ plus space)
  ⋅ opt (plus (One (fun c => is_alnum c || (c =? 95) || (c =? 46) || (c =? 45))) ⋅ lit (js "@"))
  ⋅ Group (plus host_unit ⋅ plus (lit (js ".") ⋅ plus host_unit)).

(** Em dash, en dash, middle dot, bullet. *)
Definition dash_bar : list Z := [45; 8212; 8211; 124].

Definition browser_brands : re :=
  alts [lit_i (js "Google Chrome"); lit_i (js "Chromium"); lit_i (js "Mozilla Firefox"); lit_i (js "Firefox Developer Edition");
        lit_i (js "Firefox"); lit_i (js "Brave") ⋅ opt (Star space ⋅ lit_i (js "Browser"));
        lit_i (js "Zen") ⋅ opt (Star space ⋅ lit_i (js "Browser")); lit_i (js "Vivaldi");
        lit_i (js "Microsoft") ⋅ One (fun c => negb (is_line_end c)) ⋅ lit [8203] ⋅ lit_i (js "Edge"); lit_i (js "Microsoft Edge");
        lit_i (js "Edge"); lit_i (js "Opera") ⋅ opt (Star space ⋅ lit_i (js "GX")); lit_i (js "LibreWolf"); lit_i (js "Floorp");
        lit_i (js "Waterfox"); lit_i (js "Thorium"); lit_i (js "Helium"); lit_i (js "Epiphany"); lit_i (js "GNOME Web");
        lit_i (js "qutebrowser")].

Definition BROWSER_BRAND_RE : re :=
  Star space ⋅ one_of (dash_bar ++ [183; 8226]) ⋅ Star space ⋅ Group browser_brands ⋅ Star space ⋅ Eol.

Definition TITLE_SEPARATOR_RE : re :=
  alts [Star space ⋅ one_of [124; 183; 8226; 8212; 8211] ⋅ Star space;
        plus space ⋅ lit (js "-") ⋅ plus space;
        Star space ⋅ lit (js "::") ⋅ Star space].

Definition PRIVATE_RE : re :=
  Star space ⋅ opt (one_of dash_bar) ⋅ Star space ⋅ lit (js "(")
  ⋅ alts [lit_i (js "Private Browsing"); lit_i (js "Incognito"); lit_i (js "Private")] ⋅ lit (js ")") ⋅ Star space ⋅ Eol.

Definition MEDIA_RE : re :=
  Star space ⋅ one_of dash_bar ⋅ Star space
  ⋅ alts [lit_i (js "Audio playing"); lit_i (js "Muted"); lit_i (js "Playing"); lit_i (js "Paused")] ⋅ Star space ⋅ Eol.

Definition COUNTER_RE : re :=
  Bol ⋅ Star space ⋅ one_of [40; 91] ⋅ Star space ⋅ plus digit ⋅ opt (lit (js "+")) ⋅ Star space ⋅ one_of [41; 93] ⋅ Star space.

Definition NUMBER_RE : re := Bol ⋅ Star space ⋅ plus digit ⋅ Star space ⋅ one_of (dash_bar ++ [183]) ⋅ Star space.

(** [[\s:·—–|-]] *)
Definition edge_unit : re := One (fun c => is_space c || existsb (Z.eqb c) [58; 183; 8212; 8211; 124; 45]).

Definition SIGN_IN_RE : re :=
  Bol ⋅ alts (map (fun s => lit_i (js s))
    ["Sign in to"; "Sign into"; "Sign in"; "Sign In"; "Log in to"; "Log into"; "Log in"; "Login to"; "Login";
     "Welcome to"; "Welcome back to"; "Welcome"; "Authenticate to"; "Authenticate"]%string) ⋅ Wordb ⋅ Star edge_unit.

Definition LEADING_RE : re := Bol ⋅ plus edge_unit.
Definition TRAILING_RE : re := plus edge_unit ⋅ Eol.

Definition PORT_RE : re := lit (js ":") ⋅ plus digit ⋅ Eol.
Definition FINAL_DOT_RE : re := lit (js ".") ⋅ Eol.

Definition octet : re := digit ⋅ opt (digit ⋅ opt digit).
Definition IP_RE : re := Bol ⋅ octet ⋅ lit (js ".") ⋅ octet ⋅ lit (js ".") ⋅ octet ⋅ lit (js ".") ⋅ octet ⋅ Eol.

Definition DOMAIN_RE : re :=
  Bol ⋅ opt (One is_alpha ⋅ Star (One (fun c => is_alnum c || (c =? 43) || (c =? 46) || (c =? 45))) ⋅ lit (js "://"))
  ⋅ opt (plus (One (fun c => negb ((c =? 47) || (c =? 64) || is_space c))) ⋅ lit (js "@"))
  ⋅ Group (plus (One (fun c => is_alnum c || (c =? 46) || (c =? 95) || (c =? 45))) ⋅ opt (lit (js ":") ⋅ plus digit)).

(** The expression [hasWholeWord] builds from a word. *)
Definition whole_word_re (word : list Z) : re :=
  Alt Bol (One (fun c => negb (is_alnum c))) ⋅ lit_i word ⋅ Alt Eol (One (fun c => negb (is_alnum c))).
End expressions.

(** ** Titles *)

Definition MAX_TITLE_CHARS : nat := 512.

(** [t.replace(re, "").trim()] *)
Definition strip (r : re) (t : list Z) : list Z := trim (replace_first r [] t).

Definition stripTitleNoise (title : jsval) : list Z :=
  let t := trim (text title) in
  let t := strip BROWSER_BRAND_RE t in
  let t := strip PRIVATE_RE t in
  let t := strip MEDIA_RE t in
  let t := strip COUNTER_RE t in
  let t := strip NUMBER_RE t in
  let t := strip SIGN_IN_RE t in
  strip TRAILING_RE (replace_first LEADING_RE [] t).

Definition splitSegments (title : list Z) : list (list Z) :=
  List.filter (fun s => negb (bool_decide (s = []))) (map trim (split_re (length title) TITLE_SEPARATOR_RE title)).

(** [a-z0-9] *)
Definition is_lower_alnum (c : Z) : bool := is_lower c || is_digit c.

(** ** Hosts *)

Record host_info := HostInfo { hi_host : list Z; hi_baseDomain : list Z; hi_rootName : option (list Z); hi_isIp : bool }.

Definition isIpAddress (host : list Z) : bool := test IP_RE host.

Section titles.
  Context `{!CaseTables}.

Definition squash (v : jsval) : list Z := List.filter is_lower_alnum (to_lower (text v)).

(** A word kept as a token.  The words are runs of [a-z0-9]; the empty ones
    between separators are short. *)
Definition is_token_word (w : list Z) : bool :=
  (3 <=? length w)%nat && negb (in_table GENERIC_LABELS w || in_table TLDS w) && negb (forallb is_digit w).

(** The first occurrence of each. *)
Fixpoint distinct (seen l : list (list Z)) : list (list Z) :=
  match l with
  | [] => []
  | w :: l => if existsb (str_eqb w) seen then distinct seen l else w :: distinct (w :: seen) l
  end.

Definition extractTokens (str : jsval) : list (list Z) :=
  if negb (truthy str) then []
  else distinct [] (List.filter is_token_word (split_on (fun c => negb (is_lower_alnum c)) (to_lower (to_string str)))).

(** [BRAND_ALIASES[t]]; a token never names a property of [Object.prototype]. *)
Definition brand_alias (t : list Z) : option (list Z) := snd <$> List.find (fun kv => str_eqb kv.1 t) BRAND_ALIASES.

Definition aliasesFor (tokens : list (list Z)) : list (list Z) :=
  distinct [] (List.filter (fun a => negb (existsb (str_eqb a) tokens)) (flat_map (fun t => option_list (brand_alias t)) tokens)).

Definition parseHost (host : list Z) : option host_info :=
  let h := replace_first FINAL_DOT_RE [] (replace_first PORT_RE [] (to_lower host)) in
  if bool_decide (h = []) then None
  else if isIpAddress h then Some (HostInfo h h None true)
  else
    let parts := split_on (Z.eqb 46) h in
    let n := length parts in
    if (n =? 1)%nat then Some (HostInfo h h (Some (nth 0 parts [])) false)
    else
      let suffixCount := if (3 <=? n)%nat && in_table MULTI_SLD (nth (n - 2) parts []) then 2%nat else 1%nat in
      let rootIdx := (n - suffixCount - 1)%nat in
      Some (HostInfo h (join (js ".") (drop rootIdx parts)) (Some (nth rootIdx parts [])) false).

Definition parseDomain (urlStr : jsval) : option host_info :=
  if negb (truthy urlStr) then None
  else match match_group DOMAIN_RE (to_lower (trim (to_string urlStr))) with
       | Some h => parseHost h
       | None => None
       end.

(** The runs of non-empty labels. *)
Fixpoint label_groups (group labels : list (list Z)) : list (list (list Z)) :=
  match labels with
  | [] => [group]
  | l :: labels => if bool_decide (l = []) then group :: label_groups [] labels else label_groups (group ++ [l]) labels
  end.

(** The host a run of labels spells, if it is one. *)
Definition group_host (group : list (list Z)) : option host_info :=
  if (2 <=? length group)%nat && in_table TLDS (List.last group []) then
    match parseHost (join (js ".") group) with
    | Some p =>
        match hi_rootName p with
        | Some root => if (2 <=? length root)%nat && negb (in_table GENERIC_LABELS root) then Some p else None
        | None => None
        end
    | None => None
    end
  else None.

(** The first element with a result. *)
Fixpoint first_some {A B} (f : A -> option B) (l : list A) : option B :=
  match l with [] => None | x :: l => match f x with Some y => Some y | None => first_some f l end end.

Definition detectDomainInText (txt : list Z) : option host_info :=
  let runs := split_on (fun c => negb (is_lower_alnum c || (c =? 46) || (c =? 45))) (to_lower txt) in
  first_some (fun run => first_some group_host (label_groups [] (split_on (Z.eqb 46) run))) runs.

Definition itemDomains (item : jsval) : list host_info :=
  if negb (truthy item) then []
  else flat_map (fun u => option_list (parseDomain u)) (toList (fld item "uris")).

(** The expression's escaping makes the word a literal. *)
Definition hasWholeWord (haystack word : list Z) : bool :=
  if bool_decide (haystack = []) || bool_decide (word = []) then false else test (whole_word_re word) haystack.

(** ** The window *)

(** [String(c.class || c.initialClass || "")] *)
Definition class_of (w : jsval) : list Z := text (js_or (fld w "class") (fld w "initialClass")).

(** [a.focusHistoryID - b.focusHistoryID <= 0], a missing one as 999. *)
Definition focus_id (w : jsval) : jsval := if is_undef (fld w "focusHistoryID") then JNum (NZ 999) else fld w "focusHistoryID".
Definition focused_before (a b : jsval) : bool := negb (num_ltb (NZ 0) (num_sub (to_number (focus_id a)) (to_number (focus_id b)))).

(** [None] is [null]. *)
Definition getActiveWindowFromData (windowData : jsval) : option jsval :=
  if negb (truthy windowData) then None
  else match windowData with
  | JArr l =>
      let clients := sort_by focused_before
        (List.filter (fun c => truthy c && negb (strict_eqb (fld c "mapped") (JBool false)) && negb (bool_decide (trim (class_of c) = []))) l) in
      match List.find (fun c => negb (is_shell_class (class_of c))) clients with
      | Some c => Some c
      | None => head clients
      end
  | _ =>
      if negb (truthy (fld windowData "class")) && negb (truthy (fld windowData "initialClass")) && negb (truthy (fld windowData "title"))
      then None
      else if is_shell_class (class_of windowData) then None
      else Some windowData
  end.

Record identity := Identity {
  id_cleanTitle : list Z; id_detectedDomain : option host_info; id_displayName : list Z; id_isBrowser : bool; id_isTerminal : bool
}.

Definition windowIdentity (cls title : list Z) : option identity :=
  let isBrowser := class_has BROWSER_CLASSES cls in
  let isTerminal := class_has TERMINAL_CLASSES cls in
  if isBrowser then
    let browserTitle := stripTitleNoise (JStr title) in
    let browserDomain := detectDomainInText browserTitle in
    Some (Identity browserTitle browserDomain
            (match browserDomain with Some d => hi_baseDomain d | None => browserTitle end) isBrowser isTerminal)
  else if isTerminal then
    match match_group REMOTE_SESSION_RE title with
    | None => None
    | Some h => Some (Identity h (parseHost h) (js "SSH: " ++ h) isBrowser isTerminal)
    end
  else
    let appTitle := default [] (head (splitSegments (stripTitleNoise (JStr title)))) in
    Some (Identity appTitle None (match appTitle with [] => cls | t => t end) isBrowser isTerminal).

Record context := Ctx {
  cx_cls : list Z; cx_clsSquashed : list Z; cx_title : list Z; cx_rawTitle : list Z; cx_matchText : list Z;
  cx_squashedTitle : list Z; cx_squashedMatchText : list Z; cx_segments : list (list Z);
  cx_titleTokens : list (list Z); cx_aliasTokens : list (list Z); cx_displayName : list Z;
  cx_detectedDomain : option host_info; cx_isBrowser : bool; cx_isTerminal : bool
}.

(** The title without its host, and the tokens with the host's name. *)
Definition match_text (cleanTitle : list Z) (d : option host_info) : list Z :=
  match d with
  | Some d => trim (replace_all (length cleanTitle) (lit_i (hi_host d)) (js " ") cleanTitle)
  | None => cleanTitle
  end.

Definition raw_tokens (matchText : list Z) (d : option host_info) : list (list Z) :=
  let tokens := extractTokens (JStr matchText) in
  match d with
  | Some d =>
      match hi_rootName d with
      | Some root =>
          if negb (bool_decide (root = [])) && negb (in_table GENERIC_LABELS root) && negb (existsb (str_eqb root) tokens)
          then tokens ++ [root] else tokens
      | None => tokens
      end
  | None => tokens
  end.

Definition cleanWindowContext (windowData : jsval) : option context :=
  match getActiveWindowFromData windowData with
  | None => None
  | Some w =>
      let cls := take MAX_TITLE_CHARS (trim (to_lower (class_of w))) in
      let title := take MAX_TITLE_CHARS (trim (text (js_or (fld w "title") (fld w "initialTitle")))) in
      if bool_decide (cls = []) && bool_decide (title = []) then None
      else match windowIdentity cls title with
      | None => None
      | Some i =>
          let cleanTitle := id_cleanTitle i in
          let detectedDomain := id_detectedDomain i in
          let displayName := id_displayName i in
          if bool_decide (cleanTitle = []) && bool_decide (cls = []) then None
          else
            let matchText := match_text cleanTitle detectedDomain in
            let rawTokens := raw_tokens matchText detectedDomain in
            let aliasTokens := aliasesFor rawTokens in
            let displayName := if (40 <? length displayName)%nat then take 37 displayName ++ js "..." else displayName in
            Some (Ctx cls (squash (JStr cls)) cleanTitle title matchText (squash (JStr cleanTitle)) (squash (JStr matchText))
                    (splitSegments cleanTitle) (rawTokens ++ aliasTokens) aliasTokens displayName detectedDomain
                    (id_isBrowser i) (id_isTerminal i))
      end
  end.

(** ** Scores *)

Definition same_host (a b : host_info) : bool := str_eqb (hi_host a) (hi_host b).
Definition same_base (a b : host_info) : bool :=
  negb (bool_decide (hi_baseDomain a = [])) && str_eqb (hi_baseDomain a) (hi_baseDomain b).

Definition directDomainScore (domains : list host_info) (detectedDomain : option host_info) : Z :=
  match detectedDomain with
  | None => 0
  | Some d => if existsb (fun x => same_host x d) domains then 100 else if existsb (fun x => same_base x d) domains then 96 else 0
  end.

(** The greatest value of [f] over a list, at least 0. *)
Definition max_over {A} (f : A -> Z) (l : list A) : Z := fold_left (fun s x => Z.max s (f x)) l 0.

Definition domain_title_score (ctx : context) (d : host_info) : Z :=
  match hi_rootName d with
  | None => 0
  | Some root =>
      if (length root <? 3)%nat || in_table GENERIC_LABELS root || in_table TLDS root then 0
      else if hasWholeWord (cx_matchText ctx) root then 90
      else if (5 <=? length root)%nat && contains root (cx_squashedMatchText ctx) then 88
      else if existsb (str_eqb root) (cx_aliasTokens ctx) then 86
      else 0
  end.

Definition domainTitleScore (domains : list host_info) (ctx : context) : Z := max_over (domain_title_score ctx) domains.

Definition itemNameTitleScore (nameSquashed : list Z) (ctx : context) : Z :=
  if (length nameSquashed <? 3)%nat then 0
  else
    let score := if existsb (fun s => str_eqb (squash (JStr s)) nameSquashed) (cx_segments ctx) then 92 else 0 in
    if (5 <=? length nameSquashed)%nat && contains nameSquashed (cx_squashedTitle ctx) then Z.max score 84 else score.

Definition sharedTitleTokenScore (nameTokens titleTokens : list (list Z)) : Z :=
  let overlap := Z.of_nat (length (List.filter (fun t => existsb (str_eqb t) titleTokens) nameTokens)) in
  if 0 <? overlap then 78 + Z.min overlap 3 * 2 else 0.

Definition nativeAppScore (domains : list host_info) (nameSquashed : list Z) (ctx : context) : Z :=
  if cx_isBrowser ctx || cx_isTerminal ctx || (length (cx_clsSquashed ctx) <? 3)%nat then 0
  else
    let root_is d := match hi_rootName d with
                     | Some root => (3 <=? length root)%nat && negb (in_table GENERIC_LABELS root) && str_eqb root (cx_clsSquashed ctx)
                     | None => false
                     end in
    let score := if existsb root_is domains then 92 else 0 in
    if (3 <=? length nameSquashed)%nat
       && (str_eqb nameSquashed (cx_clsSquashed ctx) || contains (cx_clsSquashed ctx) nameSquashed || contains nameSquashed (cx_clsSquashed ctx))
    then Z.max score 88 else score.

(** A context is always given here; [ctx.isTerminal && !ctx.detectedDomain]. *)
Definition local_terminal (ctx : context) : bool := cx_isTerminal ctx && match cx_detectedDomain ctx with None => true | Some _ => false end.

Definition matchItem (item : jsval) (ctx : context) : Z :=
  if negb (truthy item) then 0
  else if local_terminal ctx then 0
  else
    let domains := itemDomains item in
    let nameSquashed := squash (fld item "name") in
    let nameTokens := extractTokens (fld item "name") in
    let score := directDomainScore domains (cx_detectedDomain ctx) in
    if score =? 100 then score
    else
      let score := Z.max score (domainTitleScore domains ctx) in
      let score := Z.max score (itemNameTitleScore nameSquashed ctx) in
      let score := Z.max score (sharedTitleTokenScore nameTokens (cx_titleTokens ctx)) in
      Z.max score (nativeAppScore domains nameSquashed ctx).
End titles.

Definition isLoginItem (item : jsval) : bool :=
  truthy item &&
  (num_eqb (to_number (fld item "typeCode")) (NZ 1) || strict_eqb (fld item "type") (JStr (js "login"))
   || (is_undef (fld item "typeCode") && is_undef (fld item "type"))).
