(* ===== verification/ContextCorrect.v ===== *)
(** * Correctness of context matching *)

From Stdlib Require Import QArith_base Sorting.Sorted.
From S2P Require Import Prelude.
From S2P Require Import JsNum.
From S2P Require Import JsString.
From S2P Require Import JsUnicode.
From S2P Require Import JsValue.
From S2P Require Import Regex.
From S2P Require Import Items.
From S2P Require Import Context.
Local Open Scope Z_scope.

(** ** Units of words and hosts *)

(** A unit of a host in lower case, and in any case. *)
Definition host_char (c : Z) : bool := is_lower_alnum c || (c =? 46) || (c =? 45).
Definition any_host_char (c : Z) : Prop := host_char (ascii_lower c) = true /\ is_ascii c = true.

Lemma host_char_any c : host_char c = true -> any_host_char c.
Proof.
  unfold any_host_char, host_char, is_lower_alnum, ascii_lower, is_lower, is_upper, is_digit, is_ascii, in_range. intros H.
  rewrite !orb_true_iff, !andb_true_iff, !Z.leb_le, !Z.eqb_eq in H.
  destruct (Z.leb_spec 65 c), (Z.leb_spec c 90); cbn [andb]; rewrite ?orb_true_iff, ?andb_true_iff, ?Z.leb_le, ?Z.eqb_eq; lia.
Qed.

Lemma split_on_units p s : Forall (Forall (fun c => p c = false /\ c ∈ s)) (split_on p s).
Proof.
  induction s as [|c s IH]; cbn [split_on]; [by repeat constructor|].
  assert (Hw : Forall (Forall (fun x => p x = false /\ x ∈ c :: s)) (split_on p s)).
  { eapply Forall_impl; [exact IH|]. cbn. intros w Hw. eapply Forall_impl; [exact Hw|]. cbn. intros x [? ?]. split; [done|by right]. }
  destruct (p c) eqn:E; [by constructor|]. destruct (split_on p s) as [|w ws]; [repeat constructor; by try left|].
  apply Forall_cons in Hw as [Hw Hws]. constructor; [|done]. constructor; [split; [done|left]|done].
Qed.

Lemma Forall_join (P : Z -> Prop) sep l : Forall P sep -> Forall (Forall P) l -> Forall P (join sep l).
Proof.
  intros Hs. induction 1 as [|w [|w' l] Hw Hl IH]; [constructor|done|].
  change (join sep (w :: w' :: l)) with (w ++ sep ++ join sep (w' :: l)). by repeat apply Forall_app_2.
Qed.

Lemma Forall_nth_default (P : list Z -> Prop) l i : P [] -> Forall P l -> P (nth i l []).
Proof. intros Hn Hl. revert i. induction Hl as [|w l Hw Hl IH]; intros [|i]; cbn; auto. Qed.

Section hosts.
  Context `{!CaseTables}.

Lemma lower_host s : Forall any_host_char s -> Forall (fun c => host_char c = true) (to_lower s).
Proof.
  intros Hs. rewrite to_lower_ascii.
  - apply Forall_map. eapply Forall_impl; [exact Hs|]. by intros c [? _].
  - apply forallb_Forall. eapply Forall_impl; [exact Hs|]. by intros c [_ ?].
Qed.

(** The base domain and the name of a host are made of its units. *)
Lemma parse_host_units host p : Forall any_host_char host -> parseHost host = Some p ->
  Forall (fun c => host_char c = true) (hi_baseDomain p)
  /\ (forall root, hi_rootName p = Some root -> Forall (fun c => host_char c = true) root).
Proof.
  intros Hh. unfold parseHost. set (h := replace_first FINAL_DOT_RE _ _).
  assert (Hu : Forall (fun c => host_char c = true) h).
  { apply replace_first_units; [|constructor]. apply replace_first_units; [|constructor]. by apply lower_host. }
  clearbody h. case_bool_decide; [done|]. destruct (isIpAddress h); [by intros [= <-]|].
  assert (Hp : Forall (Forall (fun c => host_char c = true)) (split_on (Z.eqb 46) h)).
  { eapply Forall_impl; [apply split_on_units|]. cbn. intros w Hw. eapply Forall_impl; [exact Hw|]. cbn. intros c [_ Hc].
    rewrite Forall_forall in Hu. auto. }
  set (parts := split_on (Z.eqb 46) h) in *. clearbody parts.
  destruct (length parts =? 1)%nat; intros [= <-]; cbn [hi_baseDomain hi_rootName].
  - split; [done|]. intros root [= <-]. apply Forall_nth_default; [constructor|done].
  - split; [|intros root [= <-]; apply Forall_nth_default; [constructor|done]].
    apply Forall_join; [by repeat constructor|]. by apply Forall_drop.
Qed.

Lemma first_some_Some {A B} (f : A -> option B) l y : first_some f l = Some y -> exists x, x ∈ l /\ f x = Some y.
Proof.
  induction l as [|x l IH]; cbn; [done|]. destruct (f x) as [y'|] eqn:E.
  - intros [= <-]. exists x. split; [left|done].
  - intros (z & ? & ?)%IH. exists z. split; [by right|done].
Qed.

Lemma label_groups_in (P : list Z -> Prop) g ls : Forall P g -> Forall P ls -> Forall (Forall P) (label_groups g ls).
Proof.
  intros Hg Hl. revert g Hg. induction Hl as [|l ls Hl Hls IH]; intros g Hg; cbn; [by repeat constructor|].
  case_bool_decide; [constructor; [done|]; apply IH; constructor|]. apply IH. apply Forall_app_2; [done|by repeat constructor].
Qed.

(** A host found in a title is one [parseHost] reads from units of a host. *)
Lemma detected_from_host txt p : detectDomainInText txt = Some p ->
  exists host, Forall any_host_char host /\ parseHost host = Some p.
Proof.
  unfold detectDomainInText. intros (run & Hrun & (g & Hg & Hp)%first_some_Some)%first_some_Some.
  assert (Hr : Forall (fun c => host_char c = true) run).
  { pose proof (split_on_units (fun c => negb (is_lower_alnum c || (c =? 46) || (c =? 45))) (to_lower txt)) as Hs.
    rewrite Forall_forall in Hs. specialize (Hs run Hrun). eapply Forall_impl; [exact Hs|]. cbn. intros c [Hc%negb_false_iff _]. done. }
  assert (Hl : Forall (Forall (fun c => host_char c = true)) (split_on (Z.eqb 46) run)).
  { eapply Forall_impl; [apply split_on_units|]. cbn. intros w Hw. eapply Forall_impl; [exact Hw|]. cbn. intros c [_ Hc].
    rewrite Forall_forall in Hr. auto. }
  pose proof (label_groups_in _ [] _ (Forall_nil_2 _) Hl) as Hgs. rewrite Forall_forall in Hgs. specialize (Hgs g Hg).
  unfold group_host in Hp. destruct (_ && _); [|done]. destruct (parseHost (join (js ".") g)) as [q|] eqn:E; [|done].
  exists (join (js ".") g). split.
  - eapply Forall_impl; [apply (Forall_join (fun c => host_char c = true)); [by repeat constructor|done]|]. apply host_char_any.
  - rewrite E. destruct (hi_rootName q); [|done]. by destruct (_ && _).
Qed.

(** So is the host of a remote session. *)
Lemma host_unit_any c : is_alnum c || (c =? 45) = true -> any_host_char c.
Proof.
  unfold any_host_char, host_char, is_lower_alnum, is_alnum, is_alpha, ascii_lower, is_lower, is_upper, is_digit, is_ascii, in_range. intros Hc.
  rewrite !orb_true_iff, !andb_true_iff, !Z.leb_le, !Z.eqb_eq in Hc.
  destruct (Z.leb_spec 65 c), (Z.leb_spec c 90); cbn [andb]; rewrite ?orb_true_iff, ?andb_true_iff, ?Z.leb_le, ?Z.eqb_eq; lia.
Qed.

Lemma remote_session_units s t : match_group REMOTE_SESSION_RE s = Some t -> Forall any_host_char t.
Proof.
  apply match_group_units. unfold REMOTE_SESSION_RE.
  cbn [group_in units_in plus opt alts lit lit_i foldr js host_unit space]. split_and!; try done; intros c Hc;
    first [by apply host_unit_any|apply Z.eqb_eq in Hc as <-; by apply host_char_any].
Qed.
End hosts.

(** ** Units of tokens *)

Definition word_units (w : list Z) : Prop := Forall (fun c => host_char c = true) w.

Lemma distinct_Forall (P : list Z -> Prop) seen l : Forall P l -> Forall P (distinct seen l).
Proof. intros Hl. revert seen. induction Hl as [|w l Hw Hl IH]; intros seen; cbn; [constructor|]. case_match; auto. Qed.

Lemma Forall_filter_b {A} (P : A -> Prop) f l : Forall P l -> Forall P (List.filter f l).
Proof. induction 1 as [|x l Hx Hl IH]; cbn; [constructor|]. case_match; auto. Qed.

Lemma brand_aliases_units : Forall (fun kv => word_units kv.2) BRAND_ALIASES.
Proof. repeat (constructor; [apply forallb_Forall; vm_compute; reflexivity|]). constructor. Qed.

Section tokens.
  Context `{!CaseTables}.

Lemma tokens_units v : Forall word_units (extractTokens v).
Proof.
  unfold extractTokens. destruct (negb (truthy v)); [constructor|]. apply distinct_Forall, Forall_filter_b.
  eapply Forall_impl; [apply split_on_units|]. cbn. intros w Hw. eapply Forall_impl; [exact Hw|]. cbn.
  intros c [Hc%negb_false_iff _]. unfold host_char. by rewrite Hc.
Qed.

Lemma aliases_units tokens : Forall word_units (aliasesFor tokens).
Proof.
  unfold aliasesFor. apply distinct_Forall, Forall_filter_b. apply Forall_flat_map, Forall_forall. intros t _.
  unfold brand_alias. destruct (List.find _ BRAND_ALIASES) as [kv|] eqn:E; cbn; [|constructor].
  apply List.find_some in E as [Hin _]. constructor; [|constructor].
  pose proof brand_aliases_units as Hb. rewrite Forall_forall in Hb. apply Hb. by apply list_elem_of_In.
Qed.

Lemma squash_units v : Forall (fun c => is_lower_alnum c = true) (squash v).
Proof. unfold squash. apply Forall_forall. intros c Hc%list_elem_of_In. by apply filter_In in Hc as [_ ?]. Qed.

Lemma lower_alnum_host c : is_lower_alnum c = true -> host_char c = true.
Proof. unfold host_char. by intros ->. Qed.

Lemma identity_host cls title i d : windowIdentity cls title = Some i -> id_detectedDomain i = Some d ->
  exists host, Forall any_host_char host /\ parseHost host = Some d.
Proof.
  unfold windowIdentity. destruct (class_has BROWSER_CLASSES cls); [|destruct (class_has TERMINAL_CLASSES cls)].
  - intros Hi%(inj Some) Hd. subst i. cbn [id_detectedDomain] in Hd. by eapply detected_from_host.
  - destruct (match_group REMOTE_SESSION_RE title) as [h|] eqn:E; [|done]. intros Hi%(inj Some) Hd. subst i. cbn [id_detectedDomain] in Hd.
    exists h. split; [by eapply remote_session_units|done].
  - intros Hi%(inj Some) Hd. subst i. cbn [id_detectedDomain] in Hd. done.
Qed.

(** Everything a context contributes to a key is made of key units. *)
Lemma context_units w ctx : cleanWindowContext w = Some ctx ->
  word_units (cx_clsSquashed ctx) /\ Forall word_units (cx_titleTokens ctx)
  /\ (forall d, cx_detectedDomain ctx = Some d -> word_units (hi_baseDomain d)).
Proof.
  unfold cleanWindowContext. destruct (getActiveWindowFromData w) as [win|]; [|done].
  set (cls := take _ _). set (title := take _ _). destruct (_ && _); [done|].
  destruct (windowIdentity cls title) as [i|] eqn:Ei; [|done]. destruct (_ && _); [done|]. intros [= <-].
  cbn [cx_clsSquashed cx_titleTokens cx_detectedDomain].
  assert (Hd : forall d, id_detectedDomain i = Some d ->
    word_units (hi_baseDomain d) /\ (forall root, hi_rootName d = Some root -> word_units root)).
  { intros d Hd. destruct (identity_host _ _ _ _ Ei Hd) as (host & Hh & Hp). by eapply parse_host_units. }
  split_and!.
  - eapply Forall_impl; [apply squash_units|]. apply lower_alnum_host.
  - apply Forall_app_2; [|apply aliases_units]. unfold raw_tokens. destruct (id_detectedDomain i) as [d|]; [|apply tokens_units].
    destruct (Hd d eq_refl) as [_ Hr]. destruct (hi_rootName d) as [root|]; [|apply tokens_units].
    destruct (_ && _); [|apply tokens_units]. apply Forall_app_2; [apply tokens_units|]. constructor; [by apply Hr|constructor].
  - intros d Hdd. by apply Hd.
Qed.

(** ** Scores *)

Lemma max_over_in {A} (f : A -> Z) l (S : list Z) : 0 ∈ S -> (forall x, f x ∈ S) -> max_over f l ∈ S.
Proof.
  intros H0 Hf. unfold max_over. cut (forall s, s ∈ S -> fold_left (fun s x => Z.max s (f x)) l s ∈ S); [auto|].
  induction l as [|x l IH]; intros s Hs; cbn; [done|]. apply IH. by destruct (Z.max_spec s (f x)) as [[_ ->]|[_ ->]].
Qed.

(** The scores of everything but a domain. *)
Definition word_scores : list Z := [0; 80; 82; 84; 86; 88; 90; 92].

Lemma max_in a b : a ∈ word_scores -> b ∈ word_scores -> Z.max a b ∈ word_scores.
Proof. intros. by destruct (Z.max_spec a b) as [[_ ->]|[_ ->]]. Qed.

Ltac in_scores := unfold word_scores; rewrite ?elem_of_cons; tauto.

Lemma title_score_in domains ctx : domainTitleScore domains ctx ∈ word_scores.
Proof.
  apply max_over_in; [in_scores|]. intros d. unfold domain_title_score. repeat case_match; in_scores.
Qed.

Lemma name_score_in n ctx : itemNameTitleScore n ctx ∈ word_scores.
Proof. unfold itemNameTitleScore. repeat case_match; try apply max_in; in_scores. Qed.

Lemma shared_score_in a b : sharedTitleTokenScore a b ∈ word_scores.
Proof.
  unfold sharedTitleTokenScore. set (n := Z.of_nat _). destruct (Z.ltb_spec 0 n); [|in_scores].
  assert (Hn : Z.min n 3 = 1 \/ Z.min n 3 = 2 \/ Z.min n 3 = 3) by lia. destruct Hn as [->|[->| ->]]; cbn; in_scores.
Qed.

Lemma native_score_in d n ctx : nativeAppScore d n ctx ∈ word_scores.
Proof. unfold nativeAppScore. repeat case_match; try apply max_in; in_scores. Qed.

(** The item is on the host, or on the domain, that the window names. *)
Definition on_host (item : jsval) (ctx : context) : Prop :=
  exists d x, cx_detectedDomain ctx = Some d /\ x ∈ itemDomains item /\ same_host x d = true.
Definition on_domain (item : jsval) (ctx : context) : Prop :=
  exists d x, cx_detectedDomain ctx = Some d /\ x ∈ itemDomains item /\ (same_host x d || same_base x d) = true.

Lemma existsb_elem {A} (p : A -> bool) l : existsb p l = true <-> exists x, x ∈ l /\ p x = true.
Proof. rewrite existsb_exists. by setoid_rewrite list_elem_of_In. Qed.

Lemma direct_score item ctx :
  let s := directDomainScore (itemDomains item) (cx_detectedDomain ctx) in
  (s = 100 /\ on_host item ctx) \/ (s = 96 /\ on_domain item ctx /\ ~ on_host item ctx) \/ (s = 0 /\ ~ on_domain item ctx).
Proof.
  unfold directDomainScore, on_host, on_domain. destruct (cx_detectedDomain ctx) as [d|]; [|right; right; split; [done|by intros (? & ? & ? & _)]].
  destruct (existsb _ _) eqn:E1; [|destruct (existsb (fun x => same_base x d) _) eqn:E2].
  - left. apply existsb_elem in E1 as (x & ? & ?). split; [done|]. by exists d, x.
  - right; left. apply existsb_elem in E2 as (x & Hx & Hb). split_and!; [done| |].
    + exists d, x. rewrite Hb, orb_true_r. done.
    + intros (d' & y & [= <-] & Hy & Hs). assert (E : existsb (fun x => same_host x d) (itemDomains item) = true) by (apply existsb_elem; eauto). congruence.
  - right; right. split; [done|]. intros (d' & y & [= <-] & Hy & [Hs|Hs]%orb_true_iff).
    + assert (E : existsb (fun x => same_host x d) (itemDomains item) = true) by (apply existsb_elem; eauto). congruence.
    + assert (E : existsb (fun x => same_base x d) (itemDomains item) = true) by (apply existsb_elem; eauto). congruence.
Qed.

Lemma word_scores_le s : s ∈ word_scores -> 0 <= s <= 92.
Proof. unfold word_scores. rewrite !elem_of_cons, elem_of_nil. lia. Qed.

Lemma match_item_bands item ctx : truthy item = true -> local_terminal ctx = false ->
  let s := matchItem item ctx in
  (s = 100 /\ on_host item ctx) \/ (s = 96 /\ on_domain item ctx /\ ~ on_host item ctx) \/ (s ∈ word_scores /\ ~ on_domain item ctx).
Proof.
  intros Hi Ht. unfold matchItem. rewrite Hi, Ht. cbn [negb].
  set (w := Z.max (Z.max (Z.max (domainTitleScore (itemDomains item) ctx) (itemNameTitleScore (squash (fld item "name")) ctx))
    (sharedTitleTokenScore (extractTokens (fld item "name")) (cx_titleTokens ctx))) (nativeAppScore (itemDomains item) (squash (fld item "name")) ctx)).
  assert (Hw : w ∈ word_scores).
  { repeat apply max_in; [apply title_score_in|apply name_score_in|apply shared_score_in|apply native_score_in]. }
  pose proof (word_scores_le w Hw) as Hr.
  assert (Hm : forall s, Z.max (Z.max (Z.max (Z.max s (domainTitleScore (itemDomains item) ctx)) (itemNameTitleScore (squash (fld item "name")) ctx))
    (sharedTitleTokenScore (extractTokens (fld item "name")) (cx_titleTokens ctx))) (nativeAppScore (itemDomains item) (squash (fld item "name")) ctx) = Z.max s w) by (subst w; lia).
  cbn zeta. rewrite Hm. clear Hm. clearbody w.
  destruct (direct_score item ctx) as [[-> Hh]|[(-> & Hd & Hh)|[-> Hd]]]; cbn [Z.eqb Pos.eqb].
  - by left.
  - right; left. split_and!; [lia|done|done].
  - right; right. rewrite Z.max_r by lia. done.
Qed.

(** How well an item matches the window falls into bands: 100 exactly when one
    of its websites is on the host the window names, 96 exactly when it is on the
    same domain, and otherwise at most 92, whatever words, names and classes
    agree, so a word never outranks a domain.  A local terminal matches nothing. *)
Theorem score_bands item ctx :
  let s := matchItem item ctx in
  s ∈ word_scores ++ [96; 100]
  /\ (truthy item = true -> local_terminal ctx = false -> (s = 100 <-> on_host item ctx) /\ (96 <= s <-> on_domain item ctx))
  /\ (local_terminal ctx = true -> s = 0).
Proof.
  cbn zeta. assert (Hh : on_host item ctx -> on_domain item ctx).
  { intros (d & x & ? & ? & Hs). exists d, x. by rewrite Hs. }
  assert (H0 : 0 ∈ word_scores ++ [96; 100]) by (apply elem_of_app; left; in_scores).
  destruct (truthy item) eqn:Hi; [|unfold matchItem; rewrite Hi; cbn [negb]; by split_and!].
  destruct (local_terminal ctx) eqn:Ht; [unfold matchItem; rewrite Hi, Ht; cbn [negb]; by split_and!|].
  destruct (match_item_bands item ctx Hi Ht) as [[-> H1]|[(-> & H1 & H2)|[Hw H1]]].
  - split_and!; [unfold word_scores; cbn [app]; rewrite !elem_of_cons; tauto| |done]. intros _ _. split; split; try done; auto; lia.
  - split_and!; [unfold word_scores; cbn [app]; rewrite !elem_of_cons; tauto| |done]. intros _ _. split; split; try done; lia.
  - split_and!; [apply elem_of_app; by left| |done]. intros _ _. pose proof (word_scores_le _ Hw).
    split; (split; [lia|naive_solver]).
Qed.
End tokens.
