(* ===== verification/Associations.v ===== *)
(** * Learned associations and suggestions ([BitwardenModel.js])

    Which item the user picked for a window, kept by keys of the window (its
    domain, its application, words of its title), and the suggestions made from
    them and from the scores of [Context]. *)

From Stdlib Require Import QArith_base Qround.
From S2P Require Import Prelude.
From S2P Require Import JsNum.
From S2P Require Import JsString.
From S2P Require Import JsUnicode.
From S2P Require Import JsValue.
From S2P Require Import Json.
From S2P Require Import Regex.
From S2P Require Import Accounts.
From S2P Require Import Shell.
From S2P Require Import Items.
From S2P Require Import Context.
Local Open Scope Z_scope.

Definition ASSOC_DIR : list Z := js "${XDG_STATE_HOME:-$HOME/.local/state}/qs-bitwarden-cli".
Definition ASSOC_VERSION : Z := 1.
Definition MAX_ASSOC_BYTES : Z := 1024 * 1024.
Definition MAX_ASSOC_WRITE_BYTES : Z := MAX_ASSOC_BYTES / 2.

(** ** The file *)

Definition associationsFileName (slot : jsval) : list Z :=
  let s := accountSlot slot in
  if str_eqb s DEFAULT_ACCOUNT_SLOT then js "associations.json" else js "associations@" ++ s ++ js ".json".

Definition associationsReadCommand (slot : jsval) : list (list Z) :=
  [js "bash"; js "-c";
   sh "d=`" ++ ASSOC_DIR ++ sh "`; f=`$d/" ++ associationsFileName slot ++ sh "`; "
   ++ sh "if [ -d `$d` ] && [ ! -L `$d` ] && [ -f `$f` ] && [ ! -L `$f` ]; then "
   ++ js "head -c " ++ num_text MAX_ASSOC_BYTES ++ sh " `$f` 2>/dev/null || printf '{}'; else printf '{}'; fi"].

Definition associationsWriteCommand (slot : jsval) : list (list Z) :=
  [js "bash"; js "-c";
   sh "set -e; d=`" ++ ASSOC_DIR ++ sh "`; "
   ++ privateDirScript (js "d")
   ++ sh "umask 077; tmp=$(mktemp -- `$d/.associations.XXXXXXXX`); "
   ++ sh "trap 'rm -f -- `$tmp`' EXIT HUP INT TERM; "
   ++ js "head -c " ++ num_text (MAX_ASSOC_BYTES + 1) ++ sh " > `$tmp`; "
   ++ sh "[ `$(wc -c < `$tmp`)` -le " ++ num_text MAX_ASSOC_BYTES ++ sh " ]; chmod 600 `$tmp`; "
   ++ sh "mv -fT -- `$tmp` `$d/" ++ associationsFileName slot ++ sh "`; trap - EXIT HUP INT TERM"].

Definition associationsClearCommand (slot : jsval) : list (list Z) :=
  [js "bash"; js "-c";
   sh "d=`" ++ ASSOC_DIR ++ sh "`; "
   ++ sh "if [ -d `$d` ] && [ ! -L `$d` ]; then rm -f -- `$d/" ++ associationsFileName slot ++ sh "` 2>/dev/null; fi; exit 0"].

(** ** The store *)

(** An entry; [e_count] is a whole number. *)
Record entry := Entry { e_itemId : list Z; e_weight : Z; e_count : Z; e_updated : list Z; e_pinned : bool }.

(** The [keys] object.  A key has one of three prefixes, so it never names a
    property of [Object.prototype] and is never an array index. *)
Definition store := list (list Z * entry).

(** [keys[k]] *)
Fixpoint key_get (a : store) (k : list Z) : option entry :=
  match a with
  | [] => None
  | (k', e) :: a => if str_eqb k' k then Some e else key_get a k
  end.

(** [keys[k] = e] *)
Fixpoint key_put (a : store) (k : list Z) (e : entry) : store :=
  match a with
  | [] => [(k, e)]
  | (k', e') :: a => if str_eqb k' k then (k', e) :: a else (k', e') :: key_put a k e
  end.

Definition emptyAssociations : store := [].

(** [/^prefix[a-z0-9]+$/] and [/^domain:[a-z0-9][a-z0-9.-]*$/] *)
Definition after_prefix (prefix value : list Z) : option (list Z) :=
  if starts_with prefix value then Some (drop (length prefix) value) else None.
Definition is_label (v : option (list Z)) : bool := match v with Some ((_ :: _) as s) => forallb is_lower_alnum s | _ => false end.
Definition is_domain_text (v : option (list Z)) : bool :=
  match v with
  | Some (c :: s) => is_lower_alnum c && forallb (fun c => is_lower_alnum c || (c =? 46) || (c =? 45)) s
  | _ => false
  end.

Definition associationKeyWeight (value : list Z) : Z :=
  if (MAX_TITLE_CHARS + 16 <? length value)%nat then 0
  else if is_domain_text (after_prefix (js "domain:") value) then 3
  else if is_label (after_prefix (js "app:") value) then 2
  else if is_label (after_prefix (js "word:") value) then 1
  else 0.

(** [isFinite(count) && count >= 1 ? Math.min(1000000, Math.floor(count)) : 1] *)
Definition clean_count (v : jsval) : Z :=
  match to_number v with
  | Fin q => if num_ltb (Fin q) (NZ 1) then 1 else Z.min 1000000 (Qfloor q)
  | _ => 1
  end.

Definition cleanAssociationEntry (key : list Z) (e : jsval) : option entry :=
  let weight := associationKeyWeight key in
  match e with
  | JObj kvs =>
      if weight =? 0 then None
      else match obj_get kvs (js "itemId") with
      | JStr itemId =>
          if bool_decide (itemId = []) || (256 <? length itemId)%nat || existsb is_control itemId then None
          else
            let updated := match obj_get kvs (js "updated") with JStr u => u | _ => [] end in
            let updated := if (64 <? length updated)%nat || existsb is_control updated then [] else updated in
            Some (Entry itemId weight (clean_count (obj_get kvs (js "count"))) updated (is_true (obj_get kvs (js "pinned"))))
      | _ => None
      end
  | _ => None
  end.

(** [parsed.version === undefined ? 1 : parsed.version] is this file's version. *)
Definition version_ok (parsed : jsval) : bool :=
  let v := fld parsed "version" in
  num_eqb (to_number (if is_undef v then JNum (NZ ASSOC_VERSION) else v)) (NZ ASSOC_VERSION).

Definition collect_keys (kvs : list (list Z * jsval)) : store :=
  fold_left (fun a kv => match cleanAssociationEntry kv.1 kv.2 with Some e => key_put a kv.1 e | None => a end) (entries kvs) [].

(** [None]: the text of [null] makes the function throw, since [parsed.version] is
    read of it. *)
Definition parseAssociations (raw : jsval) : option store :=
  let t := trim (text raw) in
  match parse (match t with [] => js "{}" | _ => t end) with
  | None => Some emptyAssociations
  | Some JNull => None
  | Some parsed =>
      match parsed, fld parsed "keys" with
      | JObj _, JObj keys => if version_ok parsed then Some (collect_keys keys) else Some emptyAssociations
      | _, _ => Some emptyAssociations
      end
  end.

Definition entry_json (e : entry) : jsval :=
  JObj ([(js "itemId", JStr (e_itemId e)); (js "weight", JNum (NZ (e_weight e))); (js "count", JNum (NZ (e_count e)));
         (js "updated", JStr (e_updated e))] ++ (if e_pinned e then [(js "pinned", JBool true)] else [])).

Definition store_json (a : store) : jsval :=
  JObj [(js "version", JNum (NZ ASSOC_VERSION)); (js "keys", JObj (map (fun ke => (ke.1, entry_json ke.2)) a))].

Definition serializeAssociations (a : store) : list Z := stringify (store_json a).

(** ** Keys of a window *)

(** [{key, weight}] *)
Definition contextKeys (ctx : context) (withWords : bool) : list (list Z * Z) :=
  (match cx_detectedDomain ctx with
   | Some d => if negb (bool_decide (hi_baseDomain d = [])) && negb (hi_isIp d) then [(js "domain:" ++ hi_baseDomain d, 3)] else []
   | None => []
   end)
  ++ (if negb (cx_isBrowser ctx) && negb (cx_isTerminal ctx) && (3 <=? length (cx_clsSquashed ctx))%nat
      then [(js "app:" ++ cx_clsSquashed ctx, 2)] else [])
  ++ (if withWords then map (fun t => (js "word:" ++ t, 1)) (cx_titleTokens ctx) else []).

Definition isWordKey (key : list Z) : bool := starts_with (js "word:") key.

(** The entry under the key, if it counts. *)
Definition associationEntryCounts (key : list Z) (e : option entry) : bool :=
  match e with Some e => negb (isWordKey key) || e_pinned e | None => false end.

(** ** Recording and forgetting *)

(** [updated] descending, then the key descending. *)
Definition newer (a b : list Z * entry) : bool :=
  if str_eqb (e_updated a.2) (e_updated b.2) then negb (str_ltb a.1 b.1) else negb (str_ltb (e_updated a.2) (e_updated b.2)).

Definition entry_cost (ke : list Z * entry) : Z :=
  Z.of_nat (length ke.1) + Z.of_nat (length (stringify (entry_json ke.2))) + 4.

(** The longest prefix within the budget. *)
Fixpoint within_budget (used : Z) (l : store) : store :=
  match l with
  | [] => []
  | ke :: l => let used := used + entry_cost ke in if MAX_ASSOC_WRITE_BYTES <? used then [] else ke :: within_budget used l
  end.

Definition trimAssociations (a : store) : store :=
  let all := sort_by newer a in
  let kept := within_budget 0 all in
  if (length kept =? length all)%nat then a
  else fold_left (fun t ke => key_put t ke.1 ke.2) kept [].

Definition record_key (itemId timestamp : list Z) (pinned : bool) (a : store) (kw : list Z * Z) : store :=
  let existing := key_get a kw.1 in
  let same := match existing with Some e => str_eqb (e_itemId e) itemId | None => false end in
  let count := match existing with Some e => if same then e_count e + 1 else 1 | None => 1 end in
  let was_pinned := match existing with Some e => same && e_pinned e | None => false end in
  key_put a kw.1 (Entry itemId kw.2 count timestamp (pinned || was_pinned)).

(** [itemId] is a string or absent (empty), [timestamp] a string. *)
Definition recordAssociation (a : store) (ctx : context) (itemId timestamp : list Z) (pinned : bool) : store :=
  match contextKeys ctx pinned with
  | [] => a
  | keys => if bool_decide (itemId = []) then a else trimAssociations (fold_left (record_key itemId timestamp pinned) keys a)
  end.

(** An empty [itemId] forgets whatever the window's keys hold. *)
Definition forgetAssociation (a : store) (ctx : context) (itemId : list Z) : store :=
  let keys := (contextKeys ctx true).*1 in
  List.filter (fun ke => negb (existsb (str_eqb ke.1) keys && (bool_decide (itemId = []) || str_eqb (e_itemId ke.2) itemId))) a.

Definition isAssociated (a : store) (ctx : context) (itemId : list Z) : bool :=
  if bool_decide (itemId = []) then false
  else existsb (fun kw => let e := key_get a kw.1 in
                          associationEntryCounts kw.1 e && match e with Some e => str_eqb (e_itemId e) itemId | None => false end)
         (contextKeys ctx true).

(** ** Ranked items *)

(** [best[id]], and [best[id] = rank]. *)
Fixpoint rank_get (best : list (list Z * Z)) (id : list Z) : option Z :=
  match best with [] => None | (i, r) :: best => if str_eqb i id then Some r else rank_get best id end.
Fixpoint rank_put (best : list (list Z * Z)) (id : list Z) (r : Z) : list (list Z * Z) :=
  match best with [] => [(id, r)] | (i, r') :: best => if str_eqb i id then (i, r) :: best else (i, r') :: rank_put best id r end.

(** [!best[id] || best[id] < rank].  A name of [Object.prototype] is found there
    first: a function is truthy and never less than a number. *)
Definition better (best : list (list Z * Z)) (id : list Z) (rank : Z) : bool :=
  match rank_get best id with
  | Some r => (r =? 0) || (r <? rank)
  | None => negb (truthy (proto_get id))
  end.

Definition rank_key (a : store) (best : list (list Z * Z)) (kw : list Z * Z) : list (list Z * Z) :=
  let e := key_get a kw.1 in
  if negb (associationEntryCounts kw.1 e) then best
  else match e with
  | Some e =>
      if bool_decide (e_itemId e = []) then best
      else
        let rank := kw.2 * 1000 + (if e_count e =? 0 then 1 else e_count e) in
        if better best (e_itemId e) rank then rank_put best (e_itemId e) rank else best
  | None => best
  end.

Definition learnedMatchIds (a : store) (ctx : context) : list (list Z * Z) :=
  sort_by (fun x y => y.2 <=? x.2) (entries (fold_left (rank_key a) (contextKeys ctx true) [])).

(** ** Suggestions *)

Section suggestions.
  Context `{!CaseTables}.

Definition MATCH_THRESHOLD : Z := 80.
Definition MAX_SUGGESTIONS : nat := 6.

(** [byId[id]]: the last row with the id.  A property of [Object.prototype] is
    found for its name. *)
Definition by_id (items : list jsval) (id : list Z) : jsval :=
  obj_get (fold_left (fun o it => if truthy it && truthy (fld it "id") then obj_set o (to_string (fld it "id")) it else o) items []) id.

(** The rows, and the ids of [learned.ids]. *)
Definition resolveLearnedMatches (items : list jsval) (a : store) (ctx : context) : list jsval * list (list Z) :=
  let hits := List.filter (fun hit => truthy hit && isLoginItem hit) (map (fun ir => by_id items ir.1) (learnedMatchIds a ctx)) in
  (hits, map (fun hit => to_string (fld hit "id")) hits).

Record scored := Scored { sc_item : jsval; sc_score : Z; sc_index : Z }.

Definition scoreContextualMatches (items : list jsval) (ctx : context) : list scored :=
  List.filter (fun s => MATCH_THRESHOLD <=? sc_score s)
    (map (fun ix => Scored ix.2 (matchItem ix.2 ctx) ix.1) (List.filter (fun ix => isLoginItem ix.2) (indexed items 0))).

(** [compareContextualMatches(a, b) <= 0] *)
Definition contextual_le (a b : scored) : bool :=
  if negb (sc_score b =? sc_score a) then sc_score b <? sc_score a
  else if negb (strict_eqb (fld (sc_item a) "favorite") (fld (sc_item b) "favorite")) then truthy (fld (sc_item a) "favorite")
  else sc_index a <=? sc_index b.

(** [learned.ids[id]] *)
Definition is_learned (ids : list (list Z)) (it : jsval) : bool :=
  let id := to_string (fld it "id") in existsb (str_eqb id) ids || truthy (proto_get id).

Definition cutoff_of (best : Z) : Z := if 96 <=? best then 96 else Z.max MATCH_THRESHOLD (best - 8).

(** [{matches, context, learnedIds}] *)
Record suggestion := Suggestion { sg_matches : list jsval; sg_context : option context; sg_learnedIds : list (list Z) }.
Definition no_suggestion : suggestion := Suggestion [] None [].

Definition findContextualMatches (items windowData : jsval) (associations : store) : suggestion :=
  match cleanWindowContext windowData, items with
  | Some ctx, JArr ((_ :: _) as l) =>
      if local_terminal ctx then no_suggestion
      else if bool_decide (cx_title ctx = []) && match cx_detectedDomain ctx with None => true | _ => false end && bool_decide (cx_clsSquashed ctx = [])
      then no_suggestion
      else
        let '(learned, ids) := resolveLearnedMatches l associations ctx in
        let scored := sort_by contextual_le (scoreContextualMatches l ctx) in
        match scored, learned with
        | [], [] => no_suggestion
        | [], _ => Suggestion (take MAX_SUGGESTIONS learned) (Some ctx) ids
        | best :: _, _ =>
            let cutoff := cutoff_of (sc_score best) in
            let rest := List.filter (fun s => (cutoff <=? sc_score s) && negb (is_learned ids (sc_item s))) scored in
            Suggestion (take MAX_SUGGESTIONS (learned ++ map sc_item rest)) (Some ctx) ids
        end
  | _, _ => no_suggestion
  end.
End suggestions.
