(* ===== verification/AssociationsCorrect.v ===== *)
(** * Correctness of learned associations *)

From Stdlib Require Import QArith_base Qround Sorting.Sorted.
From S2P Require Import Prelude.
From S2P Require Import JsNum.
From S2P Require Import JsString.
From S2P Require Import JsUnicode.
From S2P Require Import JsValue.
From S2P Require Import Json.
From S2P Require Import Regex.
From S2P Require Import Items.
From S2P Require Import Context.
From S2P Require Import ContextCorrect.
From S2P Require Import Associations.
Local Open Scope Z_scope.

(** ** The store as a map *)

Lemma key_get_put a k e : key_get (key_put a k e) k = Some e.
Proof.
  induction a as [|[k' e'] a IH]; cbn; [by rewrite str_eqb_refl|]. destruct (str_eqb k' k) eqn:E; cbn; rewrite E; done.
Qed.

Lemma key_get_put_ne a k k' e : k <> k' -> key_get (key_put a k e) k' = key_get a k'.
Proof.
  intros Hne. induction a as [|[j w] a IH]; cbn; [by rewrite (proj2 (str_eqb_neq k k') Hne)|].
  destruct (str_eqb j k) eqn:E; cbn; [|by rewrite IH]. apply str_eqb_eq in E as ->. by rewrite (proj2 (str_eqb_neq k k') Hne).
Qed.

Lemma key_get_elem a k e : key_get a k = Some e -> (k, e) ∈ a.
Proof.
  induction a as [|[k' e'] a IH]; cbn; [done|]. destruct (str_eqb k' k) eqn:E.
  - apply str_eqb_eq in E as ->. intros [= ->]. left.
  - right. auto.
Qed.

Lemma key_get_nodup a k e : NoDup a.*1 -> (k, e) ∈ a -> key_get a k = Some e.
Proof.
  induction a as [|[k' e'] a IH]; cbn; intros Hn Hin; [by apply elem_of_nil in Hin|].
  apply NoDup_cons in Hn as [Hk Hn]. apply elem_of_cons in Hin as [[= -> ->]|Hin]; [by rewrite str_eqb_refl|].
  rewrite (proj2 (str_eqb_neq k' k)); [by apply IH|]. intros ->. apply Hk, list_elem_of_fmap. by exists (k, e).
Qed.

Lemma key_put_fresh a k e : k ∉ a.*1 -> key_put a k e = a ++ [(k, e)].
Proof.
  induction a as [|[k' e'] a IH]; cbn; [done|]. intros [Hne Hk]%not_elem_of_cons.
  rewrite (proj2 (str_eqb_neq k' k)) by congruence. by rewrite IH.
Qed.

Lemma key_put_elem a k e x : x ∈ key_put a k e -> x = (k, e) \/ x ∈ a.
Proof.
  induction a as [|[k' e'] a IH]; cbn; [intros ->%list_elem_of_singleton; by left|].
  destruct (str_eqb k' k) eqn:E; rewrite !elem_of_cons.
  - apply str_eqb_eq in E as ->. naive_solver.
  - naive_solver.
Qed.

Lemma key_put_nodup a k e : NoDup a.*1 -> NoDup (key_put a k e).*1.
Proof.
  induction a as [|[k' e'] a IH]; cbn; intros Hn; [apply NoDup_singleton|].
  destruct (str_eqb k' k) eqn:E; [done|]. cbn. apply NoDup_cons in Hn as [Hk Hn]. apply NoDup_cons. split; [|by apply IH].
  intros ([k2 e2] & Hk2 & Hin)%list_elem_of_fmap. cbn in Hk2. subst k2. apply str_eqb_neq in E.
  apply key_put_elem in Hin as [[= -> ->]|Hin]; [done|]. apply Hk, list_elem_of_fmap. by exists (k', e2).
Qed.

(** Adding entries with distinct new keys appends them. *)
Lemma fold_key_put l a : NoDup (a ++ l).*1 -> fold_left (fun t ke => key_put t ke.1 ke.2) l a = a ++ l.
Proof.
  revert a. induction l as [|[k e] l IH]; intros a Hn; cbn; [by rewrite app_nil_r|].
  assert (Hk : k ∉ a.*1).
  { rewrite fmap_app in Hn. apply NoDup_app in Hn as (_ & Hd & _). intros Hin. apply (Hd k Hin). left. }
  rewrite key_put_fresh by done. rewrite IH; rewrite <- app_assoc; done.
Qed.

(** ** Keys *)

(** A unit of a key; JSON prints it as it is. *)
Definition key_unit (c : Z) : bool := is_lower_alnum c || (c =? 46) || (c =? 45) || (c =? 58).

Lemma key_unit_range c : key_unit c = true -> 45 <= c <= 122 /\ c <> 92.
Proof. unfold key_unit, is_lower_alnum, is_lower, is_digit, in_range. rewrite !orb_true_iff, !andb_true_iff, !Z.leb_le, !Z.eqb_eq. lia. Qed.

Lemma quote_key k : Forall (fun c => key_unit c = true) k -> quote k = 34 :: k ++ [34].
Proof.
  intros Hk. unfold quote. f_equal. f_equal. induction Hk as [|c k Hc Hk IH]; cbn; [done|]. rewrite IH.
  apply key_unit_range in Hc. unfold quote_unit. repeat (case_match; boolZ; try lia). done.
Qed.

Lemma after_prefix_Some p v s : after_prefix p v = Some s -> v = p ++ s.
Proof.
  unfold after_prefix. destruct (starts_with p v) eqn:E; [|done]. apply starts_with_spec in E as [r ->]. intros [= <-].
  by rewrite drop_app_length.
Qed.

(** A key that is accepted has a prefix of letters and key units after it. *)
Lemma key_shape k : associationKeyWeight k <> 0 ->
  exists p s, k = p ++ s /\ (p = js "domain:" \/ p = js "app:" \/ p = js "word:") /\ Forall (fun c => key_unit c = true) s.
Proof.
  unfold associationKeyWeight. destruct (_ <? length k)%nat; [done|].
  destruct (is_domain_text _) eqn:E1; [intros _|destruct (is_label (after_prefix (js "app:") k)) eqn:E2;
    [intros _|destruct (is_label (after_prefix (js "word:") k)) eqn:E3; [intros _|done]]].
  - destruct (after_prefix (js "domain:") k) as [[|c s]|] eqn:E; try done. apply after_prefix_Some in E.
    apply andb_true_iff in E1 as [Hc Hs%forallb_Forall]. exists (js "domain:"), (c :: s). split_and!; [done|by left|].
    constructor; [unfold key_unit; by rewrite Hc|]. eapply Forall_impl; [exact Hs|]. cbn. intros x Hx. unfold key_unit. by rewrite Hx.
  - destruct (after_prefix (js "app:") k) as [[|c s]|] eqn:E; try done. apply after_prefix_Some in E.
    apply forallb_Forall in E2. exists (js "app:"), (c :: s). split_and!; [done|by right; left|].
    eapply Forall_impl; [exact E2|]. cbn. intros x Hx. unfold key_unit. by rewrite Hx.
  - destruct (after_prefix (js "word:") k) as [[|c s]|] eqn:E; try done. apply after_prefix_Some in E.
    apply forallb_Forall in E3. exists (js "word:"), (c :: s). split_and!; [done|by right; right|].
    eapply Forall_impl; [exact E3|]. cbn. intros x Hx. unfold key_unit. by rewrite Hx.
Qed.

Lemma weighted_key k : associationKeyWeight k <> 0 ->
  Forall (fun c => key_unit c = true) k /\ forallb is_unit k = true /\ is_index k = false.
Proof.
  intros (p & s & -> & Hp & Hs)%key_shape.
  assert (Hk : Forall (fun c => key_unit c = true) (p ++ s)).
  { apply Forall_app_2; [|done]. apply forallb_Forall. by destruct Hp as [->|[->| ->]]. }
  split_and!; [done| |by destruct Hp as [->|[->| ->]]].
  apply forallb_Forall. eapply Forall_impl; [exact Hk|]. intros c Hc%key_unit_range. unfold is_unit, in_range. lia.
Qed.

(** ** Well-formed stores *)

Record entry_wf (k : list Z) (e : entry) : Prop := {
  ew_key : e_weight e = associationKeyWeight k /\ e_weight e <> 0;
  ew_item : e_itemId e <> [] /\ (length (e_itemId e) <= 256)%nat /\ existsb is_control (e_itemId e) = false;
  ew_count : 1 <= e_count e <= 1000000;
  ew_updated : (length (e_updated e) <= 64)%nat /\ existsb is_control (e_updated e) = false;
}.

Definition store_wf (a : store) : Prop := NoDup a.*1 /\ Forall (fun ke => entry_wf ke.1 ke.2) a.

Lemma clean_count_range v : 1 <= clean_count v <= 1000000.
Proof.
  unfold clean_count. destruct (to_number v) as [|?|q]; [lia|lia|]. destruct (num_ltb (Fin q) (NZ 1)) eqn:E; [lia|].
  assert (1 <= Qfloor q); [|lia]. cbn in E. unfold Qltb in E.
  apply (Qfloor_resp_le 1 q). unfold Qle. destruct (Qcompare_spec q 1) as [Hq|Hq|Hq]; [by rewrite Hq|done|by apply Qlt_le_weak].
Qed.

Lemma clean_entry_wf k v e : cleanAssociationEntry k v = Some e -> entry_wf k e.
Proof.
  unfold cleanAssociationEntry. destruct v as [| | | | | |kvs|]; try done.
  destruct (Z.eqb_spec (associationKeyWeight k) 0) as [|Hw]; [done|].
  destruct (obj_get kvs (js "itemId")) as [| | | |itemId| | |]; try done.
  destruct (_ || _ || existsb is_control itemId) eqn:E; [done|]. apply orb_false_iff in E as [[E1 E2]%orb_false_iff E3].
  apply bool_decide_eq_false in E1. apply Nat.ltb_ge in E2.
  set (u := match obj_get kvs (js "updated") with JStr u => u | _ => [] end). intros [= <-].
  split; cbn [e_itemId e_weight e_count e_updated]; [done|done|apply clean_count_range|].
  destruct (_ || existsb is_control u) eqn:Eu; [split; [cbn [length]; lia|done]|].
  apply orb_false_iff in Eu as [Eu1 Eu2]. apply Nat.ltb_ge in Eu1. done.
Qed.

Lemma collect_keys_wf kvs : store_wf (collect_keys kvs).
Proof.
  unfold collect_keys. generalize (entries kvs) as l. intros l.
  assert (H : forall a, store_wf a -> store_wf (fold_left (fun a kv => match cleanAssociationEntry kv.1 kv.2 with Some e => key_put a kv.1 e | None => a end) l a)).
  { induction l as [|[k v] l IH]; intros a Ha; cbn; [done|]. apply IH. destruct (cleanAssociationEntry k v) as [e|] eqn:E; [|done].
    destruct Ha as [Hn Hf]. split; [by apply key_put_nodup|]. apply Forall_forall. intros x [->|Hx]%key_put_elem.
    - by eapply clean_entry_wf.
    - rewrite Forall_forall in Hf. auto. }
  apply H. split; constructor.
Qed.

(** What is read is well-formed. *)
Lemma parse_store_wf raw a : parseAssociations raw = Some a -> store_wf a.
Proof.
  unfold parseAssociations. destruct (parse _) as [v|]; [|intros [= <-]; split; constructor].
  assert (He : store_wf emptyAssociations) by (split; constructor).
  destruct v as [| | | | | |o|]; try (by intros [= <-]); try done.
  destruct (fld (JObj o) "keys"); try (by intros [= <-]). destruct (version_ok _); intros [= <-]; [apply collect_keys_wf|done].
Qed.

(** ** Round trip *)

Definition entry_printable (e : entry) : Prop := forallb is_unit (e_itemId e) = true /\ forallb is_unit (e_updated e) = true.

Lemma entry_json_clean k e : entry_wf k e -> entry_printable e -> json_clean (entry_json e) = true.
Proof.
  intros [[Hw Hw0] Hi Hc Hu] [Hpi Hpu].
  assert (Hwr : Z.abs (e_weight e) <= 2 ^ 53).
  { rewrite Hw. unfold associationKeyWeight. repeat case_match; lia. }
  unfold entry_json. destruct (e_pinned e); (apply json_clean_obj; [by vm_compute|]);
    repeat first [apply Forall_nil_2|apply Forall_cons_2]; cbn [snd]; try done; apply json_clean_int; lia.
Qed.

Lemma clean_entry_json k e : entry_wf k e -> cleanAssociationEntry k (entry_json e) = Some e.
Proof.
  intros [[Hw Hw0] (Hi & Hil & Hic) Hc (Hul & Huc)]. destruct e as [it w c u p]. cbn [e_itemId e_weight e_count e_updated e_pinned] in *.
  unfold cleanAssociationEntry, entry_json. cbn [e_itemId e_weight e_count e_updated e_pinned].
  rewrite <- Hw, (proj2 (Z.eqb_neq w 0) Hw0).
  assert (E : forall tl, obj_get ([(js "itemId", JStr it); (js "weight", JNum (NZ w)); (js "count", JNum (NZ c)); (js "updated", JStr u)] ++ tl) (js "itemId") = JStr it) by reflexivity.
  assert (Eu : forall tl, obj_get ([(js "itemId", JStr it); (js "weight", JNum (NZ w)); (js "count", JNum (NZ c)); (js "updated", JStr u)] ++ tl) (js "updated") = JStr u) by reflexivity.
  assert (Ec : forall tl, obj_get ([(js "itemId", JStr it); (js "weight", JNum (NZ w)); (js "count", JNum (NZ c)); (js "updated", JStr u)] ++ tl) (js "count") = JNum (NZ c)) by reflexivity.
  rewrite E, Eu, Ec, bool_decide_false by done. rewrite (proj2 (Nat.ltb_ge _ _) Hil), Hic, (proj2 (Nat.ltb_ge _ _) Hul), Huc. cbn [orb].
  assert (Ecc : clean_count (JNum (NZ c)) = c).
  { unfold clean_count. cbn [to_number]. pose proof (num_ltb_NZ c 1) as Hlt. unfold NZ in *. cbv iota. rewrite Hlt.
    rewrite (proj2 (Z.ltb_ge c 1)) by lia. change (c # 1) with (inject_Z c). rewrite Qfloor_Z. lia. }
  rewrite Ecc. by destruct p.
Qed.

Lemma collect_keys_back a : store_wf a -> collect_keys (map (fun ke => (ke.1, entry_json ke.2)) a) = a.
Proof.
  intros [Hn Hf]. unfold collect_keys. rewrite entries_plain.
  2: { apply Forall_map. eapply Forall_impl; [exact Hf|]. intros [k e] [[Hw Hw0] _ _ _]. cbn in *. apply weighted_key. congruence. }
  assert (H : forall b, NoDup (b ++ a).*1 ->
    fold_left (fun a kv => match cleanAssociationEntry kv.1 kv.2 with Some e => key_put a kv.1 e | None => a end) (map (fun ke => (ke.1, entry_json ke.2)) a) b = b ++ a).
  2: { by rewrite H. }
  clear Hn. induction Hf as [|[k e] a He Hf IH]; intros b Hb; cbn [map fold_left fst snd]; [by rewrite app_nil_r|].
  cbn [fst snd] in He. rewrite clean_entry_json by done. rewrite key_put_fresh.
  - rewrite IH; rewrite <- app_assoc; done.
  - rewrite fmap_app in Hb. apply NoDup_app in Hb as (_ & Hd & _). intros Hin. apply (Hd k Hin). left.
Qed.

Lemma store_json_clean a : store_wf a -> Forall (fun ke => entry_printable ke.2) a -> json_clean (store_json a) = true.
Proof.
  intros [Hn Hf] Hp. apply json_clean_obj; [by vm_compute|]. apply Forall_cons_2; [by apply json_clean_int|].
  apply Forall_cons_2; [|constructor]. cbn [snd]. apply json_clean_obj.
  - unfold keys_clean. rewrite <- list_fmap_compose. change (_ <$> a) with (a.*1). apply andb_true_iff. split; [|by apply bool_decide_eq_true].
    apply forallb_Forall, Forall_map. eapply Forall_impl; [exact Hf|]. intros [k e] [[Hw Hw0] _ _ _]. cbn in *.
    destruct (weighted_key k) as (_ & -> & ->); [congruence|done].
  - apply Forall_map. rewrite Forall_forall in *. intros ke Hke. cbn. eapply entry_json_clean; [apply Hf|apply Hp]; done.
Qed.

Lemma trim_object kvs : trim (stringify (JObj kvs)) = stringify (JObj kvs).
Proof.
  unfold stringify. cbn [stringify_opt default from_option id]. apply trim_id; [done|].
  by rewrite app_comm_cons, last_snoc.
Qed.

Lemma store_roundtrip a : store_wf a -> Forall (fun ke => entry_printable ke.2) a ->
  parseAssociations (JStr (serializeAssociations a)) = Some a.
Proof.
  intros Hw Hp. pose proof (store_json_clean a Hw Hp) as Hc. unfold parseAssociations. rewrite text_JStr.
  assert (Et : trim (serializeAssociations a) = stringify (store_json a)) by apply trim_object. rewrite Et. clear Et.
  destruct (stringify_head (store_json a) Hc) as (c & t & E & _). rewrite E. cbv beta iota zeta. rewrite <- E, parse_stringify by done.
  unfold store_json. change (fld _ "keys") with (JObj (map (fun ke => (ke.1, entry_json ke.2)) a)). cbv iota.
  change (version_ok _) with true. cbv iota. by rewrite collect_keys_back.
Qed.

(** ** The write budget *)

Definition store_size (a : store) : Z := foldr (fun ke s => entry_cost ke + s) 0 a.

Lemma store_size_perm a b : a ≡ₚ b -> store_size a = store_size b.
Proof. unfold store_size. induction 1; cbn [foldr]; lia. Qed.

Lemma entry_cost_pos ke : 4 <= entry_cost ke.
Proof. unfold entry_cost. lia. Qed.

Lemma store_size_nonneg a : 0 <= store_size a.
Proof. unfold store_size. induction a as [|ke a IH]; cbn [foldr]; [lia|]. pose proof (entry_cost_pos ke). lia. Qed.

Lemma within_budget_prefix used l : exists tl, l = within_budget used l ++ tl.
Proof.
  revert used. induction l as [|ke l IH]; intros used; cbn [within_budget]; [by exists []|]. case_match; [by eexists|].
  destruct (IH (used + entry_cost ke)) as [tl E]. exists tl. by rewrite <- app_comm_cons, <- E.
Qed.

Lemma within_budget_size used l : used <= MAX_ASSOC_WRITE_BYTES -> used + store_size (within_budget used l) <= MAX_ASSOC_WRITE_BYTES.
Proof.
  revert used. induction l as [|ke l IH]; intros used Hu; cbn [within_budget]; [cbn [store_size foldr]; lia|].
  destruct (Z.ltb_spec MAX_ASSOC_WRITE_BYTES (used + entry_cost ke)); [cbn [store_size foldr]; lia|].
  specialize (IH (used + entry_cost ke)). unfold store_size in *. cbn [foldr]. lia.
Qed.

Lemma within_budget_all used l : used + store_size l <= MAX_ASSOC_WRITE_BYTES -> within_budget used l = l.
Proof.
  revert used. induction l as [|ke l IH]; intros used Hu; cbn [within_budget]; [done|].
  pose proof (store_size_nonneg l). change (store_size (ke :: l)) with (entry_cost ke + store_size l) in Hu. rewrite (proj2 (Z.ltb_ge _ _)) by lia. rewrite IH by lia. done.
Qed.

(** What trimming keeps is part of the store. *)
Lemma trim_cases a : NoDup a.*1 ->
  (trimAssociations a = a /\ store_size a <= MAX_ASSOC_WRITE_BYTES)
  \/ exists tl, trimAssociations a ++ tl ≡ₚ a /\ store_size (trimAssociations a) <= MAX_ASSOC_WRITE_BYTES.
Proof.
  intros Hn. unfold trimAssociations. destruct (within_budget_prefix 0 (sort_by newer a)) as [tl E].
  assert (Hs : 0 + store_size (within_budget 0 (sort_by newer a)) <= MAX_ASSOC_WRITE_BYTES) by (by apply within_budget_size).
  pose proof (sort_by_perm newer a) as Hp. destruct (Nat.eqb_spec (length (within_budget 0 (sort_by newer a))) (length (sort_by newer a))) as [El|El].
  - left. split; [done|]. apply (f_equal length) in E as El'. rewrite length_app in El'.
    assert (tl = []) as -> by (destruct tl; [done|cbn in El'; lia]). rewrite app_nil_r in E. rewrite <- E in Hs.
    rewrite (store_size_perm _ _ Hp) in Hs. done.
  - right. exists tl. rewrite fold_key_put; cbn [app]; [split; [by rewrite <- E|done]|].
    assert (Hn' : NoDup (sort_by newer a).*1) by (by rewrite Hp). rewrite E, fmap_app in Hn'. by apply NoDup_app in Hn' as [? _].
Qed.

Lemma trim_id_size a : store_size a <= MAX_ASSOC_WRITE_BYTES -> trimAssociations a = a.
Proof.
  intros Hs. unfold trimAssociations. rewrite within_budget_all; [by rewrite Nat.eqb_refl|].
  rewrite (store_size_perm _ _ (sort_by_perm newer a)). lia.
Qed.

Lemma trim_elem a x : NoDup a.*1 -> x ∈ trimAssociations a -> x ∈ a.
Proof.
  intros Hn Hx. destruct (trim_cases a Hn) as [[E _]|(tl & Hp & _)]; [by rewrite E in Hx|]. rewrite <- Hp. apply elem_of_app. by left.
Qed.

Lemma trim_nodup a : NoDup a.*1 -> NoDup (trimAssociations a).*1.
Proof.
  intros Hn. destruct (trim_cases a Hn) as [[E _]|(tl & Hp & _)]; [by rewrite E|].
  assert (H : NoDup (trimAssociations a ++ tl).*1) by (by rewrite Hp). rewrite fmap_app in H. by apply NoDup_app in H as [? _].
Qed.

(** ** Printed size *)

Definition key_plain (k : list Z) : Prop := Forall (fun c => key_unit c = true) k /\ is_index k = false.

Lemma join_length sep l : (length (join sep l) = list_sum (map length l) + (length l - 1) * length sep)%nat.
Proof.
  induction l as [|w [|w' l] IH]; [done|cbn; lia|]. change (join sep (w :: w' :: l)) with (w ++ sep ++ join sep (w' :: l)).
  rewrite !length_app, IH. cbn. lia.
Qed.

Lemma member_cost ke : key_plain ke.1 -> Z.of_nat (length (member_text (ke.1, entry_json ke.2))) + 1 = entry_cost ke.
Proof.
  destruct ke as [k e]. intros [Hk _]. unfold member_text, entry_cost. cbn [fst snd] in *. rewrite quote_key by done.
  generalize (stringify (entry_json e)). intros t. cbn [app length]. rewrite !length_app. cbn [length]. lia.
Qed.

Definition store_members (a : store) : list (list Z) := map (fun ke => member_text (ke.1, entry_json ke.2)) a.

Lemma members_cost a : Forall (fun ke => key_plain ke.1) a ->
  Z.of_nat (list_sum (map length (store_members a))) + Z.of_nat (length a) = store_size a.
Proof.
  unfold store_size, store_members. induction 1 as [|ke a Hk Ha IH]; [done|]. cbn [map foldr length].
  change (list_sum (?x :: ?l)) with (x + list_sum l)%nat. rewrite <- IH, <- (member_cost ke Hk). lia.
Qed.

Lemma serialize_text a : Forall (fun ke => key_plain ke.1) a ->
  serializeAssociations a
  = js "{" ++ quote (js "version") ++ js ":1," ++ quote (js "keys") ++ js ":{" ++ join [44] (store_members a) ++ js "}}".
Proof.
  intros Hk. unfold serializeAssociations, store_json. rewrite stringify_obj by (repeat constructor). cbn [map join].
  unfold member_text at 1 2. cbn [fst snd]. rewrite (stringify_obj (map _ a)).
  - rewrite map_map. change (stringify (JNum (NZ ASSOC_VERSION))) with (js "1"). fold (store_members a).
    generalize (join [44] (store_members a)). intros t. cbn [app].
    rewrite <- !app_assoc. cbn [app]. rewrite <- !app_assoc. cbn [app]. rewrite <- app_assoc. reflexivity.
  - apply Forall_map. by apply Forall_forall.
  - apply Forall_map. eapply Forall_impl; [exact Hk|]. intros [k e] [_ Hi]. done.
Qed.

Lemma serialize_length a : Forall (fun ke => key_plain ke.1) a ->
  Z.of_nat (length (serializeAssociations a)) <= store_size a + 23.
Proof.
  intros Hk. rewrite serialize_text, <- members_cost by done. rewrite !length_app, join_length.
  assert (Hl : length (store_members a) = length a) by apply length_map. rewrite Hl.
  change (length (js "{")) with 1%nat. change (length (quote (js "version"))) with 9%nat. change (length (js ":1,")) with 3%nat.
  change (length (quote (js "keys"))) with 6%nat. change (length (js ":{")) with 2%nat. change (length (js "}}")) with 2%nat.
  change (length [44]) with 1%nat.
  lia.
Qed.

(** ** Recording *)

Lemma record_key_nodup id ts p a kw : NoDup a.*1 -> NoDup (record_key id ts p a kw).*1.
Proof. apply key_put_nodup. Qed.

Lemma record_fold_nodup id ts p keys a : NoDup a.*1 -> NoDup (fold_left (record_key id ts p) keys a).*1.
Proof. revert a. induction keys as [|kw keys IH]; intros a Ha; cbn [fold_left]; [done|]. by apply IH, record_key_nodup. Qed.

Lemma record_fold_ne id ts p keys a k : k ∉ keys.*1 -> key_get (fold_left (record_key id ts p) keys a) k = key_get a k.
Proof.
  revert a. induction keys as [|kw keys IH]; intros a Hk; cbn [fold_left]; [done|]. apply not_elem_of_cons in Hk as [Hne Hk].
  rewrite IH by done. by apply key_get_put_ne.
Qed.

(** Every recorded key holds the item, pinned if the pick was. *)
Lemma record_fold_get id ts p keys a k : k ∈ keys.*1 ->
  exists e, key_get (fold_left (record_key id ts p) keys a) k = Some e /\ e_itemId e = id /\ (p = true -> e_pinned e = true).
Proof.
  revert a. induction keys as [|kw keys IH]; intros a Hk; cbn [fold_left]; [by apply elem_of_nil in Hk|].
  destruct (decide (k ∈ keys.*1)) as [Hin|Hni]; [by apply IH|]. rewrite record_fold_ne by done.
  apply elem_of_cons in Hk as [->|?]; [|done]. unfold record_key. rewrite key_get_put. eexists. split_and!; [done|done|].
  cbn [e_pinned]. by intros ->.
Qed.

Lemma record_fold_plain id ts p keys a :
  Forall (fun ke => key_plain ke.1) a -> Forall key_plain keys.*1 -> Forall (fun ke => key_plain ke.1) (fold_left (record_key id ts p) keys a).
Proof.
  intros Ha Hk. revert a Ha. induction keys as [|kw keys IH]; intros a Ha; cbn [fold_left]; [done|].
  apply Forall_cons in Hk as [Hkw Hk]. apply IH; [done|]. apply Forall_forall. intros x [->|Hx]%key_put_elem; [done|].
  rewrite Forall_forall in Ha. auto.
Qed.

(** ** Keys of a context *)

Lemma prefix_plain p s : Forall (fun c => key_unit c = true) p -> match p with c :: _ => is_digit c = false | [] => False end ->
  word_units s -> key_plain (p ++ s).
Proof.
  intros Hp Hh Hs. split; [apply Forall_app_2; [done|]|].
  - eapply Forall_impl; [exact Hs|]. cbn. intros c Hc. unfold key_unit, host_char in *. by rewrite Hc.
  - destruct p as [|c p]; [done|]. unfold is_index. cbn [app forallb]. by rewrite Hh.
Qed.

Lemma context_keys_plain `{!CaseTables} w ctx b : cleanWindowContext w = Some ctx -> Forall key_plain (contextKeys ctx b).*1.
Proof.
  intros (Hc & Ht & Hd)%context_units. unfold contextKeys. rewrite !fmap_app. repeat apply Forall_app_2.
  - destruct (cx_detectedDomain ctx) as [d|]; [|constructor]. destruct (_ && _); [|constructor]. constructor; [|constructor].
    apply prefix_plain; [apply forallb_Forall; reflexivity|reflexivity|by apply Hd].
  - destruct (_ && _); [|constructor]. constructor; [|constructor]. apply prefix_plain; [apply forallb_Forall; reflexivity|reflexivity|done].
  - destruct b; [|constructor]. rewrite <- list_fmap_compose. apply Forall_fmap. eapply Forall_impl; [exact Ht|]. intros t Hw.
    apply prefix_plain; [apply forallb_Forall; reflexivity|reflexivity|done].
Qed.

Lemma store_wf_plain a : store_wf a -> Forall (fun ke => key_plain ke.1) a.
Proof.
  intros [_ Hf]. eapply Forall_impl; [exact Hf|]. intros [k e] [[Hw Hw0] _ _ _]. cbn in *.
  destruct (weighted_key k) as (? & _ & ?); [congruence|done].
Qed.

Lemma context_keys_no_words ctx k : k ∈ (contextKeys ctx false).*1 -> isWordKey k = false.
Proof.
  unfold contextKeys. rewrite !fmap_app, !elem_of_app. intros [Hk|[Hk|Hk]].
  - destruct (cx_detectedDomain ctx) as [d|]; [|by apply elem_of_nil in Hk]. destruct (_ && _); [|by apply elem_of_nil in Hk].
    by apply list_elem_of_singleton in Hk as ->.
  - destruct (_ && _); [|by apply elem_of_nil in Hk]. by apply list_elem_of_singleton in Hk as ->.
  - by apply elem_of_nil in Hk.
Qed.

Lemma context_keys_mono ctx b : (contextKeys ctx b) `sublist_of` (contextKeys ctx true).
Proof.
  unfold contextKeys. destruct b; [done|]. apply sublist_app; [done|]. apply sublist_app; [done|]. apply sublist_nil_l.
Qed.

Lemma key_get_trim a k e : NoDup a.*1 -> key_get (trimAssociations a) k = Some e -> key_get a k = Some e.
Proof. intros Hn Hg%key_get_elem. apply key_get_nodup; [done|]. by apply trim_elem. Qed.

Lemma key_get_filter p a k : NoDup a.*1 ->
  key_get (List.filter p a) k = match key_get a k with Some e => if p (k, e) then Some e else None | None => None end.
Proof.
  induction a as [|[k' e'] a IH]; intros Hn; cbn; [done|]. apply NoDup_cons in Hn as [Hk Hn].
  assert (Hno : str_eqb k' k = true -> key_get (List.filter p a) k = None).
  { intros ->%str_eqb_eq. destruct (key_get (List.filter p a) k) as [e|] eqn:E; [|done].
    apply key_get_elem, list_elem_of_In, filter_In in E as [E%list_elem_of_In _]. exfalso. apply Hk, list_elem_of_fmap. by exists (k, e). }
  destruct (str_eqb k' k) eqn:Ek.
  - apply str_eqb_eq in Ek as Ek'. subst k'. destruct (p (k, e')) eqn:Ep; cbn; [by rewrite str_eqb_refl|]. by apply Hno.
  - destruct (p (k', e')); cbn; rewrite ?Ek; by apply IH.
Qed.

(** ** Ranks *)

Lemma insert_index_perm {A} (kv : list Z * A) l : insert_index kv l ≡ₚ kv :: l.
Proof. induction l as [|x l IH]; cbn; [done|]. case_match; [done|]. rewrite IH. apply Permutation_swap. Qed.

Lemma entries_perm {A} (l : list (list Z * A)) : entries l ≡ₚ l.
Proof.
  unfold entries. assert (Hf : forall m : list (list Z * A), foldr insert_index [] m ≡ₚ m).
  { induction m as [|x m IH]; cbn; [done|]. by rewrite insert_index_perm, IH. }
  rewrite Hf. induction l as [|x l IH]; cbn; [done|]. destruct (is_index x.1); cbn; [by rewrite IH|].
  rewrite <- Permutation_middle. by rewrite IH.
Qed.

Lemma rank_put_elem best id r x : x ∈ rank_put best id r -> x = (id, r) \/ x ∈ best.
Proof.
  induction best as [|[i r'] best IH]; cbn; [intros ->%list_elem_of_singleton; by left|].
  destruct (str_eqb i id) eqn:E; rewrite !elem_of_cons; [apply str_eqb_eq in E as ->|]; naive_solver.
Qed.

Lemma rank_get_elem best id r : rank_get best id = Some r -> (id, r) ∈ best.
Proof.
  induction best as [|[i r'] best IH]; cbn; [done|]. destruct (str_eqb i id) eqn:E; [apply str_eqb_eq in E as ->; intros [= ->]; left|]. right. auto.
Qed.

(** A ranked item is held by a key of the window whose entry counts, and its id
    is not a name of [Object.prototype]. *)
Definition learned_item (a : store) (ctx : context) (id : list Z) : Prop :=
  truthy (proto_get id) = false /\
  exists k e, k ∈ (contextKeys ctx true).*1 /\ key_get a k = Some e /\ associationEntryCounts k (Some e) = true /\ e_itemId e = id.

Lemma rank_key_learned a ctx best kw : kw.1 ∈ (contextKeys ctx true).*1 ->
  Forall (fun y => learned_item a ctx y.1) best -> Forall (fun y => learned_item a ctx y.1) (rank_key a best kw).
Proof.
  intros Hk Hb. unfold rank_key. destruct (associationEntryCounts kw.1 (key_get a kw.1)) eqn:Ec; cbn [negb]; [|done].
  destruct (key_get a kw.1) as [e|] eqn:Ee; [|done]. case_bool_decide; [done|]. destruct (better _ _ _) eqn:Eb; [|done].
  assert (Hp : truthy (proto_get (e_itemId e)) = false).
  { unfold better in Eb. destruct (rank_get best (e_itemId e)) as [r|] eqn:Er; [|by apply negb_true_iff].
    apply rank_get_elem in Er. rewrite Forall_forall in Hb. by destruct (Hb _ Er). }
  apply Forall_forall. intros y [->|Hy]%rank_put_elem; [|rewrite Forall_forall in Hb; auto]. split; [done|]. by exists kw.1, e.
Qed.

Lemma learned_from a ctx x : x ∈ learnedMatchIds a ctx -> learned_item a ctx x.1.
Proof.
  unfold learnedMatchIds. rewrite sort_by_perm, entries_perm. intros Hx.
  assert (H : Forall (fun y => learned_item a ctx y.1) (fold_left (rank_key a) (contextKeys ctx true) [])).
  { assert (Hs : Forall (fun kw => kw.1 ∈ (contextKeys ctx true).*1) (contextKeys ctx true))
      by (apply Forall_forall; intros kw Hk; apply list_elem_of_fmap; by exists kw).
    assert (Hb : Forall (fun y : list Z * Z => learned_item a ctx y.1) []) by constructor.
    revert Hb. generalize (@nil (list Z * Z)) as best. induction Hs as [|kw l Hk Hs IH]; intros best Hb; cbn [fold_left]; [done|].
    by apply IH, rank_key_learned. }
  rewrite Forall_forall in H. auto.
Qed.
