(* ===== verification/SuggestCorrect.v ===== *)
(** * Correctness of suggestions and of what is learned *)

From Stdlib Require Import QArith_base Sorting.Sorted.
From S2P Require Import Prelude.
From S2P Require Import JsNum.
From S2P Require Import JsString.
From S2P Require Import JsUnicode.
From S2P Require Import JsValue.
From S2P Require Import Json.
From S2P Require Import Items.
From S2P Require Import Context.
From S2P Require Import ContextCorrect.
From S2P Require Import Associations.
From S2P Require Import AssociationsCorrect.
Local Open Scope Z_scope.

(** ** Sorting by a comparator finer than an order *)

Lemma sort_by_coarse {A} (le : A -> A -> bool) (R : A -> A -> Prop) l :
  (forall x y, le x y = true -> R x y) -> (forall x y, le x y = false -> R y x) ->
  (forall x y z, R x y -> R y z -> R x z) -> StronglySorted R (sort_by le l).
Proof.
  intros Ht Hf Htr. induction l as [|x l IH]; cbn; [constructor|]. fold (sort_by le l). revert IH. generalize (sort_by le l) as s.
  induction 1 as [|y m Hm IHm Hy]; cbn; [repeat constructor|].
  destruct (le x y) eqn:E.
  - constructor; [by constructor|]. constructor; [auto|]. eapply Forall_impl; [exact Hy|]. cbn. eauto.
  - constructor; [done|]. rewrite insert_sorted_perm. constructor; [auto|done].
Qed.

(** ** Scored rows *)

Lemma indexed_elem {A} (l : list A) i x : x ∈ indexed l i -> x.2 ∈ l.
Proof. revert i. induction l as [|y l IH]; intros i; cbn; [by intros ?%elem_of_nil|]. intros [->|?]%elem_of_cons; [left|right; eauto]. Qed.

Lemma elem_indexed {A} (l : list A) i y : y ∈ l -> exists j, (j, y) ∈ indexed l i.
Proof.
  revert i. induction l as [|z l IH]; intros i; cbn; [by intros ?%elem_of_nil|].
  intros [->|Hy]%elem_of_cons; [exists i; left|]. destruct (IH (i + 1) Hy) as [j ?]. exists j. by right.
Qed.

Lemma elem_filter {A} (p : A -> bool) l x : x ∈ List.filter p l <-> x ∈ l /\ p x = true.
Proof. by rewrite !list_elem_of_In, filter_In. Qed.

Section suggesting.
  Context `{!CaseTables}.

Lemma scored_elem l ctx s : s ∈ scoreContextualMatches l ctx ->
  sc_item s ∈ l /\ isLoginItem (sc_item s) = true /\ sc_score s = matchItem (sc_item s) ctx /\ MATCH_THRESHOLD <= sc_score s.
Proof.
  unfold scoreContextualMatches. intros [(ix & -> & [Hi Hl]%elem_filter)%list_elem_of_fmap Hs]%elem_filter. cbn [sc_item sc_score] in *.
  apply Z.leb_le in Hs. split_and!; try done. by eapply indexed_elem.
Qed.

Lemma scored_complete l ctx it : it ∈ l -> isLoginItem it = true -> MATCH_THRESHOLD <= matchItem it ctx ->
  exists s, s ∈ scoreContextualMatches l ctx /\ sc_item s = it.
Proof.
  intros Hi Hl Hs. destruct (elem_indexed l 0 it Hi) as [j Hj]. exists (Scored it (matchItem it ctx) j). split; [|done].
  apply elem_filter. split; [|by apply Z.leb_le]. apply list_elem_of_fmap. exists (j, it). split; [done|]. by apply elem_filter.
Qed.

(** Rows come by falling score. *)
Definition falling (a b : scored) : Prop := sc_score b <= sc_score a.

Lemma scored_falling l : StronglySorted falling (sort_by contextual_le l).
Proof.
  apply sort_by_coarse; unfold falling; [| |lia]; intros x y; unfold contextual_le;
    destruct (Z.eqb_spec (sc_score y) (sc_score x)); cbn [negb]; try lia; rewrite ?Z.ltb_lt, ?Z.ltb_ge; lia.
Qed.

Lemma sorted_filter {A} (R : A -> A -> Prop) p l : StronglySorted R l -> StronglySorted R (List.filter p l).
Proof.
  induction 1 as [|x l Hl IH Hx]; cbn; [constructor|]. destruct (p x); [|done]. constructor; [done|].
  apply Forall_forall. intros y [Hy _]%elem_filter. rewrite Forall_forall in Hx. by apply Hx.
Qed.

(** The first row has the best score. *)
Lemma best_first l ctx best rest : sort_by contextual_le (scoreContextualMatches l ctx) = best :: rest ->
  Forall (fun s => sc_score s <= sc_score best) (best :: rest).
Proof.
  intros E. pose proof (scored_falling (scoreContextualMatches l ctx)) as Hs. rewrite E in Hs.
  apply StronglySorted_inv in Hs as [_ Hs]. constructor; [lia|exact Hs].
Qed.

(** ** Learned rows *)

Lemma by_id_row l id : truthy (proto_get id) = false -> truthy (by_id l id) = true -> by_id l id ∈ l /\ to_string (fld (by_id l id) "id") = id.
Proof.
  intros Hp Ht. unfold by_id, obj_get in *. set (step := fun o it => _) in *.
  assert (Hi : forall l o, (forall k v, own k o = Some v -> v ∈ l /\ to_string (fld v "id") = k) ->
    forall l', l' `sublist_of` l -> forall k v, own k (fold_left step l' o) = Some v -> v ∈ l /\ to_string (fld v "id") = k).
  { clear. intros l o Ho l'. revert o Ho. induction l' as [|it l' IH]; intros o Ho Hl k v; cbn [fold_left]; [apply Ho|].
    assert (Hit : it ∈ l) by (eapply elem_of_sublist; [|exact Hl]; left).
    assert (Hl' : l' `sublist_of` l) by (etrans; [|exact Hl]; by apply sublist_cons). revert k v. apply IH; [|done]. subst step. cbv beta.
    destruct (truthy it && truthy (fld it "id")); [|done]. intros k v. destruct (decide (to_string (fld it "id") = k)) as [<-|Hne].
    - rewrite own_set_eq. by intros [= <-].
    - rewrite own_set_ne by done. apply Ho. }
  specialize (Hi l []). destruct (own id (fold_left step l [])) as [v|] eqn:E; [|congruence].
  eapply Hi; [done|done|exact E].
Qed.

Lemma learned_rows l a ctx rows ids : resolveLearnedMatches l a ctx = (rows, ids) ->
  Forall (fun it => it ∈ l /\ isLoginItem it = true /\ is_learned ids it = true) rows.
Proof.
  intros [= <- <-]. apply Forall_forall. intros it Hit. apply elem_filter in Hit as Hit'.
  destruct Hit' as [(x & -> & Hx)%list_elem_of_fmap [Ht Hl]%andb_true_iff]. split_and!; [|done|].
  - apply by_id_row; [|done]. by destruct (learned_from a ctx x Hx).
  - unfold is_learned. apply orb_true_iff. left. apply existsb_elem. exists (to_string (fld (by_id l x.1) "id")).
    split; [|apply str_eqb_refl]. apply list_elem_of_fmap. by exists (by_id l x.1).
Qed.

Lemma ranks_falling a ctx : StronglySorted (fun x y => y.2 <= x.2) (learnedMatchIds a ctx).
Proof. unfold learnedMatchIds. apply sort_by_coarse; [intros x y; by rewrite Z.leb_le|intros x y; rewrite Z.leb_gt; lia|lia]. Qed.

Lemma kept_sublist {A} (p : A -> bool) l : sublist (List.filter p l) l.
Proof. induction l as [|x l IH]; cbn; [constructor|]. destruct (p x); by constructor. Qed.

Lemma cutoff_domain s : (96 <= s -> cutoff_of s = 96) /\ MATCH_THRESHOLD <= cutoff_of s.
Proof. unfold cutoff_of. destruct (Z.leb_spec 96 s); split; unfold MATCH_THRESHOLD; lia. Qed.

(** What every answer with a context is made of. *)
Lemma suggestion_cases l w a ctx : sg_context (findContextualMatches (JArr l) w a) = Some ctx ->
  local_terminal ctx = false /\
  exists rows ids rest, resolveLearnedMatches l a ctx = (rows, ids)
  /\ sg_matches (findContextualMatches (JArr l) w a) = take MAX_SUGGESTIONS (rows ++ map sc_item rest)
  /\ sg_learnedIds (findContextualMatches (JArr l) w a) = ids
  /\ (forall s, s ∈ rest -> s ∈ scoreContextualMatches l ctx /\ forall s', s' ∈ scoreContextualMatches l ctx -> 96 <= sc_score s' -> 96 <= sc_score s)
  /\ (forall s, s ∈ scoreContextualMatches l ctx -> 96 <= sc_score s -> s ∈ rest \/ is_learned ids (sc_item s) = true)
  /\ StronglySorted falling rest /\ Forall (fun s => is_learned ids (sc_item s) = false) rest.
Proof.
  unfold findContextualMatches. destruct (cleanWindowContext w) as [c|]; [|done]. destruct l as [|x l]; [done|]. set (items := x :: l).
  destruct (local_terminal c) eqn:Ht; [done|]. destruct (_ && _); [done|].
  destruct (resolveLearnedMatches items a c) as [rows ids] eqn:Er.
  pose proof (sort_by_perm contextual_le (scoreContextualMatches items c)) as Hp.
  destruct (sort_by contextual_le (scoreContextualMatches items c)) as [|best rest] eqn:Es.
  - assert (En : scoreContextualMatches items c = []) by (by apply Permutation_nil_l in Hp). intros Hc.
    assert (c = ctx) as -> by (destruct rows; [done|by injection Hc]). split; [done|].
    exists rows, ids, []. rewrite En. split; [done|]. split; [destruct rows; [done|by rewrite app_nil_r]|]. split; [by destruct rows|].
    split; [intros s Hx; by apply elem_of_nil in Hx|]. split; [intros s Hx; by apply elem_of_nil in Hx|]. split; constructor.
  - intros [= ->]. split; [done|]. set (keep := fun s => (cutoff_of (sc_score best) <=? sc_score s) && negb (is_learned ids (sc_item s))).
    exists rows, ids, (List.filter keep (best :: rest)). split_and!; try done.
    + intros s [Hin Hk]%elem_filter. apply andb_true_iff in Hk as [Hk _]. apply Z.leb_le in Hk. split; [by rewrite <- Hp|].
      intros s' Hs' H96. assert (Hb : 96 <= sc_score best).
      { rewrite <- Hp in Hs'. pose proof (best_first _ _ _ _ Es) as Hf. rewrite Forall_forall in Hf. specialize (Hf s' Hs'). cbn in Hf. lia. }
      rewrite (proj1 (cutoff_domain _) Hb) in Hk. done.
    + intros s Hs H96. destruct (is_learned ids (sc_item s)) eqn:El; [by right|left]. apply elem_filter. split; [by rewrite Hp|].
      subst keep. cbv beta. rewrite El, andb_true_r. apply Z.leb_le.
      assert (Hb : 96 <= sc_score best).
      { rewrite <- Hp in Hs. pose proof (best_first _ _ _ _ Es) as Hf. rewrite Forall_forall in Hf. specialize (Hf s Hs). cbn in Hf. lia. }
      rewrite (proj1 (cutoff_domain _) Hb). done.
    + apply sorted_filter. rewrite <- Es. apply scored_falling.
    + apply Forall_forall. intros s [_ Hk]%elem_filter. apply andb_true_iff in Hk as [_ Hk]. by apply negb_true_iff.
Qed.

Lemma login_truthy it : isLoginItem it = true -> truthy it = true.
Proof. unfold isLoginItem. by intros [? _]%andb_true_iff. Qed.

Lemma login_domain it ctx : isLoginItem it = true -> local_terminal ctx = false -> (96 <= matchItem it ctx <-> on_domain it ctx).
Proof.
  intros Hl Ht. destruct (match_item_bands it ctx (login_truthy it Hl) Ht) as [[E H1]|[(E & H1 & _)|[Hw H1]]].
  - rewrite E. split; [|lia]. intros _. destruct H1 as (d & x & ? & ? & Hs). exists d, x. by rewrite Hs.
  - rewrite E. split; [done|lia].
  - pose proof (word_scores_le _ Hw). split; [lia|done].
Qed.

(** C37: What is suggested for a window: at most six rows, each a login of the
    vault's list.  The learned picks come first, by falling rank, then the logins that
    score, by falling score, none of them a learned pick again.  As soon as one login of
    the list is on the domain the window names, every row that was not learned is on that
    domain too, and none of them is left out while there is room: words in a title cannot
    push a login of another site into the suggestions. *)
Theorem suggestions_sound l w a ctx :
  let sg := findContextualMatches (JArr l) w a in
  sg_context sg = Some ctx ->
  (length (sg_matches sg) <= MAX_SUGGESTIONS)%nat
  /\ Forall (fun it => it ∈ l /\ isLoginItem it = true) (sg_matches sg)
  /\ (exists learned rest, sg_matches sg = take MAX_SUGGESTIONS (learned ++ map sc_item rest)
       /\ sg_learnedIds sg = map (fun it => to_string (fld it "id")) learned
       /\ sublist learned (map (fun ir => by_id l ir.1) (learnedMatchIds a ctx)) /\ StronglySorted (fun x y => y.2 <= x.2) (learnedMatchIds a ctx)
       /\ StronglySorted falling rest
       /\ Forall (fun s => sc_score s = matchItem (sc_item s) ctx /\ is_learned (sg_learnedIds sg) (sc_item s) = false) rest)
  /\ Forall (fun it => is_learned (sg_learnedIds sg) it = true
       \/ (MATCH_THRESHOLD <= matchItem it ctx
           /\ forall it', it' ∈ l -> isLoginItem it' = true -> on_domain it' ctx -> on_domain it ctx)) (sg_matches sg)
  /\ (forall it, it ∈ l -> isLoginItem it = true -> on_domain it ctx -> (length (sg_matches sg) < MAX_SUGGESTIONS)%nat ->
        it ∈ sg_matches sg \/ is_learned (sg_learnedIds sg) it = true).
Proof.
  cbn zeta. intros (Ht & rows & ids & rest & Er & Em & Ei & Hrest & Hall & Hsort & Hnew)%suggestion_cases. rewrite Em, Ei.
  pose proof (learned_rows l a ctx rows ids Er) as Hrows.
  assert (Hr : Forall (fun s => sc_item s ∈ l /\ isLoginItem (sc_item s) = true /\ MATCH_THRESHOLD <= matchItem (sc_item s) ctx
    /\ forall it', it' ∈ l -> isLoginItem it' = true -> on_domain it' ctx -> on_domain (sc_item s) ctx) rest).
  { apply Forall_forall. intros s Hin. destruct (Hrest s Hin) as [Hsc Hbest]. destruct (scored_elem _ _ _ Hsc) as (Hl & Hlog & E & Hth).
    split_and!; [done|done|by rewrite <- E|]. intros it' Hl' Hlog' Hd'. apply login_domain; [done|done|]. rewrite <- E.
    apply login_domain in Hd'; [|done|done]. destruct (scored_complete l ctx it' Hl' Hlog') as (s' & Hs' & E'); [unfold MATCH_THRESHOLD; lia|].
    apply (Hbest s' Hs'). destruct (scored_elem _ _ _ Hs') as (_ & _ & -> & _). by rewrite E'. }
  split_and!.
  - rewrite length_take. lia.
  - apply Forall_take, Forall_app_2; [eapply Forall_impl; [exact Hrows|]; naive_solver|].
    apply Forall_map. eapply Forall_impl; [exact Hr|]. naive_solver.
  - exists rows, rest. split; [done|]. split; [by injection Er as <- <-|]. split; [injection Er as <- _; apply kept_sublist|].
    split; [apply ranks_falling|]. split; [done|]. apply Forall_forall. intros s Hs. rewrite Forall_forall in Hnew. split; [|by apply Hnew].
    by destruct (scored_elem _ _ _ (proj1 (Hrest s Hs))) as (_ & _ & ? & _).
  - apply Forall_take, Forall_app_2; [eapply Forall_impl; [exact Hrows|]; naive_solver|].
    apply Forall_map. eapply Forall_impl; [exact Hr|]. naive_solver.
  - intros it Hl Hlog Hd Hlen. rewrite take_ge by (rewrite length_take in Hlen; lia).
    apply login_domain in Hd; [|done|done]. destruct (scored_complete l ctx it Hl Hlog) as (s & Hsc & <-); [unfold MATCH_THRESHOLD; lia|].
    destruct (Hall s Hsc) as [Hin|Hin]; [destruct (scored_elem _ _ _ Hsc) as (_ & _ & -> & _); done| |by right].
    left. apply elem_of_app. right. apply list_elem_of_fmap. by exists s.
Qed.

(** A title alone cannot decide a learned suggestion.  Title words that were
    not pinned by the user have no effect on what is suggested, and an ordinary
    pick adds or changes no word of the store. *)
Theorem words_need_pin a ctx :
  NoDup a.*1 ->
  learnedMatchIds a ctx = learnedMatchIds (List.filter (fun ke => associationEntryCounts ke.1 (Some ke.2)) a) ctx
  /\ (forall id ts k e, isWordKey k = true -> key_get (recordAssociation a ctx id ts false) k = Some e -> key_get a k = Some e).
Proof.
  intros Hn. split.
  - unfold learnedMatchIds. f_equal. f_equal. generalize (@nil (list Z * Z)) as best. induction (contextKeys ctx true) as [|kw l IH]; intros best; [done|].
    cbn [fold_left]. rewrite IH. f_equal. unfold rank_key. rewrite key_get_filter by done.
    destruct (key_get a kw.1) as [e|] eqn:E; [|done]. cbn [fst snd]. by destruct (associationEntryCounts kw.1 (Some e)) eqn:Ec; rewrite ?Ec.
  - intros id ts k e Hk. unfold recordAssociation. pose proof (context_keys_no_words ctx k) as Hw.
    assert (Hni : k ∉ (contextKeys ctx false).*1) by (intros Hin; by rewrite Hw in Hk).
    destruct (contextKeys ctx false) as [|kw keys]; [done|]. case_bool_decide; [done|].
    intros Hg%key_get_trim; [|by apply record_fold_nodup]. by rewrite record_fold_ne in Hg.
Qed.

(** After a pick, the window is associated with the item, and after forgetting
    it is not; forgetting an item keeps every association of another item.  (The
    store of the pick is within the write budget.) *)
Theorem pick_and_forget a ctx id ts pinned :
  NoDup a.*1 -> id <> [] -> contextKeys ctx pinned <> [] ->
  store_size (fold_left (record_key id ts pinned) (contextKeys ctx pinned) a) <= MAX_ASSOC_WRITE_BYTES ->
  isAssociated (recordAssociation a ctx id ts pinned) ctx id = true
  /\ isAssociated (forgetAssociation a ctx id) ctx id = false
  /\ (forall k e, key_get a k = Some e -> e_itemId e <> id -> key_get (forgetAssociation a ctx id) k = Some e).
Proof.
  intros Hn Hid Hk Hsz. split_and!.
  - unfold recordAssociation, isAssociated. rewrite bool_decide_false by done. destruct (contextKeys ctx pinned) as [|kw keys] eqn:E; [done|].
    rewrite trim_id_size by done. apply existsb_elem. exists kw. split.
    { eapply elem_of_sublist; [|apply (context_keys_mono ctx pinned)]. rewrite E. left. }
    destruct (record_fold_get id ts pinned (kw :: keys) a kw.1) as (e & -> & <- & Hp); [left|]. rewrite str_eqb_refl, andb_true_r.
    unfold associationEntryCounts. destruct pinned; [by rewrite Hp, orb_true_r|].
    rewrite (context_keys_no_words ctx kw.1); [done|]. rewrite E. left.
  - unfold isAssociated. rewrite bool_decide_false by done. apply not_true_iff_false. intros (kw & Hin & Hx)%existsb_elem.
    unfold forgetAssociation in Hx. rewrite key_get_filter in Hx by done. destruct (key_get a kw.1) as [e|]; [|done]. cbn [fst snd] in Hx.
    assert (Ek : existsb (str_eqb kw.1) (contextKeys ctx true).*1 = true).
    { apply existsb_elem. exists kw.1. split; [|apply str_eqb_refl]. apply list_elem_of_fmap. by exists kw. }
    rewrite Ek, (bool_decide_false _ Hid) in Hx. cbn [andb orb] in Hx.
    destruct (str_eqb (e_itemId e) id) eqn:Ei; cbn [negb] in Hx; [done|]. by rewrite Ei, andb_false_r in Hx.
  - intros k e Hg Hne. unfold forgetAssociation. rewrite key_get_filter, Hg by done. cbn [fst snd].
    rewrite (bool_decide_false _ Hid), (proj2 (str_eqb_neq _ _) Hne). cbn [orb]. by rewrite andb_false_r.
Qed.

(** Whatever a page puts in its title, the store a pick writes stays within
    what the reader takes in: its text is at most half of the read cap and 23
    units more, so it is never cut off on the next start. *)
Theorem recorded_store_readable w ctx a id ts pinned :
  cleanWindowContext w = Some ctx -> store_wf a -> id <> [] -> contextKeys ctx pinned <> [] ->
  Z.of_nat (length (serializeAssociations (recordAssociation a ctx id ts pinned))) <= MAX_ASSOC_BYTES / 2 + 23
  /\ NoDup (recordAssociation a ctx id ts pinned).*1.
Proof.
  intros Hc Hw Hid Hk. unfold recordAssociation. rewrite bool_decide_false by done.
  pose proof (context_keys_plain w ctx pinned Hc) as Hp. destruct (contextKeys ctx pinned) as [|kw keys]; [done|].
  set (b := fold_left _ _ a). assert (Hn : NoDup b.*1) by apply record_fold_nodup, Hw.
  assert (Hb : Forall (fun ke => key_plain ke.1) b) by (apply record_fold_plain; [by apply store_wf_plain|done]).
  split; [|by apply trim_nodup]. etrans; [apply serialize_length|].
  - apply Forall_forall. intros x Hx%trim_elem; [|done]. rewrite Forall_forall in Hb. auto.
  - assert (Hs : store_size (trimAssociations b) <= MAX_ASSOC_WRITE_BYTES); [|unfold MAX_ASSOC_WRITE_BYTES in Hs; lia].
    by destruct (trim_cases b Hn) as [[-> ?]|(tl & _ & ?)].
Qed.
End suggesting.

(** C38: Reading the file of associations never gives an entry that was not
    checked, a well-formed store survives writing and reading, and the reader
    throws exactly on the text of [null], where it should answer the empty
    store. *)
Theorem associations_file :
  (forall raw a, parseAssociations raw = Some a -> store_wf a)
  /\ (forall a, store_wf a -> Forall (fun ke => entry_printable ke.2) a -> parseAssociations (JStr (serializeAssociations a)) = Some a)
  /\ (forall raw, parseAssociations raw = None <-> parse (trim (text raw)) = Some JNull).
Proof.
  split_and!; [apply parse_store_wf|apply store_roundtrip|]. intros raw. unfold parseAssociations.
  destruct (trim (text raw)) as [|c t]; [by split|]. cbv zeta. destruct (parse (c :: t)) as [v|]; [|done].
  destruct v as [| | | | | |o|]; try done. destruct (fld (JObj o) "keys"); try done. by destruct (version_ok _).
Qed.

(** ** Witnesses *)

Definition bank_page : jsval :=
  JObj [(js "class", JStr (js "firefox")); (js "title", JStr (js "Sign in - bank.example.com - Mozilla Firefox"))].
Definition bank_login : jsval :=
  JObj [(js "id", JStr (js "i-1")); (js "typeCode", JNum (NZ 1)); (js "name", JStr (js "Savings"));
        (js "uris", JArr [JStr (js "https://login.example.com/")])].
Definition shop_login : jsval :=
  JObj [(js "id", JStr (js "i-2")); (js "typeCode", JNum (NZ 1)); (js "name", JStr (js "bank")); (js "uris", JArr [])].

Lemma suggestions_sound_witness :
  sg_matches (findContextualMatches (JArr [shop_login; bank_login]) bank_page []) = [bank_login]
  /\ Forall (fun it => it ∈ [shop_login; bank_login] /\ isLoginItem it = true)
       (sg_matches (findContextualMatches (JArr [shop_login; bank_login]) bank_page [])).
Proof.
  split; [vm_compute; reflexivity|]. eapply (suggestions_sound [shop_login; bank_login] bank_page []); vm_compute; reflexivity.
Defined.

Definition bank_context : context := default (Ctx [] [] [] [] [] [] [] [] [] [] [] None false false) (cleanWindowContext bank_page).
Definition one_entry : store := [(js "domain:example.com", Entry (js "i-1") 3 2 (js "2025-01-01T00:00:00Z") false)].

Lemma one_entry_nodup : NoDup one_entry.*1.
Proof. apply NoDup_singleton. Qed.

Lemma words_need_pin_witness :
  learnedMatchIds one_entry bank_context
  = learnedMatchIds (List.filter (fun ke => associationEntryCounts ke.1 (Some ke.2)) one_entry) bank_context.
Proof. apply (words_need_pin one_entry bank_context one_entry_nodup). Defined.

Lemma pick_and_forget_witness :
  isAssociated (recordAssociation one_entry bank_context (js "i-2") (js "2025-01-02T00:00:00Z") true) bank_context (js "i-2") = true.
Proof.
  apply (pick_and_forget one_entry bank_context (js "i-2") (js "2025-01-02T00:00:00Z") true one_entry_nodup);
    [done|by vm_compute|vm_compute; done].
Defined.

Lemma one_entry_wf : store_wf one_entry.
Proof.
  split; [apply one_entry_nodup|]. constructor; [|constructor]. split; cbn [fst snd one_entry]; [done|split_and!; [done|vm_compute; lia|done]|cbn [e_count]; lia|].
  split; [vm_compute; lia|done].
Qed.

Lemma recorded_store_readable_witness :
  Z.of_nat (length (serializeAssociations (recordAssociation one_entry bank_context (js "i-2") (js "2025-01-02T00:00:00Z") true)))
  <= MAX_ASSOC_BYTES / 2 + 23.
Proof.
  apply (recorded_store_readable bank_page); [vm_compute; reflexivity|apply one_entry_wf|done|by vm_compute].
Defined.
