(* ===== verification/Setup.v ===== *)
(** * Dependencies, versions and the setup gate ([BitwardenModel.js])

    A probe script prints [key=value] lines about the tools of the machine; what it
    printed decides whether the vault may be read, whether the setup screen shows,
    and which packages it offers to install.  Before the first probe there is no
    result: a function that takes one takes an [option]. *)

From S2P Require Import Prelude.
From S2P Require Import JsNum.
From S2P Require Import JsString.
From S2P Require Import JsValue.
From S2P Require Import Regex.
From S2P Require Import Shell.
From S2P Require Import SshAgent.

Definition SSH_CLI_MIN_VERSION : list Z := js "2025.1.2".
Definition SSH_MALFORMED_ITEM_FIX_VERSION : list Z := js "2026.8.0".
Definition SANITIZED_LIST_ERROR : list Z := js "Could not safely read vault items.".
Definition SANITIZED_LIST_SSH_FIX_HINT : list Z :=
  js " Bitwarden CLI before " ++ SSH_MALFORMED_ITEM_FIX_VERSION
  ++ js " can fail on malformed SSH key items. Upgrading to " ++ SSH_MALFORMED_ITEM_FIX_VERSION
  ++ js " or newer may fix this.".

(** ** The tools *)

(** [aur] is false for every tool and [setup] absent is false. *)
Record tool := Tool {
  t_key : list Z; t_label : list Z; t_binary : list Z; t_pkg : list Z;
  t_required : bool; t_setup : bool; t_purpose : list Z
}.

Definition DEPENDENCIES : list tool :=
  [Tool (js "wlcopy") (js "Wayland clipboard") (js "wl-copy") (js "wl-clipboard") false false
     (js "Copies and safely clears clipboard values using wl-copy and wl-paste.");
   Tool (js "bw") (js "Bitwarden CLI") (js "bw") (js "bitwarden-cli") true false
     (js "Reads and writes your vault. The panel installs it for you on first run.");
   Tool (js "jq") (js "jq") (js "jq") (js "jq") true false
     (js "Safely strips SSH private keys before the panel reads your vault.");
   Tool (js "cargo") (js "Rust/Cargo") (js "cargo") (js "rust") false false
     (js "Builds all three local helpers after installation or an update.");
   Tool (js "fprintd") (js "Fingerprint unlock") (js "fprintd-list") (js "fprintd") false true
     (js "Unlock with an enrolled fingerprint using the DMS PAM configuration.")].

(** ** The probe scripts *)

Definition tool_check (d : tool) : list Z :=
  js "if command -v " ++ t_binary d ++ js " >/dev/null 2>&1; then echo "
  ++ shellQuote (JStr (t_key d ++ js "=1")) ++ js "; else echo " ++ shellQuote (JStr (t_key d ++ js "=0")) ++ js "; fi".

Definition dependencyCheckCommand (pamDirectory : jsval) : list (list Z) :=
  let pamFile := if truthy pamDirectory then to_string pamDirectory ++ js "/fprint" else js "/nonexistent/dms-fprint" in
  let parts :=
    map tool_check (List.filter (fun d => negb (str_eqb (t_key d) (js "wlcopy"))) DEPENDENCIES)
    ++ [sh "if __qsbw_bw=$(command -v bw 2>/dev/null); then "
        ++ sh "printf 'bw_id=%s\n' `$(stat -L -c '%d:%i:%s:%Y' -- `$__qsbw_bw` 2>/dev/null | head -c 128)`; "
        ++ sh "else echo bw_id=; fi";
        js "if [ -f " ++ shellQuote (JStr pamFile) ++ js " ] && command -v fprintd-list >/dev/null 2>&1 "
        ++ sh "&& fprintd-list `$USER` 2>/dev/null | grep -qi finger; then echo fingerprint_ready=1; else echo fingerprint_ready=0; fi";
        sh "if command -v fprintd-list >/dev/null 2>&1 && fprintd-list `$USER` 2>/dev/null | grep -qi finger; "
        ++ sh "then echo fingerprint_hw=1; else echo fingerprint_hw=0; fi";
        js "if command -v wl-copy >/dev/null 2>&1 && command -v wl-paste >/dev/null 2>&1; "
        ++ js "then echo wlcopy=1; else echo wlcopy=0; fi";
        js "if command -v dms >/dev/null 2>&1; then echo omarchy=1; else echo omarchy=0; fi"] in
  [js "bash"; js "-c"; cappedScript (js "{ " ++ join (js "; ") parts ++ js "; } | head -c 4096") None].

Definition bwVersionCommand : list (list Z) :=
  let script := js "__qsbw_bw_version=$(bw -v 2>/dev/null | head -c 64); "
    ++ sh "if [[ `$__qsbw_bw_version` =~ ^v?[0-9]{4}\.[0-9]{1,2}\.[0-9]{1,6}$ ]]; then "
    ++ sh "printf 'bw_version=%s\n' `$__qsbw_bw_version`; else echo bw_version=; fi" in
  [js "bash"; js "-c"; cappedScript (js "{ " ++ script ++ js "; } | head -c 4096") None].

(** ** Reading [key=value] lines *)

Definition newline_unit (c : Z) : bool := c =? 10.
Definition lines (s : list Z) : list (list Z) := split_on newline_unit s.

(** The key and the value around the first [=]; none without one or with an empty
    key. *)
Definition key_value (line : list Z) : option (list Z * list Z) :=
  match index_of (js "=") line with
  | Some (S n) => Some (take (S n) line, drop (S (S n)) line)
  | _ => None
  end.

(** [o[k] = v] for a string [v]: assigning one to [__proto__] does nothing. *)
Definition put_text (o : list (list Z * jsval)) (k v : list Z) : list (list Z * jsval) :=
  if str_eqb k (js "__proto__") then o else obj_set o k (JStr v).

Definition probeFields (raw : jsval) : list (list Z * jsval) :=
  fold_left (fun found line =>
    match key_value (trim line) with
    | Some (k, v) => put_text found k v
    | None => found
    end) (lines (text raw)) [].

(** [found[key] === "1"] *)
Definition is_one (found : list (list Z * jsval)) (key : string) : bool := strict_eqb (obj_get found (js key)) (JStr (js "1")).

(** [/^[0-9]{1,20}(:[0-9]{1,20}){3}$/] *)
Fixpoint upto (n : nat) (r : re) : re := match n with O => Eps | S n => opt (Seq r (upto n r)) end.
Definition some_digits (n : nat) : re := Seq digit (upto (pred n) digit).
Definition BW_ID_RE : re :=
  anchored (some_digits 20 ⋅ lit (js ":") ⋅ some_digits 20 ⋅ lit (js ":") ⋅ some_digits 20 ⋅ lit (js ":") ⋅ some_digits 20)%re.

Definition dependencyBwId (raw : jsval) : list Z :=
  let id := trim (text (obj_get (probeFields raw) (js "bw_id"))) in
  if test BW_ID_RE id then id else [].

(** ** Versions *)

(** The three groups of [/^v?(\d{4})\.(\d{1,2})\.(\d{1,6})$/]: no group can hold a
    dot, so they are the parts around the dots. *)
Definition digits_between (lo hi : nat) (s : list Z) : bool :=
  (lo <=? length s)%nat && (length s <=? hi)%nat && forallb is_digit s.
Definition version_groups (s : list Z) : option (list Z * list Z * list Z) :=
  match split_on (fun c => c =? 46) (default s (strip_unit 118 s)) with
  | [y; m; p] => if digits_between 4 4 y && digits_between 1 2 m && digits_between 1 6 p then Some (y, m, p) else None
  | _ => None
  end.

Definition number_text (s : list Z) : list Z := num_to_string (string_to_num s).

Definition normalizeReleaseVersion (raw : jsval) : list Z :=
  match version_groups (trim (text raw)) with
  | Some (y, m, p) => number_text y ++ js "." ++ number_text m ++ js "." ++ number_text p
  | None => []
  end.

(** [Number(parts[i] || 0)] *)
Definition part_number (parts : list (list Z)) (i : nat) : num :=
  match parts !! i with Some ((_ :: _) as s) => string_to_num s | _ => NZ 0 end.

Fixpoint compare_parts (i n : nat) (la ra : list (list Z)) : Z :=
  match n with
  | O => 0
  | S n =>
      let lv := part_number la i in
      let rv := part_number ra i in
      if num_ltb lv rv then -1 else if num_ltb rv lv then 1 else compare_parts (S i) n la ra
  end.

(** [null] is [None]. *)
Definition compareReleaseVersions (a b : jsval) : option Z :=
  let left := normalizeReleaseVersion a in
  let right := normalizeReleaseVersion b in
  if bool_decide (left = []) || bool_decide (right = []) then None
  else Some (compare_parts 0 3 (split_on (fun c => c =? 46) left) (split_on (fun c => c =? 46) right)).

(** [compareReleaseVersions(a, b) < 0]: [null < 0] is false. *)
Definition version_below (a b : jsval) : bool :=
  match compareReleaseVersions a b with Some c => c <? 0 | None => false end.

Definition parseBwVersionProbe (raw : jsval) : list Z := normalizeReleaseVersion (obj_get (probeFields raw) (js "bw_version")).

Inductive cli_support := cli_supported | cli_unsupported | cli_unknown | cli_missing | cli_checking.

#[export] Instance cli_support_eq_dec : EqDecision cli_support.
Proof. solve_decision. Defined.

Definition sshCliSupport (version : jsval) : cli_support :=
  let normalized := normalizeReleaseVersion version in
  if bool_decide (normalized = []) then cli_unknown
  else if version_below (JStr normalized) (JStr SSH_CLI_MIN_VERSION) then cli_unsupported else cli_supported.

(** ** The result of a probe *)

Record dependency := Dependency {
  d_tool : tool;             (** key, label, binary, pkg, required, purpose, setup *)
  d_applicable : bool; d_installed : bool; d_ready : bool;
  d_version : list Z; d_note : list Z
}.

Record probe := Probe {
  p_items : list dependency;
  p_hasOmarchy : bool; p_hasFingerprintReader : bool; p_hasClipboard : bool;
  p_bwVersion : list Z; p_bwId : list Z;
  p_sshCliStatus : cli_support
}.

Definition bw_note (status : cli_support) (bwVersion : list Z) : list Z :=
  match status with
  | cli_unsupported =>
      js "SSH keys need Bitwarden CLI " ++ SSH_CLI_MIN_VERSION ++ js " or newer"
      ++ (if bool_decide (bwVersion = []) then js "." else js "; found " ++ bwVersion ++ js ".")
  | cli_unknown => js "Could not read the Bitwarden CLI version. SSH support stays unconfirmed until that is fixed."
  | _ => []
  end.

Definition dependency_row (found : list (list Z * jsval)) (status : cli_support) (bwVersion : list Z) (dep : tool) : dependency :=
  let installed := strict_eqb (obj_get found (t_key dep)) (JStr (js "1")) in
  let fprintd := str_eqb (t_key dep) (js "fprintd") in
  let bw := str_eqb (t_key dep) (js "bw") in
  Dependency dep (if fprintd then is_one found "fingerprint_hw" else true) installed
    (if fprintd then is_one found "fingerprint_ready" else installed)
    (if bw then bwVersion else []) (if bw && installed then bw_note status bwVersion else []).

Definition parseDependencies (raw probedVersion : jsval) : probe :=
  let found := probeFields raw in
  let inline := negb (is_undef (obj_get found (js "bw_version"))) in
  let pending := negb inline && is_nullish probedVersion in
  let bwVersionRaw := trim (if inline then to_string (obj_get found (js "bw_version")) else text probedVersion) in
  let bwVersion := normalizeReleaseVersion (JStr bwVersionRaw) in
  let sshCliStatus :=
    if is_one found "bw" then (if pending then cli_checking else sshCliSupport (JStr bwVersion)) else cli_missing in
  Probe (map (dependency_row found sshCliStatus bwVersion) DEPENDENCIES)
    (is_one found "omarchy") (is_one found "fingerprint_hw") (is_one found "wlcopy")
    bwVersion (dependencyBwId raw) sshCliStatus.

(** ** What the result decides *)

Definition items_of (deps : option probe) : list dependency := match deps with Some d => p_items d | None => [] end.

Definition applicableDependencies (deps : option probe) : list dependency := List.filter d_applicable (items_of deps).

Definition missingRequired (deps : option probe) : list dependency :=
  List.filter (fun d => t_required (d_tool d) && negb (d_installed d)) (items_of deps).

Definition dependencyByKey (deps : option probe) (key : list Z) : option dependency :=
  List.find (fun d => str_eqb (t_key (d_tool d)) key) (items_of deps).

Definition dependencyInstalled (deps : option probe) (key : list Z) : bool :=
  match dependencyByKey deps key with Some d => d_installed d | None => false end.

Inductive list_mode := sanitized | blocked.

Definition vaultListMode (deps : option probe) : list_mode :=
  if dependencyInstalled deps (js "bw") && dependencyInstalled deps (js "jq") then sanitized else blocked.

Definition vaultListBlockedMessage (deps : option probe) : list Z :=
  if negb (dependencyInstalled deps (js "bw")) then js "Bitwarden CLI is not installed yet."
  else if negb (dependencyInstalled deps (js "jq")) then js "jq is required to safely read vault items. Finish setup to continue."
  else js "Could not determine how to safely read vault items.".

Definition clipboardCopyBlocked (deps : option probe) (checked : bool) : bool :=
  checked && match deps with Some d => negb (p_hasClipboard d) | None => false end.

Definition sshUiAvailable (deps : option probe) (checked : bool) : bool :=
  checked && match deps with Some d => bool_decide (p_sshCliStatus d = cli_supported) | None => false end.

Definition vaultListFailureMessage (deps : option probe) (mode : list_mode) : list Z :=
  match mode with
  | blocked => vaultListBlockedMessage deps
  | sanitized =>
      let version := match deps with Some d => p_bwVersion d | None => [] end in
      if negb (bool_decide (version = [])) && version_below (JStr version) (JStr SSH_MALFORMED_ITEM_FIX_VERSION)
      then SANITIZED_LIST_ERROR ++ SANITIZED_LIST_SSH_FIX_HINT else SANITIZED_LIST_ERROR
  end.

Definition setupGateActive (deps : option probe) (checked dismissed : bool) : bool :=
  if negb checked || dismissed then false else negb (bool_decide (missingRequired deps = [])).

Inductive probe_outcome := outcome_setup | outcome_probe | outcome_idle.

Definition dependencyProbeOutcome (deps : option probe) (dismissed probeStarted wasGated : bool) : probe_outcome :=
  if negb (bool_decide (missingRequired deps = [])) then (if dismissed then outcome_idle else outcome_setup)
  else if negb probeStarted || wasGated then outcome_probe else outcome_idle.

(** ** Installing what is missing *)

Definition missingPackages (deps : option probe) : list (list Z) :=
  fold_left (fun pkgs d =>
    if negb (d_applicable d) || t_setup (d_tool d) || d_installed d then pkgs
    else if bool_decide (t_pkg (d_tool d) ∈ pkgs) then pkgs else pkgs ++ [t_pkg (d_tool d)]) (items_of deps) [].

(** [/^[A-Za-z0-9][A-Za-z0-9._+-]*$/] *)
Definition PACKAGE_RE : re :=
  anchored (One is_alnum ⋅ Star (One (fun c => is_alnum c || existsb (Z.eqb c) (js "._+-"))))%re.

Definition isPlainPackageName (name : jsval) : bool :=
  match name with JStr s => test PACKAGE_RE s | _ => false end.

(** [translate] absent is the identity. *)
Definition installPackagesScript (pkgs : list (list Z)) (tr : list Z -> list Z) : list Z :=
  js "if command -v pacman >/dev/null 2>&1; then sudo pacman -S --needed "
  ++ join (js " ") (map (fun p => shellQuote (JStr p)) pkgs)
  ++ js "; else printf '%s\n' "
  ++ shellQuote (JStr (tr (js "Install these packages with your distribution package manager: ") ++ join (js " ") pkgs))
  ++ js "; false; fi".

(** The arguments are strings when every one passes the test; [null] is [None].
    The display name is computed and not used. *)
Definition installPackagesCommand (pkgs : list (list Z)) : option (list (list Z)) :=
  match pkgs with
  | [] => None
  | _ =>
      if forallb (fun p => isPlainPackageName (JStr p)) pkgs
      then Some [js "bash"; js "-c";
                 terminalScript (installPackagesScript pkgs id ++ js "; printf '\nPress Enter to close'; read -r _answer")]
      else None
  end.

Definition buildHelpersCommand (pluginDir : jsval) (tr : list Z -> list Z) : option (list (list Z)) :=
  let dir := cleanAbsoluteDir pluginDir in
  if bool_decide (dir = []) || contains [0] dir then None
  else
    let inner := js "__build_helpers() { cd -- " ++ shellQuote (JStr dir) ++ js " || return; "
      ++ js "if ! command -v cargo >/dev/null 2>&1; then printf '%s\n' "
      ++ shellQuote (JStr (tr (js "cargo was not found. Rust/Cargo is needed to build the helpers."))) ++ js "; "
      ++ js "if command -v pacman >/dev/null 2>&1; then printf '%s' "
      ++ shellQuote (JStr (tr (js "Install Rust with sudo pacman -S --needed rust? [y/N] "))) ++ js "; "
      ++ sh "read -r _answer; case `$_answer` in y|Y) ;; *) return 1;; esac; fi; "
      ++ installPackagesScript [js "rust"] tr ++ js " || return; fi; bash "
      ++ shellQuote (JStr (dir ++ js "/scripts/build-helpers.sh")) ++ js "; }; "
      ++ js "__build_helpers; __result=$?; printf '\n%s' " ++ shellQuote (JStr (tr (js "Press Enter to close")))
      ++ sh "; read -r _answer; exit `$__result`" in
    Some [js "bash"; js "-c"; terminalScript inner].

Definition fingerprintSetupCommand : list (list Z) :=
  [js "bash"; js "-c"; terminalScript (js "fprintd-enroll; printf '\nPress Enter to close'; read -r _answer")].
