(* ===== verification/SetupCorrect.v ===== *)
(** * What a probe of the machine decides

    Release versions are ordered as triples of numbers, whatever their spelling;
    the vault is read, the setup screen shows and packages are offered exactly as
    the probe's lines say. *)

From Stdlib Require Import QArith_base.
From S2P Require Import Prelude.
From S2P Require Import JsNum.
From S2P Require Import JsString.
From S2P Require Import JsValue.
From S2P Require Import Regex.
From S2P Require Import Accounts.
From S2P Require Import Shell.
From S2P Require Import ShellCorrect.
From S2P Require Import SshAgent.
From S2P Require Import Setup.
Local Open Scope Z_scope.

(** ** Runs of digits as numbers *)

Notation digits s := (Forall (fun c => is_digit c = true) s).

Lemma digits_fold_upper l a : digits l ->
  0 <= a -> 0 <= fold_left (fun a c => a * 10 + (c - 48)) l a < (a + 1) * 10 ^ Z.of_nat (length l).
Proof.
  intros Hl. revert a. induction Hl as [|c l Hc Hl IH]; intros a Ha; cbn [fold_left length].
  - rewrite Z.pow_0_r. lia.
  - unfold is_digit, in_range in Hc. boolZ. rewrite Nat2Z.inj_succ, Z.pow_succ_r by lia.
    destruct (IH (a * 10 + (c - 48))) as [? Hu]; [lia|]. split; [done|].
    pose proof (Z.pow_pos_nonneg 10 (Z.of_nat (length l))). nia.
Qed.

Lemma digits_value_bound s n : digits s -> (length s <= n)%nat -> 0 <= digits_value s < 10 ^ Z.of_nat n.
Proof.
  intros Hs Hn. destruct (digits_fold_upper s 0 Hs ltac:(lia)) as [? Hu]. unfold digits_value. split; [done|].
  assert (10 ^ Z.of_nat (length s) <= 10 ^ Z.of_nat n) by (apply Z.pow_le_mono_r; lia). lia.
Qed.

(** [Number] of at most fifteen digits, leading zeros or not, is their value. *)
Lemma string_to_num_digits s : digits s -> s <> [] -> (length s <= 15)%nat -> string_to_num s = NZ (digits_value s).
Proof.
  intros Hs Hne Hn. pose proof (digits_value_bound s 15 Hs Hn) as Hv.
  unfold string_to_num. rewrite digits_trim by done. destruct s as [|c r]; [done|].
  assert (Hr : read_signed (c :: r) = NZ (digits_value (c :: r))).
  { unfold read_signed, strip_sign. apply Forall_cons in Hs as Hc. destruct Hc as [Hc _]. unfold is_digit, in_range in Hc. boolZ.
    destruct (Z.eqb_spec c 45), (Z.eqb_spec c 43); try lia. rewrite digits_not_infinity by done. unfold read_decimal.
    rewrite <- (app_nil_r (c :: r)) at 1. rewrite span_all by done. cbn [strip_unit]. rewrite app_nil_r.
    cbn [read_exponent mbind option_bind length]. cbn [default]. apply dec_num_exact. change (Z.of_nat 15) with 15 in Hv. lia. }
  destruct (c =? 48) eqn:E; [|done]. destruct r as [|x r]; [done|].
  apply Forall_cons in Hs as [_ [Hx _]%Forall_cons]. unfold is_digit, in_range in Hx. boolZ.
  rewrite !(proj2 (Z.eqb_neq x _)) by lia. done.
Qed.

(** ** Releases *)

(** The numbers of a release version: year, month, patch. *)
Definition release (v : jsval) : option (Z * Z * Z) :=
  '(y, m, p) ← version_groups (trim (text v)); Some (digits_value y, digits_value m, digits_value p).

(** The order of releases. *)
Definition release_compare (a b : Z * Z * Z) : comparison :=
  match a.1.1 ?= b.1.1 with
  | Eq => match a.1.2 ?= b.1.2 with Eq => a.2 ?= b.2 | c => c end
  | c => c
  end.
Definition sign (c : comparison) : Z := match c with Lt => -1 | Eq => 0 | Gt => 1 end.

Lemma release_compare_le a b : sign (release_compare a b) <= 0 <->
  a.1.1 < b.1.1 \/ a.1.1 = b.1.1 /\ (a.1.2 < b.1.2 \/ a.1.2 = b.1.2 /\ a.2 <= b.2).
Proof.
  unfold release_compare. destruct (Z.compare_spec a.1.1 b.1.1), (Z.compare_spec a.1.2 b.1.2), (Z.compare_spec a.2 b.2); cbn; lia.
Qed.

Lemma digits_between_spec lo hi s : digits_between lo hi s = true -> (lo <= length s <= hi)%nat /\ digits s.
Proof. unfold digits_between. rewrite !andb_true_iff, forallb_Forall, !Nat.leb_le. tauto. Qed.

Lemma version_groups_digits s y m p : version_groups s = Some (y, m, p) ->
  (length y = 4 /\ 1 <= length m <= 2 /\ 1 <= length p <= 6)%nat /\ digits y /\ digits m /\ digits p.
Proof.
  unfold version_groups. destruct (split_on _ _) as [|a [|b [|c [|]]]]; try done.
  destruct (digits_between 4 4 a && _ && _) eqn:E; [|done]. apply andb_true_iff in E as [[Ha Hb]%andb_true_iff Hc].
  apply digits_between_spec in Ha as [? ?], Hb as [? ?], Hc as [? ?]. intros [= <- <- <-]. split_and!; done || lia.
Qed.

Lemma number_text_digits s : digits s -> s <> [] -> (length s <= 15)%nat -> number_text s = nat_to_str (digits_value s).
Proof.
  intros Hs Hne Hn. pose proof (digits_value_bound s 15 Hs Hn) as Hv. change (Z.of_nat 15) with 15 in Hv. unfold number_text.
  rewrite string_to_num_digits, num_to_string_NZ by (done || lia). unfold Z_to_str.
  by destruct (Z.ltb_spec (digits_value s) 0); [lia|].
Qed.

(** The normalized text of a release. *)
Definition release_text (r : Z * Z * Z) : list Z := nat_to_str r.1.1 ++ 46 :: nat_to_str r.1.2 ++ 46 :: nat_to_str r.2.

Definition release_ok (r : Z * Z * Z) : Prop := 0 <= r.1.1 < 10 ^ 4 /\ 0 <= r.1.2 < 10 ^ 2 /\ 0 <= r.2 < 10 ^ 6.

Lemma release_bounds v r : release v = Some r -> release_ok r.
Proof.
  unfold release. destruct (version_groups _) as [[[y m] p]|] eqn:E; [|done]. apply version_groups_digits in E as ((? & ? & ?) & Hy & Hm & Hp).
  cbn. intros [= <-]. unfold release_ok. cbn [fst snd].
  pose proof (digits_value_bound y 4 Hy). pose proof (digits_value_bound m 2 Hm). pose proof (digits_value_bound p 6 Hp).
  change (Z.of_nat 4) with 4 in *. change (Z.of_nat 2) with 2 in *. change (Z.of_nat 6) with 6 in *. auto with lia.
Qed.

Lemma normalize_release v : normalizeReleaseVersion v = match release v with Some r => release_text r | None => [] end.
Proof.
  unfold normalizeReleaseVersion, release. destruct (version_groups _) as [[[y m] p]|] eqn:E; [|done].
  apply version_groups_digits in E as ((? & ? & ?) & Hy & Hm & Hp). cbn [mbind option_bind].
  assert (forall s : list Z, (1 <= length s)%nat -> s <> []) as Hne by (intros [|]; cbn; [lia|done]).
  rewrite !number_text_digits by (done || lia || (apply Hne; lia)). done.
Qed.

Lemma split_on_digits s r : digits s ->
  split_on (fun c => c =? 46) (s ++ 46 :: r) = s :: split_on (fun c => c =? 46) r.
Proof.
  induction 1 as [|c s Hc Hs IH]; cbn [app split_on]; [done|]. rewrite IH. unfold is_digit, in_range in Hc. boolZ.
  by rewrite (proj2 (Z.eqb_neq c 46)) by lia.
Qed.

Lemma split_on_digits_end s : digits s -> split_on (fun c => c =? 46) s = [s].
Proof.
  induction 1 as [|c s Hc Hs IH]; cbn [split_on]; [done|]. rewrite IH. unfold is_digit, in_range in Hc. boolZ.
  by rewrite (proj2 (Z.eqb_neq c 46)) by lia.
Qed.

Lemma split_release r : split_on (fun c => c =? 46) (release_text r) = [nat_to_str r.1.1; nat_to_str r.1.2; nat_to_str r.2].
Proof.
  unfold release_text. rewrite !split_on_digits by apply nat_to_str_digits. by rewrite split_on_digits_end by apply nat_to_str_digits.
Qed.

Lemma part_number_nat l i z : 0 <= z < 10 ^ 15 -> l !! i = Some (nat_to_str z) -> part_number l i = NZ z.
Proof.
  intros Hz Hl. unfold part_number. rewrite Hl. destruct (nat_to_str_head z) as (c & r & E & _); [lia|].
  rewrite E, <- E, string_to_num_digits, digits_value_nat by (lia || apply nat_to_str_digits || (by rewrite E) || (apply nat_to_str_width; lia)).
  done.
Qed.

Lemma compare_parts_step i n la ra x y : 0 <= x < 10 ^ 15 -> 0 <= y < 10 ^ 15 ->
  la !! i = Some (nat_to_str x) -> ra !! i = Some (nat_to_str y) ->
  compare_parts i (S n) la ra = match x ?= y with Eq => compare_parts (S i) n la ra | c => sign c end.
Proof.
  intros Hx Hy Hl Hr. cbn [compare_parts]. rewrite (part_number_nat la i x), (part_number_nat ra i y) by done.
  rewrite !num_ltb_NZ. destruct (Z.compare_spec x y), (Z.ltb_spec x y), (Z.ltb_spec y x); done || lia.
Qed.

Lemma release_text_ne r : release_text r <> [].
Proof. unfold release_text. by destruct (nat_to_str _). Qed.

Lemma compare_releases v w :
  compareReleaseVersions v w =
  match release v, release w with Some a, Some b => Some (sign (release_compare a b)) | _, _ => None end.
Proof.
  unfold compareReleaseVersions. rewrite !normalize_release.
  destruct (release v) as [a|] eqn:Ha; [|done]. destruct (release w) as [b|] eqn:Hb; [|by rewrite orb_true_r].
  rewrite !bool_decide_eq_false_2 by apply release_text_ne. cbn [orb]. rewrite !split_release.
  apply release_bounds in Ha as (? & ? & ?), Hb as (? & ? & ?). unfold release_compare.
  rewrite (compare_parts_step 0 2 _ _ a.1.1 b.1.1) by (done || lia).
  destruct (a.1.1 ?= b.1.1); try done. rewrite (compare_parts_step 1 1 _ _ a.1.2 b.1.2) by (done || lia).
  destruct (a.1.2 ?= b.1.2); try done. rewrite (compare_parts_step 2 0 _ _ a.2 b.2) by (done || lia).
  by destruct (a.2 ?= b.2).
Qed.

Lemma nat_to_str_short y : 0 <= y < 10 ^ 4 -> (length (nat_to_str y) =? 4)%nat = (1000 <=? y).
Proof.
  intros Hy. pose proof (nat_to_str_width 4 y ltac:(lia) Hy). pose proof (nat_to_str_digits y) as Hd.
  destruct (Z.leb_spec 1000 y).
  - apply Nat.eqb_eq. destruct (Nat.le_gt_cases (length (nat_to_str y)) 3) as [Hs|]; [|lia].
    apply digits_value_bound in Hs; [|done]. rewrite digits_value_nat in Hs by lia. change (Z.of_nat 3) with 3 in Hs. lia.
  - apply Nat.eqb_neq. pose proof (nat_to_str_width 3 y ltac:(lia) ltac:(lia)). lia.
Qed.

Lemma nat_digits_between lo hi z : (lo <= 1)%nat -> (0 < hi)%nat -> 0 <= z < 10 ^ Z.of_nat hi -> digits_between lo hi (nat_to_str z) = true.
Proof.
  intros Hlo Hhi Hz. unfold digits_between. destruct (nat_to_str_head z) as (c & r & E & _); [lia|].
  pose proof (nat_to_str_width hi z Hhi Hz). pose proof (proj2 (forallb_Forall is_digit (nat_to_str z)) (nat_to_str_digits z)) as ->.
  rewrite E in *. cbn [length] in *. rewrite !(proj2 (Nat.leb_le _ _)) by lia. done.
Qed.

Lemma trim_release r : trim (release_text r) = release_text r.
Proof.
  unfold release_text. apply trim_id.
  - pose proof (nat_to_str_digits r.1.1) as Hd. destruct (nat_to_str r.1.1); [done|]. apply Forall_cons in Hd as [? _]. by apply digit_not_space.
  - rewrite (app_comm_cons _ _ 46), app_assoc, (cons_middle 46), app_assoc, last_app. pose proof (nat_to_str_digits r.2) as Hd.
    destruct (last (nat_to_str r.2)) as [c|] eqn:E; [|by rewrite last_snoc].
    apply last_Some in E as [l E]. rewrite E in Hd. apply Forall_app in Hd as [_ [? _]%Forall_cons]. by apply digit_not_space.
Qed.

(** A normalized release is read as itself, unless its year lost leading zeros. *)
Lemma release_again r : release_ok r -> release (JStr (release_text r)) = if 1000 <=? r.1.1 then Some r else None.
Proof.
  intros (Hy & Hm & Hp). unfold release. rewrite text_JStr, trim_release. unfold version_groups.
  replace (strip_unit 118 (release_text r)) with (@None (list Z)).
  2: { unfold release_text. destruct (nat_to_str_head r.1.1) as (c & l & E & Hc & _); [lia|]. rewrite E. cbn.
       unfold is_digit, in_range in Hc. boolZ. by rewrite (proj2 (Z.eqb_neq c 118)) by lia. }
  cbn [default]. rewrite split_release, (nat_digits_between 1 2), (nat_digits_between 1 6) by (done || lia).
  replace (digits_between 4 4 (nat_to_str r.1.1)) with (length (nat_to_str r.1.1) =? 4)%nat.
  2: { unfold digits_between. rewrite (proj2 (forallb_Forall is_digit _) (nat_to_str_digits _)), andb_true_r.
       destruct (Nat.eqb_spec (length (nat_to_str r.1.1)) 4), (Nat.leb_spec 4 (length (nat_to_str r.1.1))),
         (Nat.leb_spec (length (nat_to_str r.1.1)) 4); done || lia. }
  rewrite nat_to_str_short, !andb_true_r by done. destruct (1000 <=? r.1.1); [|done]. cbn [mbind option_bind].
  rewrite !digits_value_nat by lia. by destruct r as [[? ?] ?].
Qed.

Definition MIN_RELEASE : Z * Z * Z := (2025, 1, 2).
Definition release_below (r m : Z * Z * Z) : bool := match release_compare r m with Lt => true | _ => false end.

Lemma version_below_release v w a b : release v = Some a -> release w = Some b -> version_below v w = release_below a b.
Proof. intros Ha Hb. unfold version_below. rewrite compare_releases, Ha, Hb. unfold release_below. by destruct (release_compare a b). Qed.

Lemma ssh_cli_support v :
  sshCliSupport v =
  match release v with
  | None => cli_unknown
  | Some r => if (1000 <=? r.1.1) && release_below r MIN_RELEASE then cli_unsupported else cli_supported
  end.
Proof.
  unfold sshCliSupport. rewrite normalize_release. destruct (release v) as [r|] eqn:E; [|done].
  rewrite bool_decide_eq_false_2 by apply release_text_ne. apply release_bounds in E as Hr. pose proof (release_again r Hr) as Ha.
  destruct (1000 <=? r.1.1).
  - by rewrite (version_below_release _ (JStr SSH_CLI_MIN_VERSION) r MIN_RELEASE).
  - unfold version_below. by rewrite compare_releases, Ha.
Qed.

(** Two release versions, whatever their spelling (a leading v, leading zeros,
    surrounding space), compare as their year, month and patch do, and not at all
    when one of them is not a release; the order is antisymmetric and transitive. *)
Theorem version_order :
  (forall v w, compareReleaseVersions v w =
     match release v, release w with Some a, Some b => Some (sign (release_compare a b)) | _, _ => None end) /\
  (forall v w c, compareReleaseVersions v w = Some c -> compareReleaseVersions w v = Some (- c)) /\
  (forall u v w c d, compareReleaseVersions u v = Some c -> compareReleaseVersions v w = Some d -> c <= 0 -> d <= 0 ->
     exists e, compareReleaseVersions u w = Some e /\ e <= 0).
Proof.
  split_and!; [apply compare_releases| |].
  - intros v w c. rewrite !compare_releases. destruct (release v) as [a|], (release w) as [b|]; try done. intros [= <-]. f_equal.
    unfold release_compare. rewrite (Z.compare_antisym a.1.1), (Z.compare_antisym a.1.2), (Z.compare_antisym a.2).
    by destruct (a.1.1 ?= b.1.1), (a.1.2 ?= b.1.2), (a.2 ?= b.2).
  - intros u v w c d. rewrite !compare_releases. destruct (release u) as [a|], (release v) as [b|], (release w) as [e|]; try done.
    intros [= <-] [= <-] H1%release_compare_le H2%release_compare_le. eexists. split; [done|]. apply release_compare_le. lia.
Qed.

Lemma version_order_witness :
  compareReleaseVersions (JStr (js "v2025.01.2")) (JStr (js " 2025.1.10 ")) = Some (-1) /\
  compareReleaseVersions (JStr (js " 2025.1.10 ")) (JStr (js "v2025.01.2")) = Some 1.
Proof.
  assert (H : compareReleaseVersions (JStr (js "v2025.01.2")) (JStr (js " 2025.1.10 ")) = Some (-1)) by (vm_compute; reflexivity).
  split; [exact H|]. exact (proj1 (proj2 version_order) _ _ _ H).
Defined.

(** ** The setup gate *)

(** What the probe printed for a key. *)
Definition says (raw : jsval) (key : string) : bool := is_one (probeFields raw) key.

Lemma list_mode_says raw v : vaultListMode (Some (parseDependencies raw v)) = if says raw "bw" && says raw "jq" then sanitized else blocked.
Proof.
  unfold vaultListMode, dependencyInstalled, dependencyByKey, items_of, parseDependencies, says, is_one.
  cbn [p_items DEPENDENCIES map List.find dependency_row d_tool d_installed t_key]. reflexivity.
Qed.

Lemma missing_required_says raw v : bool_decide (missingRequired (Some (parseDependencies raw v)) = []) = says raw "bw" && says raw "jq".
Proof.
  unfold missingRequired, items_of, parseDependencies, says, is_one. cbn [p_items DEPENDENCIES map List.filter dependency_row d_tool d_installed t_required andb t_key].
  by destruct (strict_eqb (obj_get _ (js "bw")) _), (strict_eqb (obj_get _ (js "jq")) _).
Qed.

(** After a probe, vault items are read only when both bw and jq answered, the
    setup screen shows exactly when one of them did not, the probe ran and the user
    did not skip it, and the vault is probed only when items may be read, once or
    after an install: never while a required tool is missing. *)
Theorem setup_gate raw v checked dismissed started gated :
  let deps := Some (parseDependencies raw v) in
  (vaultListMode deps = sanitized <-> says raw "bw" = true /\ says raw "jq" = true) /\
  (setupGateActive deps checked dismissed = true <-> checked = true /\ dismissed = false /\ vaultListMode deps = blocked) /\
  (dependencyProbeOutcome deps dismissed started gated = outcome_probe <->
     vaultListMode deps = sanitized /\ (started = false \/ gated = true)) /\
  (dependencyProbeOutcome deps dismissed started gated = outcome_setup <-> vaultListMode deps = blocked /\ dismissed = false).
Proof.
  cbv zeta. unfold setupGateActive, dependencyProbeOutcome. rewrite missing_required_says, !list_mode_says.
  destruct (says raw "bw"), (says raw "jq"), checked, dismissed, started, gated; cbn; naive_solver.
Qed.

(** Whether a version was reported: in the probe itself, or by the version probe. *)
Definition version_reported (raw v : jsval) : bool :=
  negb (is_undef (obj_get (probeFields raw) (js "bw_version"))) || negb (is_nullish v).

Lemma normalized_year v r : release (JStr (normalizeReleaseVersion v)) = Some r -> 1000 <= r.1.1.
Proof.
  rewrite normalize_release. destruct (release v) as [a|] eqn:E; [|done]. apply release_bounds in E. rewrite release_again by done.
  destruct (Z.leb_spec 1000 a.1.1); [|done]. intros ?%(inj Some). by subst.
Qed.

(** The SSH parts of the panel are offered exactly when the probe ran, bw is
    installed, its version was reported and is release 2025.1.2 or later; a version
    that is not a release counts as unsupported. *)
Theorem ssh_ui_gate raw v checked :
  let deps := parseDependencies raw v in
  sshUiAvailable (Some deps) checked = true <->
  checked = true /\ says raw "bw" = true /\ version_reported raw v = true /\
  exists r, release (JStr (p_bwVersion deps)) = Some r /\ release_below r MIN_RELEASE = false.
Proof.
  cbv zeta. unfold sshUiAvailable, version_reported, says. unfold parseDependencies. cbv zeta. cbn [p_bwVersion p_sshCliStatus].
  set (w := JStr (trim _)). rewrite ssh_cli_support. pose proof (normalized_year w) as Hy. revert Hy. clearbody w.
  generalize (release (JStr (normalizeReleaseVersion w))) as o. generalize (is_undef (obj_get (probeFields raw) (js "bw_version"))) as i.
  generalize (is_one (probeFields raw) "bw") as bw. generalize (is_nullish v) as n. clear. generalize MIN_RELEASE as m. intros m n bw i o Hy.
  assert (E : match o with Some r => (1000 <=? r.1.1) | None => true end = true) by (destruct o; [apply Z.leb_le; auto|done]). clear Hy.
  destruct o as [r|]; [rewrite E; destruct (release_below r m) eqn:Eb|]; destruct checked, bw, n, i; cbn; naive_solver.
Qed.

(** ** Packages *)

(** A package name starts with a letter or digit and has plain units and a plus. *)
Definition package_unit (c : Z) : bool := is_alnum c || existsb (Z.eqb c) (js "._+-").

Lemma plain_package s : isPlainPackageName (JStr s) = true ->
  exists c r, s = c :: r /\ is_alnum c = true /\ Forall (fun c => package_unit c = true) r.
Proof.
  cbn [isPlainPackageName]. intros (y & Hm & Hy)%test_anchored. apply matches_seq in Hm as (x & Hx & Hm).
  apply matches_one in Hx as (c & r & Hr & Hc & ->). cbn [after before captured] in Hr, Hm.
  apply (matches_units (fun c => package_unit c = true)) in Hm as (u & _ & Hu & Fu); [|intros ? Hd; exact Hd].
  cbn [after] in Hu. rewrite Hy, app_nil_r in Hu. subst. eauto.
Qed.

Lemma lex_quoted_args args cur out :
  lex Word cur out (flat_map (fun a => 32 :: shellQuote (JStr a)) args) = Some (rev out ++ rev cur :: args).
Proof.
  revert cur out. induction args as [|a args IH]; intros cur out; cbn [flat_map]; [done|].
  cbn [app lex]. cbn [Z.eqb Pos.eqb]. unfold shellQuote at 1. rewrite text_JStr, lex_quote_text, IH by (by left).
  cbn [rev]. by rewrite app_nil_r, rev_involutive, <- app_assoc.
Qed.

Lemma join_flat sep l x : join sep (x :: l) = x ++ flat_map (fun a => sep ++ a) l.
Proof.
  revert x. induction l as [|y l IH]; intros x; [cbn; by rewrite app_nil_r|].
  transitivity (x ++ sep ++ join sep (y :: l)); [done|]. rewrite IH. cbn [flat_map]. by rewrite <- !app_assoc.
Qed.

Lemma flat_map_of_map {A B C} (f : B -> list C) (g : A -> B) l : flat_map f (map g l) = flat_map (fun a => f (g a)) l.
Proof. induction l as [|x l IH]; [done|]. cbn [map flat_map]. by rewrite IH. Qed.

Definition pacman_call (pkgs : list (list Z)) : list Z :=
  js "sudo pacman -S --needed " ++ join (js " ") (map (fun p => shellQuote (JStr p)) pkgs).

Lemma pacman_words pkgs : pkgs <> [] ->
  shell_words (pacman_call pkgs) = Some (map js ["sudo"; "pacman"; "-S"; "--needed"]%string ++ pkgs).
Proof.
  destruct pkgs as [|p pkgs]; [done|]. intros _. unfold pacman_call. cbn [map]. rewrite join_flat.
  rewrite (flat_map_of_map (fun a => js " " ++ a)).
  transitivity (lex Outside [] (rev (map js ["sudo"; "pacman"; "-S"; "--needed"]%string))
    (shellQuote (JStr p) ++ flat_map (fun a => 32 :: shellQuote (JStr a)) pkgs)); [reflexivity|].
  unfold shellQuote at 1. rewrite text_JStr, lex_quote_text, lex_quoted_args by (by left). by rewrite app_nil_r, rev_involutive, rev_involutive.
Qed.

Lemma missing_packages_elem deps p :
  p ∈ missingPackages deps <->
  exists d, d ∈ items_of deps /\ d_applicable d = true /\ t_setup (d_tool d) = false /\ d_installed d = false /\ t_pkg (d_tool d) = p.
Proof.
  unfold missingPackages. generalize (items_of deps) as l. intros l.
  enough (H : forall acc, p ∈ fold_left (fun pkgs d => if negb (d_applicable d) || t_setup (d_tool d) || d_installed d then pkgs
    else if bool_decide (t_pkg (d_tool d) ∈ pkgs) then pkgs else pkgs ++ [t_pkg (d_tool d)]) l acc <-> p ∈ acc \/ exists d, d ∈ l /\
    d_applicable d = true /\ t_setup (d_tool d) = false /\ d_installed d = false /\ t_pkg (d_tool d) = p).
  { rewrite H. rewrite elem_of_nil. naive_solver. }
  induction l as [|d l IH]; intros acc; cbn [fold_left]; [set_solver|]. rewrite IH.
  destruct (d_applicable d) eqn:Ea, (t_setup (d_tool d)) eqn:Es, (d_installed d) eqn:Ei; cbn [negb orb];
    try (setoid_rewrite elem_of_cons; naive_solver congruence).
  case_bool_decide; setoid_rewrite elem_of_cons; set_solver.
Qed.

Lemma missing_packages_says raw v p : p ∈ missingPackages (Some (parseDependencies raw v)) <->
  exists d, d ∈ DEPENDENCIES /\ t_setup d = false /\ strict_eqb (obj_get (probeFields raw) (t_key d)) (JStr (js "1")) = false /\ t_pkg d = p.
Proof.
  rewrite missing_packages_elem. unfold items_of, parseDependencies. cbv zeta. cbn [p_items].
  match goal with |- context [dependency_row _ ?st ?ve] => generalize st as status; generalize ve as ver end.
  intros ver status. setoid_rewrite list_elem_of_fmap. split.
  - intros (? & (d & -> & Hd) & _ & ? & ? & ?). by exists d.
  - intros (d & Hd & ? & ? & ?). exists (dependency_row (probeFields raw) status ver d). split; [by exists d|]. split_and!; try done.
    unfold dependency_row. cbn [d_applicable]. destruct (str_eqb_eq (t_key d) (js "fprintd")) as [E _].
    destruct (str_eqb (t_key d) (js "fprintd")); [|done]. specialize (E eq_refl). exfalso.
    revert Hd E. unfold DEPENDENCIES. rewrite !elem_of_cons, elem_of_nil. intros [->|[->|[->|[->|[->|[]]]]]]; done.
Qed.

(** The packages offered are those of the tools the probe did not find, apart
    from the fingerprint reader's own setup, and a command for them always exists;
    the shell that runs it reads the installer's call as exactly the package
    names, none of which can be an option. *)
Theorem install_exact :
  (forall raw v p, p ∈ missingPackages (Some (parseDependencies raw v)) <->
     exists d, d ∈ DEPENDENCIES /\ t_setup d = false /\ strict_eqb (obj_get (probeFields raw) (t_key d)) (JStr (js "1")) = false /\ t_pkg d = p) /\
  (forall raw v, let pkgs := missingPackages (Some (parseDependencies raw v)) in installPackagesCommand pkgs = None <-> pkgs = []) /\
  (forall pkgs cmd, installPackagesCommand pkgs = Some cmd ->
     Forall (fun p => exists c r, p = c :: r /\ is_alnum c = true /\ Forall (fun c => package_unit c = true) r) pkgs /\
     shell_words (pacman_call pkgs) = Some (map js ["sudo"; "pacman"; "-S"; "--needed"]%string ++ pkgs) /\
     exists pre post, cmd = [js "bash"; js "-c"; terminalScript (pre ++ pacman_call pkgs ++ post)]).
Proof.
  split_and!; [apply missing_packages_says| |].
  - intros raw v. cbv zeta. pose proof (missing_packages_says raw v) as H. revert H. generalize (missingPackages (Some (parseDependencies raw v))) as pkgs.
    intros [|p pkgs] H; [done|]. split; [|done]. unfold installPackagesCommand.
    replace (forallb _ _) with true; [done|]. symmetry. apply forallb_Forall, Forall_forall. intros q (d & Hd & _ & _ & <-)%H.
    revert Hd. unfold DEPENDENCIES. rewrite !elem_of_cons, elem_of_nil. intros [->|[->|[->|[->|[->|[]]]]]]; vm_compute; reflexivity.
  - intros pkgs cmd. unfold installPackagesCommand. destruct pkgs as [|p pkgs]; [done|]. destruct (forallb _ _) eqn:E; [|done].
    intros <-%(inj Some). split_and!.
    + apply forallb_Forall in E. eapply Forall_impl; [exact E|]. apply plain_package.
    + by apply pacman_words.
    + eexists (js "if command -v pacman >/dev/null 2>&1; then "), _. unfold installPackagesScript. by rewrite <- !app_assoc.
Qed.

Lemma install_exact_witness :
  let pkgs := missingPackages (Some (parseDependencies (JStr (js "bw=1")) JNull)) in
  pkgs = map js ["wl-clipboard"; "jq"; "rust"]%string /\
  shell_words (pacman_call pkgs) = Some (map js ["sudo"; "pacman"; "-S"; "--needed"]%string ++ pkgs).
Proof.
  cbv zeta. split; [vm_compute; reflexivity|].
  destruct (installPackagesCommand (missingPackages (Some (parseDependencies (JStr (js "bw=1")) JNull)))) as [cmd|] eqn:E.
  - exact (proj1 (proj2 (proj2 (proj2 install_exact) _ cmd E))).
  - apply (proj1 (proj1 (proj2 install_exact) (JStr (js "bw=1")) JNull)) in E. vm_compute in E. discriminate.
Defined.
