(* ===== verification/Helpers.v ===== *)
(** * The local helpers ([BitwardenModel.js], [bw-login-code.js], [bw-fast-exit.js])

    The panel inspects each helper program before it runs it, talks to the vault
    helper in lines of JSON, and preloads two scripts into every bw.  The
    inspection script's text is in [Scripts]; here is what its output means.  A
    file's resolved path, which Node's [realpathSync] answers, is a parameter. *)

From stdpp Require Import gmap.
From S2P Require Import Prelude.
From S2P Require Import JsNum.
From S2P Require Import JsString.
From S2P Require Import JsValue.
From S2P Require Import Json.
From S2P Require Import Regex.
From S2P Require Import Shell.
From S2P Require Import SshAgent.
From S2P Require Import Setup.

(** ** Helper programs *)

Record helper_spec := HelperSpec { hs_name : list Z; hs_bundled : list Z; hs_development : list Z; hs_protocolSed : list Z }.

Definition SSH_AGENT_BUNDLED_RELATIVE : list Z := js "bin/x86_64-linux/qs-bitwarden-ssh-agent".
Definition SSH_AGENT_SUMS_RELATIVE : list Z := js "bin/SHA256SUMS".
Definition SSH_AGENT_DEVELOPMENT_RELATIVE : list Z := js "agent/target/debug/qs-bitwarden-ssh-agent".
Definition UNLOCK_KEY_ENVELOPE_VERSION : Z := 1.
Definition UNLOCK_KEY_BUNDLED_RELATIVE : list Z := js "bin/x86_64-linux/qs-bitwarden-unlock-key".
Definition UNLOCK_KEY_DEVELOPMENT_RELATIVE : list Z := js "unlock-key/target/debug/qs-bitwarden-unlock-key".
Definition VAULT_HELPER_PROTOCOL : Z := 1.
Definition VAULT_HELPER_BUNDLED_RELATIVE : list Z := js "bin/x86_64-linux/qs-bitwarden-vault".
Definition VAULT_HELPER_DEVELOPMENT_RELATIVE : list Z := js "vault/target/debug/qs-bitwarden-vault".

Definition SSH_AGENT_HELPER_SPEC : helper_spec :=
  HelperSpec (js "qs-bitwarden-ssh-agent") SSH_AGENT_BUNDLED_RELATIVE SSH_AGENT_DEVELOPMENT_RELATIVE (js "s/.*protocol \([0-9]*\).*/\1/p").
Definition UNLOCK_KEY_SPEC : helper_spec :=
  HelperSpec (js "qs-bitwarden-unlock-key") UNLOCK_KEY_BUNDLED_RELATIVE UNLOCK_KEY_DEVELOPMENT_RELATIVE (js "s/.*envelope v\([0-9]*\).*/\1/p").
Definition VAULT_HELPER_SPEC : helper_spec :=
  HelperSpec (js "qs-bitwarden-vault") VAULT_HELPER_BUNDLED_RELATIVE VAULT_HELPER_DEVELOPMENT_RELATIVE (js "s/.*protocol \([0-9]*\).*/\1/p").

(** Pairs of a source and a path. *)
Definition helperCandidates (pluginDir : jsval) (spec : helper_spec) : list (list Z * list Z) :=
  let root := cleanAbsoluteDir pluginDir in
  if bool_decide (root = []) then [] else [(js "development", root ++ js "/" ++ hs_development spec)].

Definition helperPath (pluginDir : jsval) (spec : helper_spec) (source : list Z) : list Z :=
  match List.find (fun c => str_eqb c.1 source) (helperCandidates pluginDir spec) with Some c => c.2 | None => [] end.

Definition vaultHelperPath (pluginDir : jsval) (source : list Z) : list Z := helperPath pluginDir VAULT_HELPER_SPEC source.
Definition unlockKeyPath (pluginDir : jsval) (source : list Z) : list Z := helperPath pluginDir UNLOCK_KEY_SPEC source.

Definition sshAgentHelperSourceLabel (source : list Z) : list Z :=
  if str_eqb source (js "bundled") then js "the helper shipped with this plugin"
  else if str_eqb source (js "development") then js "a locally built development helper, not the shipped artifact"
  else [].

(** ** Inspection *)

Record inspection := Inspection {
  i_state : list Z; i_source : list Z; i_version : list Z; i_protocol : num;
  i_checksum : list Z; i_selfTest : list Z; i_sourceStamp : list Z; i_sourceHash : list Z;
  i_message : jsval
}.

Definition uninspectedHelper : inspection :=
  Inspection (js "unknown") [] [] (NZ 0) (js "unchecked") [] (js "missing") [] (JStr []).

(** The fields before any line is read. *)
Definition inspection_fields : inspection :=
  Inspection (js "missing") [] [] (NZ 0) (js "unchecked") [] (js "missing") [] JUndef.

Definition named (key : list Z) (k : string) : bool := str_eqb key (js k).

(** One line.  A key that is no field is ignored; one that [Object.prototype] has
    is shadowed by the assignment, which nothing reads. *)
Definition inspection_field (f : inspection) (key value : list Z) : inspection :=
  let 'Inspection state source version protocol checksum selfTest stamp hash message := f in
  if named key "protocol" then Inspection state source version (num_or0 (num_floor (string_to_num value))) checksum selfTest stamp hash message
  else if named key "state" then Inspection value source version protocol checksum selfTest stamp hash message
  else if named key "source" then Inspection state value version protocol checksum selfTest stamp hash message
  else if named key "version" then Inspection state source value protocol checksum selfTest stamp hash message
  else if named key "checksum" then Inspection state source version protocol value selfTest stamp hash message
  else if named key "selfTest" then Inspection state source version protocol checksum value stamp hash message
  else if named key "sourceStamp" then Inspection state source version protocol checksum selfTest value hash message
  else if named key "sourceHash" then Inspection state source version protocol checksum selfTest stamp value message
  else f.

Definition inspection_lines (raw : jsval) : inspection :=
  fold_left (fun f line => match key_value line with Some (k, v) => inspection_field f k v | None => f end)
    (lines (text_present raw)) inspection_fields.

Definition parseHelperInspection (raw : jsval) (expectedProtocol : Z) (messages : list (list Z * jsval)) : inspection :=
  let f := inspection_lines raw in
  let state := if str_eqb (i_state f) (js "ok") && negb (num_eqb (i_protocol f) (NZ expectedProtocol))
               then js "protocol-mismatch" else i_state f in
  let message := if str_eqb state (js "ok") then JStr [] else js_or (obj_get messages state) (obj_get messages (js "unusable")) in
  Inspection state (i_source f) (i_version f) (i_protocol f) (i_checksum f) (i_selfTest f) (i_sourceStamp f) (i_sourceHash f) message.

Definition helper_message (the : list Z) (k : string) (t : list Z) : list Z * jsval := (js k, JStr (the ++ t)).
Definition helperMessages (noun protocolMismatch : string) : list (list Z * jsval) :=
  let the := js "The " ++ js noun in
  [helper_message the "missing" (js " was not found. Run `scripts/build-helpers.sh` in the plugin directory.");
   helper_message the "not-a-file" (js " path is not a file.");
   helper_message the "not-executable" (js " is not executable. A clone from an archive can drop file modes; `chmod +x` on it is enough.");
   helper_message the "not-elf" (js " is not a program. A partial clone, or Git LFS leaving a placeholder, both look like this.");
   helper_message the "wrong-architecture" (js " was built for a different architecture. This release ships x86_64 only.");
   helper_message the "checksum-mismatch" (js " does not match its recorded checksum. That usually means a stale binary after an update, or an incomplete clone.");
   helper_message the "no-version" (js " did not report a usable version.");
   helper_message the "self-test-failed" (js " failed its self-test. Rebuild with `scripts/build-helpers.sh`.");
   helper_message the "protocol-mismatch" (js " " ++ js protocolMismatch ++ js " than this plugin. Rebuild with `scripts/build-helpers.sh`.");
   helper_message the "unusable" (js " could not be used.")].

Definition SSH_AGENT_HELPER_MESSAGES : list (list Z * jsval) := helperMessages "SSH agent helper" "speaks a different control protocol".
Definition UNLOCK_KEY_MESSAGES : list (list Z * jsval) := helperMessages "quick-unlock tool" "uses a different envelope format".
Definition VAULT_HELPER_MESSAGES : list (list Z * jsval) := helperMessages "vault helper" "speaks a different protocol".

Definition parseSshAgentHelperInspection (raw : jsval) : inspection :=
  parseHelperInspection raw SSH_AGENT_CONTROL_VERSION SSH_AGENT_HELPER_MESSAGES.
Definition parseUnlockKeyInspection (raw : jsval) : inspection :=
  parseHelperInspection raw UNLOCK_KEY_ENVELOPE_VERSION UNLOCK_KEY_MESSAGES.
Definition parseVaultHelperInspection (raw : jsval) : inspection :=
  parseHelperInspection raw VAULT_HELPER_PROTOCOL VAULT_HELPER_MESSAGES.

Definition helperReady (i : option inspection) : bool :=
  match i with Some i => str_eqb (i_state i) (js "ok") | None => false end.

(** [/^[0-9a-f]{64}$/] *)
Definition is_source_hash (s : list Z) : bool := (length s =? 64)%nat && forallb is_hex_lower s.

(** [runningStamp] undefined is [None]. *)
Definition helperSourceOutdated (helper : option inspection) (runningStamp : option jsval) : bool :=
  match helper with
  | None => false
  | Some h =>
      match runningStamp with
      | Some stamp => negb (is_source_hash (i_sourceHash h)) || negb (strict_eqb stamp (JStr (i_sourceHash h)))
      | None => helperReady helper && str_eqb (i_source h) (js "development") && negb (str_eqb (i_sourceStamp h) (js "match"))
      end
  end.

Definition helperRebuildable (i : option inspection) : bool :=
  match i with
  | Some i => existsb (str_eqb (i_state i)) (map js ["missing"; "protocol-mismatch"; "self-test-failed"; "checksum-mismatch"]%string)
  | None => false
  end.

Definition helperSourceWarning : list Z :=
  js "A helper was built from older plugin source or has no build record. Rebuild it from trusted source.".

Definition reason_or (reason : jsval) (d : string) : list Z :=
  let r := trim (text reason) in if bool_decide (r = []) then js d else r.

Definition vaultHelperWarning (reason : jsval) : list Z :=
  js "Crash protection is off: " ++ reason_or reason "the vault helper is unavailable."
  ++ js " The vault is held in the shell, so a shell crash could write it to a core dump.".

Definition vaultHelperUnavailableWarning (reason : jsval) (tr : list Z -> list Z) : list Z :=
  tr (js "The vault stays locked: ")
  ++ tr (reason_or reason "The vault helper is unavailable. Run `scripts/build-helpers.sh`.")
  ++ tr (js " Click here to check again.").

(** ** Lines of the vault helper *)

Definition VAULT_HELD_SESSION : list Z := js "HELD-BY-QS-BITWARDEN-VAULT-HELPER-SESSION".
Definition HELD_SECRET_PREFIX : list Z := 0 :: js "qsbw-held:".

Definition heldSecretRef (name : jsval) : list Z := HELD_SECRET_PREFIX ++ to_string name.

Definition heldSecretName (value : jsval) : list Z :=
  let text := match value with JStr s => s | _ => [] end in
  if starts_with HELD_SECRET_PREFIX text then drop (length HELD_SECRET_PREFIX) text else [].

(** [for (var k in fields) message[k] = fields[k]] *)
Definition copy_into (o fields : list (list Z * jsval)) : list (list Z * jsval) :=
  fold_left (fun o kv => obj_set o kv.1 kv.2) (entries fields) o.

Definition vaultHelperMessage (type : list Z) (fields : list (list Z * jsval)) : jsval :=
  JObj (copy_into [(js "type", JStr type); (js "v", JNum (NZ VAULT_HELPER_PROTOCOL))] fields).
Definition vaultHelperLine (type : list Z) (fields : list (list Z * jsval)) : list Z :=
  stringify (vaultHelperMessage type fields) ++ [10].

Definition vaultEnv (env : list (list Z * jsval)) : list (list Z * jsval) :=
  copy_into [] (map (fun kv => (kv.1, if is_nullish kv.2 then JNull else JStr (to_string kv.2))) env).

(** The properties of an argument that is an object or absent. *)
Definition props_of (v : jsval) : list (list Z * jsval) := match v with JObj o => o | _ => [] end.

Definition exec_fields (id argv env inject capture stdin : jsval) : list (list Z * jsval) :=
  [(js "id", id); (js "argv", argv); (js "env", JObj (vaultEnv (props_of env))); (js "inject", js_or inject (JObj []));
   (js "capture", js_or capture (JStr (js "plain")))]
  ++ (if is_nullish stdin || strict_eqb stdin (JStr []) then [] else [(js "stdin", JStr (to_string stdin))]).

Definition vaultExecLine (id argv env inject capture stdin : jsval) : list Z :=
  vaultHelperLine (js "exec") (exec_fields id argv env inject capture stdin).

(** [null] is [None]. *)
Definition parseVaultHelperLine (line : jsval) : option jsval :=
  message ← parse (text line);
  if is_object message && is_string (get message (js "type")) then Some message else None.

Definition QUICK_UNLOCK_SETTINGS : list (list Z) := map js ["fingerprintUnlock"; "pinUnlock"; "fidoUnlock"]%string.
Definition isQuickUnlockSetting (key : jsval) : bool := existsb (str_eqb (to_string key)) QUICK_UNLOCK_SETTINGS.

(** ** Preloads of bw *)

(** [/[\\/]@bitwarden[\\/]cli[\\/]build[\\/]bw\.js$/] *)
Definition path_sep : re := one_of [92; 47].
Definition BW_ENTRY_RE : re :=
  (path_sep ⋅ lit (js "@bitwarden") ⋅ path_sep ⋅ lit (js "cli") ⋅ path_sep ⋅ lit (js "build") ⋅ path_sep ⋅ lit (js "bw.js") ⋅ Eol)%re.

Section preload.
  (** [fs.realpathSync]: [None] when it throws. *)
  Context (realpath : list Z -> option (list Z)).

(** Whether the process is the Bitwarden CLI. *)
Definition is_bw_entry (argv : list (list Z)) : bool :=
  match realpath (default [] (argv !! 1%nat)) with Some entry => test BW_ENTRY_RE entry | None => false end.

Definition LOGIN_CODE_FLAG : list Z := js "--qsbw-code-from-env".
Definition LOGIN_CODE_ENV : list Z := js "QSBW_CODE".

(** [process.argv.indexOf(FLAG, 2)] *)
Fixpoint flag_index (i : nat) (argv : list (list Z)) : option nat :=
  match argv with
  | [] => None
  | a :: argv => if (2 <=? i)%nat && str_eqb a LOGIN_CODE_FLAG then Some i else flag_index (S i) argv
  end.

(** The arguments and the environment once the preload has run. *)
Definition loginCodePreload (argv : list (list Z)) (env : gmap (list Z) (list Z)) : list (list Z) * gmap (list Z) (list Z) :=
  match flag_index 0 argv with
  | None => (argv, env)
  | Some at_ =>
      if negb (is_bw_entry argv) then (argv, env)
      else if negb (bool_decide (argv !! 2%nat = Some (js "login"))) then (argv, env)
      else
        let rest := delete LOGIN_CODE_ENV env in
        match env !! LOGIN_CODE_ENV with
        | Some ((_ :: _) as code) => (<[at_ := js "--code=" ++ code]> argv, rest)
        | _ => (argv, rest)
        end
  end.

(** Whether the first argument that is no option is [serve]. *)
Fixpoint is_serve (args : list (list Z)) : bool :=
  match args with
  | [] => false
  | a :: args => if starts_with (js "-") a then is_serve args else str_eqb a (js "serve")
  end.

(** Whether the fast exit starts its timer. *)
Definition fastExitArmed (argv : list (list Z)) : bool := is_bw_entry argv && negb (is_serve (drop 2 argv)).

(** The timer: running, or stopped with the code to exit with. *)
Inductive fast_exit := polling | exiting (code : Z).

Definition fastExitTick (s : fast_exit) (exitCode : option Z) : fast_exit :=
  match s, exitCode with polling, Some code => exiting code | _, _ => s end.
End preload.
