(* ===== verification/HelpersCorrect.v ===== *)
(** * Helpers are used only when they pass, and talked to exactly

    What makes an inspection pass, the round trip of a request line, and that the
    login code's preload fails closed. *)

From stdpp Require Import gmap.
From S2P Require Import Prelude.
From S2P Require Import JsNum.
From S2P Require Import JsString.
From S2P Require Import JsValue.
From S2P Require Import Json.
From S2P Require Import Regex.
From S2P Require Import SshAgent.
From S2P Require Import SshAgentCorrect.
From S2P Require Import Setup.
From S2P Require Import Helpers.

(** ** Inspection *)

(** The value of the last line with a key. *)
Definition last_value (key : string) (raw : jsval) : option (list Z) :=
  fold_left (fun o line => match key_value line with
                           | Some (k, v) => if named k key then Some v else o
                           | None => o
                           end) (lines (text_present raw)) None.

(** A field that only lines with its key set is that of the last such line. *)
Lemma fold_field {A} (proj : inspection -> A) (key : string) (conv : list Z -> A) (l : list (list Z)) f o :
  (forall f k v, proj (inspection_field f k v) = if named k key then conv v else proj f) ->
  proj f = match o with Some v => conv v | None => proj inspection_fields end ->
  proj (fold_left (fun f line => match key_value line with Some (k, v) => inspection_field f k v | None => f end) l f) =
  match fold_left (fun o line => match key_value line with
                                 | Some (k, v) => if named k key then Some v else o
                                 | None => o
                                 end) l o with
  | Some v => conv v
  | None => proj inspection_fields
  end.
Proof.
  intros Hf. revert f o. induction l as [|x l IH]; intros f o Ho; cbn [fold_left]; [done|].
  apply IH. destruct (key_value x) as [[k v]|]; [|done]. rewrite Hf. by destruct (named k key).
Qed.

Lemma state_field f k v : i_state (inspection_field f k v) = if named k "state" then v else i_state f.
Proof.
  destruct f. unfold inspection_field. destruct (named k "state") eqn:E.
  - unfold named in *. apply str_eqb_eq in E. subst. reflexivity.
  - by repeat case_match.
Qed.

Lemma protocol_field f k v :
  i_protocol (inspection_field f k v) = if named k "protocol" then num_or0 (num_floor (string_to_num v)) else i_protocol f.
Proof. destruct f. unfold inspection_field. destruct (named k "protocol") eqn:E; [done|]. by repeat case_match. Qed.

Lemma lines_state raw : i_state (inspection_lines raw) = default (js "missing") (last_value "state" raw).
Proof. unfold inspection_lines. rewrite (fold_field i_state "state" id _ _ None) by (apply state_field || done). by destruct (fold_left _ _ None) eqn:E; unfold last_value; rewrite E. Qed.

Lemma lines_protocol raw :
  i_protocol (inspection_lines raw) = match last_value "protocol" raw with Some v => num_or0 (num_floor (string_to_num v)) | None => NZ 0 end.
Proof. unfold inspection_lines. by rewrite (fold_field i_protocol "protocol" (fun v => num_or0 (num_floor (string_to_num v))) _ _ None) by (apply protocol_field || done). Qed.

(** What the last protocol line says. *)
Definition reported_protocol (raw : jsval) : num :=
  match last_value "protocol" raw with Some v => num_or0 (num_floor (string_to_num v)) | None => NZ 0 end.

(** The texts of a table: every entry is a non-empty string, the fallback among them. *)
Definition message_table (m : list (list Z * jsval)) : Prop :=
  Forall (fun kv => exists c s, kv.2 = JStr (c :: s)) m /\ js "unusable" ∈ m.*1.

Lemma helper_tables : Forall message_table [SSH_AGENT_HELPER_MESSAGES; UNLOCK_KEY_MESSAGES; VAULT_HELPER_MESSAGES].
Proof. repeat constructor; try (eexists _, _; reflexivity); apply bool_decide_unpack; vm_compute; exact I. Qed.

(** A helper is used only when the last state line of its inspection is ok and
    the last protocol line is the version the panel speaks; any other output,
    partial or garbled, disables it and gives it a message; a path to run exists
    only for a source that was inspected, below the plugin's directory. *)
Theorem helper_accepted raw proto messages :
  let i := parseHelperInspection raw proto messages in
  (helperReady (Some i) = true <-> last_value "state" raw = Some (js "ok") /\ num_eqb (reported_protocol raw) (NZ proto) = true) /\
  (message_table messages -> truthy (i_message i) = negb (helperReady (Some i))) /\
  (forall dir spec, helperPath dir spec (i_source i) <> [] ->
     i_source i = js "development" /\ clean_dir (cleanAbsoluteDir dir) /\
     helperPath dir spec (i_source i) = cleanAbsoluteDir dir ++ js "/" ++ hs_development spec).
Proof.
  assert (Hs : i_state (parseHelperInspection raw proto messages) = js "ok" <->
    last_value "state" raw = Some (js "ok") /\ num_eqb (reported_protocol raw) (NZ proto) = true).
  { unfold parseHelperInspection. cbn [i_state]. rewrite lines_state, lines_protocol. fold (reported_protocol raw).
    destruct (str_eqb (default _ _) (js "ok")) eqn:E.
    - apply str_eqb_eq in E. destruct (last_value "state" raw) as [s|]; [|done]. cbn in E. subst s.
      destruct (num_eqb _ _); cbn; naive_solver.
    - apply str_eqb_neq in E. cbn [andb]. split; [done|]. intros [H _]. by rewrite H in E. }
  cbv zeta. cbn [helperReady]. split_and!.
  - rewrite str_eqb_eq. exact Hs.
  - intros [Hm Hu]. unfold parseHelperInspection. cbn [i_message i_state]. 
    match goal with |- context [if str_eqb ?s _ then JStr [] else _] => destruct (str_eqb s (js "ok")) end; [done|].
    assert (Hg : forall k, k ∈ messages.*1 -> truthy (obj_get messages k) = true).
    { intros k Hk. unfold obj_get. destruct (own k messages) as [v|] eqn:E; [|by apply own_None in E].
      apply own_In in E. rewrite Forall_forall in Hm. destruct (Hm _ E) as (c & s & Hv). cbn in Hv. by subst. }
    unfold js_or. match goal with |- truthy (if truthy ?x then _ else _) = _ => destruct (truthy x) eqn:E end; [done|]. by apply Hg.
  - intros dir spec. unfold helperPath, helperCandidates. case_bool_decide; [done|]. cbn [List.find].
    destruct (str_eqb_eq (js "development") (i_source (parseHelperInspection raw proto messages))) as [H1 _]. cbn [fst snd].
    destruct (str_eqb (js "development") _); [|done]. intros _. split; [symmetry; auto|]. split; [|done].
    by destruct (cleanAbsoluteDir_clean dir).
Qed.

(** ** Lines of the vault helper *)

Lemma hex_unit_line d : 0 <= d < 16 -> hex_unit d <> 10.
Proof. unfold hex_unit. destruct (Z.ltb_spec d 10); lia. Qed.

Lemma quote_line s : forallb is_unit s = true -> 10 ∉ quote s.
Proof.
  intros Hs%forallb_Forall. unfold quote. rewrite elem_of_cons, elem_of_app, list_elem_of_singleton. intros [?|[Hin|?]]; [done| |done].
  revert Hin. induction Hs as [|c s Hc Hs IH]; cbn [flat_map]; [by intros ?%elem_of_nil|]. rewrite elem_of_app. intros [Hin|Hin]; [|auto].
  unfold is_unit, in_range in Hc. boolZ. revert Hin. unfold quote_unit.
  repeat match goal with |- context [if ?b then _ else _] => destruct b eqn:?; [rewrite !elem_of_cons, elem_of_nil|] end; boolZ;
    rewrite ?elem_of_cons, ?elem_of_nil; try lia.
  pose proof (hex_unit_line (c / 16)). pose proof (hex_unit_line (c mod 16)).
  assert (0 <= c / 16 < 16) by (split; [apply Z.div_pos; lia|apply Z.div_lt_upper_bound; lia]).
  pose proof (Z.mod_pos_bound c 16). intuition lia.
Qed.

Lemma join_line sep l : 10 ∉ sep -> Forall (fun s => 10 ∉ s) l -> 10 ∉ join sep l.
Proof.
  intros Hs Hl. induction Hl as [|w l Hw Hl IH]; cbn [join]; [by intros ?%elem_of_nil|]. destruct l; [done|].
  rewrite !elem_of_app. naive_solver.
Qed.

Lemma number_line z : 10 ∉ Z_to_str z.
Proof.
  assert (H : forall n, 10 ∉ nat_to_str n).
  { intros n Hin. pose proof (nat_to_str_digits n) as Hd. rewrite Forall_forall in Hd. by specialize (Hd 10 Hin). }
  unfold Z_to_str. destruct (z <? 0); [|apply H]. rewrite elem_of_cons. intros [?|?]; [done|by eapply H].
Qed.

(** A printed value is one line. *)
Lemma stringify_line v : json_clean v = true -> 10 ∉ stringify v.
Proof.
  induction v as [| |b|m|s|l IH|kvs IH|f] using jsval_ind'; intros Hc; try done.
  - by apply (bool_decide_eq_false (10 ∈ stringify JNull)).
  - by apply (bool_decide_eq_false (10 ∈ stringify (JBool b))); destruct b.
  - destruct m as [| |[n d]]; try done. cbn [json_clean QArith_base.Qden QArith_base.Qnum] in Hc. boolZ.
    assert (d = 1%positive) as -> by lia. change (10 ∉ num_to_string (NZ n)). rewrite num_to_string_NZ by lia. apply number_line.
  - by apply quote_line.
  - cbn [json_clean] in Hc. apply forallb_Forall in Hc. rewrite stringify_arr by (eapply Forall_impl; [exact Hc|apply json_clean_printed]).
    rewrite elem_of_cons, elem_of_app, list_elem_of_singleton. intros [?|[H|?]]; [done| |done]. revert H. apply join_line; [by intros ?%list_elem_of_singleton|].
    apply Forall_fmap. rewrite Forall_forall in IH, Hc |- *. intros x Hx. by apply IH, Hc.
  - cbn [json_clean] in Hc. apply andb_true_iff in Hc as [Hc%forallb_Forall _].
    assert (Hk : Forall key_ok kvs).
    { eapply Forall_impl; [exact Hc|]. intros kv. rewrite !andb_true_iff, negb_true_iff. unfold key_ok. tauto. }
    rewrite stringify_obj by (eapply Forall_impl; [exact Hk|]; intros kv (? & ? & ?); by try apply json_clean_printed).
    rewrite elem_of_cons, elem_of_app, list_elem_of_singleton. intros [?|[H|?]]; [done| |done]. revert H. apply join_line; [by intros ?%list_elem_of_singleton|].
    apply Forall_fmap. rewrite Forall_forall in IH, Hk |- *. intros kv Hkv. unfold compose, member_text.
    destruct (Hk kv Hkv) as (Hu & _ & Hv). rewrite elem_of_app, elem_of_cons. intros [H|[?|H]]; [by apply quote_line in H|done|].
    by apply (IH kv Hkv Hv).
Qed.

Lemma copy_into_fresh o fields :
  Forall (fun kv => is_index kv.1 = false) fields -> NoDup (o ++ fields).*1 -> copy_into o fields = o ++ fields.
Proof. intros Hi Hn. unfold copy_into. rewrite entries_plain by done. by apply fold_obj_set. Qed.

Lemma json_clean_keys kvs : json_clean (JObj kvs) = true ->
  Forall (fun kv => is_index kv.1 = false) kvs /\ NoDup kvs.*1 /\ Forall (fun kv => json_clean kv.2 = true) kvs.
Proof.
  cbn [json_clean]. intros [Hc%forallb_Forall Hn%bool_decide_eq_true]%andb_true_iff.
  split_and!; [|done|]; (eapply Forall_impl; [exact Hc|]; intros kv; cbv beta; rewrite !andb_true_iff, negb_true_iff; tauto).
Qed.

Definition request (type : list Z) (fields : list (list Z * jsval)) : list (list Z * jsval) :=
  (js "type", JStr type) :: (js "v", JNum (NZ VAULT_HELPER_PROTOCOL)) :: fields.

Lemma json_clean_cons k v kvs : forallb is_unit k = true -> is_index k = false -> k ∉ kvs.*1 -> json_clean v = true ->
  json_clean (JObj kvs) = true -> json_clean (JObj ((k, v) :: kvs)) = true.
Proof.
  intros Hk Hi Hn Hv. cbn [json_clean]. rewrite !andb_true_iff, !bool_decide_eq_true. intros [Hf Hd]. split.
  - cbn [forallb fst snd]. by rewrite Hk, Hi, Hv, Hf.
  - by apply NoDup_cons.
Qed.

Lemma request_line type fields :
  forallb is_unit type = true -> json_clean (JObj fields) = true -> js "type" ∉ fields.*1 -> js "v" ∉ fields.*1 ->
  vaultHelperMessage type fields = JObj (request type fields) /\ json_clean (JObj (request type fields)) = true.
Proof.
  intros Ht Hc Hnt Hnv. destruct (json_clean_keys fields Hc) as (Hi & Hn & Hv). split.
  - unfold vaultHelperMessage, request. rewrite copy_into_fresh; [done|done|].
    cbn [app fmap list_fmap fst]. apply NoDup_cons. split; [|by apply NoDup_cons]. rewrite elem_of_cons. intros [?|?]; done.
  - unfold request. apply json_clean_cons; [done|done| |exact Ht|].
    { cbn [fmap list_fmap fst]. rewrite elem_of_cons. intros [?|?]; done. }
    by apply json_clean_cons.
Qed.

Lemma request_reads type fields :
  forallb is_unit type = true -> json_clean (JObj fields) = true -> js "type" ∉ fields.*1 -> js "v" ∉ fields.*1 ->
  exists t, vaultHelperLine type fields = t ++ [10] /\ 10 ∉ t /\ parseVaultHelperLine (JStr t) = Some (JObj (request type fields)).
Proof.
  intros Ht Hc Hnt Hnv. destruct (request_line type fields Ht Hc Hnt Hnv) as [Hm Hr].
  exists (stringify (JObj (request type fields))). unfold vaultHelperLine. rewrite Hm. split_and!; [done|by apply stringify_line|].
  unfold parseVaultHelperLine. rewrite text_JStr, parse_stringify by done. done.
Qed.

Definition env_value (v : jsval) : jsval := if is_nullish v then JNull else JStr (to_string v).

Lemma own_fmap f k kvs : own k (map (fun kv : list Z * jsval => (kv.1, f kv.2)) kvs) = f <$> own k kvs.
Proof. induction kvs as [|[k' v] kvs IH]; [done|]. cbn. by destruct (str_eqb k' k). Qed.

Lemma vault_env_own env k : Forall (fun kv => is_index kv.1 = false) env -> NoDup env.*1 ->
  own k (vaultEnv env) = env_value <$> own k env.
Proof.
  intros Hi Hn. unfold vaultEnv. rewrite copy_into_fresh; [apply (own_fmap env_value)| |].
  - by apply Forall_fmap.
  - cbn [app]. by rewrite <- list_fmap_compose.
Qed.

(** A request to the vault helper is exactly one line of JSON, and reading it
    back gives the request with every field as it was passed; a run's environment
    has exactly the variables asked for, each as text or unset; a reference to a
    held secret names that secret and nothing else is taken for one. *)
Theorem vault_request_line :
  (forall type fields, forallb is_unit type = true -> json_clean (JObj fields) = true -> js "type" ∉ fields.*1 -> js "v" ∉ fields.*1 ->
     exists t, vaultHelperLine type fields = t ++ [10] /\ 10 ∉ t /\ parseVaultHelperLine (JStr t) = Some (JObj (request type fields))) /\
  (forall id argv env inject capture stdin, json_clean (JObj (exec_fields id argv env inject capture stdin)) = true ->
     exists t, vaultExecLine id argv env inject capture stdin = t ++ [10] /\ 10 ∉ t /\
       parseVaultHelperLine (JStr t) = Some (JObj (request (js "exec") (exec_fields id argv env inject capture stdin)))) /\
  (forall env k, Forall (fun kv => is_index kv.1 = false) env -> NoDup env.*1 -> own k (vaultEnv env) = env_value <$> own k env) /\
  (forall v s, heldSecretName v = s -> s <> [] -> v = JStr (heldSecretRef (JStr s))) /\
  (forall name, heldSecretName (JStr (heldSecretRef name)) = to_string name).
Proof.
  split_and!; [apply request_reads| |apply vault_env_own| |].
  - intros id argv env inject capture stdin Hc. apply request_reads; [done|done| |];
      unfold exec_fields; rewrite fmap_app, elem_of_app; intros [H|H];
      try (apply (bool_decide_eq_true_2 _) in H; discriminate H); destruct (_ || _); apply (bool_decide_eq_true_2 _) in H; discriminate H.
  - intros v s Hs Hne. unfold heldSecretName in Hs. destruct v as [| | | |t| | |]; try (cbn in Hs; congruence).
    destruct (starts_with HELD_SECRET_PREFIX t) eqn:E; [|congruence]. apply starts_with_spec in E as [r ->].
    rewrite drop_app_length in Hs. by subst.
  - intros name. unfold heldSecretName, heldSecretRef. rewrite (proj2 (starts_with_spec _ _)) by eauto. apply drop_app_length.
Qed.

Lemma vault_request_line_witness :
  let env := [(js "BW_NOINTERACTION", JStr (js "true")); (js "LANG", JNull)] in
  json_clean (JObj (exec_fields (JNum (NZ 7)) (JArr [JStr (js "bw"); JStr (js "sync")]) (JObj env) JUndef JUndef (JStr [10; 34]))) = true /\
  exists t, vaultExecLine (JNum (NZ 7)) (JArr [JStr (js "bw"); JStr (js "sync")]) (JObj env) JUndef JUndef (JStr [10; 34]) = t ++ [10] /\ 10 ∉ t /\
    parseVaultHelperLine (JStr t) = Some (JObj (request (js "exec") (exec_fields (JNum (NZ 7)) (JArr [JStr (js "bw"); JStr (js "sync")]) (JObj env) JUndef JUndef (JStr [10; 34])))).
Proof.
  cbv zeta. assert (H : json_clean (JObj (exec_fields (JNum (NZ 7)) (JArr [JStr (js "bw"); JStr (js "sync")])
    (JObj [(js "BW_NOINTERACTION", JStr (js "true")); (js "LANG", JNull)]) JUndef JUndef (JStr [10; 34]))) = true) by (vm_compute; reflexivity).
  split; [exact H|]. exact (proj1 (proj2 vault_request_line) _ _ _ _ _ _ H).
Defined.

(** ** The login code *)

Lemma flag_index_spec i argv : match flag_index i argv with
  | Some n => (2 <= n)%nat /\ (i <= n)%nat /\ argv !! (n - i)%nat = Some LOGIN_CODE_FLAG
  | None => True
  end.
Proof.
  revert i. induction argv as [|a argv IH]; intros i; cbn [flag_index]; [done|].
  destruct ((2 <=? i)%nat && str_eqb a LOGIN_CODE_FLAG) eqn:E.
  - apply andb_true_iff in E as [E1%Nat.leb_le E2%str_eqb_eq]. rewrite Nat.sub_diag. by subst.
  - specialize (IH (S i)). destruct (flag_index (S i) argv) as [n|]; [|done]. destruct IH as (? & ? & ?).
    replace (n - i)%nat with (S (n - S i)) by lia. split_and!; done || lia.
Qed.

(** C36: The preload that carries the two-step code fails closed: it changes the
    arguments only inside bw's own login, where it replaces the placeholder, alone
    and in place, by one argument with the code of the environment as its value;
    whenever it does, and whenever bw's login has the placeholder, the code
    is gone from the environment, and no other variable changes. *)
Theorem login_code_fails_closed realpath argv env :
  let '(argv', env') := loginCodePreload realpath argv env in
  (forall k, k <> LOGIN_CODE_ENV -> env' !! k = env !! k) /\
  (argv' = argv \/
   exists n c code, (2 <= n)%nat /\ argv !! n = Some LOGIN_CODE_FLAG /\ argv !! 2%nat = Some (js "login") /\ is_bw_entry realpath argv = true /\
     env !! LOGIN_CODE_ENV = Some (c :: code) /\ env' !! LOGIN_CODE_ENV = None /\
     argv' !! n = Some (js "--code=" ++ c :: code) /\ length argv' = length argv /\ (forall m, m <> n -> argv' !! m = argv !! m)) /\
  (is_bw_entry realpath argv = true -> argv !! 2%nat = Some (js "login") -> LOGIN_CODE_FLAG ∈ drop 2 argv -> env' !! LOGIN_CODE_ENV = None).
Proof.
  unfold loginCodePreload. pose proof (flag_index_spec 0 argv) as Hf.
  assert (Hnone : flag_index 0 argv = None -> LOGIN_CODE_FLAG ∈ drop 2 argv -> False).
  { clear Hf. destruct argv as [|a [|b l]]; cbn [drop]; [by intros _ ?%elem_of_nil..|]. cbn [flag_index Nat.leb andb].
    assert (H : forall i, (2 <= i)%nat -> flag_index i l = None -> LOGIN_CODE_FLAG ∈ l -> False).
    { induction l as [|x l IH]; intros i Hi; [by intros _ ?%elem_of_nil|]. cbn [flag_index]. rewrite (proj2 (Nat.leb_le 2 i) Hi). cbn [andb].
      destruct (str_eqb_neq x LOGIN_CODE_FLAG) as [Hx _]. destruct (str_eqb x LOGIN_CODE_FLAG); [done|].
      rewrite elem_of_cons. intros Hn [?|?]; [by apply Hx|]. by apply (IH (S i)); [lia|..]. }
    by apply H. }
  destruct (flag_index 0 argv) as [n|]; [|by intuition]. destruct Hf as (H2 & _ & Hn). rewrite Nat.sub_0_r in Hn.
  destruct (is_bw_entry realpath argv) eqn:Eb; cbn [negb]; [|by intuition].
  case_bool_decide as Hl; cbn [negb]; [|by intuition].
  destruct (env !! LOGIN_CODE_ENV) as [[|c code]|] eqn:Ec; split_and!; intros; rewrite ?lookup_delete_ne, ?lookup_delete_eq by done; auto.
  right. exists n, c, code. apply lookup_lt_Some in Hn as Hlt. split_and!; try done.
  - by apply list_lookup_insert_eq.
  - apply length_insert.
  - intros m Hm. by apply list_lookup_insert_ne.
Qed.
