(* ===== verification/Export.v ===== *)
(** * Public key files and routing results ([BitwardenModel.js])

    Git signing needs public keys as files: the validated keys of the companion
    are named, sent to a small program on its standard input, and written to a
    directory of their own.  The program's text is in the sources; its effect on
    the directory is modelled here.  The exit codes and outputs of this and of the
    routing scripts are turned into results. *)

From stdpp Require Import gmap.
From S2P Require Import Prelude.
From S2P Require Import JsNum.
From S2P Require Import JsString.
From S2P Require Import JsValue.
From S2P Require Import Json.
From S2P Require Import Regex.
From S2P Require Import Shell.
From S2P Require Import Items.

(** ** Names *)

Definition SSH_EXPORT_SUBDIR : list Z := js "qs-bitwarden-cli/ssh".
Definition sshExportDisplayDir : list Z := js "~/.local/share/" ++ SSH_EXPORT_SUBDIR.

(** [taken] is the object of names in use, with the item each belongs to; it is
    updated in place by the code and returned here.  A candidate ends in [.pub],
    so it is never a name of [Object.prototype]. *)
Definition sshExportFileName (name : jsval) (itemId : list Z) (taken : list (list Z * jsval)) : list Z * list (list Z * jsval) :=
  let base := safeAttachmentFileName name in
  let base := if str_eqb base (js "attachment") then js "ssh-key" else base in
  let candidate := base ++ js ".pub" in
  let used := obj_get taken candidate in
  let candidate :=
    if negb (is_undef used) && negb (strict_eqb used (JStr itemId)) then
      let suffix := take 64 (safeAttachmentFileName (JStr itemId)) in
      base ++ js "." ++ (if bool_decide (suffix = []) then js "key" else suffix) ++ js ".pub"
    else candidate in
  (candidate, obj_set taken candidate (JStr itemId)).

(** ** Keys *)

(** [/^(ssh-ed25519|ssh-rsa) [A-Za-z0-9+/=]+(\s|$)/] *)
Definition SSH_PUBLIC_KEY_RE : re :=
  (Bol ⋅ Alt (lit (js "ssh-ed25519")) (lit (js "ssh-rsa")) ⋅ lit (js " ")
   ⋅ plus (One (fun c => is_alnum c || existsb (Z.eqb c) (js "+/="))) ⋅ Alt space Eol)%re.

Record identity := Identity { id_itemId : list Z; id_name : list Z; id_fingerprint : list Z; id_publicKey : list Z }.

Definition export_identity (v : jsval) : option identity :=
  let v := js_or v (JObj []) in
  let publicKey := trim (text (fld v "publicKey")) in
  let itemId := text (fld v "itemId") in
  if negb (test SSH_PUBLIC_KEY_RE publicKey) then None
  else if contains (js "PRIVATE") publicKey then None
  else if bool_decide (itemId = []) then None
  else Some (Identity itemId (text (fld v "name")) (text (fld v "fingerprint")) publicKey).

Definition sshExportIdentities (identities : jsval) : list identity :=
  match identities with JArr l => omap export_identity l | _ => [] end.

(** [{fileName, publicKey}] *)
Fixpoint export_entries (ids : list identity) (taken : list (list Z * jsval)) : list (list Z * list Z) :=
  match ids with
  | [] => []
  | i :: ids =>
      let '(fileName, taken) := sshExportFileName (JStr (id_name i)) (id_itemId i) taken in
      (fileName, id_publicKey i) :: export_entries ids taken
  end.

Definition entry_object (e : list Z * list Z) : jsval := JObj [(js "fileName", JStr e.1); (js "publicKey", JStr e.2)].

Definition sshExportPayload (identities : jsval) : list Z :=
  stringify (JArr (map entry_object (export_entries (sshExportIdentities identities) []))).

(** ** The program that writes the files

    The directory is a map from names to contents.  Writing an entry goes through a
    temporary file renamed into place; what the file system does is a parameter: how
    the write of entry [n] goes, the random part of its temporary name, whether the
    directory can be listed, and the names it does not remove.  The result is the exit
    code and the directory. *)

(** A write that fails may have left its temporary file, with what was written. *)
Inductive outcome := Wrote | Failed (remains : option (list Z)).

Definition valid_entry (e : jsval) : option (list Z * list Z) :=
  if negb (truthy e) then None
  else match fld e "fileName", fld e "publicKey" with
       | JStr f, JStr k =>
           if bool_decide (f = []) || str_eqb f (js ".") || str_eqb f (js "..") || existsb (fun c => (c =? 47) || (c =? 0)) f
           then None else Some (f, k)
       | _, _ => None
       end.

Section write.
  Context (write : nat -> outcome) (random : nat -> list Z) (lists : bool) (stays : list Z -> bool).
  Implicit Types dir : gmap (list Z) (list Z).

Definition temporary (n : nat) : list Z := js ".export." ++ random n.
(** [try { fs.unlinkSync(..) } catch (ignored) {}] *)
Definition unlink (name : list Z) dir : gmap (list Z) (list Z) := if stays name then dir else delete name dir.

Fixpoint write_entries (n : nat) (entries : list (list Z * list Z)) dir : bool * gmap (list Z) (list Z) :=
  match entries with
  | [] => (true, dir)
  | (f, k) :: entries =>
      match write n with
      | Wrote => write_entries (S n) entries (<[f := k ++ [10]]> dir)
      | Failed remains => (false, unlink (temporary n) (match remains with Some c => <[temporary n := c]> dir | None => dir end))
      end
  end.

(** [name.startsWith("."), name.endsWith(".pub")] *)
Definition is_hidden (name : list Z) : bool := starts_with (js ".") name.
Definition is_pub (name : list Z) : bool := bool_decide (drop (length name - 4) name = js ".pub").

(** Stale keys of earlier loads, and temporary files left behind. *)
Definition is_stale (keep : list (list Z)) (name : list Z) : bool :=
  negb (is_hidden name) && is_pub name && negb (bool_decide (name ∈ keep)) || starts_with (js ".export.") name.

Definition SSH_EXPORT_WRITE_SCRIPT (stdin : list Z) dir : Z * gmap (list Z) (list Z) :=
  match parse stdin with
  | Some (JArr l) =>
      match mapM valid_entry l with
      | Some entries =>
          match write_entries 0 entries dir with
          | (true, dir) =>
              if lists then (0, filter (fun kv => is_stale entries.*1 kv.1 && negb (stays kv.1) = false) dir) else (1, dir)
          | (false, dir) => (1, dir)
          end
      | None => (1, dir)
      end
  | _ => (1, dir)
  end.
End write.

(** ** Results of the scripts *)

Record result := Result { r_ok : bool; r_code : list Z; r_message : list Z }.

(** [failureMap] is keyed by whole numbers. *)
Definition parseExitCodeResult (exitCode stdout : jsval) (parseSuccess : list Z -> option result)
    (failureMap : list (Z * (list Z * list Z))) (defaultFailureMessage : list Z) : result :=
  let code := num_floor (to_number exitCode) in
  let out := trim (text_present stdout) in
  let failure := match List.find (fun f => num_eqb code (NZ f.1)) failureMap with
                 | Some (_, (c, m)) => Result false c m
                 | None => Result false (js "FAILED") defaultFailureMessage
                 end in
  if num_eqb code (NZ 0) then default failure (parseSuccess out) else failure.

Definition SSH_EXPORT_EXIT_NO_HOME : Z := 3.
Definition SSH_EXPORT_EXIT_UNSAFE_DIR : Z := 5.
Definition SSH_EXPORT_EXIT_WRITE : Z := 7.

Definition parseSshExportResult (exitCode stdout : jsval) : result :=
  parseExitCodeResult exitCode stdout
    (fun out => if str_eqb out (js "exported") || str_eqb out (js "cleared") || bool_decide (out = [])
                then Some (Result true (js "OK") []) else None)
    [(SSH_EXPORT_EXIT_NO_HOME, (js "NO_HOME", js "No data directory is set, so public key files cannot be written."));
     (SSH_EXPORT_EXIT_UNSAFE_DIR, (js "UNSAFE_DIR", sshExportDisplayDir
        ++ js " is not a directory this plugin will write to. Remove or rename whatever is at that path."))]
    (js "Could not write public key files to " ++ sshExportDisplayDir ++ js ".").

Definition UWSM_FRAGMENT_REL : list Z := js ".config/uwsm/env.d/50-qs-bitwarden-ssh-agent".
Definition uwsmFragmentDisplayPath : list Z := js "~/" ++ UWSM_FRAGMENT_REL.

Definition uwsmFragmentContent : list Z :=
  js "# Managed by the qs-bitwarden-cli Quickshell plugin." ++ [10]
  ++ js "# Routes SSH clients to the Bitwarden agent. Delete this file to stop." ++ [10]
  ++ sh "export SSH_AUTH_SOCK=`${XDG_RUNTIME_DIR}/" ++ RUNTIME_SUBDIR ++ sh "/ssh-agent.sock`" ++ [10].

Definition UWSM_EXIT_NO_HOME : Z := 3.
Definition UWSM_EXIT_PARENT : Z := 4.
Definition UWSM_EXIT_SYMLINK : Z := 5.
Definition UWSM_EXIT_FOREIGN : Z := 6.
Definition UWSM_EXIT_WRITE : Z := 7.
Definition UWSM_LOGIN_NOTE : list Z :=
  js "UWSM applies this at your next graphical login, so log out and log back in. "
  ++ js "Restarting the shell is not enough: it cannot change the environment of programs that are already running.".

Inductive fragment_state := fragment_managed | fragment_absent | fragment_symlink | fragment_unreadable | fragment_no_home | fragment_foreign.

#[export] Instance fragment_state_eq_dec : EqDecision fragment_state.
Proof. solve_decision. Defined.

(** [{state, removable, message}] *)
Definition parseUwsmInspection (raw : jsval) : fragment_state * bool * list Z :=
  let verdict := trim (text_present raw) in
  if str_eqb verdict (js "managed") then
    (fragment_managed, true, js "Routing is set up. " ++ uwsmFragmentDisplayPath
       ++ js " is the file this plugin wrote, and turning the agent off removes it.")
  else if str_eqb verdict (js "absent") then
    (fragment_absent, false, js "No routing file. SSH clients will keep using whatever agent your session already has.")
  else if str_eqb verdict (js "symlink") then
    (fragment_symlink, false, uwsmFragmentDisplayPath
       ++ js " is a symlink, so this plugin will not write to it or remove it. Replace it with a regular file yourself if you want it managed here.")
  else if str_eqb verdict (js "unreadable") then
    (fragment_unreadable, false, uwsmFragmentDisplayPath ++ js " exists but cannot be read, so it is left alone.")
  else if str_eqb verdict (js "no-home") then
    (fragment_no_home, false, js "No HOME is set, so there is nowhere to put a routing file.")
  else
    (fragment_foreign, false, uwsmFragmentDisplayPath
       ++ js " already exists and is not the file this plugin writes, so it is left untouched. Remove or edit it yourself to change routing.").

Definition parseUwsmActionResult (exitCode stdout : jsval) : result :=
  parseExitCodeResult exitCode stdout
    (fun out =>
       if str_eqb out (js "written")
       then Some (Result true (js "WRITTEN") (js "Routing file written to " ++ uwsmFragmentDisplayPath ++ js ". " ++ UWSM_LOGIN_NOTE))
       else if str_eqb out (js "removed")
       then Some (Result true (js "REMOVED")
                    (js "Routing file removed. Programs already running keep the old value until you log out and back in."))
       else if str_eqb out (js "absent")
       then Some (Result true (js "ABSENT") (js "There was no routing file to remove."))
       else None)
    [(UWSM_EXIT_NO_HOME, (js "NO_HOME", js "No HOME is set, so there is nowhere to put a routing file."));
     (UWSM_EXIT_PARENT, (js "PARENT", js "Could not create " ++ uwsmFragmentDisplayPath ++ js "'s parent directory."));
     (UWSM_EXIT_SYMLINK, (js "SYMLINK", uwsmFragmentDisplayPath
        ++ js " is a symlink. This plugin will not write through it or delete it; sort that path out yourself first."));
     (UWSM_EXIT_FOREIGN, (js "FOREIGN", uwsmFragmentDisplayPath
        ++ js " already exists and is not this plugin's file, so it was left untouched. Remove or edit it yourself to change routing."))]
    (js "Could not update " ++ uwsmFragmentDisplayPath ++ js ".").

(** ** Where SSH clients go *)

(** The states of the session's agent socket; [routing_unknown] also stands for a
    missing diagnostic. *)
Inductive routing_state := routing_unknown | routing_unset | routing_matches | routing_elsewhere.

#[export] Instance routing_state_eq_dec : EqDecision routing_state.
Proof. solve_decision. Defined.

(** [{text, urgent}]; an inspection that has not run is [None]. *)
Definition sshAgentRoutingNotice (fragment : option fragment_state) (routing : routing_state) : list Z * bool :=
  match fragment with
  | None | Some fragment_no_home => ([], false)
  | Some fragment_managed =>
      if bool_decide (routing = routing_matches) then ([], false)
      else (js "Routing is written. It takes effect at your next login.", false)
  | Some _ => (js "SSH clients are not routed here, and will not be at your next login.", true)
  end.

Definition runtimeFilePath (runtimeDir : jsval) (name : list Z) : list Z :=
  match runtimeDir with
  | JStr d => if starts_with (js "/") d then d ++ js "/" ++ RUNTIME_SUBDIR ++ js "/" ++ name else []
  | _ => []
  end.
Definition sshAgentSocketPath (runtimeDir : jsval) : list Z := runtimeFilePath runtimeDir (js "ssh-agent.sock").
Definition sshAgentFifoPath (runtimeDir : jsval) : list Z := runtimeFilePath runtimeDir (js "ssh-keys.fifo").

Definition SSH_AUTH_SOCK_OWNERS : list (re * list Z) :=
  [(Alt (lit_i (js "/gcr/")) (lit_i (js "/keyring/")), js "GNOME Keyring");
   (lit_i (js "1password"), js "1Password");
   (lit_i (js "gpg-agent"), js "GPG Agent");
   (lit_i (js "bitwarden"), js "Bitwarden Desktop");
   ((Bol ⋅ lit (js "/tmp/ssh-") ⋅ plus (One (fun c => negb (c =? 47))) ⋅ lit (js "/agent."))%re, js "OpenSSH ssh-agent")].

Definition sshAuthSockTerminalCheck : list Z := sh "echo `$SSH_AUTH_SOCK`; ssh-add -L".

(** [{state, owner, message}]; the terminal check is the constant above. *)
Definition sshAuthSockDiagnostic (sock runtimeDir : jsval) : routing_state * list Z * list Z :=
  let value := text_present sock in
  let ours := sshAgentSocketPath runtimeDir in
  if bool_decide (ours = []) then (routing_unknown, [], js "Without a runtime directory there is no socket path to compare against.")
  else if bool_decide (value = [])
  then (routing_unset, [], js "This session has no SSH_AUTH_SOCK, so SSH clients started from it have no agent yet.")
  else if str_eqb value ours
  then (routing_matches, [], js "This session points at the Bitwarden agent. Terminals you opened earlier may not; check with:")
  else
    let owner := match List.find (fun o => test o.1 value) SSH_AUTH_SOCK_OWNERS with Some o => o.2 | None => [] end in
    (routing_elsewhere, owner,
     js "This session points at " ++ (if bool_decide (owner = []) then js "another agent" else owner)
     ++ js " instead of the Bitwarden agent. Changing that is your choice; check any terminal with:").

Definition PLUGIN_DATA_EXIT_NO_HOME : Z := 3.

(** [{ok, message}] *)
Definition parsePluginDataRemoval (exitCode stdout : jsval) : bool * list Z :=
  let code := num_floor (to_number exitCode) in
  if num_eqb code (NZ PLUGIN_DATA_EXIT_NO_HOME) then (false, js "No HOME is set, so there is nothing to clear.")
  else if negb (num_eqb code (NZ 0)) then (false, js "Could not remove the plugin's stored data.")
  else
    let line := trim (text_present stdout) in
    let said (w : list Z * list Z) := if contains w.1 line then [w.2] else [] in
    let cleared := flat_map said
      [(js "keyring", js "keyring entries"); (js "state", js "learned suggestions"); (js "data", js "exported public keys");
       (js "accounts", js "the sign-ins of accounts added in the panel")] in
    if bool_decide (cleared = []) then (true, js "Nothing was left to remove.")
    else (true, js "Removed " ++ join (js ", ") cleared
                ++ js ". Your vault is untouched; run `bw logout` separately if you want that too.").
