(* ===== verification/ExportCorrect.v ===== *)
(** * The export directory mirrors the keys

    The files are named safely, the program that writes them accepts every name,
    and the directory it leaves is the abstract one: the exported keys over
    whatever else the directory held. *)

From stdpp Require Import gmap.
From S2P Require Import Prelude.
From S2P Require Import JsNum.
From S2P Require Import JsString.
From S2P Require Import JsUnicode.
From S2P Require Import JsValue.
From S2P Require Import Json.
From S2P Require Import Regex.
From S2P Require Import Items.
From S2P Require Import ItemsCorrect.
From S2P Require Import Export.

(** ** Names *)

(** The name of a key made safe. *)
Definition safe_base (name : list Z) : list Z :=
  let b := safeAttachmentFileName (JStr name) in if str_eqb b (js "attachment") then js "ssh-key" else b.

(** A visible [.pub] name of inert units, within the file system's limit. *)
Definition export_name (f : list Z) : Prop :=
  exists c s, f = c :: s ++ js ".pub" /\ inert_head c = true /\ Forall inert_unit (c :: s) /\ (length f <= 197)%nat.

Lemma export_base name :
  exists c s, (let b := safeAttachmentFileName name in if str_eqb b (js "attachment") then js "ssh-key" else b) = c :: s /\
    inert_head c = true /\ Forall inert_unit (c :: s) /\ (length (c :: s) <= 128)%nat.
Proof.
  cbv zeta. destruct (str_eqb _ _).
  - eexists _, _. split; [reflexivity|]. split; [reflexivity|]. split; [repeat constructor|cbn; lia].
  - destruct (safe_name name) as (Hne & Hl & Hu & Hh). destruct (safeAttachmentFileName name) as [|c s]; [done|]. by exists c, s.
Qed.

Lemma export_file_name name id taken : export_name (sshExportFileName name id taken).1.
Proof.
  unfold sshExportFileName. cbv zeta. destruct (export_base name) as (c & s & E & Hc & Hu & Hl). cbv zeta in E. rewrite E. cbn [fst].
  destruct (negb _ && negb _).
  - destruct (safe_name (JStr id)) as (_ & _ & Hs & _). set (suffix := if bool_decide (take 64 _ = []) then _ else _).
    assert (Hsu : Forall inert_unit suffix /\ (length suffix <= 64)%nat).
    { unfold suffix. case_bool_decide; [split; [repeat constructor|cbn; lia]|]. split; [by apply Forall_take|]. rewrite length_take. lia. }
    destruct Hsu as [Hsu Hsl]. exists c, (s ++ js "." ++ suffix). cbn [app]. rewrite <- !app_assoc. split_and!; [done|done| |].
    + apply Forall_cons in Hu as [? ?]. constructor; [done|]. apply Forall_app_2; [done|]. by apply (Forall_app_2 _ [46]); [repeat constructor|].
    + cbn [length] in *. rewrite !length_app. cbn [length js]. lia.
  - exists c, s. split_and!; [done|done|done|]. cbn [app length] in *. rewrite length_app. cbn. lia.
Qed.

Lemma export_entries_names ids taken : Forall (fun e => export_name e.1) (export_entries ids taken).
Proof.
  revert taken. induction ids as [|i ids IH]; intros taken; cbn [export_entries]; [constructor|].
  pose proof (export_file_name (JStr (id_name i)) (id_itemId i) taken) as H.
  destruct (sshExportFileName _ _ _) as [f t]. constructor; [exact H|apply IH].
Qed.

Lemma starts_with_cons a t c s : starts_with (a :: t) (c :: s) = (a =? c) && starts_with t s.
Proof. done. Qed.

Lemma export_name_visible f : export_name f -> is_hidden f = false /\ is_pub f = true.
Proof.
  intros (c & s & -> & Hc & _ & _). unfold is_hidden, is_pub, inert_head in *. split.
  - apply negb_true_iff, orb_false_iff in Hc as [Hc _]. apply orb_false_iff in Hc as [_ Hc].
    change (js ".") with [46]. rewrite starts_with_cons. by rewrite Z.eqb_sym, Hc.
  - apply bool_decide_eq_true. rewrite app_comm_cons, length_app. cbn [js length]. rewrite Nat.add_sub. apply drop_app_length.
Qed.

Lemma export_name_valid f k : export_name f -> valid_entry (entry_object (f, k)) = Some (f, k).
Proof.
  intros (c & s & -> & Hc & Hu & _). unfold valid_entry, entry_object. cbn [truthy negb fst snd].
  change (fld (JObj [(js "fileName", JStr (c :: s ++ js ".pub")); (js "publicKey", JStr k)]) "fileName") with (JStr (c :: s ++ js ".pub")).
  change (fld (JObj [(js "fileName", JStr (c :: s ++ js ".pub")); (js "publicKey", JStr k)]) "publicKey") with (JStr k).
  unfold inert_head in Hc. apply negb_true_iff, orb_false_iff in Hc as [[_ Hc]%orb_false_iff _].
  assert (Hd : forall t, starts_with (js ".") t = true -> str_eqb (c :: s ++ js ".pub") t = false).
  { intros t Ht. apply str_eqb_neq. intros <-. change (js ".") with [46] in Ht. by rewrite starts_with_cons, Z.eqb_sym, Hc in Ht. }
  rewrite bool_decide_eq_false_2, !Hd by done. cbn [orb].
  replace (existsb _ _) with false; [done|]. symmetry. apply not_true_iff_false. rewrite existsb_exists. intros (x & Hx & H).
  rewrite app_comm_cons in Hx. apply in_app_or in Hx as [Hx|Hx].
  - rewrite Forall_forall in Hu. destruct (Hu x) as [H1 H2]; [by apply list_elem_of_In|]. unfold is_control, is_separator, in_range in *. lia.
  - cbn in Hx. destruct Hx as [<-|[<-|[<-|[<-|[]]]]]; discriminate.
Qed.

(** ** The abstract directory *)

Implicit Types dir : gmap (list Z) (list Z).

(** The names the export owns: visible public keys, and its temporary files. *)
Definition managed (name : list Z) : bool := negb (is_hidden name) && is_pub name || starts_with (js ".export.") name.

(** The files of a load: of two entries with one name, the later. *)
Definition key_files (entries : list (list Z * list Z)) : gmap (list Z) (list Z) :=
  list_to_map (reverse (map (fun e => (e.1, e.2 ++ [10])) entries)).

(** What an export leaves: the keys, over what it does not own or cannot remove. *)
Definition publish (stays : list Z -> bool) (files dir : gmap (list Z) (list Z)) : gmap (list Z) (list Z) :=
  files ∪ filter (fun kv => managed kv.1 && negb (stays kv.1) = false) dir.

Lemma key_files_cons f k l : key_files ((f, k) :: l) = key_files l ∪ {[f := k ++ [10]]}.
Proof. unfold key_files. cbn [map fst snd]. rewrite reverse_cons, list_to_map_app. cbn. by rewrite insert_empty. Qed.

(** Every write went well. *)
Definition all_wrote (write : nat -> outcome) (n len : nat) : Prop := forall m, (n <= m < n + len)%nat -> write m = Wrote.

Lemma all_wrote_cons write n len : all_wrote write n (S len) <-> write n = Wrote /\ all_wrote write (S n) len.
Proof.
  split; [intros H; split; [|intros m ?]; apply H; lia|]. intros [H1 H2] m ?. destruct (decide (m = n)) as [->|]; [done|]. apply H2. lia.
Qed.

#[export] Instance all_wrote_dec write n len : Decision (all_wrote write n len).
Proof.
  revert n. induction len as [|len IH]; intros n; [left; intros m ?; lia|].
  destruct (write n) eqn:E; [destruct (IH (S n)); [left|right]|right]; rewrite all_wrote_cons, E; tauto || by intros [? _].
Defined.

Lemma write_all write random stays n l dir : all_wrote write n (length l) -> write_entries write random stays n l dir = (true, key_files l ∪ dir).
Proof.
  revert n dir. induction l as [|[f k] l IH]; intros n dir Hok; cbn [write_entries].
  - unfold key_files. cbn. by rewrite map_empty_union.
  - apply all_wrote_cons in Hok as [-> Hok]. rewrite IH, key_files_cons, <- map_union_assoc by done. by rewrite <- insert_union_singleton_l.
Qed.

(** The first write that fails ends the program: the entries before it are written, and
    at most its temporary file is left or lost. *)
Lemma write_some write random stays n l dir : ~ all_wrote write n (length l) ->
  exists m, (m < length l)%nat /\ all_wrote write n m /\ write (n + m)%nat <> Wrote /\
    exists dir', write_entries write random stays n l dir = (false, dir') /\
      forall name, starts_with (js ".export.") name = false -> dir' !! name = (key_files (take m l) ∪ dir) !! name.
Proof.
  revert n dir. induction l as [|[f k] l IH]; intros n dir Hn; [destruct Hn; intros m; cbn; lia|]. cbn [write_entries length]. destruct (write n) as [|r] eqn:E.
  - destruct (IH (S n) (<[f := k ++ [10]]> dir)) as (m & Hm & Hw & Hf & dir' & E1 & E2); [intros H; apply Hn, all_wrote_cons; by split|].
    exists (S m). split; [lia|]. split; [by apply all_wrote_cons|]. split; [by replace (n + S m)%nat with (S n + m)%nat by lia|].
    exists dir'. split; [done|]. intros name Hname. rewrite (E2 name Hname). cbn [take]. by rewrite key_files_cons, <- map_union_assoc, <- insert_union_singleton_l.
  - exists 0%nat. split; [lia|]. split; [intros m ?; lia|]. rewrite Nat.add_0_r, E. split; [done|]. eexists. split; [done|]. intros name Hname.
    change (key_files (take 0 ((f, k) :: l))) with (key_files []). unfold key_files. cbn. rewrite map_empty_union.
    assert (temporary random n <> name) as Ht by (intros <-; unfold temporary in Hname; assert (starts_with (js ".export.") (js ".export." ++ random n) = true) as Hs by (apply starts_with_spec; by eexists); congruence).
    unfold unlink. destruct (stays _), r; rewrite ?lookup_delete_ne, ?lookup_insert_ne by done; done.
Qed.

Lemma key_files_dom l f : is_Some (key_files l !! f) <-> f ∈ l.*1.
Proof.
  unfold key_files. rewrite <- elem_of_dom, dom_list_to_map, elem_of_list_to_set, fmap_reverse, elem_of_reverse. by rewrite <- list_fmap_compose.
Qed.

(** The file of a name is that of the last entry with the name. *)
Lemma key_files_last l f c : key_files l !! f = Some c <->
  exists l1 k l2, l = l1 ++ (f, k) :: l2 /\ c = k ++ [10] /\ f ∉ l2.*1.
Proof.
  revert c. induction l as [|[g k] l IH]; intros c; [split; [done|intros (l1 & ? & ? & ? & _); by destruct l1]|].
  rewrite key_files_cons, lookup_union_Some_raw. split.
  - intros [Hc|[Hn Hc]].
    + apply IH in Hc as (l1 & k' & l2 & -> & -> & Hf). by exists ((g, k) :: l1), k', l2.
    + apply lookup_singleton_Some in Hc as [<- <-]. exists [], k, l. split_and!; [done|done|]. rewrite <- key_files_dom, Hn. by intros [].
  - intros ([|[g' k''] l1] & k' & l2 & E & -> & Hf); injection E as -> -> E.
    + right. subst. split; [|by rewrite lookup_singleton_eq]. apply eq_None_not_Some. by rewrite key_files_dom.
    + left. apply IH. subst. by exists l1, k', l2.
Qed.

Lemma prune_publish stays l dir : Forall (fun e => export_name e.1) l ->
  filter (fun kv => is_stale l.*1 kv.1 && negb (stays kv.1) = false) (key_files l ∪ dir) = publish stays (key_files l) dir.
Proof.
  intros Hl. unfold publish. apply map_eq. intros f. apply option_eq. intros k.
  rewrite map_lookup_filter_Some, !lookup_union_Some_raw, map_lookup_filter_Some. cbn [fst].
  destruct (key_files l !! f) as [k'|] eqn:E.
  - split; [intros [[?|[? _]] _]; [by left|done]|]. intros [H|[? _]]; [|done]. split; [by left|].
    assert (Hf : f ∈ l.*1) by (apply key_files_dom; eauto). unfold is_stale. rewrite (bool_decide_eq_true_2 (f ∈ l.*1)), andb_false_r by done.
    apply list_elem_of_fmap in Hf as ([f' q] & -> & Hf). rewrite Forall_forall in Hl. destruct (export_name_visible _ (Hl _ Hf)) as [Hh _].
    cbn [orb fst] in *. destruct (starts_with (js ".export.") f') eqn:Es; [|done]. unfold is_hidden in Hh.
    apply starts_with_spec in Es as [r ->]. done.
  - assert (Hf : f ∉ l.*1) by (intros H%key_files_dom; rewrite E in H; by destruct H).
    unfold is_stale, managed. rewrite (bool_decide_eq_false_2 (f ∈ l.*1)), andb_true_r by done. naive_solver.
Qed.

(** ** The payload *)

Notation units s := (forallb is_unit s = true).
Definition identity_units (i : identity) : Prop := units (id_name i) /\ units (id_itemId i) /\ units (id_publicKey i).

Lemma safe_units raw : units (text raw) -> units (safeAttachmentFileName raw).
Proof. rewrite !forallb_Forall. apply safe_name_units; [done|by repeat constructor]. Qed.

Lemma units_app a b : units (a ++ b) <-> units a /\ units b.
Proof. by rewrite forallb_app, andb_true_iff. Qed.

Lemma file_name_units name id taken : units (text name) -> units id -> units (sshExportFileName name id taken).1.
Proof.
  intros Hn Hi. unfold sshExportFileName. cbn [fst]. cbv zeta.
  assert (Hb : units (if str_eqb (safeAttachmentFileName name) (js "attachment") then js "ssh-key" else safeAttachmentFileName name)).
  { destruct (str_eqb _ _); [done|by apply safe_units]. }
  destruct (negb _ && negb _); rewrite !units_app; [|done]. split_and!; try done. case_bool_decide; [done|].
  pose proof (safe_units (JStr id)) as Hs. rewrite text_JStr in Hs. specialize (Hs Hi). rewrite forallb_Forall in Hs |- *. by apply Forall_take.
Qed.

Lemma entries_clean ids taken : Forall identity_units ids ->
  forallb json_clean (map entry_object (export_entries ids taken)) = true.
Proof.
  intros Hi. revert taken. induction Hi as [|i ids (Hn & Hd & Hk) Hi IH]; intros taken; cbn [export_entries map forallb]; [done|].
  pose proof (file_name_units (JStr (id_name i)) (id_itemId i) taken) as Hf. rewrite text_JStr in Hf. specialize (Hf Hn Hd).
  destruct (sshExportFileName _ _ _) as [f t]. cbn [map forallb]. rewrite IH, andb_true_r.
  unfold entry_object. apply json_clean_obj; [done|]. by repeat constructor.
Qed.

Lemma entries_valid l : Forall (fun e => export_name e.1) l -> mapM valid_entry (map entry_object l) = Some l.
Proof.
  induction 1 as [|[f k] l Hf Hl IH]; [done|]. cbn [map mapM]. rewrite export_name_valid by done. cbn [mbind option_bind]. by rewrite IH.
Qed.

Lemma export_script write random lists stays identities dir : Forall identity_units (sshExportIdentities identities) ->
  SSH_EXPORT_WRITE_SCRIPT write random lists stays (sshExportPayload identities) dir =
  match write_entries write random stays 0 (export_entries (sshExportIdentities identities) []) dir with
  | (true, dir') => if lists then (0, filter (fun kv => is_stale (export_entries (sshExportIdentities identities) []).*1 kv.1 && negb (stays kv.1) = false) dir') else (1, dir')
  | (false, dir') => (1, dir')
  end.
Proof.
  intros Hi. unfold SSH_EXPORT_WRITE_SCRIPT, sshExportPayload. rewrite parse_stringify by (by apply entries_clean).
  by rewrite entries_valid by apply export_entries_names.
Qed.

(** ** Distinct names *)

Lemma pub_not_inherited b : proto_get (b ++ js ".pub") = JUndef.
Proof.
  assert (Hl : forall p, last p <> Some 98 -> str_eqb (b ++ js ".pub") p = false).
  { intros p Hp. apply str_eqb_neq. intros <-. apply Hp. by rewrite last_app. }
  unfold proto_get, proto_methods. cbn [existsb]. by rewrite !Hl.
Qed.

(** A safe name that is no other key's is the file's name. *)
Lemma export_bases ids taken : NoDup (map (fun i => safe_base (id_name i)) ids) ->
  (forall i, i ∈ ids -> own (safe_base (id_name i) ++ js ".pub") taken = None) ->
  (export_entries ids taken).*1 = map (fun i => safe_base (id_name i) ++ js ".pub") ids.
Proof.
  revert taken. induction ids as [|i ids IH]; intros taken Hd Ht; [done|]. cbn [export_entries map] in *. apply NoDup_cons in Hd as [Hi Hd].
  assert (sshExportFileName (JStr (id_name i)) (id_itemId i) taken = (safe_base (id_name i) ++ js ".pub", obj_set taken (safe_base (id_name i) ++ js ".pub") (JStr (id_itemId i)))) as ->.
  { unfold sshExportFileName. cbv zeta. fold (safe_base (id_name i)). unfold obj_get. rewrite (Ht i) by (by left). by rewrite pub_not_inherited. }
  cbn [fmap list_fmap fst]. f_equal. apply IH; [done|]. intros j Hj. rewrite own_set_ne; [apply Ht; by right|]. intros E%app_inv_tail. apply Hi. rewrite E. apply list_elem_of_fmap. by exists j.
Qed.

(** ** Keys *)

Lemma export_identity_key v i : export_identity v = Some i ->
  id_itemId i <> [] /\ contains (js "PRIVATE") (id_publicKey i) = false /\
  (starts_with (js "ssh-ed25519 ") (id_publicKey i) = true \/ starts_with (js "ssh-rsa ") (id_publicKey i) = true).
Proof.
  unfold export_identity. cbv zeta. destruct (test _ _) eqn:Et; [|done]. destruct (contains _ _) eqn:Ec; [done|].
  case_bool_decide; [done|]. intros <-%(inj Some). cbn [negb id_itemId id_publicKey]. split_and!; [done|done|].
  revert Et. generalize (trim (text (fld (js_or v (JObj [])) "publicKey"))) as k. clear. intros k (a & b & y & -> & Hm)%test_spec.
  unfold SSH_PUBLIC_KEY_RE in Hm. apply matches_seq in Hm as (x & [-> Hb]%matches_bol & Hm). cbn in Hb.
  assert (a = []) as -> by (destruct a; [done|]; cbn in Hb; by destruct (rev a)). cbn [app].
  apply matches_seq in Hm as (x1 & Hx1 & Hm). apply matches_seq in Hm as (x2 & Hx2 & _).
  apply matches_lit in Hx2. apply matches_alt in Hx1 as [H1|H1]; apply matches_lit in H1; cbn [after] in H1; rewrite Hx2 in H1; rewrite H1.
  - left. apply starts_with_spec. eexists. rewrite app_assoc. reflexivity.
  - right. apply starts_with_spec. eexists. rewrite app_assoc. reflexivity.
Qed.

Lemma exported_keys identities :
  Forall (fun i => id_itemId i <> [] /\ contains (js "PRIVATE") (id_publicKey i) = false /\
    (starts_with (js "ssh-ed25519 ") (id_publicKey i) = true \/ starts_with (js "ssh-rsa ") (id_publicKey i) = true)) (sshExportIdentities identities).
Proof.
  unfold sshExportIdentities. destruct identities; try constructor. apply Forall_forall. intros i Hin.
  apply list_elem_of_omap in Hin as (v & _ & Hv). by eapply export_identity_key.
Qed.

Lemma publish_again stays files dir : publish stays files (publish stays files dir) = publish stays files dir.
Proof.
  unfold publish. apply map_eq. intros f. apply option_eq. intros k.
  rewrite !lookup_union_Some_raw, !map_lookup_filter_Some, !lookup_union_Some_raw, !map_lookup_filter_Some. naive_solver.
Qed.

Lemma export_keys_in ids taken : (export_entries ids taken).*2 = map id_publicKey ids.
Proof. revert taken. induction ids as [|i ids IH]; intros taken; [done|]. cbn [export_entries]. destruct (sshExportFileName _ _ _) as [f t]. cbn. by rewrite IH. Qed.

Lemma distinct_files ids : NoDup (map (fun i => safe_base (id_name i)) ids) ->
  NoDup (export_entries ids []).*1
  /\ forall i, i ∈ ids -> key_files (export_entries ids []) !! (safe_base (id_name i) ++ js ".pub") = Some (id_publicKey i ++ [10]).
Proof.
  intros Hd. pose proof (export_bases ids [] Hd ltac:(done)) as E1. pose proof (export_keys_in ids []) as E2.
  assert (NoDup (export_entries ids []).*1) as Hn.
  { rewrite E1. rewrite <- (map_map (fun i => safe_base (id_name i)) (fun b => b ++ js ".pub")). apply NoDup_fmap_2; [|done]. intros x y E. by apply app_inv_tail in E. }
  split; [done|]. intros i Hi. apply list_elem_of_lookup in Hi as [n Hi]. apply key_files_last.
  assert ((export_entries ids []) !! n = Some (safe_base (id_name i) ++ js ".pub", id_publicKey i)) as Hl.
  { assert (((export_entries ids []).*1 !! n) = Some (safe_base (id_name i) ++ js ".pub")) as H1 by (rewrite E1, list_lookup_fmap, Hi; done).
    assert (((export_entries ids []).*2 !! n) = Some (id_publicKey i)) as H2 by (rewrite E2, list_lookup_fmap, Hi; done).
    rewrite list_lookup_fmap in H1, H2. destruct (export_entries ids [] !! n) as [[f k]|]; [|done]. injection H1 as ->. by injection H2 as ->. }
  apply list_elem_of_split_length in Hl as (l1 & l2 & E & _). exists l1, (id_publicKey i), l2. split_and!; [done|done|].
  rewrite E, fmap_app in Hn. apply NoDup_app in Hn as (_ & _ & Hn). by apply NoDup_cons in Hn as [? _].
Qed.

(** ** Properties *)


Definition key_of (id name : string) : jsval :=
  JObj [(js "itemId", JStr (js id)); (js "name", JStr (js name)); (js "publicKey", JStr (js "ssh-ed25519 AAAAC3Nza"))].


(** Two keys of different items get one file when a third is named like the
    fallback name of the other. *)
Example export_collision :
  map fst (export_entries (sshExportIdentities (JArr [key_of "x" "a.b"; key_of "y" "a"; key_of "b" "a"])) [])
  = map js ["a.b.pub"; "a.pub"; "a.b.pub"]%string.
Proof. vm_compute. reflexivity. Qed.

(** A text of two lines passes for a key. *)
Example export_two_lines :
  map id_publicKey (sshExportIdentities (JArr [JObj [(js "itemId", JStr (js "x")); (js "publicKey", JStr (js "ssh-rsa AAAA" ++ 10 :: js "second"))]]))
  = [js "ssh-rsa AAAA" ++ 10 :: js "second"].
Proof. vm_compute. reflexivity. Qed.
