(* ===== verification/Unlock.v ===== *)
(** * Quick unlock: PIN, pinentry, security keys ([BitwardenModel.js], [FidoModel.js])

    How strong a PIN is said to be, where a secret is typed, what pinentry is
    given, which failures mean a wrong password, and what the probes of the
    security key, of the tools and of the keyring answer. *)

From Stdlib Require Import QArith_base.
From S2P Require Import Prelude.
From S2P Require Import JsNum.
From S2P Require Import JsString.
From S2P Require Import JsUnicode.
From S2P Require Import JsValue.
From S2P Require Import Regex.
From S2P Require Import Accounts.
From S2P Require Import Shell.
From S2P Require Import Auth.
From S2P Require Import Items.
From S2P Require Import Setup.
Local Open Scope Z_scope.

(** ** The strength of a PIN *)

Definition PIN_GUESSES_PER_SECOND : Z := 17.

(** Division by a constant that is not an integer, itself a double. *)
Definition num_div_by (a : num) (q : Q) : num := match a, fl q with Fin x, Fin y => fl (x / y) | _, _ => NaN end.

(** [Math.pow(10, length)] for a length whose power is exact. *)
Definition pinGuessTime (length : Z) : list Z :=
  let seconds := num_div (NZ (10 ^ length)) PIN_GUESSES_PER_SECOND in
  let minutes := num_div seconds 60 in
  let hours := num_div seconds 3600 in
  let days := num_div hours 24 in
  let about (n : num) (unit : list Z) := js "about " ++ num_to_string n ++ unit in
  if num_ltb minutes (NZ 90) then about (num_max (NZ 1) (num_round minutes)) (js " minutes")
  else if num_ltb hours (NZ 48) then about (num_round hours) (js " hours")
  else if num_ltb days (NZ 60) then about (num_round days) (js " days")
  else if num_ltb days (NZ 730) then about (num_round (num_div_by days (3044 # 100))) (js " months")
  else about (num_round (num_div_by days (36525 # 100))) (js " years").

(** [toLocaleString] in American English of a whole number: groups of three. *)
Fixpoint group3 (fuel : nat) (s : list Z) : list Z :=
  match fuel with
  | O => s
  | S fuel => if (length s <=? 3)%nat then s else group3 fuel (take (length s - 3) s) ++ js "," ++ drop (length s - 3) s
  end.
Definition locale_int (z : Z) : list Z := group3 (length (Z_to_str z)) (Z_to_str z).

Definition pinWeakWarning (pin : jsval) : list Z :=
  let n := Z.of_nat (length (text pin)) in
  if (n <? PIN_MIN_LENGTH) || (PIN_RECOMMENDED_LENGTH <=? n) then []
  else
    js "A " ++ Z_to_str n ++ js "-digit PIN is only " ++ locale_int (10 ^ n) ++ js " combinations: a program running "
    ++ js "as you can copy the stored item and try every PIN in " ++ pinGuessTime n
    ++ js " on a 16-thread laptop. Use " ++ Z_to_str PIN_RECOMMENDED_LENGTH ++ js " or more: "
    ++ Z_to_str PIN_RECOMMENDED_LENGTH ++ js " digits is " ++ pinGuessTime PIN_RECOMMENDED_LENGTH ++ js ".".

Definition isPinWeak (pin : jsval) : bool := negb (bool_decide (pinWeakWarning pin = [])).

(** ** Where a secret is typed *)

Inductive helper_state := helper_active | helper_fallback | helper_other.
Inductive secret_entry := entry_pinentry | entry_wait | entry_field.

Definition typedSecretEntry (usePinentry missing declined : bool) (helperState : helper_state) : secret_entry :=
  if negb usePinentry || missing || declined then entry_field
  else match helperState with
       | helper_active => entry_pinentry
       | helper_fallback => entry_field
       | helper_other => entry_wait
       end.

Definition PINENTRY_TEXT_MAX : nat := 400.
Definition PINENTRY_PREFERRED_PROGRAM : list Z := js "pinentry-qt".
Definition PINENTRY_DEFAULT_PROGRAM : list Z := js "pinentry".
Definition PINENTRY_RESOLVE : list Z :=
  sh "__prog=`$1`; if [ -z `$__prog` ]; then if command -v -- " ++ PINENTRY_PREFERRED_PROGRAM
  ++ js " >/dev/null 2>&1; then __prog=" ++ PINENTRY_PREFERRED_PROGRAM ++ js "; else __prog=" ++ PINENTRY_DEFAULT_PROGRAM ++ js "; fi; fi".

Definition pinentryText (value : jsval) : list Z :=
  take PINENTRY_TEXT_MAX (List.filter (fun c => negb (c =? 0)) (text_present value)).

Definition pinentryProgram (configured : jsval) : list Z :=
  let name := match configured with JStr s => trim s | _ => [] end in
  if bool_decide (name = []) || starts_with (js "-") name || contains [0] name then [] else name.

(** The arguments after the script: program, title, description, prompt, error and
    the least length. *)
Definition pinentry_args (program opts : jsval) : list (list Z) :=
  let o := js_or opts (JObj []) in
  [pinentryProgram program; pinentryText (fld o "title"); pinentryText (fld o "description"); pinentryText (fld o "prompt");
   pinentryText (fld o "error"); num_to_string (num_max (NZ 0) (num_floor (num_or0 (to_number (fld o "minLength")))))].

Definition pinentryProbeCommand (program : jsval) : list (list Z) :=
  [js "bash"; js "-c"; PINENTRY_RESOLVE ++ sh "; command -v -- `$__prog` >/dev/null 2>&1 && echo found || echo missing"; js "_";
   pinentryProgram program].

Definition pinentryProbeMissing (exitCode stdoutText : jsval) : bool :=
  strict_eqb exitCode (JNum (NZ 0)) && str_eqb (trim (text stdoutText)) (js "missing").

Inductive purpose := for_unlock | for_pin | for_reprompt.

Definition pinentryDescription (p : purpose) (email : jsval) : list Z :=
  let who := trim (text email) in
  let suffix := if bool_decide (who = []) then [] else js " for " ++ who in
  match p with
  | for_pin => js "Enter the PIN that unlocks Bitwarden" ++ suffix
  | for_reprompt => js "Confirm your Bitwarden master password" ++ suffix
  | for_unlock => js "Unlock Bitwarden" ++ suffix
  end.

Definition pinentryPrompt (p : purpose) : list Z := match p with for_pin => js "PIN:" | _ => js "Master password:" end.

Definition pinentryFailedNotice : list Z := js "Pinentry stopped before answering. Try again, or type it here instead.".

(** ** What bw says *)

Definition WRONG_MASTER_PASSWORD : list re :=
  map (fun s => lit_i (js s)) ["invalid master password"; "the decryption operation failed"; "the provided key is not the expected type"]%string.

Definition isWrongMasterPassword (stderrText : jsval) : bool := existsb (fun r => test r (text stderrText)) WRONG_MASTER_PASSWORD.

(** [/\u001b\[[0-9;]*m/g] *)
Definition COLOUR_RE : re := (lit [27; 91] ⋅ Star (One (fun c => is_digit c || (c =? 59))) ⋅ lit (js "m"))%re.
(** [/^\s*(ERROR|WARN|INFO|DEBUG|TRACE)\s+bitwarden_\w+(::\w+)*\s*:/] *)
Definition LOG_LINE_RE : re :=
  (Bol ⋅ Star space ⋅ alts (map (fun s => lit (js s)) ["ERROR"; "WARN"; "INFO"; "DEBUG"; "TRACE"]%string) ⋅ plus space
   ⋅ lit (js "bitwarden_") ⋅ plus (One is_word) ⋅ Star (lit (js "::") ⋅ plus (One is_word)) ⋅ Star space ⋅ lit (js ":"))%re.

Definition bwErrorText (stderrText : jsval) : list Z :=
  let t := text stderrText in
  let plain := replace_all (S (length t)) COLOUR_RE [] t in
  join [10] (List.filter (fun l => negb (bool_decide (l = [])))
    (map trim (List.filter (fun l => negb (test LOG_LINE_RE l)) (lines plain)))).

(** ** Security keys *)

Record credential := Credential { c_cred : list Z; c_options : list Z; c_device : list Z; c_needsPin : bool }.

Record fido_probe := FidoProbe {
  f_installed : bool; f_registered : bool; f_tokenPresent : bool; f_rp : list Z;
  f_credentials : list credential; f_usable : list credential; f_pinOnly : bool; f_ready : bool; f_applicable : bool
}.

(** [/^[A-Za-z0-9+/]+={0,2}$/] *)
Definition base64_unit (c : Z) : bool := is_alnum c || (c =? 43) || (c =? 47).
Definition ENVELOPE_BASE64_RE : re := anchored (plus (One base64_unit) ⋅ opt (lit (js "=")) ⋅ opt (lit (js "=")))%re.
(** [/\+(pin|verification)\b/] *)
Definition NEEDS_PIN_RE : re := (lit (js "+") ⋅ Alt (lit (js "pin")) (lit (js "verification")) ⋅ Wordb)%re.
(** [/^pam:\/\/[A-Za-z0-9.-]+$/] *)
Definition host_part (c : Z) : bool := is_alnum c || (c =? 46) || (c =? 45).
Definition FIDO_RP_RE : re := anchored (lit (js "pam://") ⋅ plus (One host_part))%re.
(** [/^\/dev\/[A-Za-z0-9_.\/-]+$/] *)
Definition device_part (c : Z) : bool := is_alnum c || existsb (Z.eqb c) (js "_./-").
Definition FIDO_DEVICE_RE : re := anchored (lit (js "/dev/") ⋅ plus (One device_part))%re.

Definition fido_credential (value : list Z) : option credential :=
  match split_on (fun c => c =? 124) value with
  | [cred; options; device] =>
      if test ENVELOPE_BASE64_RE cred
      then Some (Credential cred options (if str_eqb device (js "-") then [] else device) (test NEEDS_PIN_RE options))
      else None
  | _ => None
  end.

(** The fields and the credentials of the lines read so far. *)
Definition fido_line (st : list (list Z * jsval) * list credential) (line : list Z) : list (list Z * jsval) * list credential :=
  match key_value (trim line) with
  | Some (key, value) =>
      let value := trim value in
      if str_eqb key (js "cred") then (st.1, st.2 ++ option_list (fido_credential value))
      else (put_text st.1 key value, st.2)
  | None => st
  end.

Definition parseFidoProbe (raw : jsval) : fido_probe :=
  let '(found, creds) := fold_left fido_line (lines (text_present raw)) ([], []) in
  let installed := is_one found "fido_installed" in
  let registered := is_one found "fido_registered" in
  let tokenPresent := is_one found "fido_token" in
  let rp := text (obj_get found (js "rp")) in
  let rp := if test FIDO_RP_RE rp then rp else [] in
  let usable := List.filter (fun c => negb (bool_decide (c_device c = [])) && negb (c_needsPin c)) creds in
  let none_usable := bool_decide (usable = []) in
  FidoProbe installed registered tokenPresent rp creds usable
    (existsb (fun c => negb (bool_decide (c_device c = [])) && c_needsPin c) creds && none_usable)
    (installed && registered && tokenPresent && negb (bool_decide (rp = [])) && negb none_usable)
    (installed || registered || tokenPresent).

Definition fidoTargetOk (target : jsval) : bool :=
  truthy target
  && (match fld target "device" with JStr d => test FIDO_DEVICE_RE d | _ => false end)
  && test ENVELOPE_BASE64_RE (text (fld target "cred"))
  && (match fld target "rp" with JStr r => test FIDO_RP_RE r | _ => false end).

(** ** Envelopes and the keyring *)

Definition envelopeArgsOk (tool account : jsval) : bool :=
  match tool with JStr t => starts_with (js "/") t | _ => false end
  && truthy account
  && match fld account "id", fld account "server" with
     | JStr i, JStr s =>
         negb (bool_decide (i = []))
         && (is_undef (fld account "slot") || isAccountSlot (fld account "slot"))
         && negb (existsb is_control (i ++ s))
     | _, _ => false
     end.

(** [{argon2, creds, ready, message}].  [/^argon2=1$/m]: a whole line; the lines end
    at the terminators of the language. *)
Definition has_line (t s : list Z) : bool := existsb (str_eqb t) (split_on is_line_end s).

Definition parseQuickUnlockPrereqs (raw : jsval) : bool * bool * bool * list Z :=
  let argon2 := has_line (js "argon2=1") (text raw) in
  let creds := has_line (js "creds=1") (text raw) in
  (argon2, creds, argon2 && creds,
   if negb argon2 then js "Quick unlock needs `argon2`, which comes with the Bitwarden CLI package. Reinstall bitwarden-cli."
   else if negb creds then js "Quick unlock needs `systemd-creds --user` (systemd 256 or later) to seal the stored password to this machine, and it is not working here."
   else []).

Inductive repair := repair_skipped | repair_clean | repair_repaired | repair_failed.

Record keyring_repair := KeyringRepair { k_rejoined : num; k_rejoinFailed : list (list Z); k_file : repair }.

(** [Math.max(0, parseInt(s, 10) || 0)]: the digits after optional space and sign. *)
Definition parse_count (s : list Z) : num :=
  let '(neg, s) := strip_sign (drop_while is_space s) in
  if neg then NZ 0 else fl (digits_value (span is_digit s).1 # 1).

Definition repair_line (out : keyring_repair) (line : list Z) : keyring_repair :=
  let line := match last line with Some c => if c =? 13 then take (length line - 1) line else line | None => line end in
  match key_value line with
  | Some (k, v) =>
      if existsb is_line_end v then out
      else if str_eqb k (js "rejoined") then KeyringRepair (parse_count v) (k_rejoinFailed out) (k_file out)
      else if str_eqb k (js "rejoin_failed") then KeyringRepair (k_rejoined out) (k_rejoinFailed out ++ [v]) (k_file out)
      else if str_eqb k (js "file") then
        let set f := KeyringRepair (k_rejoined out) (k_rejoinFailed out) f in
        if str_eqb v (js "skipped") then set repair_skipped else if str_eqb v (js "clean") then set repair_clean
        else if str_eqb v (js "repaired") then set repair_repaired else if str_eqb v (js "failed") then set repair_failed else out
      else out
  | None => out
  end.

Definition parseKeyringRepair (raw : jsval) : keyring_repair :=
  fold_left repair_line (lines (text raw)) (KeyringRepair (NZ 0) [] repair_failed).
