(* ===== verification/Vault.v ===== *)
(** * The sanitized vault read ([BitwardenModel.js])

    The vault is read by a pipeline: bw prints decrypted items, a Node program
    accepts them only as strict JSON, and a jq program keeps what the panel may
    see.  A second jq program sends SSH private keys to the agent.  The programs'
    texts are in the sources; what they compute is modelled here on JSON values.
    jq itself is not: how it reads a number from a string, how it encodes base64,
    how it prints, and whether its alternative operator suppresses an error on its
    left are parameters. *)

From S2P Require Import Prelude.
From S2P Require Import JsNum.
From S2P Require Import JsString.
From S2P Require Import JsUnicode.
From S2P Require Import JsValue.
From S2P Require Import Json.
From S2P Require Import SshAgent.
From S2P Require Import Shell.
From S2P Require Import Items.

(** What the filters use of jq. *)
Class Jq := {
  tonumber_str : list Z -> option num;      (** [tonumber] of a string *)
  alt_suppresses : bool;                    (** [error // b] is [b] *)
  base64 : list Z -> list Z;                (** [@base64] of a string *)
  jq_print : jsval -> list Z                (** [jq -c] *)
}.

Section filters.
  Context `{!Jq}.

(** ** The language of the filters: [None] is an error *)

(** [.k] *)
Definition jq_get (k : string) (v : jsval) : option jsval :=
  match v with
  | JObj o => Some (default JNull (own (js k) o))
  | JNull => Some JNull
  | _ => None
  end.
Definition jq_path (k1 k2 : string) (v : jsval) : option jsval := u ← jq_get k1 v; jq_get k2 u.

Definition jq_truthy (v : jsval) : bool := match v with JNull | JBool false => false | _ => true end.

(** [a // b] *)
Definition jq_alt (a b : option jsval) : option jsval :=
  match a with
  | Some v => if jq_truthy v then Some v else b
  | None => if alt_suppresses then b else None
  end.

(** [try a catch null] *)
Definition jq_try (a : option jsval) : jsval := default JNull a.

(** ** Shared definitions of the filters *)

Definition string_or_empty (v : jsval) : jsval := match v with JStr _ => v | _ => JStr [] end.
Definition string_or_null (v : jsval) : jsval := match v with JStr _ => v | _ => JNull end.
Definition bool_or_false (v : jsval) : jsval := match v with JBool _ => v | _ => JBool false end.
Definition is_num (z : Z) (v : jsval) : bool := match v with JNum n => num_eqb n (NZ z) | _ => false end.
Definition reprompt_or_zero (v : jsval) : jsval := if is_num 0 v || is_num 1 v then v else JNum (NZ 0).

(** [try (.type | tonumber) catch null] *)
Definition item_type (v : jsval) : jsval :=
  match jq_get "type" v with
  | Some (JNum n) => JNum n
  | Some (JStr s) => match tonumber_str s with Some n => JNum n | None => JNull end
  | _ => JNull
  end.
Definition ordinary_type (v : jsval) : bool := let t := item_type v in is_num 1 t || is_num 2 t || is_num 3 t || is_num 4 t.
Definition ssh_type (v : jsval) : bool := is_num 5 (item_type v).

(** [objects], [has("sshKey")] *)
Definition jq_object (v : jsval) : bool := match v with JObj _ => true | _ => false end.
Definition has_ssh_key (v : jsval) : bool := match v with JObj o => bool_decide (is_Some (own (js "sshKey") o)) | _ => false end.

(** A field of an object, which is never an error. *)
Definition jq_field (k : string) (v : jsval) : jsval := jq_try (jq_get k v).

Definition public_key (v : jsval) : jsval :=
  string_or_empty (jq_try (jq_alt (jq_path "sshKey" "publicKey" v) (jq_get "publicKey" v))).
Definition fingerprint (v : jsval) : jsval :=
  string_or_empty (jq_try (jq_alt (jq_path "sshKey" "fingerprint" v)
    (jq_alt (jq_path "sshKey" "keyFingerprint" v) (jq_alt (jq_get "fingerprint" v) (jq_get "keyFingerprint" v))))).

(** ** What the panel may see *)

Definition ssh_projection (v : jsval) : jsval :=
  JObj [(js "id", string_or_empty (jq_field "id" v)); (js "name", string_or_empty (jq_field "name" v)); (js "type", JNum (NZ 5));
        (js "organizationId", string_or_null (jq_field "organizationId" v));
        (js "collectionIds", match jq_field "collectionIds" v with JArr l => JArr (List.filter is_string l) | _ => JArr [] end);
        (js "folderId", string_or_null (jq_field "folderId" v)); (js "favorite", bool_or_false (jq_field "favorite" v));
        (js "reprompt", reprompt_or_zero (jq_field "reprompt" v));
        (js "publicKey", public_key v); (js "fingerprint", fingerprint v)].

Definition SANITIZED_ITEMS_FILTER (v : jsval) : option jsval :=
  match v with
  | JArr l =>
      let objs := List.filter jq_object l in
      if existsb (fun o => ordinary_type o && has_ssh_key o) objs then None
      else Some (JObj
        [(js "sshCapability", JStr (if existsb ssh_type objs then js "confirmed" else js "unconfirmed"));
         (js "items", JArr (List.filter ordinary_type objs));
         (js "sshKeys", JArr (map ssh_projection (List.filter ssh_type objs)))])
  | _ => None
  end.

(** ** What the agent gets *)

Definition private_key (v : jsval) : list Z :=
  match string_or_empty (jq_try (jq_alt (jq_path "sshKey" "privateKey" v) (jq_get "privateKey" v))) with JStr s => s | _ => [] end.

Definition agent_key (v : jsval) : jsval :=
  JObj [(js "itemId", string_or_empty (jq_field "id" v)); (js "name", string_or_empty (jq_field "name" v));
        (js "privateKeyB64", JStr (base64 (private_key v))); (js "publicKey", public_key v); (js "fingerprint", fingerprint v);
        (js "requiresReprompt", JBool false)].

Definition agent_eligible (v : jsval) : bool :=
  ssh_type v && is_num 0 (reprompt_or_zero (jq_field "reprompt" v)) && negb (bool_decide (base64 (private_key v) = [])).

Definition AGENT_KEYS_FILTER (loadId : list Z) (v : jsval) : option jsval :=
  match v with
  | JArr l => Some (JObj [(js "loadId", JStr loadId); (js "items", JArr (map agent_key (List.filter agent_eligible (List.filter jq_object l))))])
  | _ => None
  end.

(** ** The pipelines *)

Definition SAVED_UNSANITIZED_MARKER : list Z := js "__QSBW_SAVED_UNSANITIZED__".

(** The strict reader: at most [maxBytes], strict JSON, not refused. *)
Definition strictJsonStdinScript (reject : jsval -> bool) (maxBytes : Z) (raw : list Z) : option jsval :=
  if maxBytes <? utf8ByteLength raw then None
  else v ← parse raw; if reject v then None else Some v.

Definition STRICT_JSON_PASSTHROUGH : Z -> list Z -> option jsval := strictJsonStdinScript (fun v => negb (is_array v)).

(** The single object of a save, as an array of one. *)
Definition STRICT_JSON_ONE_OBJECT (maxBytes : Z) (raw : list Z) : option jsval :=
  v ← strictJsonStdinScript (fun v => negb (jq_object v)) maxBytes raw; Some (JArr [v]).

(** What the list command prints for what bw printed: nothing but an error when a
    step fails or the result is too long. *)
Definition sanitizedList (raw : list Z) : option (list Z) :=
  v ← STRICT_JSON_PASSTHROUGH MAX_ITEMS_BYTES raw;
  out ← SANITIZED_ITEMS_FILTER v;
  let t := jq_print out in
  if MAX_ITEMS_BYTES <? utf8ByteLength t then None else Some t.

(** What a save prints for the item bw printed: the sanitized item, or a marker that
    makes the panel reload, never a failure of a save that succeeded. *)
Definition savePipelineScript (raw : list Z) : list Z :=
  default SAVED_UNSANITIZED_MARKER (
    v ← STRICT_JSON_ONE_OBJECT MAX_MISC_BYTES raw;
    out ← SANITIZED_ITEMS_FILTER v;
    let t := jq_print out in
    if bool_decide (t = []) || (MAX_MISC_BYTES <? utf8ByteLength t) then None else Some t).

(** What the branch sends to the agent of the same read. *)
Definition agentBranch (loadId raw : list Z) : option (list Z) :=
  v ← STRICT_JSON_PASSTHROUGH MAX_ITEMS_BYTES raw;
  out ← AGENT_KEYS_FILTER loadId v;
  Some (jq_print out).
End filters.
