(* ===== verification/VaultCorrect.v ===== *)
(** * Private keys never reach the panel

    The filters' results on every JSON value, for every jq: what the panel sees is
    the same as if private keys had been erased first, and its parser accepts it;
    what the agent sees is exactly the keys it may hold. *)

From S2P Require Import Prelude.
From S2P Require Import JsNum.
From S2P Require Import JsString.
From S2P Require Import JsUnicode.
From S2P Require Import JsValue.
From S2P Require Import Json.
From S2P Require Import SshAgent.
From S2P Require Import Shell.
From S2P Require Import Items.
From S2P Require Import Vault.

(** ** Objects without a property *)

Lemma own_map_values f k o : own k (map (fun kv : list Z * jsval => (kv.1, f kv.1 kv.2)) o) = f k <$> own k o.
Proof.
  induction o as [|[x v] o IH]; [done|]. cbn. destruct (str_eqb x k) eqn:E; [|done]. apply str_eqb_eq in E. by subst.
Qed.

Definition erase_key (v : jsval) : jsval := match v with JObj k => JObj (obj_delete k (js "privateKey")) | _ => v end.

Section filters.
  Context `{!Jq}.

(** An item whose private key is gone, wherever it was. *)
Definition erase (v : jsval) : jsval :=
  match v with
  | JObj o =>
      if ssh_type v
      then JObj (obj_delete (map (fun kv => (kv.1, if str_eqb kv.1 (js "sshKey") then erase_key kv.2 else kv.2)) o) (js "privateKey"))
      else v
  | _ => v
  end.

Lemma erase_get k v : js k <> js "privateKey" -> js k <> js "sshKey" -> jq_get k (erase v) = jq_get k v.
Proof.
  intros Hp Hs. unfold erase. destruct v as [| | | | | |o|]; try done. destruct (ssh_type (JObj o)); [|done]. cbn [jq_get].
  rewrite own_delete_ne by done. rewrite (own_map_values (fun k v => if str_eqb k (js "sshKey") then erase_key v else v)).
  rewrite (proj2 (str_eqb_neq _ _) Hs). by destruct (own (js k) o).
Qed.

Lemma erase_path k v : js k <> js "privateKey" -> jq_path "sshKey" k (erase v) = jq_path "sshKey" k v.
Proof.
  intros Hp. unfold erase. destruct v as [| | | | | |o|]; try done. destruct (ssh_type (JObj o)); [|done].
  unfold jq_path. cbn [jq_get mbind option_bind]. rewrite own_delete_ne by done.
  rewrite (own_map_values (fun k v => if str_eqb k (js "sshKey") then erase_key v else v)), str_eqb_refl.
  destruct (own (js "sshKey") o) as [[| | | | | |q|]|]; try done.
  change (Some (default JNull (own (js k) (obj_delete q (js "privateKey")))) = Some (default JNull (own (js k) q))). by rewrite own_delete_ne.
Qed.

Lemma erase_object v : jq_object (erase v) = jq_object v.
Proof. destruct v as [| | | | | |o|]; try done. unfold erase. by destruct (ssh_type _). Qed.

Lemma erase_type v : item_type (erase v) = item_type v.
Proof. unfold item_type. by rewrite erase_get. Qed.

(** An ordinary item is not touched. *)
Lemma erase_ordinary v : ordinary_type v = true -> erase v = v.
Proof.
  unfold erase, ordinary_type, ssh_type. destruct v as [| | | | | |o|]; try done. destruct (item_type (JObj o)) as [| | |n| | | |]; try done.
  cbn [is_num]. destruct n as [| |q]; try done. destruct (num_eqb (Fin q) (NZ 5)) eqn:E; [|done]. cbn in *.
  apply QArith_base.Qeq_bool_iff in E. rewrite !orb_true_iff, !QArith_base.Qeq_bool_iff. rewrite E. unfold QArith_base.Qeq. cbn. lia.
Qed.

Lemma erase_projection v : ssh_projection (erase v) = ssh_projection v.
Proof.
  unfold ssh_projection, jq_field, public_key, fingerprint. by rewrite !erase_get, !erase_path.
Qed.

Lemma filter_erase (p : jsval -> bool) l : (forall v, p (erase v) = p v) -> List.filter p (map erase l) = map erase (List.filter p l).
Proof. intros Hp. induction l as [|v l IH]; [done|]. cbn [map List.filter]. rewrite Hp, IH. by destruct (p v). Qed.

Lemma existsb_erase (p : jsval -> bool) l : (forall v, p (erase v) = p v) -> existsb p (map erase l) = existsb p l.
Proof. intros Hp. induction l as [|v l IH]; [done|]. cbn. by rewrite Hp, IH. Qed.

Lemma erase_ordinary_type v : ordinary_type (erase v) = ordinary_type v.
Proof. unfold ordinary_type. by rewrite erase_type. Qed.

Lemma erase_ssh_type v : ssh_type (erase v) = ssh_type v.
Proof. unfold ssh_type. by rewrite erase_type. Qed.

Lemma sanitize_erased l : SANITIZED_ITEMS_FILTER (JArr (map erase l)) = SANITIZED_ITEMS_FILTER (JArr l).
Proof.
  cbn [SANITIZED_ITEMS_FILTER]. cbv zeta. rewrite filter_erase by apply erase_object. set (objs := List.filter jq_object l).
  rewrite (existsb_erase (fun o => ordinary_type o && has_ssh_key o)).
  2: { intros v. rewrite erase_ordinary_type. destruct (ordinary_type v) eqn:E; [|done]. by rewrite erase_ordinary. }
  rewrite (existsb_erase ssh_type) by apply erase_ssh_type.
  rewrite !filter_erase by (apply erase_ordinary_type || apply erase_ssh_type). rewrite map_map.
  rewrite (map_ext (fun x => ssh_projection (erase x)) ssh_projection) by apply erase_projection.
  replace (map erase (List.filter ordinary_type objs)) with (List.filter ordinary_type objs); [done|].
  clear. induction objs as [|v objs IH]; [done|]. cbn [List.filter]. destruct (ordinary_type v) eqn:E; [|done]. cbn [map].
  by rewrite erase_ordinary, <- IH.
Qed.
End filters.

(** ** Results of the filters *)

Section results.
  Context `{!Jq}.

Lemma sanitize_result l out : SANITIZED_ITEMS_FILTER (JArr l) = Some out ->
  let objs := List.filter jq_object l in
  existsb (fun o => ordinary_type o && has_ssh_key o) objs = false /\
  out = JObj [(js "sshCapability", JStr (if existsb ssh_type objs then js "confirmed" else js "unconfirmed"));
              (js "items", JArr (List.filter ordinary_type objs)); (js "sshKeys", JArr (map ssh_projection (List.filter ssh_type objs)))].
Proof. cbn [SANITIZED_ITEMS_FILTER]. cbv zeta. destruct (existsb _ _) eqn:E; [done|]. by intros <-%(inj Some). Qed.

Lemma existsb_filter (p : jsval -> bool) l : existsb p l = (0 <? length (List.filter p l))%nat.
Proof. induction l as [|v l IH]; [done|]. cbn. by destruct (p v). Qed.

(** The panel's reader accepts every result. *)
Lemma envelope_accepted `{!Collation} l out t : SANITIZED_ITEMS_FILTER (JArr l) = Some out -> parse t = Some out ->
  exists e, parseSanitizedEnvelope t = Some e /\ env_confirmed e = existsb ssh_type (List.filter jq_object l).
Proof.
  intros [_ ->]%sanitize_result Ht. unfold parseSanitizedEnvelope. rewrite Ht. cbv zeta.
  set (keys := List.filter ssh_type _). set (objs := List.filter jq_object l) in *.
  match goal with |- context [fld ?e "items"] => change (fld e "items") with (JArr (List.filter ordinary_type objs));
    change (fld e "sshKeys") with (JArr (map ssh_projection keys));
    change (fld e "sshCapability") with (JStr (if existsb ssh_type objs then js "confirmed" else js "unconfirmed")) end.
  cbv iota beta zeta. rewrite length_map. unfold keys. rewrite existsb_filter. set (b := (0 <? _)%nat). cbv iota beta zeta.
  assert (E : strict_eqb (JStr (if b then js "confirmed" else js "unconfirmed")) (JStr (capability b)) = true) by (by destruct b).
  rewrite E. cbn [is_undef negb andb]. eexists. split; [reflexivity|]. reflexivity.
Qed.

(** C15: Two vaults that differ only in private keys look the same to the panel: the
    sanitized read of one is the read of the other, whatever jq's numbers, printing
    and alternatives do.  What is read holds ordinary items without an SSH key
    subtree and, of SSH keys, the ten public fields alone; any other shape of the
    vault fails the read, and the panel's parser accepts every result. *)
Theorem private_keys_withheld `{!Collation} raw raw' l l' :
  parse raw = Some (JArr l) -> parse raw' = Some (JArr l') -> map erase l = map erase l' ->
  utf8ByteLength raw <= MAX_ITEMS_BYTES -> utf8ByteLength raw' <= MAX_ITEMS_BYTES ->
  sanitizedList raw = sanitizedList raw' /\
  (forall t, sanitizedList raw = Some t ->
     exists items keys, t = jq_print (JObj [(js "sshCapability", JStr (capability (0 <? length keys)%nat)); (js "items", JArr items);
                                            (js "sshKeys", JArr (map ssh_projection keys))]) /\
     (forall v, v ∈ items <-> v ∈ l /\ jq_object v = true /\ ordinary_type v = true) /\ Forall (fun v => has_ssh_key v = false) items /\
     (forall v, v ∈ keys <-> v ∈ l /\ jq_object v = true /\ ssh_type v = true) /\
     Forall (fun v => fld (ssh_projection v) "privateKey" = JUndef /\ fld (ssh_projection v) "sshKey" = JUndef) keys /\
     (parse t = SANITIZED_ITEMS_FILTER (JArr l) -> exists e, parseSanitizedEnvelope t = Some e /\ env_confirmed e = (0 <? length keys)%nat)).
Proof.
  intros Hp Hp' He Hb Hb'. unfold sanitizedList, STRICT_JSON_PASSTHROUGH, strictJsonStdinScript.
  rewrite (proj2 (Z.ltb_ge _ _) Hb), (proj2 (Z.ltb_ge _ _) Hb'), Hp, Hp'. cbn [mbind option_bind is_array negb]. split.
  { by rewrite <- (sanitize_erased l), He, sanitize_erased. }
  intros t. destruct (SANITIZED_ITEMS_FILTER (JArr l)) as [out|] eqn:E; [|done]. cbn [mbind option_bind]. cbv zeta.
  destruct (_ <? _); [done|]. intros <-%(inj Some). destruct (sanitize_result l out E) as [Hn Ho]. cbv zeta in Hn, Ho.
  exists (List.filter ordinary_type (List.filter jq_object l)), (List.filter ssh_type (List.filter jq_object l)).
  split_and!.
  - rewrite Ho, existsb_filter. unfold capability. reflexivity.
  - intros v. rewrite list_elem_of_In, !filter_In, list_elem_of_In. tauto.
  - apply Forall_forall. intros v. rewrite list_elem_of_In, filter_In. intros [Hv Ht].
    destruct (has_ssh_key v) eqn:Ek; [|done]. exfalso. apply not_true_iff_false in Hn. apply Hn, existsb_exists. exists v. by rewrite Ht, Ek.
  - intros v. rewrite list_elem_of_In, !filter_In, list_elem_of_In. tauto.
  - apply Forall_forall. intros v _. by split.
  - intros Ht. rewrite <- existsb_filter. by eapply envelope_accepted.
Qed.

(** The agent is sent exactly the SSH keys that need no re-prompt and have a
    private key, each with its own id, name and public parts, framed by the load's
    nonce; for any other input than an array nothing is sent. *)
Theorem agent_keys_exact (base64_empty : forall s, base64 s = [] <-> s = []) loadId v :
  match v with
  | JArr l => exists keys, AGENT_KEYS_FILTER loadId v = Some (JObj [(js "loadId", JStr loadId); (js "items", JArr (map agent_key keys))]) /\
      forall k, k ∈ keys <-> k ∈ l /\ jq_object k = true /\ ssh_type k = true /\ is_num 1 (jq_field "reprompt" k) = false /\ private_key k <> []
  | _ => AGENT_KEYS_FILTER loadId v = None
  end.
Proof.
  destruct v as [| | | | |l| |]; try done. eexists. split; [reflexivity|]. intros k.
  rewrite list_elem_of_In, !filter_In, <- list_elem_of_In. unfold agent_eligible. rewrite !andb_true_iff, negb_true_iff, bool_decide_eq_false, base64_empty.
  assert (Hr : is_num 0 (reprompt_or_zero (jq_field "reprompt" k)) = true <-> is_num 1 (jq_field "reprompt" k) = false).
  { unfold reprompt_or_zero. destruct (jq_field "reprompt" k) as [| | |n| | | |]; try (by cbn). cbn [is_num].
    destruct n as [| |q]; try done. cbn. destruct (QArith_base.Qeq_bool q (QArith_base.Qmake 0 1)) eqn:E0, (QArith_base.Qeq_bool q (QArith_base.Qmake 1 1)) eqn:E1; cbn; rewrite ?E0; try done.
    apply QArith_base.Qeq_bool_iff in E0, E1. rewrite E0 in E1. discriminate E1. }
  rewrite Hr. tauto.
Qed.
End results.

(** ** A jq *)

(** RFC 4648 on the bytes of an ASCII text. *)
Definition base64_digit (d : Z) : Z :=
  if d <? 26 then 65 + d else if d <? 52 then 71 + d else if d <? 62 then d - 4 else if d =? 62 then 43 else 47.
Fixpoint base64_text (s : list Z) : list Z :=
  match s with
  | a :: b :: c :: r =>
      base64_digit (a / 4) :: base64_digit (a mod 4 * 16 + b / 16) :: base64_digit (b mod 16 * 4 + c / 64) :: base64_digit (c mod 64) :: base64_text r
  | [a; b] => [base64_digit (a / 4); base64_digit (a mod 4 * 16 + b / 16); base64_digit (b mod 16 * 4); 61]
  | [a] => [base64_digit (a / 4); base64_digit (a mod 4 * 16); 61; 61]
  | [] => []
  end.

Definition plain_jq : Jq := {|
  tonumber_str s := match string_to_num s with NaN => None | n => Some n end;
  alt_suppresses := true;
  base64 := base64_text;
  jq_print := stringify
|}.

Definition vault_text (key : string) : list Z :=
  stringify (JArr [JObj [(js "type", JNum (NZ 1)); (js "name", JStr (js "Mail"))];
    JObj [(js "type", JStr (js "5")); (js "id", JStr (js "k1")); (js "name", JStr (js "Key"));
          (js "sshKey", JObj [(js "privateKey", JStr (js key)); (js "publicKey", JStr (js "ssh-ed25519 AA"))])]; JNull]).

Lemma private_keys_withheld_witness :
  sanitizedList (H := plain_jq) (vault_text "secret") = sanitizedList (H := plain_jq) (vault_text "other") /\
  exists t, sanitizedList (H := plain_jq) (vault_text "secret") = Some t /\ contains (js "secret") t = false.
Proof.
  split.
  - refine (proj1 (@private_keys_withheld plain_jq ascii_collation _ _ _ _ _ _ _ _ _)); [vm_compute; reflexivity..|vm_compute; discriminate|vm_compute; discriminate].
  - eexists. split; vm_compute; reflexivity.
Defined.

Lemma agent_keys_exact_witness :
  exists keys, AGENT_KEYS_FILTER (H := plain_jq) (js "n") (default JNull (parse (vault_text "key"))) =
    Some (JObj [(js "loadId", JStr (js "n")); (js "items", JArr (map (agent_key (H := plain_jq)) keys))]).
Proof.
  pose proof (@agent_keys_exact plain_jq ltac:(intros [|? [|? [|? ?]]]; by split) (js "n") (default JNull (parse (vault_text "key")))) as H.
  destruct (default JNull (parse (vault_text "key"))) eqn:E; try (vm_compute in E; discriminate E).
  destruct H as (keys & Hk & _). exists keys. exact Hk.
Defined.

Example agent_key_sent :
  agentBranch (H := plain_jq) (js "n") (vault_text "key") =
  Some (stringify (JObj [(js "loadId", JStr (js "n")); (js "items", JArr [JObj [(js "itemId", JStr (js "k1")); (js "name", JStr (js "Key"));
    (js "privateKeyB64", JStr (js "a2V5")); (js "publicKey", JStr (js "ssh-ed25519 AA")); (js "fingerprint", JStr []);
    (js "requiresReprompt", JBool false)]])])).
Proof. vm_compute. reflexivity. Qed.
