(* ===== verification/Envelope.v ===== *)
(** * The quick-unlock envelope's scripts ([BitwardenModel.js])

    One keyring item holds the master password, encrypted, with a way in per
    method.  Every change of it is a shell script built here.  An argument that
    does not have its shape gives the refused command.  In the literals a backtick
    stands for a double quote. *)

From S2P Require Import Prelude.
From S2P Require Import JsNum.
From S2P Require Import JsString.
From S2P Require Import JsUnicode.
From S2P Require Import JsValue.
From S2P Require Import Regex.
From S2P Require Import Accounts.
From S2P Require Import Shell.
From S2P Require Import Items.
From S2P Require Import Setup.
From S2P Require Import Unlock.

(** ** Names *)

Definition KEYRING_ACCOUNT : list Z := js "session".
Definition KEYRING_MASTER : list Z := js "master_password".
Definition KEYRING_FIDO : list Z := js "fido_password".
Definition KEYRING_PIN : list Z := js "pin_blob".
Definition PIN_ENV : list Z := js "QSBW_PIN".
Definition PIN_ITERATIONS : Z := 600000.
Definition KEYRING_ENVELOPE : list Z := js "unlock_envelope".
Definition ENVELOPE_LABEL : list Z := js "Bitwarden quick unlock (encrypted)".
Definition ENVELOPE_CREDENTIAL_NAME : list Z := js "qs-bitwarden-unlock".
Definition NEW_SECRET_ENV : list Z := js "QSBW_NEW_SECRET".
Definition FIDO_HMAC_ENV : list Z := js "QSBW_FIDO_HMAC".
Definition FIDO_SALT_ENV : list Z := js "QSBW_FIDO_SALT".
Definition KEYRING_SESSION_COLLECTION : list Z := js "session".
Definition BOOT_ID_PATH : list Z := js "/proc/sys/kernel/random/boot_id".
Definition KEYRING_ALL_ACCOUNTS : list (list Z) := [KEYRING_ACCOUNT; KEYRING_ENVELOPE; KEYRING_MASTER; KEYRING_FIDO; KEYRING_PIN].

(** [ENVELOPE_ARGON2], [ENVELOPE_EXIT], [FIDO_EXIT], [LEGACY_MIGRATION_EXIT] *)
Definition ARGON2_m : Z := 262144.
Definition ARGON2_t : Z := 4.
Definition ARGON2_p : Z := 1.
Definition MAX_ENVELOPE_SEALED_BYTES : Z := 256 * 1024.
Definition ENVELOPE_absent : Z := 10.
Definition ENVELOPE_unseal : Z := 11.
Definition ENVELOPE_kdf : Z := 12.
Definition ENVELOPE_store : Z := 13.
Definition ENVELOPE_verify : Z := 14.
Definition FIDO_assert : Z := 31.
Definition FIDO_noSecret : Z := 32.
Definition FIDO_legacyUsed : Z := 40.
Definition LEGACY_none : Z := 20.
Definition LEGACY_mismatch : Z := 21.
Definition MAX_PURGE_ROUNDS : Z := 17.

Definition bash (script : list Z) : list (list Z) := [js "bash"; js "-c"; script].
Definition capped (script : list Z) : list (list Z) := bash (cappedScript script (Some MAX_STDERR_BYTES)).

Definition envelopeRefused : list (list Z) := bash (js "exit 2").
(** [cmd[2]] of a bash command. *)
Definition nestedScript (cmd : list (list Z)) : list Z := js "bash -c " ++ shellQuote (JStr (default [] (cmd !! 2%nat))).

(** ** The remembered session *)

Definition keyringStoreCommand (slot : jsval) : list (list Z) :=
  let attrs := keyringAttributes (JStr (keyringEntryName KEYRING_ACCOUNT slot)) in
  bash (sh "store() { printf '%s %s' `$(cat " ++ shellQuote (JStr BOOT_ID_PATH) ++ sh ")` `$" ++ KEYRING_SECRET_ENV
    ++ sh "` | secret-tool store `$@` --label=" ++ shellQuote (JStr (sh "Bitwarden Vault Session")) ++ attrs ++ sh "; }; "
    ++ sh "store --collection=" ++ shellQuote (JStr KEYRING_SESSION_COLLECTION) ++ sh " 2>/dev/null || store").

Definition keyringLookupCommand (slot : jsval) : list (list Z) :=
  let attrs := keyringAttributes (JStr (keyringEntryName KEYRING_ACCOUNT slot)) in
  bash (cappedScript (sh "boot=$(cat " ++ shellQuote (JStr BOOT_ID_PATH) ++ sh " 2>/dev/null | head -c 128) || exit 0; "
    ++ sh "[ -n `$boot` ] || exit 0; " ++ sh "stored=$(secret-tool lookup" ++ attrs ++ sh " 2>/dev/null | head -c "
    ++ num_text MAX_TOKEN_BYTES ++ sh ") || exit 0; " ++ sh "case `$stored` in " ++ sh "`$boot `?*) printf '%s' `${stored#* }` ;; "
    ++ sh "*) [ -n `$stored` ] && secret-tool clear" ++ attrs ++ sh " >/dev/null 2>&1 ;; " ++ sh "esac; exit 0") None).

Definition keyringClearCommand (slot : jsval) : list (list Z) :=
  let attrs := keyringAttributes (JStr (keyringEntryName KEYRING_ACCOUNT slot)) in
  bash (sh "secret-tool clear" ++ attrs ++ sh " >/dev/null 2>&1; " ++ sh "__left=$(secret-tool search" ++ attrs
    ++ sh " 2>/dev/null | wc -c | tr -d '[:space:]'); " ++ sh "[ `${__left:-0}` = 0 ]").

(** ** Entries from before the envelope *)

Definition keyringLookupMasterPasswordCommand (slot : jsval) : list (list Z) := keyringLookupEntryCommand (JStr (keyringEntryName KEYRING_MASTER slot)).
Definition keyringClearMasterPasswordCommand (slot : jsval) : list (list Z) := keyringClearEntryCommand (keyringEntryName KEYRING_MASTER slot).
Definition keyringHasMasterPasswordCommand (slot : jsval) : list (list Z) := keyringHasEntryCommand (JStr (keyringEntryName KEYRING_MASTER slot)).
Definition keyringClearFidoPasswordCommand (slot : jsval) : list (list Z) := keyringClearEntryCommand (keyringEntryName KEYRING_FIDO slot).
Definition keyringHasFidoPasswordCommand (slot : jsval) : list (list Z) := keyringHasEntryCommand (JStr (keyringEntryName KEYRING_FIDO slot)).
Definition keyringClearPinCommand (slot : jsval) : list (list Z) := keyringClearEntryCommand (keyringEntryName KEYRING_PIN slot).
Definition keyringHasPinCommand (slot : jsval) : list (list Z) := keyringHasEntryCommand (JStr (keyringEntryName KEYRING_PIN slot)).

Definition pinUnlockCommand (slot : jsval) : list (list Z) :=
  bash (cappedScript (sh "secret-tool lookup" ++ keyringAttributes (JStr (keyringEntryName KEYRING_PIN slot)) ++ sh " 2>/dev/null | head -c 8192"
    ++ sh " | openssl enc -d -aes-256-cbc -pbkdf2 -iter " ++ num_text PIN_ITERATIONS ++ sh " -md sha256 -pass env:" ++ PIN_ENV
    ++ sh " -base64 -A | head -c " ++ num_text MAX_TOKEN_BYTES) None).

(** ** The functions every envelope script starts with *)

Definition envelopeAccountArgs (account : jsval) : list Z :=
  sh " --account-id " ++ shellQuote ((fld account "id")) ++ sh " --server " ++ shellQuote ((fld account "server")).

Definition envelopePrelude (tool slot : jsval) : list Z :=
  sh "__tool=" ++ shellQuote tool ++ sh "; " ++ sh "__name=" ++ shellQuote (JStr ENVELOPE_CREDENTIAL_NAME) ++ sh "; "
  ++ sh "__lookup() { secret-tool lookup" ++ keyringAttributes (JStr (keyringEntryName KEYRING_ENVELOPE slot))
  ++ sh " 2>/dev/null | head -c " ++ num_text MAX_ENVELOPE_SEALED_BYTES ++ sh "; }; "
  ++ sh "__unseal() { printf '%s' `$1` | systemd-creds --user decrypt --name=`$__name` - - 2>/dev/null; }; "
  ++ sh "__seal() { (set -o pipefail; "
  ++ sh "systemd-creds --user encrypt --name=`$__name` - - 2>/dev/null | tr -d '\n\r'); }; "
  ++ sh "__kdf() { printf '%s' `$1` | argon2 `$2` -id -t `$3` -k `$4` -p `$5` -l 32 -r 2>/dev/null; }; "
  ++ sh "__salt() { head -c 16 /dev/urandom | base64 -w0; }; " ++ sh "__load() { "
  ++ sh "__sealed=`$(__lookup)`; [ -n `$__sealed` ] || exit " ++ num_text ENVELOPE_absent ++ sh "; "
  ++ sh "__summary=`$(__unseal `$__sealed` | `$__tool` inspect)` || exit " ++ num_text ENVELOPE_unseal ++ sh "; }; "
  ++ sh "__params() { printf '%s' `$__summary` | jq -r `$1`' // empty | `\(.salt) \(.t) \(.m) \(.p)`'; }; "
  ++ sh "__wrap_key() { local __line __s __t __m __p; __line=`$(__params `$1`)`; "
  ++ sh "[ -n `$__line` ] || exit 7; read -r __s __t __m __p <<< `$__line`; "
  ++ sh "__kdf `$2` `$__s` `$__t` `$__m` `$__p` || exit " ++ num_text ENVELOPE_kdf ++ sh "; }; "
  ++ sh "__verify_account() { __unseal `$__new` | `$__tool` inspect "
  ++ sh "| jq -e --arg id `$1` --arg server `$2` '.account.id == $id and .account.server == $server' "
  ++ sh ">/dev/null || exit " ++ num_text ENVELOPE_verify ++ sh "; }; " ++ sh "__verify_opens() { cmp -s <(printf '%s' `$1`) "
  ++ sh "<(__unseal `$__new` | QSBW_UNLOCK_KEY=`$__vk` `$__tool` open `${@:2}`) " ++ sh "|| exit " ++ num_text ENVELOPE_verify
  ++ sh "; }; " ++ sh "__store() { printf '%s' `$__new` | secret-tool store --label=" ++ shellQuote (JStr ENVELOPE_LABEL)
  ++ keyringAttributes (JStr (keyringEntryName KEYRING_ENVELOPE slot)) ++ sh " || exit " ++ num_text ENVELOPE_store ++ sh "; }; ".

Definition envelopeArgon2Args (saltVar : list Z) : list Z :=
  sh " --salt `$" ++ saltVar ++ sh "` --m " ++ num_text ARGON2_m ++ sh " --t " ++ num_text ARGON2_t ++ sh " --p "
  ++ num_text ARGON2_p.

Definition envelopeNewKey (secretExpr saltVar : list Z) : list Z :=
  sh "__kdf " ++ secretExpr ++ sh " `$" ++ saltVar ++ sh "` " ++ num_text ARGON2_t ++ sh " " ++ num_text ARGON2_m ++ sh " "
  ++ num_text ARGON2_p.

Definition absolute (tool : jsval) : bool := match tool with JStr t => starts_with (js "/") t | _ => false end.

Definition unlockEnvelopeInspectCommand (tool slot : jsval) : list (list Z) :=
  if negb (absolute tool) then envelopeRefused
  else capped (envelopePrelude tool slot ++ sh "__load; printf '%s' `$__summary`").

(** ** Opening *)

(** A way in, or what authorizes a change; [ViaOther] stands for any other kind. *)
Inductive via := ViaMaster | ViaPin | ViaFingerprint | ViaFido (cred : jsval) | ViaOther.

Definition is_base64 (v : jsval) : bool := test ENVELOPE_BASE64_RE (text v).

(** The kind of a secret-based way and the variable its secret is in. *)
Definition secret_way (v : via) : option (list Z * list Z) :=
  match v with
  | ViaMaster => Some (js "master", KEYRING_SECRET_ENV)
  | ViaPin => Some (js "pin", PIN_ENV)
  | _ => None
  end.

(** What follows the load; [None] when the way is refused. *)
Definition open_step (account : jsval) (v : via) : option (list Z) :=
  let open := sh "`$__tool` open" ++ envelopeAccountArgs account in
  match v with
  | ViaMaster | ViaPin =>
      '(kind, secret) ← secret_way v;
      Some (sh "__k=`$(__wrap_key '." ++ kind ++ sh "' `$" ++ secret ++ sh "`)` || exit $?; "
        ++ sh "__unseal `$__sealed` | QSBW_UNLOCK_KEY=`$__k` " ++ open ++ sh " --via " ++ kind)
  | ViaFingerprint => Some (sh "__unseal `$__sealed` | " ++ open ++ sh " --via fingerprint")
  | ViaFido cred =>
      if is_base64 cred
      then Some (sh "__unseal `$__sealed` | QSBW_UNLOCK_KEY=`$" ++ FIDO_HMAC_ENV ++ sh "` " ++ open ++ sh " --via fido --cred "
        ++ shellQuote cred)
      else None
  | ViaOther => None
  end.

Definition unlockEnvelopeOpenCommand (tool account : jsval) (v : via) : list (list Z) :=
  if negb (envelopeArgsOk tool account) then envelopeRefused
  else match open_step account v with
       | Some step => capped (envelopePrelude tool (fld account "slot") ++ js "__load; " ++ step ++ js " | head -c " ++ num_text MAX_TOKEN_BYTES)
       | None => envelopeRefused
       end.

Definition unlockEnvelopeCheckCommand (tool account : jsval) : list (list Z) :=
  let open := unlockEnvelopeOpenCommand tool account ViaMaster in
  if bool_decide (open !! 2%nat = envelopeRefused !! 2%nat) then envelopeRefused
  else bash (nestedScript open ++ js " >/dev/null").

(** ** Creating *)

Definition unlockEnvelopeCreateCommand (tool account : jsval) : list (list Z) :=
  if negb (envelopeArgsOk tool account) then envelopeRefused
  else capped (envelopePrelude tool ((fld account "slot")) ++ sh "__s=`$(__salt)`; " ++ sh "__k=`$("
    ++ envelopeNewKey (sh "`$" ++ KEYRING_SECRET_ENV ++ sh "`") (sh "__s") ++ sh ")` || exit " ++ num_text ENVELOPE_kdf ++ sh "; "
    ++ sh "__new=`$(QSBW_UNLOCK_PASSWORD=`$" ++ KEYRING_SECRET_ENV ++ sh "` QSBW_UNLOCK_NEW_KEY=`$__k` " ++ sh "`$__tool` create"
    ++ envelopeAccountArgs account ++ envelopeArgon2Args (sh "__s") ++ sh " | __seal)` " ++ sh "|| exit $?; "
    ++ sh "__verify_account " ++ shellQuote ((fld account "id")) ++ sh " " ++ shellQuote ((fld account "server")) ++ sh "; "
    ++ sh "__vk=`$__k`; __verify_opens `$" ++ KEYRING_SECRET_ENV ++ sh "`" ++ envelopeAccountArgs account ++ sh " --via master; "
    ++ sh "__store").

(** ** Changing *)

Inductive remove_method := RemovePin | RemoveFingerprint | RemoveFido (cred : jsval) | RemoveOther.

Inductive envelope_op :=
| AddPin
| AddFingerprint
| AddFido (cred rp salt : jsval) (saltFromEnv : bool)
| Remove (m : remove_method)
| MarkStale
| Rotate (auth : via)
| OtherOp.

Definition masterKey : list Z :=
  sh "__mk=`$(__wrap_key '.master' `$" ++ KEYRING_SECRET_ENV ++ sh "`)` || exit $?; ".

(** What runs before, the change itself, and the check through the new way. *)
Record update_step := UpdateStep { u_pre : list Z; u_transform : list Z; u_verifyOpen : list Z }.

Definition rotate_auth (auth : via) : option (list Z * list Z * list Z * list Z) :=
  match auth with
  | ViaMaster | ViaPin =>
      '(kind, secret) ← secret_way auth;
      Some (sh "__ak=`$(__wrap_key '." ++ kind ++ sh "' `$" ++ secret ++ sh "`)` || exit $?; ",
            sh "QSBW_UNLOCK_KEY=`$__ak` ", kind, [])
  | ViaFido cred =>
      if is_base64 cred
      then Some ([], sh "QSBW_UNLOCK_KEY=`$" ++ FIDO_HMAC_ENV ++ sh "` ", js "fido", js " --auth-cred " ++ shellQuote cred)
      else None
  | ViaFingerprint => Some ([], [], js "fingerprint", [])
  | ViaOther => None
  end.

Definition update_of (account : jsval) (op : envelope_op) : option update_step :=
  let acct := envelopeAccountArgs account in
  match op with
  | AddPin => Some (UpdateStep
      (masterKey ++ sh "__s=`$(__salt)`; " ++ sh "__pk=`$(" ++ envelopeNewKey (sh "`$" ++ PIN_ENV ++ sh "`") (sh "__s")
         ++ sh ")` || exit " ++ num_text ENVELOPE_kdf ++ sh "; ")
      (sh "QSBW_UNLOCK_KEY=`$__mk` QSBW_UNLOCK_NEW_KEY=`$__pk` `$__tool` add" ++ acct ++ sh " --auth master --method pin"
         ++ envelopeArgon2Args (sh "__s"))
      (sh "__vk=`$__pk`; __verify_opens `$" ++ KEYRING_SECRET_ENV ++ sh "`" ++ acct ++ sh " --via pin; "))
  | AddFingerprint => Some (UpdateStep masterKey
      (sh "QSBW_UNLOCK_KEY=`$__mk` `$__tool` add" ++ acct ++ sh " --auth master --method fingerprint")
      (sh "__vk=''; __verify_opens `$" ++ KEYRING_SECRET_ENV ++ sh "`" ++ acct ++ sh " --via fingerprint; "))
  | AddFido cred rp salt saltFromEnv =>
      let saltArg := if saltFromEnv then sh "`$" ++ FIDO_SALT_ENV ++ sh "`" else shellQuote salt in
      if negb (is_base64 cred) || (negb saltFromEnv && negb (is_base64 salt)) || negb (truthy rp) || existsb is_control (to_string rp)
      then None
      else Some (UpdateStep masterKey
        (sh "QSBW_UNLOCK_KEY=`$__mk` QSBW_UNLOCK_NEW_KEY=`$" ++ FIDO_HMAC_ENV ++ sh "` `$__tool` add" ++ acct
           ++ sh " --auth master --method fido --cred " ++ shellQuote cred ++ sh " --rp " ++ shellQuote rp ++ sh " --fido-salt "
           ++ saltArg)
        (sh "__vk=`$" ++ FIDO_HMAC_ENV ++ sh "`; __verify_opens `$" ++ KEYRING_SECRET_ENV ++ sh "`" ++ acct
           ++ sh " --via fido --cred " ++ shellQuote cred ++ sh "; "))
  | Remove RemovePin => Some (UpdateStep [] (sh "`$__tool` remove --method " ++ js "pin") [])
  | Remove RemoveFingerprint => Some (UpdateStep [] (sh "`$__tool` remove --method " ++ js "fingerprint") [])
  | Remove (RemoveFido cred) =>
      if is_base64 cred
      then Some (UpdateStep [] (sh "`$__tool` remove --method fido --cred " ++ shellQuote cred) [])
      else None
  | Remove RemoveOther => None
  | MarkStale => Some (UpdateStep [] (sh "`$__tool` mark-stale") [])
  | Rotate auth =>
      '(pre, authArgs, kind, credArg) ← rotate_auth auth;
      Some (UpdateStep
        (pre ++ sh "__s=`$(__salt)`; " ++ sh "__nk=`$(" ++ envelopeNewKey (sh "`$" ++ NEW_SECRET_ENV ++ sh "`") (sh "__s")
           ++ sh ")` || exit " ++ num_text ENVELOPE_kdf ++ sh "; ")
        (authArgs ++ sh "QSBW_UNLOCK_PASSWORD=`$" ++ NEW_SECRET_ENV ++ sh "` QSBW_UNLOCK_NEW_KEY=`$__nk` " ++ sh "`$__tool` rotate" ++ acct
           ++ sh " --auth " ++ kind ++ credArg ++ envelopeArgon2Args (sh "__s"))
        (sh "__vk=`$__nk`; __verify_opens `$" ++ NEW_SECRET_ENV ++ sh "`" ++ acct ++ sh " --via master; "))
  | OtherOp => None
  end.

Definition unlockEnvelopeUpdateCommand (tool account : jsval) (op : envelope_op) : list (list Z) :=
  if negb (envelopeArgsOk tool account) then envelopeRefused
  else match update_of account op with
       | Some (UpdateStep pre transform verifyOpen) =>
           capped (envelopePrelude tool ((fld account "slot")) ++ sh "__load; " ++ pre ++ sh "__new=`$(__unseal `$__sealed` | " ++ transform
             ++ sh " | __seal)` || exit $?; " ++ sh "__verify_account " ++ shellQuote ((fld account "id")) ++ sh " "
             ++ shellQuote ((fld account "server")) ++ sh "; " ++ verifyOpen ++ sh "__store")
       | None => envelopeRefused
       end.

(** ** Repairing and purging *)

(** Names of the default slot and of every listed slot, once each. *)
Definition repair_names (slots : jsval) : list (list Z) :=
  let l := JStr DEFAULT_ACCOUNT_SLOT :: match slots with JArr l => l | _ => [] end in
  fold_left (fun names s => if negb (isAccountSlot s) then names
    else let name := keyringEntryName KEYRING_ENVELOPE s in if bool_decide (name ∈ names) then names else names ++ [name]) l [].

Definition keyringRepairCommand (pluginDir slots : jsval) : list (list Z) :=
  match pluginDir with
  | JStr dir =>
      if negb (starts_with (js "/") dir) then envelopeRefused
      else capped (sh "__n=0; " ++ sh "for __a in " ++ join (js " ") (map (fun n => shellQuote (JStr n)) (repair_names slots)) ++ sh "; do "
        ++ sh "__v=`$(secret-tool lookup service " ++ shellQuote (JStr KEYRING_SERVICE) ++ sh " account `$__a` 2>/dev/null "
        ++ sh "| head -c " ++ num_text MAX_ENVELOPE_SEALED_BYTES ++ sh ")` || continue; "
        ++ sh "case `$__v` in *$'\n'*|*$'\r'*) ;; *) continue ;; esac; " ++ sh "__j=`$(printf '%s' `$__v` | tr -d '\n\r')`; __v=''; "
        ++ sh "if printf '%s' `$__j` | systemd-creds --user decrypt --name=" ++ shellQuote (JStr ENVELOPE_CREDENTIAL_NAME)
        ++ sh " - - >/dev/null 2>&1 && printf '%s' `$__j` | secret-tool store --label=" ++ shellQuote (JStr ENVELOPE_LABEL)
        ++ sh " service " ++ shellQuote (JStr KEYRING_SERVICE) ++ sh " account `$__a`; "
        ++ sh "then __n=$((__n + 1)); else echo `rejoin_failed=$__a`; fi; __j=''; " ++ sh "done; " ++ sh "echo `rejoined=$__n`; "
        ++ sh "bash " ++ shellQuote (JStr (drop_trailing is_slash dir ++ js "/scripts/repair-keyring.sh")) ++ sh " --auto")
  | _ => envelopeRefused
  end.

Inductive purge_method := PurgePin | PurgeFingerprint | PurgeFido.

Definition LEGACY_ENTRY_FOR_METHOD (m : purge_method) : list Z :=
  match m with PurgePin => KEYRING_PIN | PurgeFingerprint => KEYRING_MASTER | PurgeFido => KEYRING_FIDO end.

Definition envelopeMethodPurgeScript (tool slot : jsval) (m : purge_method) : list (list Z) :=
  let present := match m with
                 | PurgePin => js ".pin != null"
                 | PurgeFingerprint => js ".fingerprint == true"
                 | PurgeFido => js "(.fido | length) > 0"
                 end in
  capped (envelopePrelude tool slot ++ sh "for __round in $(seq 1 " ++ num_text MAX_PURGE_ROUNDS ++ sh "); do "
    ++ sh "__lookup_result=`$({ __sealed=`$(secret-tool lookup"
    ++ keyringAttributes (JStr (keyringEntryName KEYRING_ENVELOPE slot)) ++ sh " 2>&3 | head -c "
    ++ num_text MAX_ENVELOPE_SEALED_BYTES ++ sh ")`; __lookup_rc=$?; "
    ++ sh "printf '\n%s:%s' `$__lookup_rc` `$(printf '%s' `$__sealed` | base64 -w0)`; } 3>&1)`; "
    ++ sh "__lookup_data=`${__lookup_result##*$'\n'}`; __lookup_error=`${__lookup_result%$'\n'*}`; "
    ++ sh "__lookup_rc=`${__lookup_data%%:*}`; [ -z `$__lookup_error` ] || exit 1; "
    ++ sh "__sealed=`$(printf '%s' `${__lookup_data#*:}` | base64 -d)` || exit 1; "
    ++ sh "if [ `$__lookup_rc` -eq 1 ] && [ -z `$__sealed` ]; then exit 0; fi; "
    ++ sh "[ `$__lookup_rc` -eq 0 ] && [ -n `$__sealed` ] || exit 1; "
    ++ sh "__summary=`$(__unseal `$__sealed` | `$__tool` inspect)` || exit " ++ num_text ENVELOPE_unseal ++ sh "; "
    ++ sh "printf '%s' `$__summary` | jq -e " ++ shellQuote (JStr present) ++ sh " >/dev/null; __present_rc=$?; "
    ++ sh "case `$__present_rc` in 0) ;; 1) exit 0 ;; *) exit 1 ;; esac; "
    ++ sh "__id=`$(printf '%s' `$__summary` | jq -r '.account.id')`; "
    ++ sh "__server=`$(printf '%s' `$__summary` | jq -r '.account.server')`; "
    ++ match m with
       | PurgeFido =>
           sh "__c=`$(printf '%s' `$__summary` | jq -r '.fido[0].cred // empty')`; "
           ++ sh "case `$__c` in ''|*[!A-Za-z0-9+/=]*) exit 4 ;; esac; "
           ++ sh "__new=`$(__unseal `$__sealed` | `$__tool` remove --method fido --cred `$__c` | __seal)` || exit $?; "
       | PurgePin => sh "__new=`$(__unseal `$__sealed` | `$__tool` remove --method " ++ js "pin" ++ sh " | __seal)` || exit $?; "
       | PurgeFingerprint => sh "__new=`$(__unseal `$__sealed` | `$__tool` remove --method " ++ js "fingerprint" ++ sh " | __seal)` || exit $?; "
       end
    ++ sh "__verify_account `$__id` `$__server`; __store; " ++ sh "done; exit 8").

(** The listed slots that are slots, once each. *)
Definition purge_slots (slots : list jsval) : list (list Z) :=
  fold_left (fun l s => match s with
                        | JStr t => if isAccountSlot s && negb (bool_decide (t ∈ l)) then l ++ [t] else l
                        | _ => l
                        end) slots [].

(** [method] is none of the three: [None]. *)
Definition quickUnlockPurgeCommand (tool : jsval) (slots : list jsval) (method : option purge_method) : list (list Z) :=
  match method with
  | Some m =>
      if negb (absolute tool) then envelopeRefused
      else bash (js "rc=0; "
        ++ flat_map (fun slot => nestedScript (envelopeMethodPurgeScript tool (JStr slot) m) ++ sh " || rc=1; " ++ sh "__clear_error=$(secret-tool clear"
             ++ keyringAttributes (JStr (keyringEntryName (LEGACY_ENTRY_FOR_METHOD m) (JStr slot)))
             ++ sh " 2>&1 >/dev/null; __status=$?; printf '.'; exit `$__status`); __clear_rc=$?; __clear_error=`${__clear_error%.}`; "
             ++ sh "if [ `$__clear_rc` -ne 0 ] && { [ `$__clear_rc` -ne 1 ] || [ -n `$__clear_error` ]; }; then rc=1; fi; ") (purge_slots slots)
        ++ sh "exit `$rc`")
  | None => envelopeRefused
  end.

(** ** Moving older entries *)

Definition legacyMigrationCommand (tool account : jsval) (legacyAccount : list Z) (addOp : envelope_op) (passwordFromKeyring : bool) : list (list Z) :=
  if negb (envelopeArgsOk tool account) then envelopeRefused
  else capped (
    (if passwordFromKeyring
     then sh "__pw=`$(" ++ keyringReadScript (JStr (keyringEntryName legacyAccount ((fld account "slot")))) ++ sh ")`; "
       ++ sh "[ -n `$__pw` ] || exit " ++ num_text LEGACY_none ++ sh "; " ++ sh "export " ++ KEYRING_SECRET_ENV
       ++ sh "=`$__pw`; unset __pw; "
     else sh "[ -n `${" ++ KEYRING_SECRET_ENV ++ sh ":-}` ] || exit " ++ num_text LEGACY_none ++ sh "; ")
    ++ nestedScript (unlockEnvelopeOpenCommand tool account ViaMaster) ++ sh " >/dev/null; __rc=$?; " ++ sh "case `$__rc` in "
    ++ sh "0) ;; " ++ num_text ENVELOPE_absent ++ sh "|6|" ++ num_text ENVELOPE_unseal ++ sh ") "
    ++ nestedScript (unlockEnvelopeCreateCommand tool account) ++ sh " || exit $? ;; " ++ sh "3) exit " ++ num_text LEGACY_mismatch
    ++ sh " ;; " ++ sh "*) exit `$__rc` ;; esac; " ++ nestedScript (unlockEnvelopeUpdateCommand tool account addOp)
    ++ sh " || exit $?; " ++ sh "secret-tool clear"
    ++ keyringAttributes (JStr (keyringEntryName legacyAccount ((fld account "slot")))) ++ sh " >/dev/null 2>&1; exit 0").

Definition legacyFingerprintMigrationCommand (tool account : jsval) : list (list Z) :=
  legacyMigrationCommand tool account KEYRING_MASTER AddFingerprint true.
Definition legacyPinMigrationCommand (tool account : jsval) : list (list Z) :=
  legacyMigrationCommand tool account KEYRING_PIN AddPin false.

(** ** Security keys *)

Definition fidoAssertScript (target : jsval) (saltExpr : list Z) : list Z :=
  sh "__cdh=`$(head -c 32 /dev/urandom | base64 -w0)`; " ++ sh "__out=`$(printf '%s\n%s\n%s\n%s\n' `$__cdh` "
  ++ shellQuote ((fld target "rp")) ++ sh " " ++ shellQuote ((fld target "cred")) ++ sh " " ++ saltExpr
  ++ sh " | timeout 45 fido2-assert -G -h " ++ shellQuote ((fld target "device")) ++ sh " 2>/dev/null)` || exit "
  ++ num_text FIDO_assert ++ sh "; " ++ sh "__hmac=`$(printf '%s\n' `$__out` | sed -n 5p)`; unset __out; "
  ++ sh "[ -n `$__hmac` ] || exit " ++ num_text FIDO_noSecret ++ sh "; " ++ sh "export " ++ FIDO_HMAC_ENV
  ++ sh "=`$__hmac`; unset __hmac; ".

Definition fidoNewSaltScript : list Z :=
  sh "export " ++ FIDO_SALT_ENV ++ sh "=`$(head -c 32 /dev/urandom | base64 -w0)`; ".

Definition fidoUnlockCommand (tool account target : jsval) : list (list Z) :=
  if negb (envelopeArgsOk tool account) || negb (fidoTargetOk target) || negb (is_base64 (fld target "salt")) then envelopeRefused
  else capped (fidoAssertScript target (shellQuote (fld target "salt"))
    ++ nestedScript (unlockEnvelopeOpenCommand tool account (ViaFido (fld target "cred")))).

Definition fresh_fido (target : jsval) : envelope_op := AddFido (fld target "cred") (fld target "rp") JUndef true.

Definition fidoEnrollCommand (tool account target : jsval) : list (list Z) :=
  if negb (envelopeArgsOk tool account) || negb (fidoTargetOk target) then envelopeRefused
  else capped (fidoNewSaltScript ++ fidoAssertScript target (sh "`$" ++ FIDO_SALT_ENV ++ sh "`")
    ++ nestedScript (unlockEnvelopeUpdateCommand tool account (fresh_fido target))).

Definition fidoLegacyUnlockCommand (tool account target : jsval) : list (list Z) :=
  if negb (envelopeArgsOk tool account) || negb (fidoTargetOk target) then envelopeRefused
  else
    let migrate := legacyMigrationCommand tool account KEYRING_FIDO (fresh_fido target) false in
    capped (sh "__pw=`$(" ++ keyringReadScript (JStr (keyringEntryName KEYRING_FIDO ((fld account "slot")))) ++ sh ")`; "
      ++ sh "[ -n `$__pw` ] || exit " ++ num_text LEGACY_none ++ sh "; " ++ fidoNewSaltScript
      ++ fidoAssertScript target (sh "`$" ++ FIDO_SALT_ENV ++ sh "`") ++ sh "export " ++ KEYRING_SECRET_ENV ++ sh "=`$__pw`; "
      ++ sh "if " ++ nestedScript (migrate) ++ sh " >/dev/null; then "
      ++ nestedScript (unlockEnvelopeOpenCommand tool account ((ViaFido (fld target "cred")))) ++ sh " && exit 0; fi; "
      ++ sh "printf '%s' `$__pw`; exit " ++ num_text FIDO_legacyUsed).

(** ** Clearing everything *)

Definition keyringSearchStateScript (account : jsval) (resultVar : list Z) : list Z :=
  let attrs := keyringAttributes account in
  resultVar ++ sh "=$(secret-tool search --all" ++ attrs ++ sh " 2>/dev/null | wc -c | tr -d '[:space:]'; "
  ++ sh "__keyring_pipe=(`${PIPESTATUS[@]}`); " ++ sh "printf ':%s' `${__keyring_pipe[0]}`); ".

Definition keyringClearAllCommand (slot : jsval) : list (list Z) :=
  bash (js "rc=0; "
    ++ flat_map (fun base =>
         let entry := keyringEntryName base slot in
         let attrs := keyringAttributes (JStr entry) in
         keyringSearchStateScript (JStr entry) (sh "__keyring_before")
         ++ sh "__keyring_count=${__keyring_before%%:*}; " ++ sh "__keyring_search_rc=${__keyring_before##*:}; "
         ++ sh "if [ `$__keyring_search_rc` -ne 0 ]; then rc=1; " ++ sh "elif [ `$__keyring_count` -gt 0 ]; then "
         ++ sh "secret-tool search --all --unlock" ++ attrs ++ sh " >/dev/null 2>&1 || true; " ++ sh "secret-tool clear" ++ attrs
         ++ sh " >/dev/null 2>&1 || true; "
         ++ keyringSearchStateScript (JStr entry) (sh "__keyring_after")
         ++ sh "__keyring_count=${__keyring_after%%:*}; " ++ sh "__keyring_search_rc=${__keyring_after##*:}; "
         ++ sh "if [ `$__keyring_search_rc` -ne 0 ] || [ `$__keyring_count` -ne 0 ]; then rc=1; fi; fi; ") KEYRING_ALL_ACCOUNTS
    ++ sh "exit `$rc`").
