(* ===== verification/UnlockCorrect.v ===== *)
(** * Security keys offered are usable, and pinentry arguments are safe *)

From S2P Require Import Prelude.
From S2P Require Import JsNum.
From S2P Require Import JsString.
From S2P Require Import JsValue.
From S2P Require Import Regex.
From S2P Require Import Accounts.
From S2P Require Import Shell.
From S2P Require Import Items.
From S2P Require Import ItemsCorrect.
From S2P Require Import Setup.
From S2P Require Import Unlock.
From S2P Require Import Envelope.

(** ** Credentials *)

(** What every credential of a probe satisfies. *)
Definition credential_ok (c : credential) : Prop :=
  test ENVELOPE_BASE64_RE (c_cred c) = true /\ c_needsPin c = test NEEDS_PIN_RE (c_options c).

Lemma fido_credential_ok value c : fido_credential value = Some c -> credential_ok c.
Proof.
  unfold fido_credential. destruct (split_on _ value) as [|cred [|options [|device [|]]]]; try done.
  destruct (test ENVELOPE_BASE64_RE cred) eqn:E; [|done]. by intros [= <-].
Qed.

Lemma fido_lines_ok ls st : Forall credential_ok st.2 -> Forall credential_ok (fold_left fido_line ls st).2.
Proof.
  revert st. induction ls as [|l ls IH]; intros st Hst; cbn [fold_left]; [done|]. apply IH. unfold fido_line.
  destruct (key_value (trim l)) as [[key value]|]; [|done]. cbv zeta. destruct (str_eqb key (js "cred")); [|done].
  apply Forall_app_2; [done|]. destruct (fido_credential (trim value)) as [c|] eqn:E; [|constructor].
  constructor; [by eapply fido_credential_ok|constructor].
Qed.

(** The target the panel makes of a credential. *)
Definition target_of (p : fido_probe) (c : credential) : jsval :=
  JObj [(js "device", JStr (c_device c)); (js "cred", JStr (c_cred c)); (js "rp", JStr (f_rp p))].

Lemma probe_fields raw : let p := parseFidoProbe raw in
  Forall credential_ok (f_credentials p) /\
  f_usable p = List.filter (fun c => negb (bool_decide (c_device c = [])) && negb (c_needsPin c)) (f_credentials p) /\
  f_ready p = f_installed p && f_registered p && f_tokenPresent p && negb (bool_decide (f_rp p = [])) && negb (bool_decide (f_usable p = [])) /\
  (f_rp p <> [] -> test FIDO_RP_RE (f_rp p) = true).
Proof.
  unfold parseFidoProbe. pose proof (fido_lines_ok (lines (text_present raw)) ([], []) (Forall_nil_2 _)) as Hc.
  destruct (fold_left fido_line _ _) as [found creds]. cbn [snd f_credentials f_usable f_ready f_rp f_installed f_registered f_tokenPresent] in *. split_and!; [done..|].
  destruct (test FIDO_RP_RE (text (obj_get found (js "rp")))) eqn:E; intros Hne; [exact E|congruence].
Qed.

(** ** Properties *)

(** A security key is offered only when it can be used.  If a probe reads as
    ready, the tools, the registration and a key are there and at least one
    credential is usable; a usable credential is one of the registered ones, held by a
    plugged-in key, and never one that asks for the key's PIN; and with a device path
    of the expected shape, the unlock and enrolment scripts do not refuse it. *)
Theorem fido_ready_usable raw :
  let p := parseFidoProbe raw in
  (f_ready p = true -> f_installed p = true /\ f_registered p = true /\ f_tokenPresent p = true /\ f_usable p <> []) /\
  (forall c, c ∈ f_usable p ->
     c ∈ f_credentials p /\ c_device c <> [] /\ test NEEDS_PIN_RE (c_options c) = false /\
     (f_ready p = true -> test FIDO_DEVICE_RE (c_device c) = true -> fidoTargetOk (target_of p c) = true)).
Proof.
  cbv zeta. destruct (probe_fields raw) as (Hc & Hu & Hr & Hp). set (p := parseFidoProbe raw) in *. clearbody p. split.
  - rewrite Hr, !andb_true_iff, !negb_true_iff, !bool_decide_eq_false. naive_solver.
  - intros c. rewrite Hu, list_elem_of_In, filter_In, andb_true_iff, !negb_true_iff, bool_decide_eq_false. intros (Hin & Hd & Hn).
    apply list_elem_of_In in Hin. rewrite Forall_forall in Hc. destruct (Hc c Hin) as [H1 H2]. split_and!; [done|done|congruence|].
    rewrite Hr, !andb_true_iff, !negb_true_iff, !bool_decide_eq_false. intros ((_ & Hrp) & _) Hdev.
    unfold fidoTargetOk. change (fld (target_of p c) "device") with (JStr (c_device c)).
    change (fld (target_of p c) "cred") with (JStr (c_cred c)). change (fld (target_of p c) "rp") with (JStr (f_rp p)).
    by rewrite text_JStr, Hdev, H1, (Hp Hrp).
Qed.

Definition probe_text : jsval :=
  JStr (js "fido_installed=1" ++ [10] ++ js "fido_registered=1" ++ [10] ++ js "fido_token=1" ++ [10] ++ js "rp=pam://host" ++ [10]
        ++ js "cred=AAAA|es256,+presence|/dev/hidraw1" ++ [10] ++ js "cred=BBBB|es256,+presence+pin|/dev/hidraw1").

Example probe_ready :
  f_ready (parseFidoProbe probe_text) = true /\ map c_cred (f_usable (parseFidoProbe probe_text)) = [js "AAAA"]
  /\ map c_cred (f_credentials (parseFidoProbe probe_text)) = [js "AAAA"; js "BBBB"].
Proof. vm_compute. done. Qed.
