(* ===== verification/EnvelopeRun.v ===== *)
(** * What the envelope's scripts do ([BitwardenModel.js])

    The scripts of [Envelope], read as programs on the keyring.  The programs they
    start are parameters: the unlock tool, systemd-creds, argon2, fido2-assert, the
    random salt, and whether the keyring accepts a store or a clear.  A failing step
    ends the script with its exit code and changes nothing; this is how the scripts
    are written, with [set -o pipefail] and an exit after every step. *)

From stdpp Require Import gmap.
From S2P Require Import Prelude.
From S2P Require Import JsNum.
From S2P Require Import JsString.
From S2P Require Import JsUnicode.
From S2P Require Import JsValue.
From S2P Require Import Json.
From S2P Require Import Accounts.
From S2P Require Import Shell.
From S2P Require Import Items.
From S2P Require Import Unlock.
From S2P Require Import Envelope.
From S2P Require Import Vault.

(** What a program leaves: exit code and output. *)
Definition ran : Type := Z * list Z.

Class Programs := {
  unlock_tool : list (list Z) -> list (list Z * list Z) -> list Z -> ran;  (** arguments, environment, input *)
  creds_encrypt : list Z -> ran;
  creds_decrypt : list Z -> ran;
  argon2 : list Z -> list Z -> list Z -> list Z -> list Z -> ran;          (** secret, salt, t, m, p *)
  fido2_assert : list Z -> list Z -> list Z -> list Z -> ran;              (** relying party, credential, salt, device *)
  drawn_salt : list Z;
  drawn_fido_salt : list Z;
  store_works : list Z -> list Z -> bool;                                  (** secret-tool store of an entry *)
  store_prints : list Z -> list Z -> list Z;                               (** ... and its output *)
  clear_works : list Z -> bool                                             (** secret-tool clear of an entry *)
}.

(** The keyring: the secret of each entry. *)
Notation keyring := (gmap (list Z) (list Z)).

(** What the panel puts into a script's environment. *)
Record secrets := Secrets { s_password : list Z; s_pin : list Z; s_new : list Z; s_hmac : list Z; s_fido_salt : list Z }.

(** A step of a script: its exit code, or a value. *)
Definition step (A : Type) : Type := Z + A.
Definition step_bind {A B} (m : step A) (f : A -> step B) : step B := match m with inl c => inl c | inr a => f a end.
Notation "x <~ m ; k" := (step_bind m (fun x => k)) (at level 20, m at level 100, k at level 200, only parsing).
Notation "m ;~ k" := (step_bind m (fun _ : unit => k)) (at level 99, right associativity, only parsing).

Definition require (code : Z) (b : bool) : step unit := if b then inr tt else inl code.

(** A pipe under pipefail: the last failure is the pipe's. *)
Definition pipe (a : ran) (f : list Z -> ran) : ran :=
  let '(c2, out) := f a.2 in (if c2 =? 0 then a.1 else c2, out).

(** [$(...)]: output without its final newlines; [fail] maps a failing status to
    the script's exit code. *)
Definition newlines_cut (s : list Z) : list Z := drop_trailing (fun c => c =? 10) s.
Definition output_of (r : ran) (fail : Z -> Z) : step (list Z) := if r.1 =? 0 then inr (newlines_cut r.2) else inl (fail r.1).

Section programs.
  Context `{!Jq, !Programs}.

(** ** The functions of the prelude *)

Definition entry_of (account : jsval) : list Z := keyringEntryName KEYRING_ENVELOPE (fld account "slot").

Definition run_lookup (k : keyring) (entry : list Z) (cap : Z) : list Z :=
  newlines_cut (take (Z.to_nat cap) (default [] (k !! entry))).

Definition run_seal (plain : list Z) : ran :=
  let '(c, out) := creds_encrypt plain in (c, List.filter (fun u => negb ((u =? 10) || (u =? 13))) out).

Definition run_inspect (sealed : list Z) : ran := pipe (creds_decrypt sealed) (unlock_tool [js "inspect"] []).

(** The sealed envelope and its summary. *)
Definition run_load (k : keyring) (account : jsval) : step (list Z * list Z) :=
  let sealed := run_lookup k (entry_of account) MAX_ENVELOPE_SEALED_BYTES in
  require ENVELOPE_absent (negb (bool_decide (sealed = []))) ;~
  summary <~ output_of (run_inspect sealed) (fun _ => ENVELOPE_unseal);
  inr (sealed, summary).

(** A field in a jq string. *)
Definition jq_text (v : jsval) : list Z := match v with JStr s => s | _ => jq_print v end.

(** The parameters of the wrap at a path of the summary, on one line; empty when it
    is not there. *)
Definition run_params (path : string) (summary : list Z) : list Z :=
  match parse summary ≫= jq_get path with
  | Some w =>
      if jq_truthy w
      then match mapM (fun f => jq_get f w) ["salt"; "t"; "m"; "p"]%string with
           | Some fs => newlines_cut (join (js " ") (map jq_text fs))
           | None => []
           end
      else []
  | None => []
  end.

(** [read -r a b c d]: three words, and the rest. *)
Definition is_blank (c : Z) : bool := (c =? 32) || (c =? 9) || (c =? 10).
Definition next_word (s : list Z) : list Z * list Z := span (fun c => negb (is_blank c)) (drop_while is_blank s).
Definition read_fields (line : list Z) : list Z * list Z * list Z * list Z :=
  let '(a, r) := next_word line in
  let '(b, r) := next_word r in
  let '(c, r) := next_word r in
  (a, b, c, drop_trailing is_blank (drop_while is_blank r)).

Definition run_wrap_key (path : string) (secret summary : list Z) : step (list Z) :=
  let line := run_params path summary in
  require 7 (negb (bool_decide (line = []))) ;~
  let '(s, t, m, p) := read_fields line in
  output_of (argon2 secret s t m p) (fun _ => ENVELOPE_kdf).

(** The key of a new wrap, for the salt just drawn. *)
Definition run_new_key (secret : list Z) : step (list Z) :=
  output_of (argon2 secret drawn_salt (num_text ARGON2_t) (num_text ARGON2_m) (num_text ARGON2_p)) (fun _ => ENVELOPE_kdf).

(** [jq -e '.account.id == $id and .account.server == $server'] succeeds. *)
Definition account_named (id server summary : list Z) : bool :=
  match parse summary with
  | Some v =>
      let is_text k t := match jq_path "account" k v with Some (JStr u) => str_eqb u t | _ => false end in
      is_text "id"%string id && is_text "server"%string server
  | None => false
  end.

Definition run_verify_account (new id server : list Z) : step unit :=
  let '(c, summary) := run_inspect new in
  require ENVELOPE_verify ((c =? 0) && account_named id server summary).

(** What opening a sealed envelope prints. *)
Definition opens_to (sealed : list Z) (args : list (list Z)) (key : list Z) : list Z :=
  (pipe (creds_decrypt sealed) (unlock_tool (js "open" :: args) [(js "QSBW_UNLOCK_KEY", key)])).2.

Definition run_verify_opens (new password : list Z) (args : list (list Z)) (key : list Z) : step unit :=
  require ENVELOPE_verify (bool_decide (password = opens_to new args key)).

Definition run_store (k : keyring) (account : jsval) (new : list Z) : Z * keyring :=
  if store_works (entry_of account) new then (0, <[entry_of account := new]> k) else (ENVELOPE_store, k).

(** ** Arguments of the tool *)

Definition account_argv (account : jsval) : list (list Z) :=
  [js "--account-id"; text (fld account "id"); js "--server"; text (fld account "server")].
Definition argon2_argv : list (list Z) :=
  [js "--salt"; drawn_salt; js "--m"; num_text ARGON2_m; js "--t"; num_text ARGON2_t; js "--p"; num_text ARGON2_p].

(** [--via] of a way. *)
Definition via_argv (v : via) : list (list Z) :=
  match v with
  | ViaMaster => [js "--via"; js "master"]
  | ViaPin => [js "--via"; js "pin"]
  | ViaFingerprint => [js "--via"; js "fingerprint"]
  | ViaFido cred => [js "--via"; js "fido"; js "--cred"; text cred]
  | ViaOther => []
  end.

(** ** Opening *)

Definition run_open (k : keyring) (tool account : jsval) (v : via) (s : secrets) : ran :=
  if negb (envelopeArgsOk tool account) then (2, [])
  else if bool_decide (open_step account v = None) then (2, [])
  else
    let opened sealed env :=
      let '(c, out) := pipe (creds_decrypt sealed) (unlock_tool (js "open" :: account_argv account ++ via_argv v) env) in
      inr (if c =? 141 then 0 else c, take (Z.to_nat MAX_TOKEN_BYTES) out) in
    match (ls <~ run_load k account;
           match v with
           | ViaMaster => key <~ run_wrap_key "master" (s_password s) ls.2; opened ls.1 [(js "QSBW_UNLOCK_KEY", key)]
           | ViaPin => key <~ run_wrap_key "pin" (s_pin s) ls.2; opened ls.1 [(js "QSBW_UNLOCK_KEY", key)]
           | ViaFido _ => opened ls.1 [(js "QSBW_UNLOCK_KEY", s_hmac s)]
           | _ => opened ls.1 []
           end) with
    | inl c => (c, [])
    | inr r => r
    end.

(** ** Creating *)

Definition create_argv (account : jsval) : list (list Z) := js "create" :: account_argv account ++ argon2_argv.

(** The new sealed envelope, checked. *)
Definition create_new (account : jsval) (s : secrets) : step (list Z) :=
  let password := s_password s in
  key <~ run_new_key password;
  new <~ output_of (pipe (unlock_tool (create_argv account) [(js "QSBW_UNLOCK_PASSWORD", password); (js "QSBW_UNLOCK_NEW_KEY", key)] []) run_seal) (fun c => c);
  run_verify_account new (text (fld account "id")) (text (fld account "server")) ;~
  run_verify_opens new password (account_argv account ++ via_argv ViaMaster) key ;~
  inr new.

Definition commit (k : keyring) (account : jsval) (new : step (list Z)) : Z * keyring :=
  match new with inl c => (c, k) | inr new => run_store k account new end.

Definition run_create (k : keyring) (tool account : jsval) (s : secrets) : Z * keyring :=
  if negb (envelopeArgsOk tool account) then (2, k) else commit k account (create_new account s).

(** ** Changing *)

(** A change of the tool: arguments and environment; then the password the new
    envelope must print, and how: the way and its key. *)
Record planned := Planned {
  p_argv : list (list Z); p_env : list (list Z * list Z);
  p_check : option (list Z * via * list Z)
}.

Definition KEY : list Z := js "QSBW_UNLOCK_KEY".
Definition NEW_KEY : list Z := js "QSBW_UNLOCK_NEW_KEY".

(** Who authorizes a rotation: the environment for it, and the arguments. *)
Definition run_auth (auth : via) (s : secrets) (summary : list Z) : step (list (list Z * list Z) * list (list Z)) :=
  match auth with
  | ViaMaster => key <~ run_wrap_key "master" (s_password s) summary; inr ([(KEY, key)], [js "--auth"; js "master"])
  | ViaPin => key <~ run_wrap_key "pin" (s_pin s) summary; inr ([(KEY, key)], [js "--auth"; js "pin"])
  | ViaFido cred => inr ([(KEY, s_hmac s)], [js "--auth"; js "fido"; js "--auth-cred"; text cred])
  | _ => inr ([], [js "--auth"; js "fingerprint"])
  end.

Definition plan (account : jsval) (op : envelope_op) (s : secrets) (summary : list Z) : step planned :=
  let acct := account_argv account in
  let add method := js "add" :: acct ++ [js "--auth"; js "master"; js "--method"; method] in
  match op with
  | AddPin =>
      mk <~ run_wrap_key "master" (s_password s) summary;
      pk <~ run_new_key (s_pin s);
      inr (Planned (add (js "pin") ++ argon2_argv) [(KEY, mk); (NEW_KEY, pk)] (Some (s_password s, ViaPin, pk)))
  | AddFingerprint =>
      mk <~ run_wrap_key "master" (s_password s) summary;
      inr (Planned (add (js "fingerprint")) [(KEY, mk)] (Some (s_password s, ViaFingerprint, [])))
  | AddFido cred rp salt saltFromEnv =>
      mk <~ run_wrap_key "master" (s_password s) summary;
      inr (Planned (add (js "fido") ++ [js "--cred"; text cred; js "--rp"; text rp; js "--fido-salt"; if saltFromEnv then s_fido_salt s else text salt])
             [(KEY, mk); (NEW_KEY, s_hmac s)] (Some (s_password s, ViaFido cred, s_hmac s)))
  | Remove RemovePin => inr (Planned [js "remove"; js "--method"; js "pin"] [] None)
  | Remove RemoveFingerprint => inr (Planned [js "remove"; js "--method"; js "fingerprint"] [] None)
  | Remove (RemoveFido cred) => inr (Planned [js "remove"; js "--method"; js "fido"; js "--cred"; text cred] [] None)
  | MarkStale => inr (Planned [js "mark-stale"] [] None)
  | Rotate auth =>
      ea <~ run_auth auth s summary;
      nk <~ run_new_key (s_new s);
      inr (Planned (js "rotate" :: acct ++ ea.2 ++ argon2_argv) (ea.1 ++ [(js "QSBW_UNLOCK_PASSWORD", s_new s); (NEW_KEY, nk)])
             (Some (s_new s, ViaMaster, nk)))
  | Remove RemoveOther | OtherOp => inl 2
  end.

Definition update_new (k : keyring) (account : jsval) (op : envelope_op) (s : secrets) : step (list Z) :=
  ls <~ run_load k account;
  p <~ plan account op s ls.2;
  new <~ output_of (pipe (pipe (creds_decrypt ls.1) (unlock_tool (p_argv p) (p_env p))) run_seal) (fun c => c);
  run_verify_account new (text (fld account "id")) (text (fld account "server")) ;~
  (match p_check p with
   | Some (password, v, key) => run_verify_opens new password (account_argv account ++ via_argv v) key
   | None => inr tt
   end) ;~
  inr new.

Definition run_update (k : keyring) (tool account : jsval) (op : envelope_op) (s : secrets) : Z * keyring :=
  if negb (envelopeArgsOk tool account) then (2, k)
  else if bool_decide (is_Some (update_of account op)) then commit k account (update_new k account op s) else (2, k).

(** ** Moving an older entry *)

Definition run_clear (k : keyring) (entry : list Z) : keyring := if clear_works entry then delete entry k else k.

(** The password: of the entry, or already in the environment. *)
Definition legacy_password (k : keyring) (entry : list Z) (fromKeyring : bool) (s : secrets) : list Z :=
  if fromKeyring then run_lookup k entry MAX_TOKEN_BYTES else s_password s.

(** All that a script that stores prints is what the store does; the rest of its output
    is captured or thrown away. *)
Definition new_prints (account : jsval) (new : step (list Z)) : list Z :=
  match new with inr new => store_prints (entry_of account) new | inl _ => [] end.
Definition create_script (k : keyring) (tool account : jsval) (s : secrets) : ran * keyring :=
  let '(c, k') := run_create k tool account s in ((c, if envelopeArgsOk tool account then new_prints account (create_new account s) else []), k').
Definition update_script (k : keyring) (tool account : jsval) (op : envelope_op) (s : secrets) : ran * keyring :=
  let '(c, k') := run_update k tool account op s in
  ((c, if envelopeArgsOk tool account && bool_decide (is_Some (update_of account op)) then new_prints account (update_new k account op s) else []), k').

(** Exit code, what is printed, and the keyring. *)
Definition legacyMigration_script (k : keyring) (tool account : jsval) (legacy : list Z) (op : envelope_op) (fromKeyring : bool) (s : secrets) : ran * keyring :=
  if negb (envelopeArgsOk tool account) then ((2, []), k)
  else
    let entry := keyringEntryName legacy (fld account "slot") in
    let password := legacy_password k entry fromKeyring s in
    let s := Secrets password (s_pin s) (s_new s) (s_hmac s) (s_fido_salt s) in
    if bool_decide (password = []) then ((LEGACY_none, []), k)
    else
      let rc := (run_open k tool account ViaMaster s).1 in
      let '(c, out1, k1) :=
        if rc =? 0 then ((0, []), k)
        else if (rc =? ENVELOPE_absent) || (rc =? 6) || (rc =? ENVELOPE_unseal) then create_script k tool account s
        else if rc =? 3 then ((LEGACY_mismatch, []), k)
        else ((rc, []), k) in
      if negb (c =? 0) then ((c, out1), k1)
      else
        let '(c, out2, k2) := update_script k1 tool account op s in
        if negb (c =? 0) then ((c, out1 ++ out2), k2) else ((0, out1 ++ out2), run_clear k2 entry).

Definition run_migration (k : keyring) (tool account : jsval) (legacy : list Z) (op : envelope_op) (fromKeyring : bool) (s : secrets) : Z * keyring :=
  let '(c, _, k') := legacyMigration_script k tool account legacy op fromKeyring s in (c, k').

(** [>/dev/null] *)
Definition quiet (r : ran) : ran := (r.1, []).

(** ** Security keys *)

(** One touch: the fifth line of the answer. *)
Definition run_assert (target : jsval) (salt : list Z) : step (list Z) :=
  out <~ output_of (fido2_assert (text (fld target "rp")) (text (fld target "cred")) salt (text (fld target "device"))) (fun _ => FIDO_assert);
  let hmac := default [] (split_on (fun c => c =? 10) out !! 4%nat) in
  require FIDO_noSecret (negb (bool_decide (hmac = []))) ;~
  inr hmac.

Definition run_fido_unlock (k : keyring) (tool account target : jsval) (s : secrets) : ran :=
  if negb (envelopeArgsOk tool account) || negb (fidoTargetOk target) || negb (is_base64 (fld target "salt")) then (2, [])
  else match run_assert target (text (fld target "salt")) with
       | inl c => (c, [])
       | inr hmac => run_open k tool account (ViaFido (fld target "cred")) (Secrets (s_password s) (s_pin s) (s_new s) hmac (s_fido_salt s))
       end.

Definition run_fido_enroll (k : keyring) (tool account target : jsval) (s : secrets) : Z * keyring :=
  if negb (envelopeArgsOk tool account) || negb (fidoTargetOk target) then (2, k)
  else match run_assert target drawn_fido_salt with
       | inl c => (c, k)
       | inr hmac => run_update k tool account (fresh_fido target) (Secrets (s_password s) (s_pin s) (s_new s) hmac drawn_fido_salt)
       end.

(** Exit code, what is printed, and the keyring. *)
Definition run_fido_legacy (k : keyring) (tool account target : jsval) (s : secrets) : ran * keyring :=
  if negb (envelopeArgsOk tool account) || negb (fidoTargetOk target) then ((2, []), k)
  else
    let password := run_lookup k (keyringEntryName KEYRING_FIDO (fld account "slot")) MAX_TOKEN_BYTES in
    if bool_decide (password = []) then ((LEGACY_none, []), k)
    else match run_assert target drawn_fido_salt with
         | inl c => ((c, []), k)
         | inr hmac =>
             let s := Secrets password (s_pin s) (s_new s) hmac drawn_fido_salt in
             let '(m, k1) := legacyMigration_script k tool account KEYRING_FIDO (fresh_fido target) false s in
             let '(c, printed) := quiet m in
             if c =? 0 then
               let '(c2, out) := run_open k1 tool account (ViaFido (fld target "cred")) s in
               if c2 =? 0 then ((0, printed ++ out), k1) else ((FIDO_legacyUsed, printed ++ out ++ password), k1)
             else ((FIDO_legacyUsed, printed ++ password), k1)
         end.
End programs.
