(* ===== verification/EnvelopeRunCorrect.v ===== *)
(** * Writes commit last

    Whatever the programs the envelope's scripts start do, a script that fails
    leaves the keyring as it was, and one that succeeds has stored an envelope that
    was seen to open, for the right account, to the right password.  An older entry
    is deleted only once the envelope in the keyring opens to its password. *)

From stdpp Require Import gmap.
From S2P Require Import Prelude.
From S2P Require Import JsNum.
From S2P Require Import JsString.
From S2P Require Import JsValue.
From S2P Require Import Json.
From S2P Require Import Accounts.
From S2P Require Import Shell.
From S2P Require Import Items.
From S2P Require Import ItemsCorrect.
From S2P Require Import Unlock.
From S2P Require Import Envelope.
From S2P Require Import Vault.
From S2P Require Import VaultCorrect.
From S2P Require Import EnvelopeRun.

(** ** Steps *)

(** A step that fails, fails with a code that is not success. *)
Definition fails_loudly {A} (m : step A) : Prop := forall c, m = inl c -> c <> 0.

Lemma loud_bind {A B} (m : step A) (f : A -> step B) :
  fails_loudly m -> (forall a, fails_loudly (f a)) -> fails_loudly (step_bind m f).
Proof. intros Hm Hf c. destruct m as [c'|a]; cbn; [intros [= ->]; by apply Hm|apply Hf]. Qed.

Lemma loud_inr {A} (a : A) : fails_loudly (inr a).
Proof. intros c [=]. Qed.

Lemma loud_inl {A} c : c <> 0 -> fails_loudly (inl c : step A).
Proof. by intros Hc c' [= <-]. Qed.

Lemma loud_require code b : code <> 0 -> fails_loudly (require code b).
Proof. intros Hc c. unfold require. destruct b; [done|]. by intros [= <-]. Qed.

Lemma loud_output r fail : (forall c, c <> 0 -> fail c <> 0) -> fails_loudly (output_of r fail).
Proof. intros Hf c. unfold output_of. destruct (Z.eqb_spec r.1 0); [done|]. intros [= <-]. by apply Hf. Qed.

Create HintDb loud.
#[export] Hint Resolve loud_inr loud_require loud_output : loud.
#[export] Hint Extern 1 (_ <> 0) => (by vm_compute || done) : loud.

Ltac loud := repeat first [ apply loud_bind; [|intros ?] | by apply loud_inl | solve [auto with loud] | case_match ].

Lemma require_inr code b u : require code b = inr u -> b = true.
Proof. unfold require. by destruct b. Qed.

Lemma step_bind_inr {A B} (m : step A) (f : A -> step B) b : step_bind m f = inr b <-> exists a, m = inr a /\ f a = inr b.
Proof. destruct m as [c|a]; cbn; [|naive_solver]. split; [done|]. by intros (a & [=] & _). Qed.

Ltac steps H :=
  repeat match type of H with
  | step_bind _ _ = inr _ => let a := fresh "a" in let E := fresh "E" in apply step_bind_inr in H as (a & E & H)
  end.

Lemma newlines_cut_keep s : last s <> Some 10 -> newlines_cut s = s.
Proof.
  intros Hl. unfold newlines_cut, drop_trailing. destruct s as [|c s] using rev_ind; [done|]. rewrite rev_app_distr. cbn.
  rewrite last_snoc in Hl. destruct (Z.eqb_spec c 10) as [->|]; [done|]. cbn. by rewrite rev_involutive.
Qed.

Section programs.
  Context `{!Jq, !Programs}.

(** ** What a change promises *)

(** The password a change must leave in the envelope, the way that was checked, and
    the key that way was checked with. *)
Definition promise (op : envelope_op) (s : secrets) : option (list Z * via * step (list Z)) :=
  match op with
  | AddPin => Some (s_password s, ViaPin, run_new_key (s_pin s))
  | AddFingerprint => Some (s_password s, ViaFingerprint, inr [])
  | AddFido cred _ _ _ => Some (s_password s, ViaFido cred, inr (s_hmac s))
  | Rotate _ => Some (s_new s, ViaMaster, run_new_key (s_new s))
  | _ => None
  end.

(** An envelope that is for the account and prints the password through a way. *)
Definition names_account (sealed : list Z) (account : jsval) : Prop :=
  (run_inspect sealed).1 = 0 /\ account_named (text (fld account "id")) (text (fld account "server")) (run_inspect sealed).2 = true.
Definition opens_with (sealed : list Z) (account : jsval) (v : via) (key password : list Z) : Prop :=
  opens_to sealed (account_argv account ++ via_argv v) key = password.

(** Nothing that a text file of secrets could trip over. *)
Definition one_line (s : list Z) : Prop := 10 ∉ s /\ 13 ∉ s.

Definition kept (sealed : list Z) (account : jsval) (op : envelope_op) (s : secrets) : Prop :=
  one_line sealed /\ names_account sealed account /\
  match promise op s with
  | Some (password, v, key) => exists key', key = inr key' /\ opens_with sealed account v key' password
  | None => True
  end.

(** ** Every step fails loudly *)

Lemma loud_wrap_key path secret summary : fails_loudly (run_wrap_key path secret summary).
Proof. unfold run_wrap_key. loud. Qed.
Lemma loud_new_key secret : fails_loudly (run_new_key secret).
Proof. unfold run_new_key. loud. Qed.
Lemma loud_load k account : fails_loudly (run_load k account).
Proof. unfold run_load. loud. Qed.
Lemma loud_verify_account new id server : fails_loudly (run_verify_account new id server).
Proof. unfold run_verify_account. loud. Qed.
Lemma loud_verify_opens new password args key : fails_loudly (run_verify_opens new password args key).
Proof. unfold run_verify_opens. loud. Qed.
#[local] Hint Resolve loud_wrap_key loud_new_key loud_load loud_verify_account loud_verify_opens : loud.

Lemma loud_plan account op s summary : fails_loudly (plan account op s summary).
Proof. unfold plan, run_auth. destruct op as [| | |[]| |[]|]; loud. Qed.
#[local] Hint Resolve loud_plan : loud.

Lemma loud_update k account op s : fails_loudly (update_new k account op s).
Proof. unfold update_new. loud. Qed.
Lemma loud_create account s : fails_loudly (create_new account s).
Proof. unfold create_new. loud. Qed.

(** ** What success means *)

Lemma output_inr r fail out : output_of r fail = inr out -> r.1 = 0 /\ out = newlines_cut r.2.
Proof. unfold output_of. destruct (Z.eqb_spec r.1 0); [|done]. by intros [= <-]. Qed.

Lemma sealed_one_line a fail new : output_of (pipe a run_seal) fail = inr new -> one_line new.
Proof.
  intros [_ ->]%output_inr. unfold pipe, run_seal. destruct (creds_encrypt a.2) as [c out]. cbn [snd].
  assert (F : Forall (fun u => u <> 10 /\ u <> 13) (newlines_cut (List.filter (fun u => negb ((u =? 10) || (u =? 13))) out))).
  { apply Forall_drop_trailing, List.Forall_forall. intros u [_ Hu]%filter_In. lia. }
  rewrite List.Forall_forall in F. split; intros Hin%list_elem_of_In%F; lia.
Qed.

Lemma verified_account new account u :
  run_verify_account new (text (fld account "id")) (text (fld account "server")) = inr u -> names_account new account.
Proof.
  unfold run_verify_account, names_account. destruct (run_inspect new) as [c summary].
  intros [E1 E2]%require_inr%andb_true_iff. split; [by apply Z.eqb_eq|done].
Qed.

Lemma verified_opens new account v key password u :
  run_verify_opens new password (account_argv account ++ via_argv v) key = inr u -> opens_with new account v key password.
Proof. intros E%require_inr%bool_decide_eq_true. by symmetry. Qed.

(** A plan checks what the change promises. *)
Lemma plan_promise account op s summary p : plan account op s summary = inr p ->
  match promise op s with
  | Some (password, v, key) => exists key', key = inr key' /\ p_check p = Some (password, v, key')
  | None => p_check p = None
  end.
Proof.
  destruct op as [| | |[]| | |]; cbn [plan promise]; intros R; steps R; simplify_eq; eauto.
Qed.

Lemma update_kept k account op s new : update_new k account op s = inr new -> kept new account op s.
Proof.
  unfold update_new. intros R. steps R. injection R as <-.
  match goal with E : plan _ _ _ _ = inr ?p |- _ => apply plan_promise in E as Hp end.
  unfold kept. split_and!; [by eapply sealed_one_line|by eapply verified_account|].
  destruct (promise op s) as [[[password v] key]|]; [|done]. destruct Hp as (key' & -> & Hp). exists key'. split; [done|].
  rewrite Hp in *. by eapply verified_opens.
Qed.

Lemma create_kept account s new : create_new account s = inr new ->
  one_line new /\ names_account new account /\ exists key, run_new_key (s_password s) = inr key /\ opens_with new account ViaMaster key (s_password s).
Proof.
  unfold create_new. intros R. steps R. injection R as <-.
  split_and!; [by eapply sealed_one_line|by eapply verified_account|]. eexists. split; [done|]. by eapply verified_opens.
Qed.

(** ** Commits *)

(** A commit of a step that fails loudly: success stores what the step made, and
    anything else leaves the keyring as it was. *)
Lemma commit_cases k account new c k' : fails_loudly new -> commit k account new = (c, k') ->
  (c <> 0 /\ k' = k) \/ (c = 0 /\ exists sealed, new = inr sealed /\ k' = <[entry_of account := sealed]> k).
Proof.
  intros Hl. destruct new as [code|sealed]; cbn [commit].
  - intros [= <- <-]. left. split; [by apply Hl|done].
  - unfold run_store. destruct (store_works _ _); intros [= <- <-]; [right; eauto|by left].
Qed.

Lemma update_cases k tool account op s c k' : run_update k tool account op s = (c, k') ->
  (c <> 0 /\ k' = k) \/ (c = 0 /\ exists sealed, k' = <[entry_of account := sealed]> k /\ kept sealed account op s).
Proof.
  unfold run_update. destruct (negb _); [by intros [= <- <-]; left|]. case_bool_decide; [|by intros [= <- <-]; left].
  intros [?|(-> & sealed & Hn & ->)]%commit_cases; [by left| |apply loud_update]. right. split; [done|].
  exists sealed. split; [done|]. by eapply update_kept.
Qed.

Lemma create_cases k tool account s c k' : run_create k tool account s = (c, k') ->
  (c <> 0 /\ k' = k) \/
  (c = 0 /\ exists sealed key, k' = <[entry_of account := sealed]> k /\ one_line sealed /\ names_account sealed account /\
     run_new_key (s_password s) = inr key /\ opens_with sealed account ViaMaster key (s_password s)).
Proof.
  unfold run_create. destruct (negb _); [by intros [= <- <-]; left|].
  intros [?|(-> & sealed & Hn & ->)]%commit_cases; [by left| |apply loud_create]. right. split; [done|].
  apply create_kept in Hn as (E1 & E2 & key & E3 & E4). by exists sealed, key.
Qed.

(** ** Moving an older entry *)

Definition LEGACY_ENTRIES : list (list Z) := [KEYRING_MASTER; KEYRING_FIDO; KEYRING_PIN].

Lemma entry_base_inj b1 b2 slot : keyringEntryName b1 slot = keyringEntryName b2 slot -> b1 = b2.
Proof. unfold keyringEntryName. case_match; [done|]. apply app_inv_tail. Qed.

Lemma legacy_entry_other legacy account : legacy ∈ LEGACY_ENTRIES -> keyringEntryName legacy (fld account "slot") <> entry_of account.
Proof.
  intros Hl E%entry_base_inj. subst. revert Hl. unfold LEGACY_ENTRIES. rewrite !elem_of_cons, elem_of_nil.
  intros [?|[?|[?|[]]]]; by vm_compute in H1.
Qed.

(** The envelope in the keyring is for the account and prints the password. *)
Definition holds_password (k : keyring) (account : jsval) (password : list Z) : Prop :=
  exists sealed v key, k !! entry_of account = Some sealed /\ names_account sealed account /\ opens_with sealed account v key password.

Definition is_add (op : envelope_op) : bool := match op with AddPin | AddFingerprint | AddFido _ _ _ _ => true | _ => false end.

Lemma kept_holds k account op s sealed : is_add op = true -> k !! entry_of account = Some sealed -> kept sealed account op s ->
  holds_password k account (s_password s).
Proof.
  intros Ha L (_ & Hn & Hp). destruct op; try done; cbn [promise] in Hp; destruct Hp as (key & _ & Hk); by eexists sealed, _, key.
Qed.

(** Everything but the envelope's entry is as it was. *)
Definition same_but (k k' : keyring) (entries : list (list Z)) : Prop := forall e, e ∉ entries -> k' !! e = k !! e.

Lemma same_but_insert k account sealed : same_but k (<[entry_of account := sealed]> k) [entry_of account].
Proof. intros e He. apply lookup_insert_ne. set_solver. Qed.

Lemma create_same k tool account s c k' : run_create k tool account s = (c, k') -> same_but k k' [entry_of account].
Proof.
  intros [[_ ->]|(_ & sealed & key & -> & _)]%create_cases; [done|apply same_but_insert].
Qed.

Lemma clear_same k entry e : e <> entry -> run_clear k entry !! e = k !! e.
Proof. intros He. unfold run_clear. case_match; [by rewrite lookup_delete_ne|done]. Qed.

(** The envelope a migration changes: its own, or the one it just created. *)
Lemma migration_start k tool account s (rc : Z) c out k1 :
  (if rc =? 0 then ((0, []), k)
   else if (rc =? ENVELOPE_absent) || (rc =? 6) || (rc =? ENVELOPE_unseal) then create_script k tool account s
   else if rc =? 3 then ((LEGACY_mismatch, []), k) else ((rc, []), k)) = ((c, out), k1) -> same_but k k1 [entry_of account].
Proof.
  repeat case_match; try (by intros [= <- _ <-]). unfold create_script. destruct (run_create k tool account s) as [c' k'] eqn:E.
  intros [= <- _ <-]. by eapply create_same.
Qed.

(** The environment a migration gives to its steps. *)
Definition with_password (s : secrets) (password : list Z) : secrets := Secrets password (s_pin s) (s_new s) (s_hmac s) (s_fido_salt s).

(** A migration fails and leaves the older entry, or ends with the envelope changed as
    promised, and then clears the entry. *)
Lemma migration_moved k tool account legacy op fromKeyring s : legacy ∈ LEGACY_ENTRIES ->
  let entry := keyringEntryName legacy (fld account "slot") in
  let s' := with_password s (legacy_password k entry fromKeyring s) in
  let '(c, _, k') := legacyMigration_script k tool account legacy op fromKeyring s in
  same_but k k' [entry; entry_of account] /\
  ((c <> 0 /\ k' !! entry = k !! entry)
   \/ (c = 0 /\ (exists sealed, k' !! entry_of account = Some sealed /\ kept sealed account op s') /\ k' !! entry = if clear_works entry then None else k !! entry)).
Proof.
  intros Hl entry. unfold legacyMigration_script. fold entry. pose proof (legacy_entry_other legacy account Hl) as Hne. fold entry in Hne.
  destruct (negb (envelopeArgsOk tool account)); [split; [done|by left]|]. cbv zeta.
  set (password := legacy_password k entry fromKeyring s). fold (with_password s password).
  case_bool_decide as Hp; [split; [done|by left]|].
  destruct (if _ =? 0 then _ else _) as [[c out1] k1] eqn:E1. apply migration_start in E1.
  assert (S1 : same_but k k1 [entry; entry_of account]) by (intros e He; apply E1; set_solver).
  assert (K1 : k1 !! entry = k !! entry) by (apply E1; set_solver).
  destruct (Z.eqb_spec c 0) as [->|Hc]; cbn [negb]; [|split; [done|by left]].
  unfold update_script. destruct (run_update k1 tool account op (with_password s password)) as [c2 k2] eqn:E2.
  apply update_cases in E2 as [[Hc ->]|(-> & sealed & -> & Hk)].
  - destruct (Z.eqb_spec c2 0) as [->|_]; cbn [negb]; [done|split; [done|by left]].
  - cbn [Z.eqb negb]. split.
    + intros e He. rewrite clear_same by set_solver. rewrite lookup_insert_ne by set_solver. apply S1, He.
    + right. split; [done|]. split; [exists sealed; split; [|done]; by rewrite clear_same, lookup_insert_eq|].
      unfold run_clear. destruct (clear_works entry); [apply lookup_delete_eq|]. by rewrite lookup_insert_ne.
Qed.

Lemma migration_cases k tool account legacy op fromKeyring s : legacy ∈ LEGACY_ENTRIES -> is_add op = true ->
  let entry := keyringEntryName legacy (fld account "slot") in
  let '(c, k') := run_migration k tool account legacy op fromKeyring s in
  same_but k k' [entry; entry_of account] /\
  ((c <> 0 /\ k' !! entry = k !! entry) \/ (c = 0 /\ holds_password k' account (legacy_password k entry fromKeyring s))).
Proof.
  intros Hl Ha entry. pose proof (migration_moved k tool account legacy op fromKeyring s Hl) as M. unfold run_migration. cbv zeta in M. fold entry in M.
  destruct (legacyMigration_script _ _ _ _ _ _ _) as [[c out] k']. destruct M as (S & [M|(Hc & (sealed & L & Hk) & _)]); (split; [done|]); [by left|right].
  split; [done|]. exact (kept_holds _ _ _ _ _ Ha L Hk).
Qed.

(** ** Opening again *)

Lemma take_within {A} (l : list A) cap : Z.of_nat (length l) <= cap -> take (Z.to_nat cap) l = l.
Proof. intros Hl. apply take_ge. lia. Qed.

Lemma lookup_whole (k : keyring) entry secret cap : k !! entry = Some secret -> one_line secret -> Z.of_nat (length secret) <= cap ->
  run_lookup k entry cap = secret.
Proof.
  intros L [Hn _] Hc. unfold run_lookup. rewrite L. cbn [from_option id]. rewrite take_within by done. apply newlines_cut_keep. intros Hl. apply Hn. by apply last_Some_elem_of.
Qed.

Lemma lookup_short (k : keyring) entry cap : 0 <= cap -> Z.of_nat (length (run_lookup k entry cap)) <= cap.
Proof.
  intros Hc. unfold run_lookup. set (x := take _ _). assert (Hx : (length x <= Z.to_nat cap)%nat) by (unfold x; rewrite length_take; lia).
  unfold newlines_cut, drop_trailing. rewrite length_rev. destruct (drop_while_suffix (fun c => c =? 10) (rev x)) as (a & E & _). apply (f_equal length) in E. rewrite length_app, length_rev in E. lia.
Qed.

Lemma load_sealed k account r : run_load k account = inr r -> r.1 = run_lookup k (entry_of account) MAX_ENVELOPE_SEALED_BYTES.
Proof. unfold run_load. generalize (run_lookup k (entry_of account) MAX_ENVELOPE_SEALED_BYTES) as sd. intros sd E. steps E. by injection E as <-. Qed.

(** An envelope seen to print the password prints it again. *)
Lemma reopened k tool account cred s sealed password out :
  k !! entry_of account = Some sealed -> one_line sealed -> Z.of_nat (length sealed) <= MAX_ENVELOPE_SEALED_BYTES ->
  opens_with sealed account (ViaFido cred) (s_hmac s) password -> Z.of_nat (length password) <= MAX_TOKEN_BYTES ->
  run_open k tool account (ViaFido cred) s = (0, out) -> out = password.
Proof.
  intros L Ho Hc%(lookup_whole _ _ _ _ L Ho) Hw Hp. unfold run_open. revert Hp. generalize MAX_TOKEN_BYTES. intros cap Hp. destruct (negb _); [done|]. case_bool_decide; [done|].
  destruct (run_load k account) as [c|[sd summary]] eqn:E; cbn [step_bind]; [intros [= -> <-]; by apply loud_load in E|].
  assert (sd = sealed) as ->.
  { apply load_sealed in E. by rewrite Hc in E. }
  cbn [fst]. unfold opens_with, opens_to in Hw. destruct (pipe _ _) as [c o]. cbn [snd] in Hw. intros [= _ <-]. subst o. by apply take_within.
Qed.
End programs.

(** ** Programs for examples *)

(** A tool whose envelopes are the password followed by the ways, in plain text, for
    one account: [create] and [rotate] write the password, [add] appends a mark,
    [open] prints the password. *)
Definition toy_summary : list Z :=
  sh "{`account`:{`id`:`u1`,`server`:`s`},`master`:{`salt`:`AA`,`t`:4,`m`:262144,`p`:1},`pin`:null}".

Definition toy_tool (argv : list (list Z)) (env : list (list Z * list Z)) (input : list Z) : ran :=
  match argv with
  | verb :: _ =>
      if str_eqb verb (js "inspect") then (0, toy_summary)
      else if str_eqb verb (js "create") then (0, js "hunter2")
      else if str_eqb verb (js "add") then (0, input)
      else if str_eqb verb (js "open") then (0, input)
      else (2, [])
  | [] => (2, [])
  end.

Definition toy_programs : Programs := {|
  unlock_tool := toy_tool;
  creds_encrypt p := (0, p ++ [10]);
  creds_decrypt p := (0, p);
  argon2 _ _ _ _ _ := (0, js "00");
  fido2_assert _ _ _ _ := (0, [97; 10; 98; 10; 99; 10; 100; 10] ++ js "hmac");
  drawn_salt := js "AA";
  drawn_fido_salt := js "BB";
  store_works _ _ := true;
  store_prints _ _ := [];
  clear_works _ := true
|}.

Definition toy_account : jsval := JObj [(js "id", JStr (js "u1")); (js "server", JStr (js "s"))].
Definition toy_target : jsval :=
  JObj [(js "device", JStr (js "/dev/hidraw1")); (js "cred", JStr (js "AAAA")); (js "rp", JStr (js "pam://host"))].
Definition no_secrets : secrets := Secrets [] [] [] [] [].

(** ** Properties *)

(** C8: Writes commit last.  Whatever the tools do, a change of the envelope or its
    creation either ends with a failure code and the keyring exactly as it was, or
    ends with success having replaced only the account's envelope, by one that is
    free of line breaks, names the account, and was seen to print exactly the
    promised password through the way just written. *)
Theorem writes_commit_last `{!Jq, !Programs} k tool account s :
  (forall op, let '(c, k') := run_update k tool account op s in
     (c <> 0 /\ k' = k) \/ (c = 0 /\ exists sealed, k' = <[entry_of account := sealed]> k /\ kept sealed account op s)) /\
  (let '(c, k') := run_create k tool account s in
     (c <> 0 /\ k' = k) \/
     (c = 0 /\ exists sealed key, k' = <[entry_of account := sealed]> k /\ one_line sealed /\ names_account sealed account /\
        run_new_key (s_password s) = inr key /\ opens_with sealed account ViaMaster key (s_password s))).
Proof.
  split; [intros op; destruct (run_update k tool account op s) as [c k'] eqn:E; by apply (update_cases k tool)|].
  destruct (run_create k tool account s) as [c k'] eqn:E. by apply (create_cases k tool).
Qed.

(** C17: Moving an older entry never loses the password.  Whatever the tools do, every
    entry but the older one and the envelope is untouched, and either the move failed
    and the older entry is as it was, or it succeeded and the envelope now in the
    keyring is for the account and prints exactly the password of the older entry. *)
Theorem migration_keeps_password `{!Jq, !Programs} k tool account legacy op fromKeyring s :
  legacy ∈ LEGACY_ENTRIES -> is_add op = true ->
  let entry := keyringEntryName legacy (fld account "slot") in
  let '(c, k') := run_migration k tool account legacy op fromKeyring s in
  same_but k k' [entry; entry_of account] /\
  ((c <> 0 /\ k' !! entry = k !! entry) \/ (c = 0 /\ holds_password k' account (legacy_password k entry fromKeyring s))).
Proof. apply migration_cases. Qed.

Lemma migration_keeps_password_witness :
  let k := {[KEYRING_MASTER := js "hunter2"]} in
  KEYRING_MASTER ∈ LEGACY_ENTRIES /\ is_add AddFingerprint = true /\
  let '(c, k') := @run_migration plain_jq toy_programs k (JStr (js "/t")) toy_account KEYRING_MASTER AddFingerprint true no_secrets in
  same_but k k' [KEYRING_MASTER; KEYRING_ENVELOPE] /\
  ((c <> 0 /\ k' !! KEYRING_MASTER = k !! KEYRING_MASTER) \/ (c = 0 /\ @holds_password toy_programs k' toy_account (js "hunter2"))).
Proof.
  split; [by left|split; [done|]].
  exact (@migration_keeps_password plain_jq toy_programs {[KEYRING_MASTER := js "hunter2"]} (JStr (js "/t")) toy_account KEYRING_MASTER
    AddFingerprint true no_secrets ltac:(by left) eq_refl).
Defined.

(** C35: The first unlock with a security key after an upgrade.  Once the key answered,
    the script ends in one of three ways, and what it prints is given exactly.  The entry
    was moved and the envelope opened through the key just enrolled: success, and the
    output is the older password, if the envelope stored is within the length that is
    read back.  The move failed: code 40, the older entry is as it was, and the output is
    the older password.  The entry was moved and the opening failed: code 40, the
    envelope holds the password, the older entry is cleared, and the output is what the
    failed opening printed followed by the password. *)
Theorem fido_legacy_unlocks `{!Jq, !Programs} k tool account target s hmac :
  envelopeArgsOk tool account = true -> fidoTargetOk target = true ->
  run_assert target drawn_fido_salt = inr hmac ->
  let entry := keyringEntryName KEYRING_FIDO (fld account "slot") in
  let password := run_lookup k entry MAX_TOKEN_BYTES in
  password <> [] ->
  let '(c, out, k') := run_fido_legacy k tool account target s in
  let opened := run_open k' tool account (ViaFido (fld target "cred")) (Secrets password (s_pin s) (s_new s) hmac drawn_fido_salt) in
  let moved := holds_password k' account password /\ k' !! entry = (if clear_works entry then None else k !! entry) in
  (c = 0 /\ moved /\ exists sealed, k' !! entry_of account = Some sealed
     /\ (Z.of_nat (length sealed) <= MAX_ENVELOPE_SEALED_BYTES -> out = password))
  \/ (c = FIDO_legacyUsed /\ k' !! entry = k !! entry /\ out = password)
  \/ (c = FIDO_legacyUsed /\ moved /\ opened.1 <> 0 /\ out = opened.2 ++ password).
Proof.
  intros Ha Ht Hh entry password Hp. unfold run_fido_legacy. rewrite Ha, Ht. cbn [negb orb]. fold entry. fold password.
  rewrite bool_decide_false, Hh by done. cbv zeta. set (s' := Secrets password (s_pin s) (s_new s) hmac drawn_fido_salt).
  pose proof (migration_moved k tool account KEYRING_FIDO (fresh_fido target) false s' ltac:(set_solver)) as M.
  cbv zeta in M. fold entry in M. destruct (legacyMigration_script _ _ _ _ _ _ _) as [[c noise] k1]. destruct M as [_ M].
  cbn [quiet fst app]. destruct (Z.eqb_spec c 0) as [->|Hc]; [|destruct M as [[_ M]|[? _]]; [by right; left|done]].
  destruct M as [[? _]|(_ & (sealed & L & Hk) & Hcl)]; [done|]. pose proof (kept_holds _ _ (fresh_fido target) _ _ eq_refl L Hk) as Hd.
  destruct (run_open k1 tool account _ s') as [c2 out] eqn:E2. destruct (Z.eqb_spec c2 0) as [->|Hc2].
  - left. split; [done|]. split; [done|]. exists sealed. split; [done|]. intros Hlen. destruct Hk as (Ho & _ & key & [= <-] & Hk).
    apply (reopened k1 tool account (fld target "cred") s' sealed password out L Ho Hlen Hk); [by apply lookup_short|done].
  - right. right. cbn. by rewrite E2.
Qed.

Lemma fido_legacy_unlocks_witness :
  let k := {[KEYRING_FIDO := js "hunter2"]} in
  let r := @run_fido_legacy plain_jq toy_programs k (JStr (js "/t")) toy_account toy_target no_secrets in
  r.1 = (0, js "hunter2") /\ @holds_password toy_programs r.2 toy_account (js "hunter2") /\ r.2 !! KEYRING_FIDO = None.
Proof.
  cbv zeta. pose proof (@fido_legacy_unlocks plain_jq toy_programs {[KEYRING_FIDO := js "hunter2"]} (JStr (js "/t")) toy_account toy_target no_secrets (js "hmac")
    ltac:(vm_compute; reflexivity) ltac:(vm_compute; reflexivity) ltac:(vm_compute; reflexivity) ltac:(vm_compute; done)) as H.
  assert (E : (@run_fido_legacy plain_jq toy_programs {[KEYRING_FIDO := js "hunter2"]} (JStr (js "/t")) toy_account toy_target no_secrets).1 = (0, js "hunter2")) by (vm_compute; reflexivity).
  destruct (run_fido_legacy _ _ _ _ _) as [[c out] k']. cbn [fst snd] in E |- *. injection E as -> ->. split; [done|]. destruct H as [(_ & (H1 & H2) & _)|[(H & _)|(H & _)]]; [|done|done].
  split; [exact H1|]. exact H2.
Defined.

(** A tool that prints and then fails puts the password on the output twice, after the
    entry has been moved. *)
Definition late_failure : Programs := {|
  unlock_tool argv env input := let '(c, out) := toy_tool argv env input in
    (if bool_decide (js "open" ∈ argv) && bool_decide (js "fido" ∈ argv) then 9 else c, out);
  creds_encrypt := @creds_encrypt toy_programs;
  creds_decrypt := @creds_decrypt toy_programs;
  argon2 := @argon2 toy_programs;
  fido2_assert := @fido2_assert toy_programs;
  drawn_salt := @drawn_salt toy_programs;
  drawn_fido_salt := @drawn_fido_salt toy_programs;
  store_works _ _ := true;
  store_prints _ _ := js "stored";
  clear_works _ := true
|}.
Example printed_twice :
  @run_fido_legacy plain_jq late_failure {[KEYRING_FIDO := js "hunter2"]} (JStr (js "/t")) toy_account toy_target no_secrets
  = ((FIDO_legacyUsed, js "hunter2hunter2"), {[KEYRING_ENVELOPE := js "hunter2"]}).
Proof. vm_compute. reflexivity. Qed.

(** The example's tools migrate, and a change without an envelope fails with code 10
    and changes nothing. *)
Example migrates :
  @run_migration plain_jq toy_programs {[KEYRING_MASTER := js "hunter2"]} (JStr (js "/t")) toy_account KEYRING_MASTER AddFingerprint true no_secrets
  = (0, {[KEYRING_ENVELOPE := js "hunter2"]}).
Proof. vm_compute. reflexivity. Qed.
Example no_envelope : @run_update plain_jq toy_programs ∅ (JStr (js "/t")) toy_account AddFingerprint no_secrets = (10, ∅).
Proof. vm_compute. reflexivity. Qed.
