(* ===== verification/KeyringRun.v ===== *)
(** * What the keyring's scripts do ([BitwardenModel.js])

    The scripts that remember a session, forget it, clear an account at logout and
    remove an unlock method from every account, read as programs on the keyring.
    The secret service is a parameter: it may fail, and it may hold an entry locked.
    A clear skips a locked entry without a message; this is what the sources say of
    [secret-tool].  A keyring has one secret per entry. *)

From stdpp Require Import gmap.
From S2P Require Import Prelude.
From S2P Require Import JsNum.
From S2P Require Import JsString.
From S2P Require Import JsUnicode.
From S2P Require Import JsValue.
From S2P Require Import Json.
From S2P Require Import Accounts.
From S2P Require Import Shell.
From S2P Require Import Items.
From S2P Require Import Unlock.
From S2P Require Import Envelope.
From S2P Require Import Vault.
From S2P Require Import EnvelopeRun.

(** The secret service: the secrets, and the entries that are locked. *)
Record ring := Ring { items : keyring; locked : gset (list Z) }.

Class SecretService := {
  search_reply : ring -> list Z -> Z * Z;              (** exit code and bytes printed *)
  lookup_fails : ring -> list Z -> bool;               (** fails with a message *)
  clear_fails : ring -> list Z -> bool;                (** fails with a message *)
  unlock_works : list Z -> bool;
  session_collection : bool;                           (** there is one to store in *)
  default_collection : bool;
  boot_id_file : option (list Z);                      (** what can be read of it *)
  (** A search that succeeds prints something exactly when there is an entry. *)
  search_reply_bytes r e : (search_reply r e).1 = 0 -> 0 <= (search_reply r e).2 /\ ((search_reply r e).2 = 0 <-> items r !! e = None);
}.

Section service.
  Context `{!SecretService}.

Definition with_items (r : ring) (k : keyring) : ring := Ring k (locked r).

(** [secret-tool clear]: exit code, whether it printed a message, the keyring. *)
Definition secret_clear (r : ring) (e : list Z) : Z * bool * ring :=
  if clear_fails r e then (1, true, r)
  else match items r !! e with
       | Some _ => if bool_decide (e ∈ locked r) then (1, false, r) else (0, false, with_items r (delete e (items r)))
       | None => (1, false, r)
       end.

(** [secret-tool search --unlock] *)
Definition secret_unlock (r : ring) (e : list Z) : ring :=
  if unlock_works e then Ring (items r) (locked r ∖ {[ e ]}) else r.

(** ** The remembered session *)

Definition session_entry (slot : jsval) : list Z := keyringEntryName KEYRING_ACCOUNT slot.

(** [$(cat boot_id)]; an unreadable file reads as nothing here. *)
Definition run_session_store (r : ring) (slot : jsval) (token : list Z) : Z * ring :=
  let secret := newlines_cut (default [] boot_id_file) ++ js " " ++ token in
  if session_collection || default_collection then (0, with_items r (<[session_entry slot := secret]> (items r))) else (1, r).

(** [${stored#* }]: without the shortest prefix that ends in a space. *)
Fixpoint after_space (s : list Z) : list Z :=
  match s with
  | [] => []
  | c :: s => if c =? 32 then s else after_space s
  end.

(** What is printed, and the keyring. *)
Definition run_session_lookup (r : ring) (slot : jsval) : list Z * ring :=
  match boot_id_file with
  | None => ([], r)
  | Some content =>
      let boot := newlines_cut (take 128 content) in
      if bool_decide (boot = []) then ([], r)
      else match items r !! session_entry slot with
           | None => ([], r)
           | Some secret =>
               if lookup_fails r (session_entry slot) then ([], r)
               else
                 let stored := newlines_cut (take (Z.to_nat MAX_TOKEN_BYTES) secret) in
                 if starts_with (boot ++ js " ") stored && (S (length boot) <? length stored)%nat then (after_space stored, r)
                 else if bool_decide (stored = []) then ([], r)
                 else ([], (secret_clear r (session_entry slot)).2)
           end
  end.

(** The status of the search is lost in the pipe: only what it printed counts. *)
Definition run_session_clear (r : ring) (slot : jsval) : Z * ring :=
  let r := (secret_clear r (session_entry slot)).2 in
  (if (search_reply r (session_entry slot)).2 =? 0 then 0 else 1, r).

(** ** Logout *)

Definition clear_all_entry (r : ring) (e : list Z) : Z * ring :=
  let '(c, n) := search_reply r e in
  if negb (c =? 0) then (1, r)
  else if 0 <? n then
    let r := (secret_clear (secret_unlock r e) e).2 in
    let '(c, n) := search_reply r e in
    (if negb (c =? 0) || negb (n =? 0) then 1 else 0, r)
  else (0, r).

Fixpoint clear_entries (rc : Z) (r : ring) (es : list (list Z)) : Z * ring :=
  match es with
  | [] => (rc, r)
  | e :: es => let '(c, r) := clear_all_entry r e in clear_entries (if c =? 0 then rc else 1) r es
  end.

Definition run_clear_all (r : ring) (slot : jsval) : Z * ring :=
  clear_entries 0 r (map (fun base => keyringEntryName base slot) KEYRING_ALL_ACCOUNTS).

(** ** Removing a method from every account *)

Section purge.
  Context `{!Jq, !Programs}.

(** The [jq -e] test of a method on the summary: [None] is an error. *)
Definition method_present (m : purge_method) (summary : list Z) : option bool :=
  v ← parse summary;
  match m with
  | PurgePin => p ← jq_get "pin" v; Some (match p with JNull => false | _ => true end)
  | PurgeFingerprint => p ← jq_get "fingerprint" v; Some (match p with JBool true => true | _ => false end)
  | PurgeFido =>
      p ← jq_get "fido" v;
      match p with
      | JNull => Some false
      | JArr l => Some (match l with [] => false | _ => true end)
      | JObj o => Some (match o with [] => false | _ => true end)
      | JStr s => Some (negb (bool_decide (s = [])))
      | JNum n => Some (num_truthy n)
      | _ => None
      end
  end.

(** [$(jq -r ...)]; nothing on an error. *)
Definition jq_raw (v : option jsval) : list Z := match v with Some v => newlines_cut (jq_text v) | None => [] end.
Definition account_field (k : string) (summary : list Z) : list Z := jq_raw (parse summary ≫= jq_path "account" k).

(** [.fido[0].cred // empty] *)
Definition first_cred (summary : list Z) : list Z :=
  match parse summary ≫= jq_get "fido" with
  | Some (JArr (f :: _)) => match jq_get "cred" f with Some c => if jq_truthy c then newlines_cut (jq_text c) else [] | None => [] end
  | _ => []
  end.
Definition is_cred_unit (c : Z) : bool := is_alnum c || (c =? 43) || (c =? 47) || (c =? 61).

Definition purge_argv (m : purge_method) (summary : list Z) : step (list (list Z)) :=
  match m with
  | PurgePin => inr [js "remove"; js "--method"; js "pin"]
  | PurgeFingerprint => inr [js "remove"; js "--method"; js "fingerprint"]
  | PurgeFido =>
      let c := first_cred summary in
      require 4 (negb (bool_decide (c = [])) && forallb is_cred_unit c) ;~
      inr [js "remove"; js "--method"; js "fido"; js "--cred"; c]
  end.

(** The envelope without one way in, checked to be the same account's. *)
Definition purge_new (m : purge_method) (sealed summary : list Z) : step (list Z) :=
  argv <~ purge_argv m summary;
  new <~ output_of (pipe (pipe (creds_decrypt sealed) (unlock_tool argv [])) run_seal) (fun c => c);
  run_verify_account new (account_field "id" summary) (account_field "server" summary) ;~
  inr new.

(** A round: the exit code, or the keyring for the next round. *)
Definition purge_round (r : ring) (entry : list Z) (m : purge_method) : Z + ring :=
  if lookup_fails r entry then inl 1
  else match items r !! entry with
       | None => inl 0
       | Some _ =>
           let sealed := run_lookup (items r) entry MAX_ENVELOPE_SEALED_BYTES in
           if bool_decide (sealed = []) then inl 1
           else match output_of (run_inspect sealed) (fun _ => ENVELOPE_unseal) with
                | inl c => inl c
                | inr summary =>
                    match method_present m summary with
                    | None => inl 1
                    | Some false => inl 0
                    | Some true =>
                        match purge_new m sealed summary with
                        | inl c => inl c
                        | inr new => if store_works entry new then inr (with_items r (<[entry := new]> (items r))) else inl ENVELOPE_store
                        end
                    end
                end
       end.

Fixpoint purge_rounds (rounds : nat) (r : ring) (entry : list Z) (m : purge_method) : Z * ring :=
  match rounds with
  | O => (8, r)
  | S rounds => match purge_round r entry m with inl c => (c, r) | inr r => purge_rounds rounds r entry m end
  end.

Definition envelope_entry (slot : list Z) : list Z := keyringEntryName KEYRING_ENVELOPE (JStr slot).
Definition legacy_entry (m : purge_method) (slot : list Z) : list Z := keyringEntryName (LEGACY_ENTRY_FOR_METHOD m) (JStr slot).

Definition run_method_purge (r : ring) (slot : list Z) (m : purge_method) : Z * ring :=
  purge_rounds (Z.to_nat MAX_PURGE_ROUNDS) r (envelope_entry slot) m.

(** One account: the envelope, then the older entry. *)
Definition purge_slot (r : ring) (slot : list Z) (m : purge_method) : Z * ring :=
  let '(c, r) := run_method_purge r slot m in
  let '(d, message, r) := secret_clear r (legacy_entry m slot) in
  (if negb (c =? 0) || (negb (d =? 0) && (negb (d =? 1) || message)) then 1 else 0, r).

Fixpoint purge_listed (rc : Z) (r : ring) (slots : list (list Z)) (m : purge_method) : Z * ring :=
  match slots with
  | [] => (rc, r)
  | s :: slots => let '(c, r) := purge_slot r s m in purge_listed (if c =? 0 then rc else 1) r slots m
  end.

Definition run_purge (r : ring) (tool : jsval) (slots : list jsval) (method : option purge_method) : Z * ring :=
  match method with
  | Some m => if absolute tool then purge_listed 0 r (purge_slots slots) m else (2, r)
  | None => (2, r)
  end.
End purge.
End service.
