(* ===== verification/KeyringRunCorrect.v ===== *)
(** * Forgetting is real

    A session is used only in the boot that stored it; a logout that reports success
    left nothing of the account in the keyring; a method that was purged is no way
    into any account any more.  None of the scripts touches another entry. *)

From stdpp Require Import gmap.
From S2P Require Import Prelude.
From S2P Require Import JsNum.
From S2P Require Import JsString.
From S2P Require Import JsUnicode.
From S2P Require Import JsValue.
From S2P Require Import Json.
From S2P Require Import Accounts.
From S2P Require Import AccountsCorrect.
From S2P Require Import Shell.
From S2P Require Import Items.
From S2P Require Import ItemsCorrect.
From S2P Require Import Unlock.
From S2P Require Import Envelope.
From S2P Require Import Vault.
From S2P Require Import EnvelopeRun.
From S2P Require Import EnvelopeRunCorrect.
From S2P Require Import KeyringRun.

Section service.
  Context `{!SecretService}.

(** ** Clearing *)

(** A clear touches one entry, and only to remove it. *)
Lemma secret_clear_cases r e d message r' : secret_clear r e = (d, message, r') ->
  (r' = r /\ d = 1 /\ (message = false -> items r !! e = None \/ e ∈ locked r)) \/
  (r' = with_items r (delete e (items r)) /\ d = 0 /\ message = false).
Proof.
  unfold secret_clear. destruct (clear_fails r e); [intros [= <- <- <-]; by left|].
  destruct (items r !! e) eqn:E; [case_bool_decide|]; intros [= <- <- <-]; auto.
Qed.

Definition only_removes (r r' : ring) (es : list (list Z)) : Prop :=
  (forall e, e ∉ es -> items r' !! e = items r !! e) /\ (forall e, items r !! e = None -> items r' !! e = None).

Lemma only_removes_refl r es : only_removes r r es.
Proof. done. Qed.

Lemma only_removes_trans r1 r2 r3 es1 es2 : only_removes r1 r2 es1 -> only_removes r2 r3 es2 -> only_removes r1 r3 (es1 ++ es2).
Proof.
  intros [F1 K1] [F2 K2]. split; [|auto]. intros e He. rewrite F2, F1 by set_solver. done.
Qed.

Lemma secret_clear_removes r e : only_removes r (secret_clear r e).2 [e].
Proof.
  destruct (secret_clear r e) as [[d message] r'] eqn:E. apply secret_clear_cases in E as [(-> & _)|(-> & _)]; [done|].
  split; intros e' He; cbn; [apply lookup_delete_ne; set_solver|]. apply lookup_delete_None. auto.
Qed.

Lemma secret_unlock_items r e : items (secret_unlock r e) = items r.
Proof. unfold secret_unlock. by destruct (unlock_works e). Qed.

(** An entry found by no search is not there. *)
Lemma search_none r e : (search_reply r e).1 = 0 -> (search_reply r e).2 = 0 -> items r !! e = None.
Proof. intros Hc Hn. by apply (search_reply_bytes r e Hc). Qed.

Lemma clear_all_entry_spec r e c r' : clear_all_entry r e = (c, r') ->
  only_removes r r' [e] /\ (c = 0 \/ c = 1) /\ (c = 0 -> items r' !! e = None).
Proof.
  unfold clear_all_entry. pose proof (search_none r e) as Hs. pose proof (search_reply_bytes r e) as Hb.
  destruct (search_reply r e) as [c1 n1]. cbn [fst snd] in *. destruct (Z.eqb_spec c1 0) as [->|Hc]; cbn [negb].
  2: { intros [= <- <-]. split_and!; [done|by right|done]. }
  destruct (Z.ltb_spec 0 n1).
  2: { intros [= <- <-]. split_and!; [done|by left|]. intros _. apply Hs; [done|]. destruct (Hb eq_refl). lia. }
  set (r2 := (secret_clear (secret_unlock r e) e).2).
  assert (S : only_removes r r2 [e]).
  { pose proof (secret_clear_removes (secret_unlock r e) e) as [F K]. fold r2 in F, K. rewrite secret_unlock_items in F, K. done. }
  pose proof (search_none r2 e) as Hs2. destruct (search_reply r2 e) as [c2 n2]. cbn [fst snd] in *.
  intros [= <- <-]. destruct (Z.eqb_spec c2 0), (Z.eqb_spec n2 0); cbn [negb orb]; split_and!; auto; done.
Qed.

Lemma clear_entries_spec es : forall rc r c r', clear_entries rc r es = (c, r') -> rc = 0 \/ rc = 1 ->
  only_removes r r' es /\ (c = 0 \/ c = 1) /\ (c = 0 -> rc = 0 /\ forall e, e ∈ es -> items r' !! e = None).
Proof.
  induction es as [|e es IH]; intros rc r c r'; cbn [clear_entries].
  { intros [= <- <-] Hrc. split_and!; [done|done|]. intros ->. split; [done|]. set_solver. }
  destruct (clear_all_entry r e) as [c1 r1] eqn:E1. apply clear_all_entry_spec in E1 as (S1 & Hc1 & Hn1).
  intros E2 Hrc. apply IH in E2 as (S2 & Hc & Hn); [|case_match; auto].
  split_and!; [exact (only_removes_trans _ _ _ [e] es S1 S2)|done|]. intros H0. destruct (Hn H0) as [Hrc1 Hes].
  destruct (Z.eqb_spec c1 0) as [->|]; [|lia]. split; [done|]. intros e' [->|]%elem_of_cons; [|auto]. apply S2. auto.
Qed.

(** When the service works every entry is cleared. *)
Definition service_works : Prop :=
  (forall r e, (search_reply r e).1 = 0) /\ (forall r e, clear_fails r e = false) /\ (forall e, unlock_works e = true).

Lemma clear_all_entry_works r e : service_works -> (clear_all_entry r e).1 = 0.
Proof.
  intros (Hs & Hc & Hu). unfold clear_all_entry. pose proof (Hs r e). destruct (search_reply r e) as [c1 n1]. cbn in *. subst.
  cbn [Z.eqb negb]. destruct (0 <? n1); [|done].
  set (r2 := (secret_clear (secret_unlock r e) e).2). pose proof (Hs r2 e) as H2. pose proof (search_reply_bytes r2 e H2) as [_ Hb].
  destruct (search_reply r2 e) as [c2 n2]. cbn [fst snd] in *. subst. enough (n2 = 0) as -> by done. apply Hb.
  subst r2. unfold secret_clear, secret_unlock. rewrite Hc, Hu. cbn [items locked]. destruct (items r !! e) eqn:E; [|done].
  rewrite bool_decide_false by set_solver. cbn. apply lookup_delete_eq.
Qed.

Lemma clear_entries_work es r : service_works -> (clear_entries 0 r es).1 = 0.
Proof.
  intros Hw. revert r. induction es as [|e es IH]; intros r; cbn [clear_entries]; [done|].
  pose proof (clear_all_entry_works r e Hw). destruct (clear_all_entry r e) as [c r1]. cbn in *. subst. apply IH.
Qed.

(** ** Sessions *)

Lemma after_space_app b s : 32 ∉ b -> after_space (b ++ 32 :: s) = s.
Proof.
  induction b as [|c b IH]; intros Hb; [done|]. cbn. destruct (Z.eqb_spec c 32) as [->|]; [set_solver|]. apply IH. set_solver.
Qed.

Lemma space_split b1 b2 s1 s2 : 32 ∉ b1 -> 32 ∉ b2 -> b1 ++ 32 :: s1 = b2 ++ 32 :: s2 -> b1 = b2.
Proof.
  revert b2. induction b1 as [|c b1 IH]; intros [|d b2] H1 H2 E; [done|injection E; set_solver..|].
  injection E as -> E. f_equal. eapply IH; [| |exact E]; set_solver.
Qed.

(** What a secret reads as. *)
Definition stored_text (secret : list Z) : list Z := newlines_cut (take (Z.to_nat MAX_TOKEN_BYTES) secret).

Lemma session_lookup_cases r slot content secret :
  boot_id_file = Some content -> let boot := newlines_cut (take 128 content) in boot <> [] -> 32 ∉ boot ->
  items r !! session_entry slot = Some secret -> lookup_fails r (session_entry slot) = false ->
  (exists token, token <> [] /\ stored_text secret = boot ++ 32 :: token /\ run_session_lookup r slot = (token, r)) \/
  ((forall token, token <> [] -> stored_text secret <> boot ++ 32 :: token) /\
   run_session_lookup r slot = ([], if bool_decide (stored_text secret = []) then r else (secret_clear r (session_entry slot)).2)).
Proof.
  intros Hb boot Hne Hsp Hs Hl. unfold run_session_lookup. rewrite Hb, Hs, Hl. fold boot. fold (stored_text secret). rewrite bool_decide_false by done.
  destruct (starts_with (boot ++ js " ") (stored_text secret)) eqn:E.
  - apply starts_with_spec in E as [t E]. change (js " ") with [32] in E. rewrite <- app_assoc in E. cbn in E.
    destruct (Nat.ltb_spec (S (length boot)) (length (stored_text secret))) as [Hlt|Hlt]; cbn [andb].
    + left. exists t. rewrite E in Hlt |- *. rewrite length_app in Hlt. cbn in Hlt. split_and!; [|done|by rewrite after_space_app].
      intros ->. cbn in Hlt. lia.
    + right. split; [|by case_bool_decide]. intros token Ht Et. rewrite Et, length_app in Hlt. cbn in Hlt. destruct token; [done|cbn in Hlt; lia].
  - right. cbn [andb]. split; [|by case_bool_decide]. intros token _ Et. apply not_true_iff_false in E. apply E, starts_with_spec.
    exists token. change (js " ") with [32]. by rewrite <- app_assoc.
Qed.

Lemma session_lookup_removes r slot : only_removes r (run_session_lookup r slot).2 [session_entry slot].
Proof.
  unfold run_session_lookup. destruct boot_id_file; [|done]. case_bool_decide; [done|]. destruct (items r !! _); [|done].
  destruct (lookup_fails _ _); [done|]. cbv zeta. case_match; [done|]. case_bool_decide; [done|]. apply secret_clear_removes.
Qed.
(** ** Purges *)

Section purge.
  Context `{!Jq, !Programs}.

(** The method is no way into the envelope of an entry. *)
Definition purged (r : ring) (entry : list Z) (m : purge_method) : Prop :=
  items r !! entry = None \/
  exists summary, output_of (run_inspect (run_lookup (items r) entry MAX_ENVELOPE_SEALED_BYTES)) (fun _ => ENVELOPE_unseal) = inr summary /\
    method_present m summary = Some false.

Definition same_but_entries (r r' : ring) (es : list (list Z)) : Prop :=
  locked r' = locked r /\ forall e, e ∉ es -> items r' !! e = items r !! e.

Lemma same_but_entries_trans r1 r2 r3 es : same_but_entries r1 r2 es -> same_but_entries r2 r3 es -> same_but_entries r1 r3 es.
Proof. intros [L1 F1] [L2 F2]. split; [congruence|]. intros e He. rewrite F2, F1; auto. Qed.

Lemma purged_frame r r' entry m : items r' !! entry = items r !! entry -> purged r entry m -> purged r' entry m.
Proof. intros E. unfold purged, run_lookup. by rewrite E. Qed.

Lemma purge_new_loud m sealed summary : fails_loudly (purge_new m sealed summary).
Proof. unfold purge_new, purge_argv. destruct m; loud; apply loud_verify_account. Qed.

Lemma purge_round_cases r entry m :
  match purge_round r entry m with
  | inl c => c = 0 -> purged r entry m
  | inr r' => same_but_entries r r' [entry] /\ exists new, items r' !! entry = Some new
  end.
Proof.
  unfold purge_round. destruct (lookup_fails r entry); [done|]. destruct (items r !! entry) eqn:Ei; [|intros _; by left].
  case_bool_decide; [done|]. destruct (output_of _ _) as [c|summary] eqn:Eo; [by intros ->; apply loud_output in Eo|].
  destruct (method_present m summary) as [[]|] eqn:Em; [| |done].
  - destruct (purge_new m _ summary) as [c|new] eqn:En; [by intros ->; apply purge_new_loud in En|].
    destruct (store_works entry new); [|done]. split; [|cbn; eexists; apply lookup_insert_eq]. split; [done|].
    intros e He. cbn. apply lookup_insert_ne. set_solver.
  - intros _. right. eauto.
Qed.

Lemma purge_rounds_spec n : forall r entry m c r', purge_rounds n r entry m = (c, r') ->
  same_but_entries r r' [entry] /\ (c = 0 -> purged r' entry m) /\ (is_Some (items r !! entry) -> is_Some (items r' !! entry)).
Proof.
  induction n as [|n IH]; intros r entry m c r'; cbn [purge_rounds]; [by intros [= <- <-]|].
  pose proof (purge_round_cases r entry m) as Hr. destruct (purge_round r entry m) as [c1|r1]; [by intros [= <- <-]|].
  intros (S & P & I)%IH. destruct Hr as [S1 [new Hnew]]. split_and!; [by eapply same_but_entries_trans|done|].
  intros _. apply I. by rewrite Hnew.
Qed.

Definition slot_entries (m : purge_method) (s : list Z) : list (list Z) := [envelope_entry s; legacy_entry m s].

Lemma envelope_not_legacy m s s' : envelope_entry s <> legacy_entry m s'.
Proof. intros [E _]%entry_name_inj; [by destruct m| |]; destruct m; vm_compute; set_solver. Qed.

(** What is left of a method in a slot: nothing, or an older entry that is locked. *)
Definition method_gone (r : ring) (s : list Z) (m : purge_method) : Prop :=
  purged r (envelope_entry s) m /\ (items r !! legacy_entry m s = None \/ legacy_entry m s ∈ locked r).

Lemma purge_slot_spec r s m c r' : purge_slot r s m = (c, r') ->
  same_but_entries r r' (slot_entries m s) /\ (c = 0 \/ c = 1) /\ (c = 0 -> method_gone r' s m) /\
  (is_Some (items r !! envelope_entry s) -> is_Some (items r' !! envelope_entry s)).
Proof.
  unfold purge_slot, run_method_purge. destruct (purge_rounds _ r _ m) as [c1 r1] eqn:E1.
  apply purge_rounds_spec in E1 as ([L1 F1] & P1 & I1).
  destruct (secret_clear r1 (legacy_entry m s)) as [[d message] r2] eqn:E2. intros [= <- <-].
  pose proof (envelope_not_legacy m s s) as Hne.
  assert (Q : locked r2 = locked r1 /\ (forall e, e <> legacy_entry m s -> items r2 !! e = items r1 !! e) /\
              (d = 0 \/ (d = 1 /\ message = false) -> items r2 !! legacy_entry m s = None \/ legacy_entry m s ∈ locked r2)).
  { apply secret_clear_cases in E2 as [(-> & -> & Hm)|(-> & -> & ->)]; cbn.
    - split_and!; [done|done|]. intros [[=]|[_ ->]]. auto.
    - split_and!; [done|intros e He; by apply lookup_delete_ne|]. intros _. left. apply lookup_delete_eq. }
  destruct Q as (L2 & F2 & G2). split_and!.
  - split; [congruence|]. intros e He. rewrite F2, F1; set_solver.
  - destruct (_ || _); auto.
  - intros Hc. destruct (negb (c1 =? 0)) eqn:Ec1; [done|]. apply negb_false_iff, Z.eqb_eq in Ec1. cbn [orb] in Hc. split.
    + eapply purged_frame; [apply F2, Hne|]. auto.
    + apply G2. destruct (Z.eqb_spec d 0); [by left|]. destruct (Z.eqb_spec d 1); [|done]. destruct message; [done|]. by right.
  - intros Hi. rewrite F2 by done. auto.
Qed.

Lemma slot_entries_disjoint m s s' : accountSlot (JStr s) = s -> accountSlot (JStr s') = s' -> s <> s' ->
  forall e, e ∈ slot_entries m s -> e ∉ slot_entries m s'.
Proof.
  intros Hs Hs' Hne e. unfold slot_entries. rewrite !elem_of_cons, elem_of_nil.
  assert (X : forall b b', 64 ∉ b -> 64 ∉ b' -> keyringEntryName b (JStr s) <> keyringEntryName b' (JStr s')).
  { intros b b' H1' H2' [_ E]%entry_name_inj; congruence. }
  unfold envelope_entry, legacy_entry in *.
  intros [->|[->|[]]] [E|[E|[]]]; revert E; apply X; destruct m; vm_compute; set_solver.
Qed.

Lemma purge_listed_spec m slots : forall rc r c r', purge_listed rc r slots m = (c, r') -> rc = 0 \/ rc = 1 ->
  NoDup slots -> Forall (fun s => accountSlot (JStr s) = s) slots ->
  same_but_entries r r' (flat_map (slot_entries m) slots) /\ (c = 0 \/ c = 1) /\
  (c = 0 -> rc = 0 /\ forall s, s ∈ slots -> method_gone r' s m).
Proof.
  induction slots as [|s slots IH]; intros rc r c r'; cbn [purge_listed flat_map].
  { intros [= <- <-] Hrc _ _. split_and!; [done|done|]. intros ->. split; [done|]. set_solver. }
  destruct (purge_slot r s m) as [c1 r1] eqn:E1. apply purge_slot_spec in E1 as ([L1 F1] & Hc1 & G1 & _).
  intros E2 Hrc [Hs Hnd]%NoDup_cons [Hv Hvs]%Forall_cons. apply IH in E2 as ([L2 F2] & Hc & G); [|case_match; auto|done|done].
  split_and!; [|done|].
  - split; [congruence|]. intros e He. rewrite F2, F1; set_solver.
  - intros H0'. destruct (G H0') as [Hrc1 Gs]. destruct (Z.eqb_spec c1 0) as [->|]; [|lia]. split; [done|].
    intros s' [->|Hs']%elem_of_cons; [|auto]. destruct (G1 eq_refl) as [P Q].
    assert (K : forall e, e ∈ slot_entries m s -> items r' !! e = items r1 !! e).
    { intros e He. apply F2. intros Hin. apply list_elem_of_In, in_flat_map in Hin as (s' & Hs'%list_elem_of_In & Hin%list_elem_of_In).
      rewrite Forall_forall in Hvs. eapply (slot_entries_disjoint m s s'); eauto. set_solver. }
    split; [eapply purged_frame; [|done]|rewrite L2]; rewrite ?K; unfold slot_entries; set_solver.
Qed.

Lemma purge_slots_ok slots : NoDup (purge_slots slots) /\ Forall (fun s => accountSlot (JStr s) = s) (purge_slots slots).
Proof.
  unfold purge_slots. rewrite <- fold_left_rev_right. induction (rev slots) as [|v l [IH1 IH2]]; cbn; [split; constructor|].
  destruct v; try done. destruct (isAccountSlot (JStr s)) eqn:E; cbn; [|done]. case_bool_decide as Hin; cbn; [done|]. split.
  - apply NoDup_app. split_and!; [done|set_solver|apply NoDup_singleton].
  - apply Forall_app. split; [done|]. repeat constructor. unfold accountSlot. by rewrite E.
Qed.
(** What a purge needs of the tool: among the envelopes of [good], the summary tells
    whether the method has a way in, and a removal leaves fewer. *)
Definition tool_removes (m : purge_method) (good : list Z -> Prop) (ways : list Z -> nat) : Prop :=
  forall sealed, good sealed ->
    last sealed <> Some 10 /\ sealed <> [] /\ (length sealed <= Z.to_nat MAX_ENVELOPE_SEALED_BYTES)%nat /\
    exists summary, output_of (run_inspect sealed) (fun _ => ENVELOPE_unseal) = inr summary /\
      method_present m summary = Some (0 <? ways sealed)%nat /\
      ((0 < ways sealed)%nat -> exists new, purge_new m sealed summary = inr new /\ good new /\ (ways new < ways sealed)%nat).

Lemma purge_rounds_finish m good ways entry n : tool_removes m good ways ->
  (forall r, lookup_fails r entry = false) -> (forall new, store_works entry new = true) ->
  forall r sealed, items r !! entry = Some sealed -> good sealed -> (ways sealed < n)%nat -> (purge_rounds n r entry m).1 = 0.
Proof.
  intros Ht Hl Hw. induction n as [|n IH]; intros r sealed Hi Hg Hlt; [lia|]. cbn [purge_rounds].
  destruct (Ht sealed Hg) as (Hnl & Hne & Hlen & summary & Ho & Hp & Hrm).
  assert (Hlk : run_lookup (items r) entry MAX_ENVELOPE_SEALED_BYTES = sealed).
  { unfold run_lookup. rewrite Hi. cbn [default]. rewrite take_ge by done. by apply newlines_cut_keep. }
  unfold purge_round. rewrite Hl, Hi. cbv zeta. rewrite Hlk, bool_decide_false, Ho, Hp by done.
  destruct (Nat.ltb_spec 0 (ways sealed)) as [Hpos|_]; [|done]. destruct (Hrm Hpos) as (new & -> & Hgn & Hwn). rewrite Hw.
  apply (IH _ new); [cbn; apply lookup_insert_eq|done|lia].
Qed.
End purge.
End service.

(** ** A service for examples *)

(** It works, and the machine has the boot id [b00t]. *)
Program Definition toy_service : SecretService := {|
  search_reply r e := (0, match items r !! e with Some _ => 1 | None => 0 end);
  lookup_fails _ _ := false;
  clear_fails _ _ := false;
  unlock_works _ := true;
  session_collection := true;
  default_collection := true;
  boot_id_file := Some (js "b00t" ++ [10])
|}.
Next Obligation. intros r e _. cbn. destruct (items r !! e); split; lia || done. Qed.

Definition toy_ring : ring :=
  Ring {[ js "session" := js "old token"; keyringEntryName KEYRING_PIN (JStr (js "default")) := js "x"; js "other" := js "y" ]}
    {[ keyringEntryName KEYRING_PIN (JStr (js "default")) ]}.

(** A tool whose envelopes are their own summaries, and whose removal drops the PIN. *)
Definition pin_summary : list Z := sh "{`account`:{`id`:`u`,`server`:`s`},`pin`:{}}".
Definition bare_summary : list Z := sh "{`account`:{`id`:`u`,`server`:`s`},`pin`:null}".
Definition pin_tool (argv : list (list Z)) (env : list (list Z * list Z)) (input : list Z) : ran :=
  match argv with
  | verb :: _ => if str_eqb verb (js "remove") then (0, bare_summary) else (0, input)
  | [] => (2, [])
  end.
Definition pin_programs : Programs := {|
  unlock_tool := pin_tool; creds_encrypt p := (0, p); creds_decrypt p := (0, p); argon2 _ _ _ _ _ := (0, []);
  fido2_assert _ _ _ _ := (0, []); drawn_salt := []; drawn_fido_salt := []; store_works _ _ := true; store_prints _ _ := []; clear_works _ := true
|}.
Definition plain_jq : Jq := {| tonumber_str _ := None; alt_suppresses := true; base64 s := s; jq_print _ := [] |}.
Definition pin_envelope (sealed : list Z) : Prop := sealed = pin_summary \/ sealed = bare_summary.
Definition pin_ways (sealed : list Z) : nat := if str_eqb sealed pin_summary then 1%nat else 0%nat.

(** ** Properties *)

(** C18: A logout that reports success left nothing behind.  Whatever the secret
    service does, after clearing an account's slot every entry outside it is as it
    was; success means that none of the five entries of the slot is left, locked or
    not; anything else is reported; and when the service works it does succeed. *)
Theorem logout_clears `{!SecretService} r slot :
  let entries := map (fun base => keyringEntryName base slot) KEYRING_ALL_ACCOUNTS in
  let '(c, r') := run_clear_all r slot in
  (c = 0 \/ c = 1) /\ (c = 0 -> forall e, e ∈ entries -> items r' !! e = None) /\
  (forall e, e ∉ entries -> items r' !! e = items r !! e) /\ (service_works -> c = 0).
Proof.
  intros entries. unfold run_clear_all. fold entries. pose proof (clear_entries_work entries r) as Hw.
  destruct (clear_entries 0 r entries) as [c r'] eqn:E. apply clear_entries_spec in E as ([F _] & Hc & Hn); [|by left].
  split_and!; [done| |done|done]. intros H0. by destruct (Hn H0).
Qed.

(** A remembered session is used only in the boot that stored it.  What is read
    back is exactly the token stored behind this boot's id; a token stored in this
    boot is read back; one of another boot reads as nothing and, unless it is locked
    or the service fails, is gone; no other entry is touched. *)
Theorem session_this_boot `{!SecretService} slot content :
  boot_id_file = Some content -> let boot := newlines_cut (take 128 content) in boot <> [] -> 32 ∉ boot -> (length content <= 128)%nat ->
  (forall r, only_removes r (run_session_lookup r slot).2 [session_entry slot]) /\
  (forall r token, (run_session_lookup r slot).1 = token -> token <> [] -> lookup_fails r (session_entry slot) = false ->
     exists secret, items r !! session_entry slot = Some secret /\ stored_text secret = boot ++ 32 :: token) /\
  (forall r token r1, run_session_store r slot token = (0, r1) -> token <> [] -> last token <> Some 10 ->
     (length boot + 1 + length token <= 4096)%nat -> lookup_fails r1 (session_entry slot) = false ->
     run_session_lookup r1 slot = (token, r1)) /\
  (forall r secret other token, items r !! session_entry slot = Some secret -> lookup_fails r (session_entry slot) = false ->
     stored_text secret = other ++ 32 :: token -> 32 ∉ other -> other <> boot ->
     let '(out, r') := run_session_lookup r slot in
     out = [] /\ (session_entry slot ∉ locked r -> clear_fails r (session_entry slot) = false -> items r' !! session_entry slot = None)).
Proof.
  intros Hb boot Hne Hsp Hlen. split_and!.
  - intros r. apply session_lookup_removes.
  - intros r token Ho Ht Hl. destruct (items r !! session_entry slot) as [secret|] eqn:Es.
    + destruct (session_lookup_cases r slot content secret Hb Hne Hsp Es Hl) as [(t & _ & E & R)|(_ & R)]; rewrite R in Ho; cbn in Ho; subst; eauto.
      by case_bool_decide.
    + unfold run_session_lookup in Ho. rewrite Hb, Es in Ho. case_bool_decide; by subst.
  - intros r token r1. unfold run_session_store. rewrite Hb. cbn [default]. destruct (_ || _); [|done]. intros [= <-] Ht Hlast Hfit Hl.
    assert (Ebc : newlines_cut content = boot) by (unfold boot; by rewrite take_ge). rewrite Ebc in *. change (js " ") with [32] in *. cbn [app] in *.
    set (secret := boot ++ 32 :: token) in *. set (r1 := with_items r _) in *.
    assert (Es : items r1 !! session_entry slot = Some secret) by (cbn; apply lookup_insert_eq).
    assert (Et : stored_text secret = boot ++ 32 :: token).
    { unfold stored_text. rewrite take_ge by (unfold secret, MAX_TOKEN_BYTES; rewrite length_app, length_cons; lia). apply newlines_cut_keep.
      unfold secret. rewrite last_app, last_cons. by destruct (last token) eqn:El; [|apply last_None in El]. }
    destruct (session_lookup_cases r1 slot content secret Hb Hne Hsp Es Hl) as [(t & _ & E & R)|(N & _)]; [|by destruct (N token)].
    rewrite Et in E. apply app_inv_head in E as [= ->]. done.
  - intros r secret other token Es Hl Et Hso Hob.
    destruct (session_lookup_cases r slot content secret Hb Hne Hsp Es Hl) as [(t & _ & E & R)|(_ & R)]; rewrite R; cbn [fst snd].
    + exfalso. apply Hob. rewrite Et in E. by eapply space_split.
    + split; [done|]. intros Hk Hc. rewrite bool_decide_false by (rewrite Et; by destruct other).
      unfold secret_clear. rewrite Hc, Es, bool_decide_false by done. cbn. apply lookup_delete_eq.
Qed.

(** C27: A purge that reports success removed the method from every listed account.
    Its envelope is gone or has no such way in, and its older entry is gone or locked;
    whatever the tools and the service do, every other entry is as it was; a refused
    call changes nothing.  With a tool that removes a way each time, the 17 rounds are
    enough for the 16 ways an envelope may have. *)
Theorem method_purged `{!SecretService, !Jq, !Programs} m :
  (forall r tool slots, let '(c, r') := run_purge r tool slots (Some m) in
     (c = 0 -> forall s, s ∈ purge_slots slots -> method_gone r' s m) /\
     (forall e, e ∉ flat_map (slot_entries m) (purge_slots slots) -> items r' !! e = items r !! e) /\ (c = 2 -> r' = r)) /\
  (forall good ways r slot sealed, tool_removes m good ways -> (forall r, lookup_fails r (envelope_entry slot) = false) ->
     (forall new, store_works (envelope_entry slot) new = true) -> items r !! envelope_entry slot = Some sealed -> good sealed ->
     (ways sealed <= 16)%nat -> (run_method_purge r slot m).1 = 0).
Proof.
  split.
  - intros r tool slots. cbn [run_purge]. destruct (absolute tool); [|done].
    destruct (purge_listed 0 r (purge_slots slots) m) as [c r'] eqn:E. destruct (purge_slots_ok slots) as [Hnd Hv].
    apply purge_listed_spec in E as ([_ F] & Hc & G); [|by left|done|done]. split_and!; [|done|intros ->; by destruct Hc].
    intros Hz. by destruct (G Hz).
  - intros good ways r slot sealed Ht Hl Hw Hi Hg H16. eapply (purge_rounds_finish m good ways); eauto. apply Nat.lt_succ_r. exact H16.
Qed.

Lemma session_this_boot_witness :
  let slot := JStr (js "default") in
  (@run_session_lookup toy_service (@run_session_store toy_service toy_ring slot (js "tok en")).2 slot).1 = js "tok en".
Proof.
  assert (Hb : newlines_cut (take 128 (js "b00t" ++ [10])) <> []) by (vm_compute; discriminate).
  assert (Hs : 32 ∉ newlines_cut (take 128 (js "b00t" ++ [10]))) by (vm_compute; set_solver).
  destruct (@session_this_boot toy_service (JStr (js "default")) (js "b00t" ++ [10]) eq_refl Hb Hs ltac:(vm_compute; lia)) as (_ & _ & H & _).
  refine (f_equal fst (H toy_ring (js "tok en") (@run_session_store toy_service toy_ring (JStr (js "default")) (js "tok en")).2 eq_refl _ _ _ eq_refl));
    [vm_compute; discriminate|vm_compute; discriminate|vm_compute; lia].
Defined.

Lemma method_purged_witness :
  (@run_method_purge toy_service plain_jq pin_programs
     (Ring {[ envelope_entry (js "default") := pin_summary ]} ∅) (js "default") PurgePin).1 = 0.
Proof.
  apply (proj2 (@method_purged toy_service plain_jq pin_programs PurgePin) pin_envelope pin_ways _ _ pin_summary); [|done|done| |by left|vm_compute; lia].
  - intros sealed [->| ->]; (split_and!; [vm_compute; discriminate|vm_compute; discriminate|
      apply Nat2Z.inj_le; rewrite Z2Nat.id by (vm_compute; discriminate); vm_compute; discriminate|]); eexists;
      (split_and!; [vm_compute; reflexivity|vm_compute; reflexivity|intros Hw]).
    + exists bare_summary. split_and!; [vm_compute; reflexivity|by right|vm_compute; lia].
    + exfalso. vm_compute in Hw. lia.
  - cbn. apply lookup_singleton_eq.
Defined.

(** A locked older entry is cleared at logout, and the rest of the keyring stays. *)
Example logout_example :
  let '(c, r) := @run_clear_all toy_service toy_ring (JStr (js "default")) in
  c = 0 /\ items r !! js "other" = Some (js "y") /\ items r !! js "pin_blob" = None.
Proof. vm_compute. auto. Qed.

(** A purge reports success although a locked older entry is still there. *)
Example purge_leaves_locked :
  let e := keyringEntryName KEYRING_PIN (JStr (js "default")) in
  let '(c, r) := @run_purge toy_service plain_jq pin_programs toy_ring (JStr (js "/tool")) [JStr (js "default")] (Some PurgePin) in
  c = 0 /\ items r !! e = Some (js "x").
Proof. vm_compute. auto. Qed.

(** Forgetting the session reports success when the search fails, whatever is left. *)
Program Definition silent_service : SecretService := {|
  search_reply _ _ := (1, 0); lookup_fails _ _ := true; clear_fails _ _ := true; unlock_works _ := false;
  session_collection := false; default_collection := false; boot_id_file := None
|}.
Next Obligation. done. Qed.

Example session_clear_blind :
  let r := Ring {[ session_entry (JStr (js "default")) := js "token" ]} ∅ in
  @run_session_clear silent_service r (JStr (js "default")) = (0, r).
Proof. reflexivity. Qed.
