(* ===== verification/Commands.v ===== *)
(** * Commands for bw, the session and the item files ([BitwardenModel.js])

    One definition per command builder.  Values of the user reach a script only
    through [shellQuote] or through the environment.  In the literals a backtick
    stands for a double quote. *)

From S2P Require Import Prelude.
From S2P Require Import JsNum.
From S2P Require Import JsString.
From S2P Require Import JsUnicode.
From S2P Require Import JsValue.
From S2P Require Import Json.
From S2P Require Import Accounts.
From S2P Require Import Shell.
From S2P Require Import Auth.
From S2P Require Import Items.
From S2P Require Import Associations.
From S2P Require Import Setup.
From S2P Require Import Envelope.

(** ** Environment variables *)

Definition SESSION_ENV : list Z := js "BW_SESSION".
Definition PASSWORD_ENV : list Z := js "BW_PASSWORD".
Definition CLIENT_ID_ENV : list Z := js "BW_CLIENTID".
Definition CLIENT_SECRET_ENV : list Z := js "BW_CLIENTSECRET".
Definition TWOFACTOR_CODE_ENV : list Z := js "QSBW_CODE".
Definition NOINTERACTION_ENV : list Z := js "BW_NOINTERACTION".
Definition DEVICE_CODE_ENV : list Z := js "QSBW_DEVICE_CODE".
Definition ACCOUNTS_ENV : list Z := js "QSBW_ACCOUNTS".
Definition CLIPBOARD_ENV : list Z := js "QSBW_CLIP".
Definition FOLDER_ENV : list Z := js "QSBW_FOLDER".
Definition ITEM_ENV : list Z := js "QSBW_ITEM".
Definition SEND_ENV : list Z := js "QSBW_SEND".
Definition ATTACHMENT_NAME_ENV : list Z := js "QSBW_ATTACHMENT_NAME".
Definition OPEN_PATH_ENV : list Z := js "QSBW_OPEN_PATH".
Definition LOAD_ID_ENV : list Z := js "QSBW_LOAD_ID".

Definition sessionEnvVar : list Z := SESSION_ENV.
Definition passwordEnvVar : list Z := PASSWORD_ENV.
Definition clientIdEnvVar : list Z := CLIENT_ID_ENV.
Definition clientSecretEnvVar : list Z := CLIENT_SECRET_ENV.
Definition twoFactorCodeEnvVar : list Z := TWOFACTOR_CODE_ENV.
Definition twoFactorCodeFlag : list Z := TWOFACTOR_CODE_FLAG.
Definition noInteractionEnvVar : list Z := NOINTERACTION_ENV.
Definition deviceCodeEnvVar : list Z := DEVICE_CODE_ENV.
Definition clipboardEnvVar : list Z := CLIPBOARD_ENV.
Definition folderEnvVar : list Z := FOLDER_ENV.
Definition itemEnvVar : list Z := ITEM_ENV.
Definition sendEnvVar : list Z := SEND_ENV.
Definition attachmentNameEnvVar : list Z := ATTACHMENT_NAME_ENV.
Definition openPathEnvVar : list Z := OPEN_PATH_ENV.
Definition loadIdEnvVar : list Z := LOAD_ID_ENV.

Definition MAX_HANDOFF_BYTES : Z := 4096.
Definition MAX_ACCOUNTS_BYTES : Z := 64 * 1024.
Definition DEVICE_VERIFICATION_TIMEOUT_S : Z := 60.
Definition MAX_ATTACHMENT_BYTES : Z := 512 * 1024 * 1024.
Definition ATTACHMENT_TIMEOUT_SECS : Z := 900.
Definition ATTACHMENT_FREE_SLACK_BYTES : Z := 64 * 1024 * 1024.
Definition ENCODE_CMD : list Z := js "base64 -w0".

(** ** Signing in and unlocking *)

Definition statusCommand : list (list Z) := buildCappedCommand [js "status"] (Some MAX_STATUS_BYTES) None.
Definition logoutCommand : list (list Z) := [js "bw"; js "logout"].
Definition syncCommand : list (list Z) := buildCappedCommand [js "sync"] (Some MAX_MISC_BYTES) None.
Definition lockCommand : list (list Z) := buildCappedCommand [js "lock"] (Some MAX_MISC_BYTES) None.

Definition unlockPrewarmCommand : list (list Z) :=
  supervisedAuthCommand unlock_channel (sh "bw unlock --passwordfile `$__auth_fifo` --raw | head -c " ++ num_text MAX_TOKEN_BYTES) [].

Definition method_arg (method : jsval) : list Z := if isTwoFactorMethod method then js " --method " ++ to_string method else [].

Definition emailLoginPrewarmCommand (email : jsval) (hasCode : bool) (serverUrl method : jsval) : list (list Z) :=
  supervisedAuthCommand login_channel
    (serverConfigPrefix serverUrl ++ sh "bw login " ++ shellQuote email ++ sh " --passwordfile `$__auth_fifo`"
     ++ method_arg method ++ (if hasCode then js " " ++ TWOFACTOR_CODE_FLAG else [])
     ++ sh " --raw | head -c " ++ num_text MAX_TOKEN_BYTES) appDataDirPrelude.

Definition deviceVerificationLoginCommand (email serverUrl method : jsval) : list (list Z) :=
  supervisedAuthCommand login_channel
    (serverConfigPrefix serverUrl ++ sh "printf '%s\n' `$" ++ DEVICE_CODE_ENV ++ sh "` | "
     ++ sh "timeout " ++ num_text DEVICE_VERIFICATION_TIMEOUT_S ++ sh "s bw login " ++ shellQuote email
     ++ sh " --passwordfile `$__auth_fifo`"
     ++ method_arg method ++ sh " --raw | head -c " ++ num_text MAX_TOKEN_BYTES) appDataDirPrelude.

Definition authPasswordWriteCommand (channel : auth_channel) : list (list Z) :=
  let fifoName := authPasswordFifoName channel in
  if bool_decide (fifoName = []) then []
  else bash (sh "test -n `${XDG_RUNTIME_DIR:-}` || exit 1; "
    ++ sh "__auth_dir=`$XDG_RUNTIME_DIR/" ++ RUNTIME_SUBDIR ++ sh "`; "
    ++ sh "__auth_fifo=`$__auth_dir/" ++ fifoName ++ sh "`; "
    ++ sh "for __auth_wait in {1..200}; do "
    ++ sh "if [ -d `$__auth_dir` ] && [ ! -L `$__auth_dir` ] && [ -p `$__auth_fifo` ] && [ ! -L `$__auth_fifo` ]; then "
    ++ sh "exec timeout 10s bash -c 'printf `%s` `$" ++ PASSWORD_ENV ++ sh "` > `$1`' _ `$__auth_fifo`; "
    ++ sh "fi; sleep 0.01; done; exit 1").

Definition apiKeyLoginCommand (serverUrl : jsval) : list (list Z) :=
  supervisedProcessCommand
    (serverConfigPrefix serverUrl ++ sh "bw login --apikey >/dev/null 2>&1 && "
     ++ sh "bw unlock --passwordenv " ++ PASSWORD_ENV ++ sh " --raw | head -c " ++ num_text MAX_TOKEN_BYTES) appDataDirPrelude.

Definition bwVerifyPasswordCommand : list (list Z) :=
  capped (sh "bw unlock --passwordenv " ++ KEYRING_SECRET_ENV ++ sh " --raw 2>/dev/null | head -c " ++ num_text MAX_TOKEN_BYTES).

(** ** Signing in from a terminal *)

Definition HANDOFF_BASENAME : list Z := js "session-handoff".

(** What runs in the terminal. *)
Definition terminal_login_script (unlock : bool) (serverUrl slot : jsval) : list Z :=
  let verb := if unlock then js "unlock" else js "login" in
  let configureServer := if unlock then [] else serverConfigPrefix serverUrl in
  sh "set -u; " ++ accountAppDataExport slot ++ appDataDirPrelude
  ++ sh "d=`${XDG_RUNTIME_DIR:?no XDG_RUNTIME_DIR -- refusing to write a session key}/" ++ RUNTIME_SUBDIR ++ sh "`; f=`$d/"
  ++ HANDOFF_BASENAME ++ sh "`; " ++ sh "umask 077; " ++ privateDirScript (sh "d") ++ sh "rm -f -- `$f` || exit 1; "
  ++ configureServer ++ sh "if bw " ++ verb ++ sh " --raw > `$f` && [ -s `$f` ]; then "
  ++ sh "dms ipc call bitwarden open >/dev/null 2>&1 || true; "
  ++ sh "echo; echo 'Done. Returning to the Bitwarden panel...'; sleep 1; "
  ++ sh "else rm -f `$f`; echo; echo 'Not completed -- nothing was handed to the panel.'; "
  ++ sh "read -p 'Press enter to close...'; fi".

Definition terminalLoginCommand (unlock : bool) (serverUrl slot : jsval) : list (list Z) :=
  let inner := terminal_login_script unlock serverUrl slot in
  bash (sh "xdg-terminal-exec bash -c " ++ shellQuote (JStr inner) ++ sh " || alacritty -e bash -c " ++ shellQuote (JStr inner)).

Definition sessionHandoffReadCommand (expecting : bool) : list (list Z) :=
  bash (sh "d=`${XDG_RUNTIME_DIR:-}`; [ -n `$d` ] || exit 0; " ++ sh "d=`$d/" ++ RUNTIME_SUBDIR ++ sh "`; "
    ++ sh "[ -d `$d` ] && [ ! -L `$d` ] || exit 0; " ++ sh "f=`$d/" ++ HANDOFF_BASENAME ++ sh "`; "
    ++ sh "[ -s `$f` ] && [ -f `$f` ] && [ ! -L `$f` ] || exit 0; "
    ++ (if expecting then sh "head -c " ++ num_text MAX_HANDOFF_BYTES ++ sh " `$f`; " else [])
    ++ sh "rm -f `$f`").

(** ** Screen lock, sleep and windows *)

Definition SCREEN_LOCK_POLL_MS : Z := 3000.
Definition screenLockPollMs : Z := SCREEN_LOCK_POLL_MS.
Definition screenLockStateCommand : list (list Z) := bash (sh "dms ipc call lock isLocked 2>/dev/null | head -c 16").

Definition SLEEP_SIGNAL_TOKEN : list Z := js "sleep".
Definition WAKE_SIGNAL_TOKEN : list Z := js "wake".
Definition SLEEP_ACK_TOKEN : list Z := js "ack".
Definition SLEEP_ACK_TIMEOUT_S : Z := 4.
Definition sleepSignalToken : list Z := SLEEP_SIGNAL_TOKEN.
Definition wakeSignalToken : list Z := WAKE_SIGNAL_TOKEN.
Definition sleepAckLine : list Z := SLEEP_ACK_TOKEN ++ [10].
Definition sleepAckTimeoutS : Z := SLEEP_ACK_TIMEOUT_S.

(** What holds the delay inhibitor. *)
Definition sleep_inner_script : list Z :=
  let monitor := sh "gdbus monitor --system --dest org.freedesktop.login1" ++ sh " --object-path /org/freedesktop/login1 2>/dev/null" in
  let match_ := sh "sed -une '/PrepareForSleep (true,/{s/.*/x/p;q}'" in
  sh "exec 3< <(" ++ monitor ++ sh "); g=$!; " ++ sh "m=`$(" ++ match_ ++ sh " <&3)`; "
  ++ sh "kill `$g` 2>/dev/null; exec 3<&-; " ++ sh "[ -n `$m` ] || exit 1; " ++ sh "while read -r -t 0.05 _; do :; done; "
  ++ sh "echo " ++ shellQuote (JStr SLEEP_SIGNAL_TOKEN) ++ sh "; " ++ sh "read -r -t " ++ num_text SLEEP_ACK_TIMEOUT_S
  ++ sh " _; exit 0".

Definition sleepMonitorCommand : list (list Z) :=
  let inner := sleep_inner_script in
  [js "setsid"; js "bash"; js "-c";
   sh "exec 4<> <(:); " ++ sh "(while IFS= read -r l; do [ `$l` = " ++ shellQuote (JStr SLEEP_ACK_TOKEN)
   ++ sh " ] && printf '%s\n' " ++ shellQuote (JStr SLEEP_ACK_TOKEN) ++ sh " >&4; done; kill -KILL -- -$$) <&0 & "
   ++ sh "while :; do " ++ sh "command -v gdbus >/dev/null 2>&1 || { sleep 300; continue; }; "
   ++ sh "if systemd-inhibit --what=sleep --mode=delay" ++ sh " --who=" ++ shellQuote (JStr (sh "Bitwarden")) ++ sh " --why="
   ++ shellQuote (JStr (sh "Locking the vault before sleep")) ++ sh " bash -c " ++ shellQuote (JStr inner) ++ sh " <&4; then "
   ++ sh "echo " ++ shellQuote (JStr WAKE_SIGNAL_TOKEN) ++ sh "; " ++ sh "else sleep 5; fi; " ++ sh "done"].

Definition activeWindowCommand : list (list Z) :=
  [js "sh"; js "-c";
   sh "hyprctl activewindow -j 2>/dev/null | grep -q '`class`: `[^`]' "
   ++ sh "&& (hyprctl activewindow -j 2>/dev/null | head -c 65536) " ++ sh "|| (hyprctl clients -j 2>/dev/null | head -c 1048576)"].

(** ** Clipboard *)

Definition CLIPBOARD_SENSITIVE_TYPE : list Z := js "x-kde-passwordManagerHint".

Definition clipboardCopyCommand (clearSec : jsval) : list (list Z) :=
  let sec := num_floor (to_number clearSec) in
  let copy := if num_is_finite sec && num_ltb (NZ 0) sec
              then js "timeout " ++ num_to_string sec ++ js "s wl-copy --foreground --sensitive"
              else js "wl-copy --sensitive" in
  bash (sh "exec env -u " ++ CLIPBOARD_ENV ++ sh " " ++ copy ++ sh " < <(printf '%s' `$" ++ CLIPBOARD_ENV ++ sh "`)").

Definition clipboardClearSensitiveCommand : list (list Z) :=
  bash (sh "if wl-paste --list-types 2>/dev/null | grep -qx " ++ shellQuote (JStr CLIPBOARD_SENSITIVE_TYPE)
    ++ sh "; then wl-copy --clear; fi; exit 0").

(** ** Programs of the sanitized read (their meaning is in [Vault]) *)

Definition JQ_ITEM_HELPERS : list (list Z) :=
  [sh "def string_or_empty: if type == `string` then . else `` end;";
   sh "def string_or_null: if type == `string` then . else null end;";
   sh "def bool_or_false: if type == `boolean` then . else false end;";
   sh "def reprompt_or_zero: if . == 0 or . == 1 then . else 0 end;";
   sh "def item_type: try (.type | tonumber) catch null;";
   sh "def ordinary_type: item_type as $t | ($t == 1 or $t == 2 or $t == 3 or $t == 4);";
   sh "def ssh_type: item_type == 5;"].

Definition sanitized_items_program : list Z :=
  join [10] (JQ_ITEM_HELPERS ++
    [sh "if type != `array` then";
     sh "  error(`expected one item array`)";
     sh "elif any(.[] | objects | select(ordinary_type); has(`sshKey`)) then";
     sh "  error(`ordinary item carries an SSH key subtree`)";
     sh "else";
     sh "  {";
     sh "    sshCapability: (if any(.[] | objects; ssh_type) then `confirmed` else `unconfirmed` end),";
     sh "    items: [.[] | objects | select(ordinary_type)],";
     sh "    sshKeys: [.[] | objects | select(ssh_type) | {";
     sh "      id: (.id | string_or_empty),";
     sh "      name: (.name | string_or_empty),";
     sh "      type: 5,";
     sh "      organizationId: (.organizationId | string_or_null),";
     sh "      collectionIds: (if (.collectionIds | type) == `array` then [.collectionIds[] | strings] else [] end),";
     sh "      folderId: (.folderId | string_or_null),";
     sh "      favorite: (.favorite | bool_or_false),";
     sh "      reprompt: (.reprompt | reprompt_or_zero),";
     sh "      publicKey: ((try (.sshKey.publicKey // .publicKey) catch null) | string_or_empty),";
     sh "      fingerprint: ((try (.sshKey.fingerprint // .sshKey.keyFingerprint // .fingerprint // .keyFingerprint) catch null) | string_or_empty)";
     sh "    }]";
     sh "  }";
     sh "end"]).

Definition agent_keys_program : list Z :=
  join [10] (JQ_ITEM_HELPERS ++
    [sh "if type != `array` then";
     sh "  error(`expected one item array`)";
     sh "else";
     sh "  {";
     sh "    loadId: $loadId,";
     sh "    items: [.[] | objects | select(ssh_type)";
     sh "      | select((.reprompt | reprompt_or_zero) == 0)";
     sh "      | {";
     sh "        itemId: (.id | string_or_empty),";
     sh "        name: (.name | string_or_empty),";
     sh "        privateKeyB64: ((try (.sshKey.privateKey // .privateKey) catch null) | string_or_empty | @base64),";
     sh "        publicKey: ((try (.sshKey.publicKey // .publicKey) catch null) | string_or_empty),";
     sh "        fingerprint: ((try (.sshKey.fingerprint // .sshKey.keyFingerprint // .fingerprint // .keyFingerprint) catch null) | string_or_empty),";
     sh "        requiresReprompt: false";
     sh "      }";
     sh "      | select(.privateKeyB64 != ``)]";
     sh "  }";
     sh "end"]).

Definition strict_json_program (rejectExpr writeStmt : list Z) : list Z :=
  join [10]
  [sh "const maxBytes = Number(process.argv[1]);";
   sh "const chunks = [];";
   sh "let byteLength = 0;";
   sh "process.stdin.on(`data`, function (chunk) {";
   sh "  byteLength += chunk.length;";
   sh "  chunks.push(chunk);";
   sh "});";
   sh "process.stdin.on(`end`, function () {";
   sh "  if (byteLength > maxBytes) process.exit(1);";
   sh "  const raw = Buffer.concat(chunks, byteLength);";
   sh "  try {";
   sh "    const decoder = new (require(`util`).TextDecoder)(`utf-8`, { fatal: true });";
   sh "    const parsed = JSON.parse(decoder.decode(raw));";
   sh "    if (" ++ rejectExpr ++ sh ") process.exit(1);";
   sh "  } catch (error) {";
   sh "    process.exit(1);";
   sh "  }";
   sh "  " ++ writeStmt;
   sh "});"].

Definition strict_json_passthrough : list Z :=
  strict_json_program (sh "!Array.isArray(parsed)") (sh "process.stdout.write(raw);").

Definition strict_json_one_object : list Z :=
  strict_json_program (sh "parsed === null || typeof parsed !== `object` || Array.isArray(parsed)")
    (sh "process.stdout.write(`[`); process.stdout.write(raw); process.stdout.write(`]`);").

Definition saved_unsanitized_marker : list Z := js "__QSBW_SAVED_UNSANITIZED__".

Definition fifo_writer : list Z :=
  join [10]
  [sh "const fs = require(`fs`);";
   sh "let fd = null;";
   sh "try {";
   sh "  const flags = fs.constants.O_RDWR | fs.constants.O_NOFOLLOW;";
   sh "  const opened = fs.openSync(process.argv[1], flags);";
   sh "  const stat = fs.fstatSync(opened);";
   sh "  if ((stat.mode & fs.constants.S_IFMT) === fs.constants.S_IFIFO) fd = opened;";
   sh "  else fs.closeSync(opened);";
   sh "} catch (error) {}";
   sh "process.stdin.on(`data`, function (chunk) {";
   sh "  if (fd === null) return;";
   sh "  try {";
   sh "    let offset = 0;";
   sh "    while (offset < chunk.length) offset += fs.writeSync(fd, chunk, offset);";
   sh "  } catch (error) { try { fs.closeSync(fd); } catch (ignored) {}; fd = null; }";
   sh "});";
   sh "process.stdin.on(`end`, function () { if (fd !== null) fs.closeSync(fd); });"].

Definition agentBranchScript : list Z :=
  let inner := sh "__qsbw_fifo=`$XDG_RUNTIME_DIR/" ++ RUNTIME_SUBDIR ++ sh "/ssh-keys.fifo`; " ++ sh "if [ -p `$__qsbw_fifo` ]; then "
    ++ sh "timeout 10 jq -c --arg loadId `${" ++ LOAD_ID_ENV ++ sh ":-}` " ++ shellQuote (JStr agent_keys_program)
    ++ sh " 2>/dev/null | timeout 10 node -e " ++ shellQuote (JStr fifo_writer) ++ sh " `$__qsbw_fifo` 2>/dev/null || true; "
    ++ sh "fi; " ++ sh "cat >/dev/null 2>&1 || true" in
  sh "tee >(" ++ inner ++ sh ") | ".

Definition sanitizedListCommand (agentBranch : bool) : list (list Z) :=
  let maxPlusOne := MAX_ITEMS_BYTES + 1 in
  let script :=
    sh "export LC_ALL=C BW_NOINTERACTION=true; set -o pipefail; "
    ++ sh "__qsbw_items=$({ bw list items | head -c " ++ num_text maxPlusOne ++ sh " | node -e "
    ++ shellQuote (JStr strict_json_passthrough) ++ sh " " ++ num_text MAX_ITEMS_BYTES ++ sh " | "
    ++ (if agentBranch then agentBranchScript else []) ++ sh "jq -c " ++ shellQuote (JStr sanitized_items_program)
    ++ sh " | head -c " ++ num_text maxPlusOne ++ sh "; } 2>/dev/null)" ++ [10]
    ++ sh "__rc=$?" ++ [10]
    ++ sh "if [ `$__rc` -ne 0 ] || [ `${#__qsbw_items}` -gt " ++ num_text MAX_ITEMS_BYTES ++ sh " ]; then" ++ [10]
    ++ sh "  printf '%s\n' " ++ shellQuote (JStr SANITIZED_LIST_ERROR) ++ sh " >&2" ++ [10]
    ++ sh "  exit 1" ++ [10]
    ++ sh "fi" ++ [10]
    ++ sh "printf '%s' `$__qsbw_items`" in
  if agentBranch then supervisedProcessCommand script [] else bash script.

(** ** Lists and items *)

Definition listOrganizationsCommand : list (list Z) := buildCappedCommand [js "list"; js "organizations"] (Some MAX_ORGS_BYTES) None.
Definition listFoldersCommand : list (list Z) := buildCappedCommand [js "list"; js "folders"] (Some MAX_FOLDERS_BYTES) None.
Definition listCollectionsCommand : list (list Z) := buildCappedCommand [js "list"; js "collections"] (Some MAX_COLLECTIONS_BYTES) None.
Definition listOrgCollectionsCommand (organizationId : jsval) : list (list Z) :=
  buildCappedCommand [js "list"; js "org-collections"; js "--organizationid"; to_string organizationId] (Some MAX_COLLECTIONS_BYTES) None.

Definition folderPayload (name : jsval) : list Z := stringify (JObj [(js "name", JStr (trim (text name)))]).

Definition createFolderCommand : list (list Z) :=
  capped (sh "printf '%s' `$" ++ FOLDER_ENV ++ sh "` | " ++ ENCODE_CMD ++ sh " | bw create folder | head -c "
    ++ num_text MAX_MISC_BYTES).

(** [Number(typeCode) === 5]: an SSH key, whose private part bw would print. *)
Definition is_ssh_code (typeCode : jsval) : bool := num_eqb (to_number typeCode) (NZ 5).

Definition getItemCommand (id typeCode : jsval) : list (list Z) :=
  if is_ssh_code typeCode then []
  else buildCappedCommand [js "get"; js "item"; js "--"; to_string id] (Some MAX_DETAIL_BYTES) (Some MAX_STDERR_BYTES).

Definition getPasswordCommand (id typeCode : jsval) : list (list Z) :=
  if is_ssh_code typeCode then []
  else buildCappedCommand [js "get"; js "password"; js "--raw"; js "--"; to_string id] (Some MAX_TOKEN_BYTES) (Some MAX_STDERR_BYTES).

Definition getTotpCommand (id typeCode : jsval) : list (list Z) :=
  if is_ssh_code typeCode then []
  else buildCappedCommand [js "get"; js "totp"; js "--raw"; js "--"; to_string id] (Some MAX_TOKEN_BYTES) None.

Definition deleteItemCommand (itemId typeCode : jsval) : list (list Z) :=
  if is_ssh_code typeCode then []
  else buildCappedCommand [js "delete"; js "item"; js "--"; to_string itemId] (Some MAX_MISC_BYTES) (Some MAX_STDERR_BYTES).

Definition save_pipeline (saveCommand : list Z) : list (list Z) :=
  let maxPlusOne := MAX_MISC_BYTES + 1 in
  bash (sh "exec 2> >(head -c " ++ num_text MAX_STDERR_BYTES ++ sh " >&2); "
    ++ sh "export LC_ALL=C BW_NOINTERACTION=true; set -o pipefail; "
    ++ sh "__qsbw_saved=$(printf '%s' `$" ++ ITEM_ENV ++ sh "` | " ++ ENCODE_CMD ++ sh " | " ++ saveCommand ++ sh " | head -c "
    ++ num_text maxPlusOne ++ sh ")" ++ [10]
    ++ sh "__rc=$?" ++ [10]
    ++ sh "case `$__rc` in 141) __rc=0 ;; esac" ++ [10]
    ++ sh "if [ `$__rc` -ne 0 ]; then exit `$__rc`; fi" ++ [10]
    ++ sh "__qsbw_env=$({ printf '%s' `$__qsbw_saved`" ++ sh " | node -e " ++ shellQuote (JStr strict_json_one_object) ++ sh " "
    ++ num_text MAX_MISC_BYTES ++ sh " | jq -c " ++ shellQuote (JStr sanitized_items_program) ++ sh " | head -c "
    ++ num_text maxPlusOne ++ sh "; } 2>/dev/null)" ++ [10]
    ++ sh "if [ $? -ne 0 ] || [ -z `$__qsbw_env` ] || [ `${#__qsbw_env}` -gt " ++ num_text MAX_MISC_BYTES ++ sh " ]; then" ++ [10]
    ++ sh "  printf '%s' " ++ shellQuote (JStr saved_unsanitized_marker) ++ [10]
    ++ sh "  exit 0" ++ [10]
    ++ sh "fi" ++ [10]
    ++ sh "printf '%s' `$__qsbw_env`").

Definition createItemCommand (itemData : jsval) : list (list Z) :=
  let organizationId := fld itemData "organizationId" in
  save_pipeline (js "bw create item"
    ++ (if truthy itemData && truthy organizationId then js " --organizationid " ++ shellQuote organizationId else [])).

Definition editItemCommand (itemId typeCode : jsval) : list (list Z) :=
  if is_ssh_code typeCode then [] else save_pipeline (js "bw edit item -- " ++ shellQuote itemId).

(** ** Sends *)

Definition listSendsCommand : list (list Z) := buildCappedCommand [js "send"; js "list"] (Some MAX_SENDS_BYTES) None.
Definition deleteSendCommand (sendId : jsval) : list (list Z) :=
  buildCappedCommand [js "send"; js "delete"; js "--"; to_string sendId] (Some MAX_MISC_BYTES) None.
Definition createSendCommand : list (list Z) :=
  capped (sh "printf '%s' `$" ++ SEND_ENV ++ sh "` | " ++ ENCODE_CMD ++ sh " | bw send create | head -c " ++ num_text MAX_MISC_BYTES).

(** ** Attachments *)

(** The one property of the environment object: its value. *)
Definition attachmentDownloadEnv (fileName : jsval) : list Z * list Z := (ATTACHMENT_NAME_ENV, safeAttachmentFileName fileName).

(** The claim program; its meaning is in [Attachments]. *)
Definition attachment_claim_program : list Z :=
  join [10]
  [sh "const fs = require(`fs`);";
   sh "const dir = process.argv[1], tmp = process.argv[2];";
   sh "const name = process.env." ++ ATTACHMENT_NAME_ENV ++ sh " || ``;";
   sh "const done = p => { process.stdout.write(p); process.exit(0); };";
   sh "const fail = m => { process.stderr.write(m + `\n`); process.exit(1); };";
   sh "if (!name || /[\/\0]/.test(name) || name === `.` || name === `..`) fail(`Invalid attachment name.`);";
   sh "const dot = name.lastIndexOf(`.`);";
   sh "const stem = dot >= 0 ? name.slice(0, dot) : name;";
   sh "const ext = dot >= 0 ? name.slice(dot) : ``;";
   sh "let hardlink = true, cand = null, fd = null, busy = false, stopped = false;";
   sh "const abandon = code => {";
   sh "  let emptied = true;";
   sh "  try { fs.ftruncateSync(fd, 0); } catch (e) { emptied = false; }";
   sh "  const left = cand.slice(dir.length + 1);";
   sh "  if (code !== 143) process.stderr.write(`Could not save into the download folder; ` + (emptied";
   sh "    ? `an empty ` + left + ` was left there.`";
   sh "    : left + ` there may still hold part of the attachment.`) + `\n`);";
   sh "  process.exit(code);";
   sh "};";
   sh "for (const sig of [`SIGTERM`, `SIGHUP`, `SIGINT`]) process.on(sig, () => {";
   sh "  if (fd === null) process.exit(143);";
   sh "  stopped = true;";
   sh "  if (!busy) abandon(143);";
   sh "});";
   sh "for (let n = 0; n <= 999 && cand === null; n++) {";
   sh "  const c = dir + `/` + (n === 0 ? name : stem + ` (` + n + `)` + ext);";
   sh "  if (hardlink) {";
   sh "    try { fs.linkSync(tmp, c); done(c); }";
   sh "    catch (e) { if (e.code === `EEXIST`) continue; hardlink = false; }";
   sh "  }";
   sh "  try { fd = fs.openSync(c, `wx`); cand = c; }";
   sh "  catch (e) { if (e.code !== `EEXIST`) fail(`Could not save into the download folder.`); }";
   sh "}";
   sh "if (cand === null) fail(`Could not find a free name in the download folder.`);";
   sh "let src;";
   sh "try { src = fs.openSync(tmp, `r`); } catch (e) { abandon(1); }";
   sh "const buf = Buffer.allocUnsafe(1 << 20);";
   sh "const pump = () => {";
   sh "  busy = true;";
   sh "  fs.read(src, buf, 0, buf.length, null, (e, got) => {";
   sh "    busy = false;";
   sh "    if (stopped) return abandon(143);";
   sh "    if (e) return abandon(1);";
   sh "    if (got === 0) return done(cand);";
   sh "    put(0, got);";
   sh "  });";
   sh "};";
   sh "const put = (off, got) => {";
   sh "  busy = true;";
   sh "  fs.write(fd, buf, off, got - off, null, (e, wrote) => {";
   sh "    busy = false;";
   sh "    if (stopped) return abandon(143);";
   sh "    if (e) return abandon(1);";
   sh "    if (off + wrote < got) put(off + wrote, got); else pump();";
   sh "  });";
   sh "};";
   sh "pump();"].

(** [want]; [None] when the size is not known. *)
Definition attachment_want (declaredSize : jsval) : option num :=
  let numericSize := to_number declaredSize in
  let sizeKnown := negb (is_nullish declaredSize) && negb (bool_decide (trim (to_string declaredSize) = []))
    && num_is_finite numericSize && num_leb (NZ 0) numericSize in
  if sizeKnown
  then let want := num_floor numericSize in
       Some (if num_ltb (NZ MAX_ATTACHMENT_BYTES) want then NZ (MAX_ATTACHMENT_BYTES + 1) else want)
  else None.

(** [needKb] *)
Definition attachment_need_kb (want : option num) : num :=
  num_ceil (num_div (num_add (default (NZ MAX_ATTACHMENT_BYTES) want) (NZ ATTACHMENT_FREE_SLACK_BYTES)) 1024).

Definition attachment_script (attachmentId itemId declaredSize : jsval) : list Z :=
  let maxBytes := MAX_ATTACHMENT_BYTES in
  let maxMb := MAX_ATTACHMENT_BYTES / (1024 * 1024) in
  let maxBlocks := (MAX_ATTACHMENT_BYTES + 1023) / 1024 in
  let want := default (NZ 0) (attachment_want declaredSize) in
  let needKb := attachment_need_kb (attachment_want declaredSize) in
  join [10]
  [sh "set -e";
   sh "umask 077";
   sh "exec 2> >(head -c " ++ num_text MAX_STDERR_BYTES ++ sh " >&2)";
   sh "max=" ++ num_text maxBytes;
   sh "want=" ++ num_to_string want;
   sh "dir=`$(xdg-user-dir DOWNLOAD 2>/dev/null || true)`";
   sh "if [ -z `$dir` ] || [ `$dir` = `$HOME` ]; then dir=`$HOME/Downloads`; fi";
   sh "mkdir -p -- `$dir`";
   sh "if [ `$want` -gt `$max` ]; then";
   sh "  echo 'Attachment is larger than the " ++ num_text maxMb ++ sh " MB download limit.' >&2; exit 1";
   sh "fi";
   sh "avail=$(df -Pk -- `$dir` 2>/dev/null | awk 'NR==2 {print $4}')";
   sh "case `$avail` in ''|*[!0-9]*) avail='' ;; esac";
   sh "if [ -n `$avail` ] && [ `$avail` -lt " ++ num_to_string needKb ++ sh " ]; then";
   sh "  echo 'Not enough free space in the download folder.' >&2; exit 1";
   sh "fi";
   sh "work=$(mktemp -d -- `$dir/.qsbw-XXXXXXXX`)";
   sh "trap 'rm -rf -- `$work`' EXIT HUP INT TERM";
   sh "tmp=`$work/part`";
   sh "rc=0";
   sh "( ulimit -f " ++ num_text maxBlocks ++ sh "; exec timeout " ++ num_text ATTACHMENT_TIMEOUT_SECS ++ sh "s bw get attachment --itemid " ++ shellQuote itemId ++ sh " --output `$tmp` -- " ++ shellQuote attachmentId ++ sh " >/dev/null ) || rc=$?";
   sh "if [ `$rc` -ne 0 ]; then";
   sh "  case `$rc` in";
   sh "    124) echo 'Download timed out.' >&2 ;;";
   sh "    153) echo 'Attachment exceeded the " ++ num_text maxMb ++ sh " MB download limit.' >&2 ;;";
   sh "  esac";
   sh "  exit 1";
   sh "fi";
   sh "got=$(wc -c < `$tmp` 2>/dev/null || echo 0)";
   sh "if [ `$got` -gt `$max` ]; then";
   sh "  echo 'Attachment exceeded the " ++ num_text maxMb ++ sh " MB download limit.' >&2; exit 1";
   sh "fi";
   sh "out=$(node -e " ++ shellQuote (JStr attachment_claim_program) ++ sh " `$dir` `$tmp`)";
   sh "printf %s `$out` | head -c 4096"].

Definition attachmentDownloadCommand (attachmentId itemId declaredSize : jsval) : list (list Z) :=
  supervisedProcessCommand (attachment_script attachmentId itemId declaredSize) [].

Definition open_link_program : list Z :=
  join [10]
  [sh "const fs = require(`fs`);";
   sh "const target = process.env." ++ OPEN_PATH_ENV ++ sh " || ``;";
   sh "if (target.charAt(0) !== `/` || target.indexOf(`\0`) !== -1) process.exit(1);";
   sh "const base = target.slice(target.lastIndexOf(`/`) + 1), dot = base.lastIndexOf(`.`);";
   sh "const ext = dot > 0 && /^\.[A-Za-z0-9]{1,10}$/.test(base.slice(dot)) ? base.slice(dot) : ``;";
   sh "const link = fs.mkdtempSync(process.argv[1] + `/`) + `/attachment` + ext;";
   sh "fs.symlinkSync(target, link);";
   sh "process.stdout.write(link);"].

Definition attachmentOpenCommand : list (list Z) :=
  bash (sh "set -e; umask 077; test -n `${XDG_RUNTIME_DIR:-}`; "
    ++ sh "__dir=`$XDG_RUNTIME_DIR/" ++ RUNTIME_SUBDIR ++ sh "`; " ++ privateDirScript (sh "__dir")
    ++ sh "__open=`$__dir/open`; " ++ privateDirScript (sh "__open")
    ++ sh "__link=$(node -e " ++ shellQuote (JStr open_link_program) ++ sh " `$__open`); "
    ++ sh "if command -v gio >/dev/null 2>&1; then exec env -u " ++ OPEN_PATH_ENV ++ sh " gio open `$__link`; fi; "
    ++ sh "exec env -u " ++ OPEN_PATH_ENV ++ sh " xdg-open `$__link`").

(** ** Accounts *)

Definition accountRegistryReadCommand : list (list Z) :=
  bash (sh "d=`" ++ ACCOUNTS_DIR ++ sh "`; f=`$d/registry.json`; "
    ++ sh "if [ -d `$d` ] && [ ! -L `$d` ] && [ -f `$f` ] && [ ! -L `$f` ]; then " ++ sh "head -c " ++ num_text MAX_ACCOUNTS_BYTES
    ++ sh " `$f` 2>/dev/null || printf '{}'; else printf '{}'; fi").

Definition accountRegistryWriteCommand : list (list Z) :=
  bash (sh "set -e; __parent=`$(dirname -- `" ++ ACCOUNTS_DIR ++ sh "`)`; "
    ++ sh "[ ! -L `$__parent` ]; (umask 077 && mkdir -p -- `$__parent`); " ++ sh "d=`" ++ ACCOUNTS_DIR ++ sh "`; "
    ++ privateDirScript (sh "d") ++ sh "umask 077; tmp=$(mktemp -- `$d/.registry.XXXXXXXX`); "
    ++ sh "trap 'rm -f -- `$tmp`' EXIT HUP INT TERM; " ++ sh "printf '%s' `$" ++ ACCOUNTS_ENV
    ++ sh "` > `$tmp`; chmod 600 `$tmp`; " ++ sh "mv -fT -- `$tmp` `$d/registry.json`; trap - EXIT HUP INT TERM").

Definition accountSlotRemoveCommand (slot : jsval) : list (list Z) :=
  let s := accountSlot slot in
  capped (accountAppDataExport (JStr s) ++ sh "bw logout >/dev/null 2>&1; "
    ++ (if str_eqb s DEFAULT_ACCOUNT_SLOT then []
        else sh "d=`" ++ ACCOUNTS_DIR ++ sh "`; " ++ sh "if [ -d `$d` ] && [ ! -L `$d` ] && [ -e `$d/" ++ s
    ++ sh "` ]; then rm -rf -- `$d/" ++ s ++ sh "`; fi; ")
    ++ js "exit 0").

Definition accountSlotRetireCommand (slot : jsval) : list (list Z) :=
  let s := JStr (accountSlot slot) in
  bash (nestedScript (keyringClearAllCommand s) ++ js "; "
    ++ nestedScript (associationsClearCommand s) ++ js "; "
    ++ nestedScript (accountSlotRemoveCommand s)).
