(* ===== verification/Scripts.v ===== *)
(** * Scripts for helpers, routing, export, pinentry and security keys
    ([BitwardenModel.js], [FidoModel.js])

    The remaining command builders.  In the literals a backtick stands for a double
    quote. *)

From S2P Require Import Prelude.
From S2P Require Import JsNum.
From S2P Require Import JsString.
From S2P Require Import JsUnicode.
From S2P Require Import JsValue.
From S2P Require Import SshAgent.
From S2P Require Import Accounts.
From S2P Require Import Shell.
From S2P Require Import Generator.
From S2P Require Import Items.
From S2P Require Import Setup.
From S2P Require Import Helpers.
From S2P Require Import Export.
From S2P Require Import Unlock.
From S2P Require Import Envelope.

(** ** Pinentry *)

Definition PINENTRY_TIMEOUT_S : Z := 120.
Definition PINENTRY_GIVE_UP_S : Z := PINENTRY_TIMEOUT_S + 30.
Definition PINENTRY_cancelled : Z := 1.
Definition PINENTRY_empty : Z := 3.
Definition PINENTRY_failed : Z := 4.
Definition PINENTRY_short : Z := 5.
Definition PINENTRY_missing : Z := 127.

Definition PINENTRY_SCRIPT : list Z :=
  join [10]
  [PINENTRY_RESOLVE;
   sh "__title=`$2`; __desc=`$3`; __prompt=`$4`; __err=`$5`; __min=`${6:-0}`";
   sh "command -v -- `$__prog` >/dev/null 2>&1 || exit " ++ num_text PINENTRY_missing;
   sh "__enc() { __e=`$1`; __e=`${__e//%/%25}`; __e=`${__e//$'\r'/%0D}`; __e=`${__e//$'\n'/%0A}`; }";
   sh "coproc PE { exec `$__prog` 2>/dev/null; }";
   sh "__pid=`$PE_PID`";
   sh "trap 'kill `$__pid` 2>/dev/null' EXIT";
   sh "trap '' PIPE";
   sh "__reply() { while IFS= read -r -t `$1` -u `${PE[0]}` __l; do";
   sh "  case `$__l` in OK|OK\ *) return 0 ;; ERR|ERR\ *) return 1 ;; esac";
   sh "done; return 2; }";
   sh "__ask() { printf '%s\n' `$1` >&`${PE[1]}` || exit " ++ num_text PINENTRY_failed ++ sh "; __reply 30; }";
   sh "__reply 10 || exit " ++ num_text PINENTRY_failed;
   sh "__enc `$__title`; __ask `SETTITLE $__e`";
   sh "__enc `$__desc`; __ask `SETDESC $__e`";
   sh "__enc `$__prompt`; __ask `SETPROMPT $__e`";
   sh "if [ -n `$__err` ]; then __enc `$__err`; __ask `SETERROR $__e`; fi";
   sh "__ask `SETTIMEOUT " ++ num_text PINENTRY_TIMEOUT_S ++ sh "`";
   sh "printf 'GETPIN\n' >&`${PE[1]}` || exit " ++ num_text PINENTRY_failed;
   sh "__d=''";
   sh "while IFS= read -r -t " ++ num_text PINENTRY_GIVE_UP_S ++ sh " -u `${PE[0]}` __l; do";
   sh "  case `$__l` in";
   sh "    'D '*) __d=`$__d${__l:2}` ;;";
   sh "    OK|OK\ *)";
   sh "      printf 'BYE\n' >&`${PE[1]}`";
   sh "      [ -n `$__d` ] || exit " ++ num_text PINENTRY_empty;
   sh "      __t=`${__d//[^%]/}`; __n=$(( ${#__d} - 2 * ${#__t} ))";
   sh "      if [[ `$__min` =~ ^[0-9]+$ ]] && (( __n < __min )); then exit " ++ num_text PINENTRY_short ++ sh "; fi";
   sh "      printf '%s' `$__d`; exit 0 ;;";
   sh "    ERR|ERR\ *)";
   sh "      __c=`${__l#ERR }`; __c=`${__c%% *}`";
   sh "      if [[ `$__c` =~ ^[0-9]+$ ]] && (( (10#$__c & 65535) == 99 || (10#$__c & 65535) == 62 )); then exit " ++ num_text PINENTRY_cancelled ++ sh "; fi";
   sh "      exit " ++ num_text PINENTRY_failed ++ sh " ;;";
   sh "  esac";
   sh "done";
   sh "exit " ++ num_text PINENTRY_failed].

Definition pinentryCommand (program opts : jsval) : list (list Z) :=
  js "bash" :: js "-c" :: PINENTRY_SCRIPT :: js "_" :: pinentry_args program opts.

(** ** Security keys *)

Definition FIDO_AUTHFILE : list Z := js "/etc/fido2/fido2".
Definition FIDO_MAX_PROBE_BYTES : Z := 4096.

Definition setupInstructions : list Z :=
  sh "Configure pam-u2f with your distribution's tools and register your key in /etc/fido2/fido2. Install libfido2, then reopen this screen. DMS does not change system PAM configuration.".

Definition fidoProbeCommand : list (list Z) :=
  let auth := js "'" ++ FIDO_AUTHFILE ++ js "'" in
  let script := sh "if command -v fido2-assert >/dev/null 2>&1 && command -v fido2-token >/dev/null 2>&1; "
    ++ sh "then echo fido_installed=1; else echo fido_installed=0; fi; " ++ sh "if [ -f " ++ auth ++ sh " ] && [ -s " ++ auth
    ++ sh " ] && [ ! -L " ++ auth ++ sh " ]; then echo fido_registered=1; else echo fido_registered=0; fi; "
    ++ sh "__devs=`$(fido2-token -L 2>/dev/null | cut -d: -f1)`; "
    ++ sh "if command -v fido2-token >/dev/null 2>&1 && [ -n `$__devs` ]; then echo fido_token=1; else echo fido_token=0; fi; "
    ++ sh "__rp=`pam://$(hostname 2>/dev/null)`; printf 'rp=%s\n' `$__rp`; " ++ sh "[ -f " ++ auth ++ sh " ] && [ ! -L " ++ auth
    ++ sh " ] || exit 0; " ++ sh "__line=`$(awk -F: -v u=`$(id -un)` '$1 == u { print; exit }' " ++ auth ++ sh ")`; "
    ++ sh "[ -n `$__line` ] || exit 0; " ++ sh "IFS=: read -r -a __parts <<< `$__line`; "
    ++ sh "for __entry in `${__parts[@]:1}`; do " ++ sh "  __cred=`${__entry%%,*}`; __opts=`${__entry##*,}`; __at=-; "
    ++ sh "  case `$__cred` in ''|*[!A-Za-z0-9+/=]*) continue ;; esac; " ++ sh "  for __dev in $__devs; do "
    ++ sh "    if printf '%s\n%s\n%s\n' `$(head -c 32 /dev/urandom | base64 -w0)` `$__rp` `$__cred` "
    ++ sh "      | timeout 5 fido2-assert -G -t up=false `$__dev` >/dev/null 2>&1; then __at=`$__dev`; break; fi; "
    ++ sh "  done; " ++ sh "  printf 'cred=%s|%s|%s\n' `$__cred` `$__opts` `$__at`; " ++ sh "done" in
  bash (sh "{ " ++ script ++ sh "; } | head -c " ++ num_text FIDO_MAX_PROBE_BYTES).

Definition quickUnlockPrereqCommand : list (list Z) :=
  bash (sh "if command -v argon2 >/dev/null 2>&1; then echo argon2=1; else echo argon2=0; fi; "
    ++ sh "if printf probe | systemd-creds --user encrypt --name=qs-bitwarden-probe - - >/dev/null 2>&1; "
    ++ sh "then echo creds=1; else echo creds=0; fi").

Definition repairedKeyringNoticeCommand : list (list Z) :=
  [js "notify-send"; js "-a"; js "Bitwarden"; js "Keyring repaired";
   js "Restart the computer to get your saved passwords and keys back."].

(** ** Helpers *)

Definition sshAgentHelperCommand (pluginDir : jsval) (source : list Z) : list (list Z) :=
  let path := helperPath pluginDir SSH_AGENT_HELPER_SPEC source in
  if bool_decide (path = []) then [] else [path].

(** [s.replace(/[.]/g, "\.")] *)
Definition escape_dots (s : list Z) : list Z := flat_map (fun c => if c =? 46 then [92; 46] else [c]) s.

Definition helperInspectCommand (pluginDir : jsval) (spec : helper_spec) : list (list Z) :=
  let root := cleanAbsoluteDir pluginDir in
  if bool_decide (root = []) then bash (js "echo state=missing")
  else
    let sumsPath := if starts_with (js "bin/") (hs_bundled spec) then drop 4 (hs_bundled spec) else hs_bundled spec in
    let sumsLine := js "^[0-9a-f]{64}  " ++ escape_dots sumsPath ++ js "$" in
    capped (sh "__root=" ++ shellQuote (JStr root) ++ sh "; "
      ++ sh "__hash=`$(timeout 5 bash `$__root/scripts/helper-source-hash.sh` `$__root/"
      ++ (default [] (split_on is_slash (hs_development spec) !! 0%nat)) ++ sh "` 2>/dev/null)`; "
      ++ sh "__report() { printf '%s\n' `sourceHash=$__hash` `$@`; exit 0; }; " ++ sh "__found=''; " ++ sh "for __pair in "
      ++ shellQuote (JStr (sh "development:" ++ hs_development spec)) ++ sh "; do "
      ++ sh "  __source=`${__pair%%:*}`; __rel=`${__pair#*:}`; __bin=`$__root/$__rel`; " ++ sh "  [ -e `$__bin` ] || continue; "
      ++ sh "  __found=`$__source`; " ++ sh "  [ -f `$__bin` ] || { __state=not-a-file; continue; }; "
      ++ sh "  [ -x `$__bin` ] || { __state=not-executable; continue; }; "
      ++ sh "  __magic=`$(head -c 4 -- `$__bin` 2>/dev/null | od -An -tx1 | tr -d ' \n')`; "
      ++ sh "  [ `$__magic` = `7f454c46` ] || { __state=not-elf; continue; }; "
      ++ sh "  __arch=`$(od -An -tx1 -j 18 -N 1 -- `$__bin` 2>/dev/null | tr -d ' \n')`; "
      ++ sh "  [ `$__arch` = `3e` ] || { __state=wrong-architecture; continue; }; " ++ sh "  __checksum=unchecked; "
      ++ sh "  if [ `$__source` = bundled ] && [ -f `$__root/" ++ SSH_AGENT_SUMS_RELATIVE ++ sh "` ]; then "
      ++ sh "    __line=`$(grep -E " ++ shellQuote (JStr sumsLine) ++ sh " `$__root/" ++ SSH_AGENT_SUMS_RELATIVE
      ++ sh "` | head -1)`; "
      ++ sh "    if [ -n `$__line` ] && ( cd `$__root/bin` && printf '%s\n' `$__line` | sha256sum -c --status ) 2>/dev/null; then "
      ++ sh "      __checksum=match; " ++ sh "    else __checksum=mismatch; __state=checksum-mismatch; continue; fi; " ++ sh "  fi; "
      ++ sh "  __version=`$(timeout 5 `$__bin` --version 2>/dev/null | head -c 200)`; " ++ sh "  case `$__version` in *"
      ++ shellQuote (JStr (hs_name spec ++ sh " ")) ++ sh "*) ;; *) __state=no-version; continue;; esac; "
      ++ sh "  __semver=`$(printf '%s' `$__version` | sed -n "
      ++ shellQuote (JStr (sh "s/.*" ++ hs_name spec ++ sh " \([0-9.]*\).*/\1/p")) ++ sh ")`; "
      ++ sh "  __proto=`$(printf '%s' `$__version` | sed -n " ++ shellQuote (JStr (hs_protocolSed spec)) ++ sh ")`; "
      ++ sh "  if timeout 20 `$__bin` --self-test >/dev/null 2>&1; then __self=pass; "
      ++ sh "  else __self=fail; __state=self-test-failed; continue; fi; " ++ sh "  __stamp=missing; "
      ++ sh "  if [ `$__source` = development ] && [ -f `$__bin.source-sha256` ]; then " ++ sh "    __stamp=mismatch; "
      ++ sh "    if [[ `$__hash` =~ ^[0-9a-f]{64}$ ]] && [ `$__hash` = `$(head -c 65 -- `$__bin.source-sha256`)` ]; then __stamp=match; fi; "
      ++ sh "  fi; " ++ sh "  __report state=ok `source=$__source` `version=$__semver` `protocol=$__proto` "
      ++ sh "`checksum=$__checksum` `selfTest=$__self` `sourceStamp=$__stamp`; " ++ sh "done; "
      ++ sh "if [ -z `$__found` ]; then __report state=missing; fi; "
      ++ sh "__report `state=${__state:-unusable}` `source=$__found` "
      ++ sh "`checksum=${__checksum:-unchecked}` `selfTest=${__self:-}`").

Definition sshAgentHelperInspectCommand (pluginDir : jsval) : list (list Z) := helperInspectCommand pluginDir SSH_AGENT_HELPER_SPEC.
Definition unlockKeyInspectCommand (pluginDir : jsval) : list (list Z) := helperInspectCommand pluginDir UNLOCK_KEY_SPEC.
Definition vaultHelperInspectCommand (pluginDir : jsval) : list (list Z) := helperInspectCommand pluginDir VAULT_HELPER_SPEC.

(** ** The agent's files *)

Definition sshAgentLockProbeCommand (runtimeDir : jsval) : option (list (list Z)) :=
  let lock := runtimeFilePath runtimeDir (js "ssh-agent.lock") in
  if bool_decide (lock = []) then None
  else Some [js "bash"; js "-c";
             sh "[ -f `$1` ] && [ ! -L `$1` ] || exit 0; exec flock -n -E 75 `$1` true";
             js "_"; lock].

Definition sshAgentLockHeld (exitCode : jsval) : bool := num_eqb (to_number exitCode) (NZ 75).

Definition sshAgentRuntimeCleanupCommand (runtimeDir : jsval) : option (list (list Z)) :=
  let dir := runtimeFilePath runtimeDir [] in
  if bool_decide (dir = []) then None
  else Some [js "bash"; js "-c";
             sh "d=`${1%/}`; l=`$d/ssh-agent.lock`; " ++ sh "[ -d `$d` ] && [ ! -L `$d` ] && [ -f `$l` ] && [ ! -L `$l` ] || exit 0; "
             ++ sh "for _ in $(seq 50); do " ++ sh "flock -n -E 75 `$l` rm -f -- `$d/ssh-agent.sock` `$d/ssh-keys.fifo` `$l`; "
             ++ sh "[ $? -eq 75 ] || { rmdir -- `$d` 2>/dev/null; exit 0; }; sleep 0.1; done";
             js "_"; dir].

Definition loadIdCommand : list (list Z) := bash (sh "LC_ALL=C od -An -tx1 -N16 /dev/urandom 2>/dev/null | tr -d ' " ++ [10] ++ sh "'").

(** ** Routing SSH clients *)

Definition uwsmExpectedShell : list Z :=
  let expected := drop_trailing (fun c => c =? 10) uwsmFragmentContent in
  sh "__want=" ++ shellQuote (JStr expected) ++ sh "; " ++ sh "__frag=`$HOME/" ++ UWSM_FRAGMENT_REL ++ sh "`; ".

Definition uwsmForeignShell : list Z := sh "[ ! -f `$__frag` ] || [ `$(cat `$__frag` 2>/dev/null)` != `$__want` ]".

Definition uwsmInspectCommand : list (list Z) :=
  capped (sh "test -n `${HOME:-}` || { echo no-home; exit 0; }; " ++ uwsmExpectedShell
    ++ sh "if [ -L `$__frag` ]; then echo symlink; exit 0; fi; " ++ sh "if [ ! -e `$__frag` ]; then echo absent; exit 0; fi; "
    ++ sh "if [ ! -f `$__frag` ]; then echo foreign; exit 0; fi; "
    ++ sh "if [ ! -r `$__frag` ]; then echo unreadable; exit 0; fi; "
    ++ sh "if [ `$(cat `$__frag`)` = `$__want` ]; then echo managed; else echo foreign; fi").

Definition uwsmWriteCommand : list (list Z) :=
  capped (sh "test -n `${HOME:-}` || exit " ++ num_text UWSM_EXIT_NO_HOME ++ sh "; " ++ uwsmExpectedShell
    ++ sh "__dir=`$(dirname `$__frag`)`; " ++ sh "mkdir -p -m 700 `$__dir` || exit " ++ num_text UWSM_EXIT_PARENT ++ sh "; "
    ++ sh "if [ -L `$__frag` ]; then exit " ++ num_text UWSM_EXIT_SYMLINK ++ sh "; fi; " ++ sh "if [ -e `$__frag` ]; then "
    ++ sh "  if " ++ uwsmForeignShell ++ sh "; then exit " ++ num_text UWSM_EXIT_FOREIGN ++ sh "; fi; " ++ sh "fi; "
    ++ sh "__tmp=`$(mktemp `$__dir/.50-qs-bitwarden-ssh-agent.XXXXXX`)` || exit " ++ num_text UWSM_EXIT_WRITE ++ sh "; "
    ++ sh "{ printf '%s\n' `$__want` > `$__tmp` && chmod 644 `$__tmp` && mv -f `$__tmp` `$__frag`; } "
    ++ sh "|| { rm -f `$__tmp`; exit " ++ num_text UWSM_EXIT_WRITE ++ sh "; }; " ++ sh "echo written").

Definition uwsmRemoveCommand : list (list Z) :=
  capped (sh "test -n `${HOME:-}` || exit " ++ num_text UWSM_EXIT_NO_HOME ++ sh "; " ++ uwsmExpectedShell
    ++ sh "if [ -L `$__frag` ]; then exit " ++ num_text UWSM_EXIT_SYMLINK ++ sh "; fi; "
    ++ sh "if [ ! -e `$__frag` ]; then echo absent; exit 0; fi; " ++ sh "if " ++ uwsmForeignShell ++ sh "; then exit "
    ++ num_text UWSM_EXIT_FOREIGN ++ sh "; fi; " ++ sh "rm -f `$__frag` || exit " ++ num_text UWSM_EXIT_WRITE ++ sh "; "
    ++ sh "echo removed").

Definition pluginDataRemoveCommand : list (list Z) :=
  capped (sh "test -n `${HOME:-}` || exit " ++ num_text PLUGIN_DATA_EXIT_NO_HOME ++ sh "; "
    ++ sh "__state=`${XDG_STATE_HOME:-$HOME/.local/state}/qs-bitwarden-cli`; "
    ++ sh "__data=`${XDG_DATA_HOME:-$HOME/.local/share}/qs-bitwarden-cli`; " ++ sh "__done=''; "
    ++ sh "if secret-tool clear service qs-bitwarden-cli 2>/dev/null; then __done=`$__done keyring`; fi; "
    ++ sh "if [ -e `$__state` ]; then rm -rf -- `$__state` && __done=`$__done state`; fi; "
    ++ sh "if [ -d `$__data/accounts` ] && [ ! -L `$__data/accounts` ] "
    ++ sh "&& find `$__data/accounts` -mindepth 1 -maxdepth 1 -type d -name '????????????????' | grep -q .; "
    ++ sh "then __done=`$__done accounts`; fi; "
    ++ sh "if [ -e `$__data` ]; then rm -rf -- `$__data` && __done=`$__done data`; fi; " ++ sh "printf 'removed%s\n' `$__done`").

(** ** Exporting public keys *)

Definition sshExportDirPrelude : list Z :=
  sh "__base=`${XDG_DATA_HOME:-}`; " ++ sh "if [ -z `$__base` ]; then " ++ sh "  [ -n `${HOME:-}` ] || exit "
  ++ num_text SSH_EXPORT_EXIT_NO_HOME ++ sh "; " ++ sh "  __base=`$HOME/.local/share`; " ++ sh "fi; "
  ++ sh "case `$__base` in /*) ;; *) exit " ++ num_text SSH_EXPORT_EXIT_NO_HOME ++ sh ";; esac; " ++ sh "__dir=`$__base/"
  ++ SSH_EXPORT_SUBDIR ++ sh "`; " ++ sh "for __own in `$(dirname `$__dir`)` `$__dir`; do "
  ++ sh "  if [ -L `$__own` ]; then exit " ++ num_text SSH_EXPORT_EXIT_UNSAFE_DIR ++ sh "; fi; " ++ sh "done; ".

(** The writer program; its meaning is in [Export]. *)
Definition ssh_export_program : list Z :=
  join [10]
  [sh "const fs = require(`fs`), crypto = require(`crypto`);";
   sh "const dir = process.argv[1];";
   sh "let entries;";
   sh "try { entries = JSON.parse(fs.readFileSync(0, `utf8`)); } catch (e) { process.exit(1); }";
   sh "if (!Array.isArray(entries)) process.exit(1);";
   sh "for (const e of entries) {";
   sh "  const f = e && e.fileName, k = e && e.publicKey;";
   sh "  if (typeof f !== `string` || typeof k !== `string`) process.exit(1);";
   sh "  if (f === `` || f === `.` || f === `..` || /[\/\0]/.test(f)) process.exit(1);";
   sh "}";
   sh "const keep = new Set();";
   sh "for (const e of entries) {";
   sh "  const tmp = dir + `/.export.` + crypto.randomBytes(9).toString(`hex`);";
   sh "  try {";
   sh "    const fd = fs.openSync(tmp, `wx`, 0o600);";
   sh "    try { fs.fchmodSync(fd, 0o600); fs.writeFileSync(fd, e.publicKey + `\n`); }";
   sh "    finally { fs.closeSync(fd); }";
   sh "    fs.renameSync(tmp, dir + `/` + e.fileName);";
   sh "  } catch (err) { try { fs.unlinkSync(tmp); } catch (ignored) {} process.exit(1); }";
   sh "  keep.add(e.fileName);";
   sh "}";
   sh "for (const name of fs.readdirSync(dir)) {";
   sh "  const stale = name.charAt(0) !== `.` && name.endsWith(`.pub`) && !keep.has(name);";
   sh "  if (stale || name.startsWith(`.export.`)) {";
   sh "    try { fs.unlinkSync(dir + `/` + name); } catch (ignored) {}";
   sh "  }";
   sh "}"].

Definition sshExportCommand : list (list Z) :=
  capped (sshExportDirPrelude ++ sh "mkdir -p -m 700 `$(dirname `$__dir`)` || exit " ++ num_text SSH_EXPORT_EXIT_UNSAFE_DIR ++ sh "; "
    ++ sh "[ -d `$(dirname `$__dir`)` ] && [ ! -L `$(dirname `$__dir`)` ] || exit " ++ num_text SSH_EXPORT_EXIT_UNSAFE_DIR
    ++ sh "; " ++ sh "if [ -e `$__dir` ]; then " ++ sh "  [ -d `$__dir` ] || exit " ++ num_text SSH_EXPORT_EXIT_UNSAFE_DIR
    ++ sh "; " ++ sh "else (umask 077 && mkdir -- `$__dir`) || exit " ++ num_text SSH_EXPORT_EXIT_UNSAFE_DIR ++ sh "; fi; "
    ++ sh "chmod 700 -- `$__dir` || exit " ++ num_text SSH_EXPORT_EXIT_UNSAFE_DIR ++ sh "; " ++ sh "node -e "
    ++ shellQuote (JStr ssh_export_program) ++ sh " `$__dir` || exit " ++ num_text SSH_EXPORT_EXIT_WRITE ++ sh "; "
    ++ sh "echo exported").

Definition sshExportClearCommand : list (list Z) :=
  capped (sshExportDirPrelude ++ sh "[ -d `$__dir` ] || { echo cleared; exit 0; }; "
    ++ sh "find `$__dir` -mindepth 1 -maxdepth 1 \( -name '[!.]*.pub' -o -name '.export.*' \) "
    ++ sh "! -type d -delete 2>/dev/null; " ++ sh "rmdir -- `$__dir` 2>/dev/null; " ++ sh "echo cleared").

(** ** The generator's server *)

Definition GENERATE_SOCKET_NAME : list Z := js "generator.sock".
Definition GENERATE_RESPONSE_CAP : Z := 64 * 1024.
Definition GENERATE_REQUEST_TIMEOUT_MS : Z := 2000.

Definition generatorSocketPrelude (missingExit : Z) : list Z :=
  sh "test -n `${XDG_RUNTIME_DIR:-}` || exit " ++ num_text missingExit ++ sh "; " ++ sh "__gen_dir=`$XDG_RUNTIME_DIR/"
  ++ RUNTIME_SUBDIR ++ sh "`; " ++ sh "__gen_sock=`$__gen_dir/" ++ GENERATE_SOCKET_NAME ++ sh "`; ".

Definition generateServeCommand : list (list Z) :=
  bash (generatorSocketPrelude 1 ++ privateDirScript (sh "__gen_dir") ++ sh "rm -f -- `$__gen_sock` || exit 1; "
    ++ sh "exec bw serve --hostname `unix://$__gen_sock`").

(** [None] when the URL cannot be built. *)
Definition generateServeRequestCommand (opts : jsval) : option (list (list Z)) :=
  url ← generateServeUrl opts;
  let timeoutSecs := Z.max 1 (GENERATE_REQUEST_TIMEOUT_MS / 1000) in
  Some (capped (generatorSocketPrelude 7 ++ sh "if [ -L `$__gen_dir` ]; then exit 2; fi; "
    ++ sh "[ -d `$__gen_dir` ] && [ -S `$__gen_sock` ] || exit 7; "
    ++ sh "curl -q -s -S --noproxy '*' --unix-socket `$__gen_sock` --max-time " ++ num_text timeoutSecs ++ sh " --connect-timeout "
    ++ num_text timeoutSecs ++ sh " " ++ shellQuote (JStr url) ++ sh " | head -c " ++ num_text GENERATE_RESPONSE_CAP)).
