(* ===== verification/ScriptsCorrect.v ===== *)
(** * Scripts inject nothing

    Values of the user, of the vault and of the server are put into scripts by
    quoting.  For every script that takes one, the units a shell interprets are the
    same whatever the values, and each value is read as itself. *)

From S2P Require Import Prelude.
From S2P Require Import JsNum.
From S2P Require Import JsString.
From S2P Require Import JsValue.
From S2P Require Import Accounts.
From S2P Require Import AccountsCorrect.
From S2P Require Import Shell.
From S2P Require Import ShellReader.
From S2P Require Import Auth.
From S2P Require Import AuthCorrect.
From S2P Require Import Items.
From S2P Require Import SshAgent.
From S2P Require Import Setup.
From S2P Require Import Generator.
From S2P Require Import Helpers.
From S2P Require Import Unlock.
From S2P Require Import Envelope.
From S2P Require Import Commands.
From S2P Require Import Scripts.

(** Definitions a script is unfolded through before its parts are found. *)
Create HintDb scripts.
#[export] Hint Unfold capped bash script_of envelopePrelude : scripts.

Ltac find_parts := autounfold with scripts; cbn [default lookup list_lookup]; eapply renders; typeclasses eauto.

Ltac read_shape :=
  match goal with |- shape_of ?r ?ps = Some ?s =>
    let t := eval vm_compute in (shape_of r ps) in transitivity t; [vm_compute; reflexivity|reflexivity] end.

(** [expose c H] brings the script of the accepted call [c] to its text. *)
Ltac inject_nothing expose :=
  eapply parts_injection_free;
    [let c := fresh "c" in let H := fresh "H" in intros c H; expose c H; find_parts|intros ?; cbn [part_words flat_map app]; repeat (apply Forall_cons_2; [exact word_text|]); apply Forall_nil_2|intros ?; reflexivity|intros ?; read_shape].

(** ** Shared pieces *)

#[export] Instance renders_nested cmd : Renders (nestedScript cmd) [Lit (js "bash -c "); Val (script_of cmd)].
Proof. unfold Renders, nestedScript, shellQuote. rewrite text_JStr. cbn [render flat_map part_text]. by rewrite app_nil_r. Qed.

#[export] Instance renders_account account :
  Renders (envelopeAccountArgs account)
    [Lit (js " --account-id "); Val (text (fld account "id")); Lit (js " --server "); Val (text (fld account "server"))].
Proof. unfold Renders, envelopeAccountArgs, render, shellQuote. cbn [flat_map part_text]. by rewrite app_nil_r. Qed.

#[export] Hint Opaque nestedScript envelopeAccountArgs : typeclass_instances.

(** ** Calls *)

(** The arguments of an envelope command. *)
Record call := Call { c_tool : jsval; c_account : jsval; c_cred : jsval; c_rp : jsval; c_salt : jsval }.
Definition accepted (c : call) : Prop := envelopeArgsOk (c_tool c) (c_account c) = true.

(** The kinds of ways in and of changes, with the call's values for the rest. *)
Inductive way_kind := KMaster | KPin | KFingerprint | KFido.
Definition way (k : way_kind) (c : call) : via :=
  match k with KMaster => ViaMaster | KPin => ViaPin | KFingerprint => ViaFingerprint | KFido => ViaFido (c_cred c) end.

Inductive op_kind := KAddPin | KAddFingerprint | KAddFido (saltFromEnv : bool) | KRemovePin | KRemoveFingerprint | KRemoveFido | KMarkStale | KRotate (auth : way_kind).
Definition change (k : op_kind) (c : call) : envelope_op :=
  match k with
  | KAddPin => AddPin
  | KAddFingerprint => AddFingerprint
  | KAddFido fromEnv => AddFido (c_cred c) (c_rp c) (c_salt c) fromEnv
  | KRemovePin => Remove RemovePin
  | KRemoveFingerprint => Remove RemoveFingerprint
  | KRemoveFido => Remove (RemoveFido (c_cred c))
  | KMarkStale => MarkStale
  | KRotate auth => Rotate (way auth c)
  end.

(** The values in the functions every envelope script starts with, and the account's. *)
Definition prelude_values (tool slot : jsval) : list (list Z) :=
  let entry := keyringEntryName KEYRING_ENVELOPE slot in
  [text tool; ENVELOPE_CREDENTIAL_NAME; KEYRING_SERVICE; entry; ENVELOPE_LABEL; KEYRING_SERVICE; entry].
Definition call_values (c : call) : list (list Z) := prelude_values (c_tool c) (fld (c_account c) "slot").
Definition account_values (c : call) : list (list Z) := [text (fld (c_account c) "id"); text (fld (c_account c) "server")].

Definition way_values (k : way_kind) (c : call) : list (list Z) := match k with KFido => [text (c_cred c)] | _ => [] end.

(** What the change and its check take. *)
Definition change_values (k : op_kind) (c : call) : list (list Z) :=
  match k with
  | KAddPin | KAddFingerprint => account_values c
  | KAddFido fromEnv => account_values c ++ [text (c_cred c); text (c_rp c)] ++ (if fromEnv then [] else [text (c_salt c)])
  | KRemovePin | KRemoveFingerprint | KMarkStale => []
  | KRemoveFido => [text (c_cred c)]
  | KRotate auth => account_values c ++ way_values auth c
  end.
Definition check_values (k : op_kind) (c : call) : list (list Z) :=
  match k with
  | KAddPin | KAddFingerprint | KRotate _ => account_values c
  | KAddFido _ => account_values c ++ [text (c_cred c)]
  | _ => []
  end.

(** ** Envelope scripts *)

Lemma open_inert k :
  injection_free (fun c => accepted c /\ is_Some (open_step (c_account c) (way k c)))
    (fun c => script_of (unlockEnvelopeOpenCommand (c_tool c) (c_account c) (way k c)))
    (fun c => call_values c ++ account_values c ++ way_values k c).
Proof.
  destruct k; inject_nothing ltac:(fun c H => destruct H as [H1 H2]; unfold unlockEnvelopeOpenCommand; rewrite H1;
    revert H2; cbn [negb open_step way secret_way mbind option_bind]; try (destruct (is_base64 (c_cred c)); [|by intros [? [=]]]); intros _).
Qed.

Lemma create_inert :
  injection_free accepted (fun c => script_of (unlockEnvelopeCreateCommand (c_tool c) (c_account c)))
    (fun c => call_values c ++ account_values c ++ account_values c ++ account_values c).
Proof. inject_nothing ltac:(fun c H => unfold unlockEnvelopeCreateCommand; rewrite H; cbn [negb]). Qed.

(** An accepted change has its three pieces. *)
Lemma update_inert k :
  injection_free (fun c => accepted c /\ is_Some (update_of (c_account c) (change k c)))
    (fun c => script_of (unlockEnvelopeUpdateCommand (c_tool c) (c_account c) (change k c)))
    (fun c => call_values c ++ change_values k c ++ account_values c ++ check_values k c).
Proof.
  destruct k as [| |[]| | | | |[]]; inject_nothing ltac:(fun c H => destruct H as [H1 H2]; unfold unlockEnvelopeUpdateCommand; rewrite H1;
    revert H2; cbn [negb update_of change way rotate_auth secret_way mbind option_bind andb];
    try (destruct (is_base64 (c_cred c)); [cbn [mbind option_bind]|by intros [? [=]]]);
    try (match goal with |- context [if ?b then None else _] => destruct b end; [by intros [? [=]]|]); intros _).
Qed.

(** ** Security keys and older entries *)

Definition target_values (target : jsval) : list (list Z) :=
  [text (fld target "rp"); text (fld target "cred")].
Definition device_value (target : jsval) : list Z := text (fld target "device").

Record key_call := KeyCall { k_tool : jsval; k_account : jsval; k_target : jsval }.

Definition key_accepted (c : key_call) : Prop :=
  envelopeArgsOk (k_tool c) (k_account c) = true /\ fidoTargetOk (k_target c) = true.

#[export] Hint Unfold fidoAssertScript fidoNewSaltScript : scripts.

Lemma fido_unlock_inert :
  injection_free (fun c => key_accepted c /\ is_base64 (fld (k_target c) "salt") = true)
    (fun c => script_of (fidoUnlockCommand (k_tool c) (k_account c) (k_target c)))
    (fun c => target_values (k_target c) ++ [text (fld (k_target c) "salt"); device_value (k_target c);
       script_of (unlockEnvelopeOpenCommand (k_tool c) (k_account c) (ViaFido (fld (k_target c) "cred")))]).
Proof.
  inject_nothing ltac:(fun c H => destruct H as [[H1 H2] H3]; unfold fidoUnlockCommand; rewrite H1, H2, H3; cbn [negb orb]).
Qed.

Lemma fido_enroll_inert :
  injection_free key_accepted (fun c => script_of (fidoEnrollCommand (k_tool c) (k_account c) (k_target c)))
    (fun c => target_values (k_target c) ++ [device_value (k_target c);
       script_of (unlockEnvelopeUpdateCommand (k_tool c) (k_account c) (fresh_fido (k_target c)))]).
Proof.
  inject_nothing ltac:(fun c H => destruct H as [H1 H2]; unfold fidoEnrollCommand; rewrite H1, H2; cbn [negb orb]).
Qed.

Lemma fido_legacy_inert :
  injection_free key_accepted (fun c => script_of (fidoLegacyUnlockCommand (k_tool c) (k_account c) (k_target c)))
    (fun c => [KEYRING_SERVICE; keyringEntryName KEYRING_FIDO (fld (k_account c) "slot")] ++ target_values (k_target c) ++ [device_value (k_target c);
       script_of (legacyMigrationCommand (k_tool c) (k_account c) KEYRING_FIDO (fresh_fido (k_target c)) false);
       script_of (unlockEnvelopeOpenCommand (k_tool c) (k_account c) (ViaFido (fld (k_target c) "cred")))]).
Proof.
  inject_nothing ltac:(fun c H => destruct H as [H1 H2]; unfold fidoLegacyUnlockCommand, keyringReadScript; rewrite H1, H2; cbn [negb orb]).
Qed.

Lemma migration_inert (legacy : list Z) (op : envelope_op) (fromKeyring : bool) :
  injection_free accepted (fun c => script_of (legacyMigrationCommand (c_tool c) (c_account c) legacy op fromKeyring))
    (fun c => let entry := keyringEntryName legacy (fld (c_account c) "slot") in
       (if fromKeyring then [KEYRING_SERVICE; entry] else [])
       ++ [script_of (unlockEnvelopeOpenCommand (c_tool c) (c_account c) ViaMaster);
           script_of (unlockEnvelopeCreateCommand (c_tool c) (c_account c));
           script_of (unlockEnvelopeUpdateCommand (c_tool c) (c_account c) op); KEYRING_SERVICE; entry]).
Proof.
  destruct fromKeyring; inject_nothing ltac:(fun c H => unfold legacyMigrationCommand, keyringReadScript; rewrite H; cbn [negb]).
Qed.

(** ** Signing in *)

Record login := Login { l_email : jsval; l_server : jsval }.

(** Whether a server URL was given. *)
Definition server_given (given : bool) (l : login) : Prop := bool_decide (trim (text (l_server l)) = []) = negb given.
Definition server_values (given : bool) (l : login) : list (list Z) := if given then [trim (text (l_server l))] else [].

(** No two-step method, or the number of one. *)
Definition method_of (m : option Z) : jsval := match m with Some z => JNum (NZ z) | None => JUndef end.

Lemma method_arg_cases m :
  method_arg (method_of m) ∈ [[]; js " --method 0"; js " --method 1"; js " --method 3"].
Proof.
  unfold method_arg. destruct m as [z|]; cbn [method_of]; [|set_solver].
  destruct (isTwoFactorMethod (JNum (NZ z))) eqn:E; [|set_solver].
  apply isTwoFactorMethod_NZ in E as [-> | [-> | ->]]; vm_compute; set_solver.
Qed.

#[export] Hint Unfold supervisedAuthCommand supervisedProcessCommand supervisedProcessRun serverConfigPrefix : scripts.

Ltac each_method m :=
  let E := fresh in pose proof (method_arg_cases m) as E; rewrite !elem_of_cons, elem_of_nil in E; destruct E as [E|[E|[E|[E|[]]]]].

Lemma email_login_inert given hasCode m :
  injection_free (server_given given)
    (fun l => script_of (emailLoginPrewarmCommand (l_email l) hasCode (l_server l) (method_of m)))
    (fun l => server_values given l ++ [text (l_email l)]).
Proof.
  each_method m; destruct given, hasCode; inject_nothing ltac:(fun c H => unfold emailLoginPrewarmCommand, serverConfigPrefix;
    rewrite H; cbn [negb]; match goal with E : method_arg _ = _ |- _ => rewrite E end).
Qed.

Lemma device_login_inert given m :
  injection_free (server_given given)
    (fun l => script_of (deviceVerificationLoginCommand (l_email l) (l_server l) (method_of m)))
    (fun l => server_values given l ++ [text (l_email l)]).
Proof.
  each_method m; destruct given; inject_nothing ltac:(fun c H => unfold deviceVerificationLoginCommand, serverConfigPrefix;
    rewrite H; cbn [negb]; match goal with E : method_arg _ = _ |- _ => rewrite E end).
Qed.

Lemma api_key_login_inert given :
  injection_free (server_given given) (fun l => script_of (apiKeyLoginCommand (l_server l))) (server_values given).
Proof.
  destruct given; inject_nothing ltac:(fun c H => unfold apiKeyLoginCommand, serverConfigPrefix; rewrite H; cbn [negb]).
Qed.

#[export] Instance slot_word slot : WordText (accountSlot slot).
Proof.
  pose proof (accountSlot_valid slot) as H. rewrite isAccountSlot_str, orb_true_iff in H. destruct H as [H|H].
  - apply str_eqb_eq in H as ->. by apply word_literal.
  - unfold is_slot_name in H. apply andb_true_iff in H as [_ H]. apply forallb_Forall in H.
    eapply Forall_impl; [exact H|]. intros c Hc. cbn beta in Hc. unfold is_hex_lower, is_digit, in_range in Hc.
    unfold word_unit, is_plain_unit, is_alnum, is_alpha, is_lower, is_upper, is_digit, in_range. lia.
Qed.

(** What runs in the terminal, and the command that opens it. *)
Lemma terminal_login_inert given unlock slot :
  injection_free (server_given given) (fun l => terminal_login_script unlock (l_server l) slot)
    (fun l => if unlock then [] else server_values given l).
Proof.
  unfold terminal_login_script, accountAppDataExport. pose proof (slot_word slot) as Hs. revert Hs. generalize (accountSlot slot).
  intros s Hs. destruct given, unlock, (str_eqb s DEFAULT_ACCOUNT_SLOT);
    inject_nothing ltac:(fun c H => unfold serverConfigPrefix; rewrite ?H; cbn [negb]).
Qed.

(** ** Items and attachments *)

Record item_call := ItemCall { i_item : jsval; i_attachment : jsval; i_organization : jsval }.

Lemma edit_item_inert :
  injection_free (fun _ => True) (fun i => script_of (editItemCommand (i_item i) (JNum (NZ 1))))
    (fun i => [text (i_item i); strict_json_one_object; sanitized_items_program; saved_unsanitized_marker]).
Proof. inject_nothing ltac:(fun c H => unfold editItemCommand, save_pipeline; change (is_ssh_code (JNum (NZ 1))) with false; cbv iota). Qed.

Lemma create_item_inert (inOrganization : bool) :
  injection_free (fun i => truthy (i_organization i) = inOrganization)
    (fun i => script_of (createItemCommand (JObj [(js "organizationId", i_organization i)])))
    (fun i => (if inOrganization then [text (i_organization i)] else [])
              ++ [strict_json_one_object; sanitized_items_program; saved_unsanitized_marker]).
Proof.
  destruct inOrganization; inject_nothing ltac:(fun c H => unfold createItemCommand, save_pipeline;
    change (fld (JObj [(js "organizationId", i_organization c)]) "organizationId") with (i_organization c); rewrite H; cbn [truthy andb]).
Qed.

#[export] Hint Opaque num_to_string : typeclass_instances.

Lemma attachment_inert declaredSize :
  injection_free (fun _ => True) (fun i => script_of (attachmentDownloadCommand (i_attachment i) (i_item i) declaredSize))
    (fun i => [text (i_item i); text (i_attachment i); attachment_claim_program]).
Proof.
  unfold attachmentDownloadCommand, attachment_script.
  pose proof (number_word (default (NZ 0) (attachment_want declaredSize))) as Hw.
  pose proof (number_word (attachment_need_kb (attachment_want declaredSize))) as Hn. revert Hw Hn.
  generalize (num_to_string (default (NZ 0) (attachment_want declaredSize))), (num_to_string (attachment_need_kb (attachment_want declaredSize))).
  intros need want Hw Hn. inject_nothing ltac:(fun c H => unfold supervisedProcessCommand, supervisedProcessRun; cbn [join]).
Qed.

(** ** Helpers and the generator *)

Definition inspect_values (spec : helper_spec) (pluginDir : jsval) : list (list Z) :=
  [cleanAbsoluteDir pluginDir; js "development:" ++ hs_development spec;
   js "^[0-9a-f]{64}  " ++ escape_dots (drop 4 (hs_bundled spec)) ++ js "$"; hs_name spec ++ js " ";
   js "s/.*" ++ hs_name spec ++ js " \([0-9.]*\).*/\1/p"; hs_protocolSed spec].

Lemma inspect_inert spec : spec ∈ [SSH_AGENT_HELPER_SPEC; UNLOCK_KEY_SPEC; VAULT_HELPER_SPEC] ->
  injection_free (fun pluginDir => cleanAbsoluteDir pluginDir <> []) (fun pluginDir => script_of (helperInspectCommand pluginDir spec))
    (inspect_values spec).
Proof.
  rewrite !elem_of_cons, elem_of_nil. intros [-> | [-> | [-> | []]]];
    inject_nothing ltac:(fun c H => unfold helperInspectCommand; rewrite bool_decide_false by done; cbv zeta).
Qed.

Lemma bind_default {A B} (d : A) (x : option A) (f : A -> option B) : is_Some x -> (x ≫= f) = f (default d x).
Proof. by intros [u ->]. Qed.

Lemma generator_request_inert :
  injection_free (fun opts => is_Some (generateServeUrl opts))
    (fun opts => script_of (default [] (generateServeRequestCommand opts))) (fun opts => [default [] (generateServeUrl opts)]).
Proof.
  inject_nothing ltac:(fun c H => unfold generateServeRequestCommand; rewrite (bind_default []) by done; cbv zeta; cbn [default]; unfold default at 1).
Qed.

(** ** Properties *)

(** C14: Every script on the quick-unlock envelope, opening it in any way, creating
    it, any change of it, unlocking with a security key, enrolling one and
    moving an older entry, reads to a shell as the same program whatever the tool
    path, account, server, credential, relying party, salt or device are, with each
    of these as a single piece of data: none of them can inject anything. *)
Theorem envelope_scripts_inert :
  (forall k, injection_free (fun c => accepted c /\ is_Some (open_step (c_account c) (way k c)))
    (fun c => script_of (unlockEnvelopeOpenCommand (c_tool c) (c_account c) (way k c)))
    (fun c => call_values c ++ account_values c ++ way_values k c)) /\
  injection_free accepted (fun c => script_of (unlockEnvelopeCreateCommand (c_tool c) (c_account c)))
    (fun c => call_values c ++ account_values c ++ account_values c ++ account_values c) /\
  (forall k, injection_free (fun c => accepted c /\ is_Some (update_of (c_account c) (change k c)))
    (fun c => script_of (unlockEnvelopeUpdateCommand (c_tool c) (c_account c) (change k c)))
    (fun c => call_values c ++ change_values k c ++ account_values c ++ check_values k c)) /\
  injection_free (fun c => key_accepted c /\ is_base64 (fld (k_target c) "salt") = true)
    (fun c => script_of (fidoUnlockCommand (k_tool c) (k_account c) (k_target c)))
    (fun c => target_values (k_target c) ++ [text (fld (k_target c) "salt"); device_value (k_target c);
       script_of (unlockEnvelopeOpenCommand (k_tool c) (k_account c) (ViaFido (fld (k_target c) "cred")))]) /\
  injection_free key_accepted (fun c => script_of (fidoEnrollCommand (k_tool c) (k_account c) (k_target c)))
    (fun c => target_values (k_target c) ++ [device_value (k_target c);
       script_of (unlockEnvelopeUpdateCommand (k_tool c) (k_account c) (fresh_fido (k_target c)))]) /\
  injection_free key_accepted (fun c => script_of (fidoLegacyUnlockCommand (k_tool c) (k_account c) (k_target c)))
    (fun c => [KEYRING_SERVICE; keyringEntryName KEYRING_FIDO (fld (k_account c) "slot")] ++ target_values (k_target c) ++ [device_value (k_target c);
       script_of (legacyMigrationCommand (k_tool c) (k_account c) KEYRING_FIDO (fresh_fido (k_target c)) false);
       script_of (unlockEnvelopeOpenCommand (k_tool c) (k_account c) (ViaFido (fld (k_target c) "cred")))]) /\
  (forall legacy op fromKeyring,
    injection_free accepted (fun c => script_of (legacyMigrationCommand (c_tool c) (c_account c) legacy op fromKeyring))
      (fun c => let entry := keyringEntryName legacy (fld (c_account c) "slot") in
         (if fromKeyring then [KEYRING_SERVICE; entry] else [])
         ++ [script_of (unlockEnvelopeOpenCommand (c_tool c) (c_account c) ViaMaster);
             script_of (unlockEnvelopeCreateCommand (c_tool c) (c_account c));
             script_of (unlockEnvelopeUpdateCommand (c_tool c) (c_account c) op); KEYRING_SERVICE; entry])).
Proof.
  split_and!; [exact open_inert|exact create_inert|exact update_inert|exact fido_unlock_inert|exact fido_enroll_inert|exact fido_legacy_inert|exact migration_inert].
Qed.

(** Signing in with any email address and server, saving an item under any id or
    organization, downloading any attachment, inspecting a helper in any directory
    and asking the generator for any URL read to a shell as the same program around
    these values, each of them a single piece of data. *)
Theorem command_scripts_inert :
  (forall given hasCode m, injection_free (server_given given)
    (fun l => script_of (emailLoginPrewarmCommand (l_email l) hasCode (l_server l) (method_of m)))
    (fun l => server_values given l ++ [text (l_email l)])) /\
  (forall given m, injection_free (server_given given)
    (fun l => script_of (deviceVerificationLoginCommand (l_email l) (l_server l) (method_of m)))
    (fun l => server_values given l ++ [text (l_email l)])) /\
  (forall given, injection_free (server_given given) (fun l => script_of (apiKeyLoginCommand (l_server l))) (server_values given)) /\
  (forall given unlock slot, injection_free (server_given given) (fun l => terminal_login_script unlock (l_server l) slot)
    (fun l => if unlock then [] else server_values given l)) /\
  injection_free (fun _ => True) (fun i => script_of (editItemCommand (i_item i) (JNum (NZ 1))))
    (fun i => [text (i_item i); strict_json_one_object; sanitized_items_program; saved_unsanitized_marker]) /\
  (forall inOrganization : bool, injection_free (fun i => truthy (i_organization i) = inOrganization)
    (fun i => script_of (createItemCommand (JObj [(js "organizationId", i_organization i)])))
    (fun i => (if inOrganization then [text (i_organization i)] else [])
              ++ [strict_json_one_object; sanitized_items_program; saved_unsanitized_marker])) /\
  (forall declaredSize, injection_free (fun _ => True)
    (fun i => script_of (attachmentDownloadCommand (i_attachment i) (i_item i) declaredSize))
    (fun i => [text (i_item i); text (i_attachment i); attachment_claim_program])) /\
  (forall spec, spec ∈ [SSH_AGENT_HELPER_SPEC; UNLOCK_KEY_SPEC; VAULT_HELPER_SPEC] ->
    injection_free (fun pluginDir => cleanAbsoluteDir pluginDir <> []) (fun pluginDir => script_of (helperInspectCommand pluginDir spec))
      (inspect_values spec)) /\
  injection_free (fun opts => is_Some (generateServeUrl opts))
    (fun opts => script_of (default [] (generateServeRequestCommand opts))) (fun opts => [default [] (generateServeUrl opts)]).
Proof.
  split_and!; [exact email_login_inert|exact device_login_inert|exact api_key_login_inert|exact terminal_login_inert|exact edit_item_inert
              |exact create_item_inert|exact attachment_inert|exact inspect_inert|exact generator_request_inert].
Qed.

(** There are accepted calls, and the reading tells data from syntax. *)
Example accepted_call :
  accepted (Call (JStr (js "/p/tool")) (JObj [(js "id", JStr (js "u1")); (js "server", JStr (js "https://x"))]) JUndef JUndef JUndef)
  /\ key_accepted (KeyCall (JStr (js "/p/tool")) (JObj [(js "id", JStr (js "u1")); (js "server", JStr (js "https://x"))])
       (JObj [(js "device", JStr (js "/dev/hidraw1")); (js "cred", JStr (js "AAAA")); (js "rp", JStr (js "pam://host"))])).
Proof. split; [|split]; vm_compute; reflexivity. Qed.

Example data_is_not_syntax :
  shell_read (js "a " ++ shellQuote (JStr (js "$(x)'; y")) ++ sh " `$z`")
  = Some (map Syntax (js "a ") ++ map Data (js "$(x)'; y") ++ map Syntax (sh " `$z`")).
Proof. vm_compute. reflexivity. Qed.

(** A value outside quotation marks is syntax, and inside double quotes it is too. *)
Example unquoted_is_syntax : shell_read (sh "a `" ++ js "$x" ++ sh "`") = Some (map Syntax (sh "a `$x`")).
Proof. vm_compute. reflexivity. Qed.
