(* ===== verification/RoutingRun.v ===== *)
(** * What the routing and removal scripts do ([BitwardenModel.js])

    The file that routes SSH clients to the agent is recognised by its contents.  The
    scripts that inspect, write and remove it are read here as programs on what is at
    its path; so is the script that removes the plugin's own data.  What the file
    system permits is an argument of a run. *)

From S2P Require Import Prelude.
From S2P Require Import JsNum.
From S2P Require Import JsString.
From S2P Require Import JsValue.
From S2P Require Import Export.
From S2P Require Import EnvelopeRun.

(** ** The path *)

(** What is at the path itself: a symbolic link is not followed. *)
Inductive node :=
| Regular (content : list Z) (readable : bool)
| Symlink
| OtherNode.

(** What the file system permits: HOME is set, directories and files can be made,
    written into place, and removed. *)
Record permits := Permits { p_home : bool; p_mkdir : bool; p_mktemp : bool; p_write : bool; p_remove : bool }.

(** [$(cat file)]: a shell drops zero bytes and final newlines. *)
Definition captured (content : list Z) : list Z := newlines_cut (List.filter (fun c => negb (c =? 0)) content).
Definition cat_of (n : node) : list Z := match n with Regular content true => captured content | _ => [] end.

(** [__want]: the content without its final newlines. *)
Definition wanted : list Z := newlines_cut uwsmFragmentContent.

(** [[ ! -f "$__frag" ] || [ "$(cat "$__frag")" != "$__want" ]]: the test of the scripts. *)
Definition uwsmForeignShell (n : node) : bool :=
  match n with
  | Regular _ _ => negb (str_eqb (cat_of n) wanted)
  | _ => true
  end.

(** ** The scripts: exit code and output, and what is at the path after *)

Definition run_uwsm_inspect (p : permits) (at_ : option node) : list Z :=
  (if negb (p_home p) then js "no-home"
   else match at_ with
        | Some Symlink => js "symlink"
        | None => js "absent"
        | Some OtherNode => js "foreign"
        | Some (Regular _ false) => js "unreadable"
        | Some n => if str_eqb (cat_of n) wanted then js "managed" else js "foreign"
        end) ++ [10].

Definition run_uwsm_write (p : permits) (at_ : option node) : Z * list Z * option node :=
  if negb (p_home p) then (UWSM_EXIT_NO_HOME, [], at_)
  else if negb (p_mkdir p) then (UWSM_EXIT_PARENT, [], at_)
  else match at_ with
       | Some Symlink => (UWSM_EXIT_SYMLINK, [], at_)
       | _ =>
           if match at_ with Some n => uwsmForeignShell n | None => false end then (UWSM_EXIT_FOREIGN, [], at_)
           else if negb (p_mktemp p) || negb (p_write p) then (UWSM_EXIT_WRITE, [], at_)
           else (0, js "written" ++ [10], Some (Regular (wanted ++ [10]) true))
       end.

Definition run_uwsm_remove (p : permits) (at_ : option node) : Z * list Z * option node :=
  if negb (p_home p) then (UWSM_EXIT_NO_HOME, [], at_)
  else match at_ with
       | Some Symlink => (UWSM_EXIT_SYMLINK, [], at_)
       | None => (0, js "absent" ++ [10], at_)
       | Some n =>
           if uwsmForeignShell n then (UWSM_EXIT_FOREIGN, [], at_)
           else if negb (p_remove p) then (UWSM_EXIT_WRITE, [], at_)
           else (0, js "removed" ++ [10], None)
       end.

(** ** The plugin's own data *)

(** What there is: keyring entries, learned suggestions, added accounts (inside the
    data directory), the data directory. *)
Record footprint := Footprint { f_keyring : bool; f_state : bool; f_accounts : bool; f_data : bool }.

(** What can be removed: keyring entries, the state directory, the data directory. *)
Record removable := Removable { r_keyring : bool; r_state : bool; r_data : bool }.

Definition word_if (b : bool) (w : string) : list Z := if b then js w else [].

Definition run_data_remove (home : bool) (can : removable) (f : footprint) : Z * list Z * footprint :=
  if negb home then (PLUGIN_DATA_EXIT_NO_HOME, [], f)
  else
    let keyring := f_keyring f && r_keyring can in
    let state := f_state f && r_state can in
    let accounts := f_data f && f_accounts f in
    let data := f_data f && r_data can in
    (0, js "removed" ++ word_if keyring " keyring" ++ word_if state " state" ++ word_if accounts " accounts" ++ word_if data " data" ++ [10],
     Footprint (f_keyring f && negb keyring) (f_state f && negb state) (f_accounts f && negb data) (f_data f && negb data)).
