(* ===== verification/RoutingRunCorrect.v ===== *)
(** * Routing touches only the plugin's own file

    Whose a file is is said here by its bytes, apart from the test the scripts make.  The
    scripts and the parsers of their results keep to it but for the files the test takes
    for the plugin's: those with its text up to zero bytes and final newlines. *)

From S2P Require Import Prelude.
From S2P Require Import JsNum.
From S2P Require Import JsString.
From S2P Require Import JsValue.
From S2P Require Import Export.
From S2P Require Import EnvelopeRun.
From S2P Require Import RoutingRun.

(** ** Whose file it is *)

(** SSH clients are routed here by the plugin's file, byte for byte; nothing is there; or
    what is there is somebody else's. *)
Inductive route := routed | unrouted | theirs.

Definition route_of (at_ : option node) : route :=
  match at_ with
  | None => unrouted
  | Some (Regular content _) => if bool_decide (content = uwsmFragmentContent) then routed else theirs
  | Some _ => theirs
  end.

(** The text of the plugin's file with zero bytes anywhere and any number of final
    newlines, in a file that can be read. *)
Definition look_alike (n : node) : Prop :=
  exists content k, n = Regular content true /\ List.filter (fun c => negb (c =? 0)) content = wanted ++ repeat 10 k.

Lemma newlines_cut_snoc s c : newlines_cut (s ++ [c]) = if c =? 10 then newlines_cut s else s ++ [c].
Proof.
  unfold newlines_cut, drop_trailing. rewrite rev_app_distr. cbn [rev app drop_while]. destruct (c =? 10); [done|].
  change (c :: rev s) with (rev [c] ++ rev s). by rewrite <- rev_app_distr, rev_involutive.
Qed.

Lemma repeat_last (c : Z) k : repeat c (S k) = repeat c k ++ [c].
Proof. apply repeat_cons. Qed.

Lemma newlines_cut_repeat s k : newlines_cut (s ++ repeat 10 k) = newlines_cut s.
Proof. induction k as [|k IH]; [by rewrite app_nil_r|]. by rewrite repeat_last, app_assoc, newlines_cut_snoc. Qed.

Lemma newlines_cut_back s : exists k, s = newlines_cut s ++ repeat 10 k.
Proof.
  induction s as [|c s (k & IH)] using rev_ind; [by exists 0%nat|]. rewrite newlines_cut_snoc. destruct (c =? 10) eqn:E; [|exists 0%nat; by rewrite app_nil_r].
  exists (S k). apply Z.eqb_eq in E as ->. by rewrite repeat_last, app_assoc, <- IH.
Qed.

(** What the scripts take for the plugin's file. *)
Lemma foreign_spec n : uwsmForeignShell n = false <-> look_alike n.
Proof.
  unfold look_alike. split.
  - destruct n as [content rd| |]; [|done..]. cbn. intros E%negb_false_iff%str_eqb_eq. destruct rd; [|by vm_compute in E]. exists content.
    destruct (newlines_cut_back (List.filter (fun c => negb (c =? 0)) content)) as (k & Ek). exists k. split; [done|]. unfold captured in E. by rewrite E in Ek.
  - intros (content & k & -> & E). cbn. apply negb_false_iff, str_eqb_eq. unfold captured. by rewrite E, newlines_cut_repeat.
Qed.

(** What the panel is told by a run. *)
Definition told (r : Z * list Z * option node) : result := parseUwsmActionResult (JNum (NZ r.1.1)) (JStr r.1.2).

Lemma content_written : wanted ++ [10] = uwsmFragmentContent.
Proof. reflexivity. Qed.

Lemma ours_alike : look_alike (Regular uwsmFragmentContent true).
Proof. apply foreign_spec. vm_compute. reflexivity. Qed.

(** Nothing, or a file the scripts take for the plugin's. *)
Definition free_to_touch (at_ : option node) : Prop := at_ = None \/ exists n, at_ = Some n /\ look_alike n.

Definition FAILURES : list Z := [UWSM_EXIT_NO_HOME; UWSM_EXIT_PARENT; UWSM_EXIT_SYMLINK; UWSM_EXIT_FOREIGN; UWSM_EXIT_WRITE].
Definition WORDS : list (list Z) := map js ["written"; "removed"; "absent"]%string.

Lemma told_failed : Forall (fun c => r_ok (parseUwsmActionResult (JNum (NZ c)) (JStr [])) = false) FAILURES.
Proof. repeat constructor. Qed.

Lemma told_done : Forall (fun w => r_ok (parseUwsmActionResult (JNum (NZ 0)) (JStr (w ++ [10]))) = true) WORDS.
Proof. repeat constructor. Qed.

(** A run either fails and changes nothing, or succeeds with a word and leaves the
    path as it should be. *)
Inductive ended (at_ goal : option node) : Z * list Z * option node -> Prop :=
| ended_failed c : c ∈ FAILURES -> ended at_ goal (c, [], at_)
| ended_done w : w ∈ WORDS -> free_to_touch at_ -> ended at_ goal (0, w ++ [10], goal).

Lemma ended_told at_ goal r : ended at_ goal r ->
  (r_ok (told r) = true /\ free_to_touch at_ /\ r.2 = goal) \/ (r_ok (told r) = false /\ r.2 = at_).
Proof.
  intros [c Hc|w Hw Hr]; unfold told; cbn [fst snd].
  - right. split; [|done]. pose proof told_failed as Hf. rewrite Forall_forall in Hf. by apply Hf.
  - left. split_and!; [|done|done]. pose proof told_done as Hd. rewrite Forall_forall in Hd. by apply Hd.
Qed.

Ltac listed := refine (bool_decide_eq_true_1 _ _); vm_compute; reflexivity.
Ltac ends := first [apply ended_failed; listed|apply ended_done; [listed|by left]].

Lemma alike_free n : uwsmForeignShell n = false -> free_to_touch (Some n).
Proof. intros H%foreign_spec. right. by exists n. Qed.

Lemma write_ended p at_ : ended at_ (Some (Regular uwsmFragmentContent true)) (run_uwsm_write p at_).
Proof.
  unfold run_uwsm_write. rewrite content_written. destruct (negb (p_home p)); [ends|]. destruct (negb (p_mkdir p)); [ends|].
  destruct at_ as [n|]; [|destruct (_ || _); ends].
  pose proof (alike_free n). destruct n as [content rd| |]; [|ends|cbn; ends].
  destruct (uwsmForeignShell _); [ends|]. destruct (_ || _); [ends|]. apply ended_done; [listed|auto].
Qed.

Lemma remove_ended p at_ : ended at_ None (run_uwsm_remove p at_).
Proof.
  unfold run_uwsm_remove. destruct (negb (p_home p)); [ends|]. destruct at_ as [n|]; [|ends].
  pose proof (alike_free n). destruct n as [content rd| |]; [|ends|cbn; ends].
  destruct (uwsmForeignShell _); [ends|]. destruct (negb (p_remove p)); [ends|]. apply ended_done; [listed|auto].
Qed.

Lemma free_regular content rd : uwsmForeignShell (Regular content rd) = false <-> free_to_touch (Some (Regular content rd)).
Proof. rewrite foreign_spec. split; [intros H; right; by eexists|]. intros [?|(n & [= <-] & H)]; done. Qed.

Lemma not_regular n : match n with Regular _ _ => False | _ => True end -> ~ look_alike n.
Proof. intros Hn (content & k & -> & _). done. Qed.

Lemma permitted_done at_ : let p := Permits true true true true true in
  (r_ok (told (run_uwsm_write p at_)) = true <-> free_to_touch at_) /\ (r_ok (told (run_uwsm_remove p at_)) = true <-> free_to_touch at_).
Proof.
  cbv zeta. assert (Hno : forall n, ~ look_alike n -> free_to_touch (Some n) -> False) by (intros n Hn [?|(m & [= <-] & ?)]; done).
  destruct at_ as [[content rd| |]|].
  - rewrite <- free_regular. unfold run_uwsm_write, run_uwsm_remove. cbn [p_home p_mkdir p_mktemp p_write p_remove negb orb]. destruct (uwsmForeignShell _); vm_compute; by split.
  - split; (split; [done|]); intros H; destruct (Hno _ (not_regular Symlink I) H).
  - split; (split; [done|]); intros H; destruct (Hno _ (not_regular OtherNode I) H).
  - split; (split; [by left|done]).
Qed.

Lemma inspected p at_ : p_home p = true -> let '(state, offer, _) := parseUwsmInspection (JStr (run_uwsm_inspect p at_)) in
   let alike := exists n, at_ = Some n /\ look_alike n in
   (offer = true <-> alike) /\ (state = fragment_managed <-> alike) /\ (state = fragment_absent <-> at_ = None).
Proof.
  intros Hh. assert (He : (exists n, at_ = Some n /\ look_alike n) <-> match at_ with Some n => uwsmForeignShell n = false | None => False end).
  { destruct at_ as [n|]; [rewrite foreign_spec|]; split; try done; [by intros (m & [= <-] & ?)|intros H; by exists n|by intros (m & ? & _)]. }
  unfold run_uwsm_inspect. rewrite Hh. cbn [negb]. destruct (parseUwsmInspection _) as [[state offer] m] eqn:E. cbv zeta. rewrite He. clear He. revert E.
  destruct at_ as [[content []| |]|]; cbn [uwsmForeignShell cat_of]; [destruct (str_eqb (captured content) wanted) eqn:Ew; cbn [negb]|..]; vm_compute; intros [= <- <- <-]; split_and!; intros; first [done|discriminate|congruence].
Qed.

(** ** Properties *)

(** C26: Routing touches only the plugin's own file, or one that differs from it in zero
    bytes and final newlines alone.  Whatever the file system permits, what the panel is
    told of a write or a removal is true: a success means the path now holds exactly the
    plugin's content, or nothing, and that before there was nothing or such a file; a
    failure means the path is as it was.  Where everything is permitted both succeed
    exactly then, so on the plugin's own file always.  The inspection offers a removal
    exactly for such a file, and says absent exactly when nothing is there. *)
Theorem routing_owned p at_ :
  (let r := run_uwsm_write p at_ in
   (r_ok (told r) = true /\ free_to_touch at_ /\ r.2 = Some (Regular uwsmFragmentContent true)) \/ (r_ok (told r) = false /\ r.2 = at_)) /\
  (let r := run_uwsm_remove p at_ in
   (r_ok (told r) = true /\ free_to_touch at_ /\ r.2 = None) \/ (r_ok (told r) = false /\ r.2 = at_)) /\
  (p = Permits true true true true true ->
   (r_ok (told (run_uwsm_write p at_)) = true <-> free_to_touch at_) /\ (r_ok (told (run_uwsm_remove p at_)) = true <-> free_to_touch at_)) /\
  (p_home p = true -> let '(state, offer, _) := parseUwsmInspection (JStr (run_uwsm_inspect p at_)) in
   let alike := exists n, at_ = Some n /\ look_alike n in
   (offer = true <-> alike) /\ (state = fragment_managed <-> alike) /\ (state = fragment_absent <-> at_ = None)) /\
  free_to_touch None /\ look_alike (Regular uwsmFragmentContent true) /\
  (forall n, look_alike n -> route_of (Some n) = theirs -> exists content, n = Regular content true /\ content <> uwsmFragmentContent).
Proof.
  split; [apply ended_told, write_ended|]. split; [apply ended_told, remove_ended|]. split; [intros ->; apply permitted_done|]. split; [apply inspected|].
  split; [by left|]. split; [exact ours_alike|]. intros n (content & k & -> & _) Hr. exists content. split; [done|]. cbn in Hr. by case_bool_decide.
Qed.

Lemma routing_owned_witness :
  look_alike (Regular uwsmFragmentContent true)
  /\ r_ok (told (run_uwsm_write (Permits true true true true true) (Some (Regular uwsmFragmentContent true)))) = true.
Proof.
  destruct (routing_owned (Permits true true true true true) (Some (Regular uwsmFragmentContent true))) as (_ & _ & H1 & _ & _ & H2 & _).
  split; [exact H2|]. apply (proj2 (proj1 (H1 eq_refl))). right. eexists. split; [reflexivity|exact H2].
Defined.

(** A file that is not the plugin's byte for byte, its last newline missing, is taken for
    the plugin's and removed. *)
Example look_alike_removed :
  let at_ := Some (Regular wanted true) in
  route_of at_ = theirs /\ run_uwsm_remove (Permits true true true true true) at_ = (0, js "removed" ++ [10], None).
Proof. vm_compute. auto. Qed.

(** ** The plugin's data *)

(** The words the panel uses for what a removal did. *)
Definition named_parts (keyring state data accounts : bool) : list (list Z) :=
  (if keyring then [js "keyring entries"] else []) ++ (if state then [js "learned suggestions"] else [])
  ++ (if data then [js "exported public keys"] else []) ++ (if accounts then [js "the sign-ins of accounts added in the panel"] else []).

(** The message names exactly the parts that were removed, except that added
    accounts are named as soon as there were some; nothing is left exactly when
    everything there could be removed. *)
Lemma removal_reported can f :
  let '(c, out, f') := run_data_remove true can f in
  let parts := named_parts (f_keyring f && negb (f_keyring f')) (f_state f && negb (f_state f')) (f_data f && negb (f_data f')) (f_data f && f_accounts f) in
  parsePluginDataRemoval (JNum (NZ c)) (JStr out)
  = (true, match parts with
           | [] => js "Nothing was left to remove."
           | _ => js "Removed " ++ join (js ", ") parts ++ js ". Your vault is untouched; run `bw logout` separately if you want that too."
           end).
Proof. destruct can as [[] [] []], f as [[] [] [] []]; vm_compute; reflexivity. Qed.

(** A keyring that could not be cleared reads as nothing left, and accounts that could
    not be removed read as removed. *)
Example removal_overstated :
  let none := Removable false false false in
  let say f := let '(c, out, f') := run_data_remove true none f in (f', (parsePluginDataRemoval (JNum (NZ c)) (JStr out)).2) in
  say (Footprint true false false false) = (Footprint true false false false, js "Nothing was left to remove.") /\
  (say (Footprint false false true true)).1 = Footprint false false true true /\
  starts_with (js "Removed the sign-ins of accounts") (say (Footprint false false true true)).2 = true.
Proof. vm_compute. auto. Qed.
