(* ===== verification/Attachments.v ===== *)
(** * Saving an attachment ([BitwardenModel.js])

    The program that gives a downloaded file its name in the download folder
    ([ATTACHMENT_CLAIM_SCRIPT]), and the link under which a file is opened
    ([OPEN_LINK_SCRIPT]).  The folder is a map from names to contents.  What the file
    system answers is a parameter of a run: whether it has hard links, whether files
    can be created, and how far a copy gets. *)

From stdpp Require Import gmap.
From S2P Require Import Prelude.
From S2P Require Import JsNum.
From S2P Require Import JsString.
From S2P Require Import JsValue.
From S2P Require Import Items.

Notation folder := (gmap (list Z) (list Z)).

(** How a copy of the content ends: complete, or stopped after [written] units by an
    error or a signal, with the truncation that follows working or not. *)
Inductive copied := Whole | Stopped (written : nat) (signal emptied : bool).

Record disk := Disk { hard_links : bool; can_create : bool; copy_ends : copied }.

(** The answer: the name saved under, or a message and an exit code. *)
Inductive claimed := Saved (name : list Z) | Failed (code : Z) (message : list Z).

(** ** Candidate names *)

Definition is_slash_or_nul (c : Z) : bool := (c =? 47) || (c =? 0).

Definition valid_name (name : list Z) : bool :=
  negb (bool_decide (name = [])) && negb (existsb is_slash_or_nul name)
  && negb (str_eqb name (js ".")) && negb (str_eqb name (js "..")).

Definition stem_of (name : list Z) : list Z := match last_index_of 46 name with Some i => take i name | None => name end.
Definition ext_of (name : list Z) : list Z := match last_index_of 46 name with Some i => drop i name | None => [] end.

Definition candidate (name : list Z) (n : nat) : list Z :=
  match n with
  | O => name
  | S _ => stem_of name ++ js " (" ++ Z_to_str (Z.of_nat n) ++ js ")" ++ ext_of name
  end.

(** ** Claiming a name *)

Definition NOT_SAVED : list Z := js "Could not save into the download folder.".
Definition NO_FREE_NAME : list Z := js "Could not find a free name in the download folder.".

(** The message of an abandoned copy; none after a signal. *)
Definition abandoned (name : list Z) (signal emptied : bool) : claimed :=
  if signal then Failed 143 []
  else Failed 1 (js "Could not save into the download folder; "
    ++ (if emptied then js "an empty " ++ name ++ js " was left there." else name ++ js " there may still hold part of the attachment.")).

(** The name is free: with hard links the file appears whole; without, it is created
    and the content copied into it. *)
Definition claim_at (d : disk) (content : list Z) (name : list Z) (f : folder) : claimed * folder :=
  if hard_links d then (Saved name, <[name := content]> f)
  else if negb (can_create d) then (Failed 1 NOT_SAVED, f)
  else match copy_ends d with
       | Whole => (Saved name, <[name := content]> f)
       | Stopped written signal emptied => (abandoned name signal emptied, <[name := if emptied then [] else take written content]> f)
       end.

(** From candidate [n] on, [more] of them. *)
Fixpoint claim_from (d : disk) (content name : list Z) (n more : nat) (f : folder) : claimed * folder :=
  match more with
  | O => (Failed 1 NO_FREE_NAME, f)
  | S more =>
      match f !! candidate name n with
      | Some _ => claim_from d content name (S n) more f
      | None => claim_at d content (candidate name n) f
      end
  end.

Definition MAX_CANDIDATES : nat := 1000.

Definition ATTACHMENT_CLAIM_SCRIPT (d : disk) (content name : list Z) (f : folder) : claimed * folder :=
  if negb (valid_name name) then (Failed 1 (js "Invalid attachment name."), f)
  else claim_from d content name 0 MAX_CANDIDATES f.

(** ** Opening *)

(** [/^\.[A-Za-z0-9]{1,10}$/] on the last extension; a leading dot is not one. *)
Definition base_of (target : list Z) : list Z := match last_index_of 47 target with Some i => drop (S i) target | None => target end.
Definition open_ext (target : list Z) : list Z :=
  match last_index_of 46 (base_of target) with
  | Some (S i) =>
      let e := drop (S i) (base_of target) in
      if (2 <=? length e)%nat && (length e <=? 11)%nat && forallb is_alnum (drop 1 e) then e else []
  | _ => []
  end.

(** The link's path in the fresh directory [made], or nothing. *)
Definition OPEN_LINK_SCRIPT (target made : list Z) : option (list Z) :=
  if negb (starts_with (js "/") target) || contains [0] target then None
  else Some (made ++ js "/attachment" ++ open_ext target).
