(* ===== verification/AttachmentsCorrect.v ===== *)
(** * Saving an attachment overwrites nothing *)

From stdpp Require Import gmap.
From S2P Require Import Prelude.
From S2P Require Import JsNum.
From S2P Require Import JsString.
From S2P Require Import JsValue.
From S2P Require Import Items.
From S2P Require Import ItemsCorrect.
From S2P Require Import Attachments.

(** ** Candidates *)

Lemma last_index_le c s i : last_index_of c s = Some i -> (i < length s)%nat.
Proof.
  revert i. induction s as [|u s IH]; intros i; cbn; [done|].
  destruct (last_index_of c s) as [j|]; [intros [= <-]; specialize (IH j eq_refl); lia|].
  case_match; [intros [= <-]; lia|done].
Qed.

Lemma stem_ext name : name = stem_of name ++ ext_of name.
Proof. unfold stem_of, ext_of. case_match; [by rewrite take_drop|by rewrite app_nil_r]. Qed.

Lemma nat_text_inj m n : Z_to_str (Z.of_nat m) = Z_to_str (Z.of_nat n) -> m = n.
Proof.
  unfold Z_to_str. rewrite !(proj2 (Z.ltb_ge _ _)) by lia. intros E.
  apply (f_equal digits_value) in E. rewrite !digits_value_nat in E by lia. lia.
Qed.

Lemma candidate_inj name m n : candidate name m = candidate name n -> m = n.
Proof.
  destruct m as [|m], n as [|n]; cbn [candidate]; intros E; [done|exfalso..|].
  - rewrite (stem_ext name) in E at 1. apply app_inv_head, (f_equal length) in E. rewrite !length_app in E. cbn in E. lia.
  - rewrite (stem_ext name) in E at 3. apply app_inv_head, (f_equal length) in E. rewrite !length_app in E. cbn in E. lia.
  - apply app_inv_head, app_inv_head in E. rewrite !app_assoc in E. do 2 apply app_inv_tail in E. by apply nat_text_inj.
Qed.

(** A unit of the name, or of the number put into it. *)
Lemma candidate_units (P : Z -> Prop) name n : Forall P name -> (forall c, is_digit c = true -> P c) -> P 32 -> P 40 -> P 41 ->
  Forall P (candidate name n).
Proof.
  intros Hn Hd Hs Ho Hc. destruct n as [|n]; [done|]. cbn [candidate]. rewrite (stem_ext name), Forall_app in Hn. destruct Hn as [H1 H2].
  apply Forall_app_2; [done|]. apply Forall_app_2; [by repeat constructor|]. apply Forall_app_2; [|apply Forall_app_2; [by repeat constructor|done]].
  unfold Z_to_str. rewrite (proj2 (Z.ltb_ge _ _)) by lia. eapply Forall_impl; [apply nat_to_str_digits|exact Hd].
Qed.

(** ** The claim *)

(** Every file that was there is there, unchanged. *)
Definition keeps (f f' : folder) : Prop := forall n v, f !! n = Some v -> f' !! n = Some v.

Lemma keeps_insert (f : folder) n v : f !! n = None -> keeps f (<[n := v]> f).
Proof. intros Hn m w Hm. rewrite lookup_insert_ne by congruence. done. Qed.

Lemma keeps_refl f : keeps f f.
Proof. by intros n v. Qed.

(** The first free candidate. *)
Definition first_free (f : folder) (name c : list Z) : Prop :=
  exists i, (i < MAX_CANDIDATES)%nat /\ c = candidate name i /\ f !! c = None /\ forall j, (j < i)%nat -> is_Some (f !! candidate name j).

(** What a run may leave. *)
Definition claim_ok (f : folder) (name content : list Z) (r : claimed) (f' : folder) : Prop :=
  keeps f f' /\
  match r with
  | Saved c => first_free f name c /\ f' = <[c := content]> f
  | Failed code _ => code <> 0 /\ (f' = f \/ exists c part, first_free f name c /\ part `prefix_of` content /\ f' = <[c := part]> f)
  end.

Lemma claim_at_ok d content name c f : first_free f name c ->
  let '(r, f') := claim_at d content c f in claim_ok f name content r f'.
Proof.
  intros Hf. assert (f !! c = None) as Hn by (by destruct Hf as (i & _ & -> & ? & _)). unfold claim_at, claim_ok.
  destruct (hard_links d); [split; [by apply keeps_insert|done]|]. destruct (can_create d); cbn [negb]; [|split; [apply keeps_refl|split; [done|by left]]].
  destruct (copy_ends d) as [|w signal emptied]; [split; [by apply keeps_insert|done]|].
  split; [by apply keeps_insert|]. unfold abandoned.
  destruct signal; (split; [done|right; eexists c, _; split; [done|split; [|done]]]); (destruct emptied; [apply prefix_nil|apply prefix_take]).
Qed.

Lemma claim_from_ok d content name n more f :
  (n + more = MAX_CANDIDATES)%nat -> (forall j, (j < n)%nat -> is_Some (f !! candidate name j)) ->
  let '(r, f') := claim_from d content name n more f in claim_ok f name content r f'.
Proof.
  revert n. induction more as [|more IH]; intros n Hm Hj; cbn [claim_from].
  - split; [apply keeps_refl|split; [done|by left]].
  - destruct (f !! candidate name n) as [v|] eqn:E.
    + apply IH; [lia|]. intros j Hlt. destruct (decide (j = n)) as [->|]; [by rewrite E|apply Hj; lia].
    + apply claim_at_ok. exists n. split_and!; [lia|done|done|exact Hj].
Qed.

(** ** Enough names *)

(** A disk on which a free name is saved under. *)
Definition works (d : disk) : Prop := hard_links d = true \/ (can_create d = true /\ copy_ends d = Whole).

Lemma claim_from_taken d content name n more f r f' : works d -> claim_from d content name n more f = (r, f') ->
  (exists c, r = Saved c) \/ forall j, (n <= j < n + more)%nat -> is_Some (f !! candidate name j).
Proof.
  intros Hd. revert n. induction more as [|more IH]; intros n; cbn [claim_from]; [intros _; right; lia|].
  destruct (f !! candidate name n) as [v|] eqn:E.
  - intros [?|Hj]%IH; [by left|right]. intros j Hlt. destruct (decide (j = n)) as [->|]; [by rewrite E|apply Hj; lia].
  - unfold claim_at. destruct Hd as [->|[-> ->]]; [intros [= <- _]; eauto|].
    destruct (hard_links d); intros [= <- _]; left; eauto.
Qed.

(** A folder with every candidate has at least as many files. *)
Lemma taken_size (f : folder) name m : (forall j, (j < m)%nat -> is_Some (f !! candidate name j)) -> (m <= size f)%nat.
Proof.
  intros Hj. rewrite <- size_dom.
  assert (L : length (map (candidate name) (seq 0 m)) = m) by (by rewrite length_map, length_seq). rewrite <- L at 1.
  rewrite <- (size_list_to_set (C := gset (list Z))).
  - apply subseteq_size. intros c Hc. apply elem_of_list_to_set, list_elem_of_In, in_map_iff in Hc as (j & <- & Hs%in_seq).
    apply elem_of_dom, Hj. lia.
  - assert (Inj (=) (=) (candidate name)) by (intros x y; apply candidate_inj). apply NoDup_fmap_2; [done|apply NoDup_ListNoDup, seq_NoDup].
Qed.

(** ** The names of the vault *)

Lemma safe_name_valid raw : valid_name (safeAttachmentFileName raw) = true.
Proof.
  destruct (safe_name raw) as (Hne & _ & Hu & Hh). unfold valid_name. rewrite bool_decide_false by done.
  assert (existsb is_slash_or_nul (safeAttachmentFileName raw) = false) as ->.
  { apply not_true_iff_false. intros (c & Hc & H)%existsb_exists. rewrite List.Forall_forall in Hu. destruct (Hu c Hc) as [H1 H2].
    unfold is_control, in_range in H1. unfold is_separator in H2. unfold is_slash_or_nul in H. lia. }
  destruct (safeAttachmentFileName raw) as [|c r]; [done|]. unfold inert_head in Hh.
  assert (c <> 46) by lia. rewrite !(proj2 (str_eqb_neq _ _)) by (cbn; intros [= E _]; lia). done.
Qed.

(** A name that does not start with a dot keeps its head in every candidate. *)
Lemma candidate_head name n c r : name = c :: r -> c <> 46 -> exists r', candidate name n = c :: r'.
Proof.
  intros -> Hc. destruct n as [|n]; [by eexists|]. cbn [candidate]. unfold stem_of.
  destruct (last_index_of 46 (c :: r)) as [[|i]|] eqn:E; [|by eexists..]. exfalso. revert E. cbn.
  destruct (last_index_of 46 r); [done|]. by rewrite (proj2 (Z.eqb_neq c 46)).
Qed.

Lemma candidate_inert raw n :
  Forall inert_unit (candidate (safeAttachmentFileName raw) n) /\
  match candidate (safeAttachmentFileName raw) n with c :: _ => inert_head c = true | [] => False end.
Proof.
  destruct (safe_name raw) as (Hne & _ & Hu & Hh). split.
  - apply candidate_units; [done|..|done|done|done]. intros c Hc. unfold inert_unit, is_control, is_separator, is_digit, in_range in *. lia.
  - destruct (safeAttachmentFileName raw) as [|c r] eqn:E; [done|].
    destruct (candidate_head (c :: r) n c r eq_refl) as [r' ->]; [unfold inert_head in Hh; lia|done].
Qed.

(** ** Properties *)

(** Saving an attachment never touches a file that is already there, whatever the
    server calls it.  It saves the whole content under the first free name among the
    attachment's own and its numbered variants; none of them has a path separator or
    a control character or starts with a dot, a dash or a space; a failure leaves at
    most one new file, holding a prefix of the content; and on a working disk with
    fewer than a thousand files it does save. *)
Theorem attachment_claimed d content raw f :
  let name := safeAttachmentFileName raw in
  let '(r, f') := ATTACHMENT_CLAIM_SCRIPT d content name f in
  claim_ok f name content r f' /\
  (forall n, Forall inert_unit (candidate name n) /\ match candidate name n with c :: _ => inert_head c = true | [] => False end) /\
  (works d -> (size f < MAX_CANDIDATES)%nat -> exists c, r = Saved c).
Proof.
  intros name. unfold ATTACHMENT_CLAIM_SCRIPT. unfold name at 1. rewrite safe_name_valid. cbn [negb].
  pose proof (claim_from_ok d content name 0 MAX_CANDIDATES f eq_refl ltac:(lia)) as H.
  destruct (claim_from d content name 0 MAX_CANDIDATES f) as [r f'] eqn:E. split_and!; [done|apply candidate_inert|]. intros Hd Hs.
  destruct (claim_from_taken _ _ _ _ _ _ _ _ Hd E) as [|Hj]; [done|]. exfalso.
  pose proof (taken_size f name MAX_CANDIDATES ltac:(intros j Hlt; apply Hj; lia)). lia.
Qed.

Example attachment_third :
  let f : folder := {[js "a.txt" := js "old"; js "a (1).txt" := js "older"]} in
  ATTACHMENT_CLAIM_SCRIPT (Disk true true Whole) (js "new") (safeAttachmentFileName (JStr (js "../a.txt"))) f
  = (Saved (js "a (2).txt"), <[js "a (2).txt" := js "new"]> f).
Proof. vm_compute. reflexivity. Qed.
