(* ===== verification/Sends.v ===== *)
(** * Sends ([BitwardenModel.js])

    The text a send is created from, the list of sends, and their labels.  Times are
    whole milliseconds since the epoch. *)

From S2P Require Import Prelude.
From S2P Require Import JsNum.
From S2P Require Import JsString.
From S2P Require Import JsUnicode.
From S2P Require Import JsValue.
From S2P Require Import Json.
From S2P Require Import Items.

(** ** Dates of the language *)

Definition MS_PER_DAY : Z := 24 * 60 * 60 * 1000.

(** The calendar date of a day number, and back, in the proleptic Gregorian calendar:
    years start in March, eras are 400 years. *)
Definition civil_from_days (z : Z) : Z * Z * Z :=
  let z := z + 719468 in
  let era := z / 146097 in
  let doe := z mod 146097 in
  let yoe := (doe - doe / 1460 + doe / 36524 - doe / 146096) / 365 in
  let doy := doe - (365 * yoe + yoe / 4 - yoe / 100) in
  let mp := (5 * doy + 2) / 153 in
  let d := doy - (153 * mp + 2) / 5 + 1 in
  let m := if mp <? 10 then mp + 3 else mp - 9 in
  (yoe + era * 400 + (if m <=? 2 then 1 else 0), m, d).

Definition days_from_civil (y m d : Z) : Z :=
  let y := if m <=? 2 then y - 1 else y in
  let era := y / 400 in
  let yoe := y mod 400 in
  let doy := (153 * (if 2 <? m then m - 3 else m + 9) + 2) / 5 + d - 1 in
  era * 146097 + (yoe * 365 + yoe / 4 - yoe / 100 + doy) - 719468.

(** [n] in [w] digits. *)
Fixpoint pad (w : nat) (n : Z) : list Z := match w with O => [] | S w => pad w (n / 10) ++ [48 + n mod 10] end.

Definition year_text (y : Z) : list Z :=
  if (0 <=? y) && (y <=? 9999) then pad 4 y else if y <? 0 then 45 :: pad 6 (- y) else 43 :: pad 6 y.

(** [new Date(t).toISOString()] of a time in range. *)
Definition toISOString (t : Z) : list Z :=
  let '(y, m, d) := civil_from_days (t / MS_PER_DAY) in
  let ms := t mod MS_PER_DAY in
  year_text y ++ js "-" ++ pad 2 m ++ js "-" ++ pad 2 d ++ js "T" ++ pad 2 (ms / 3600000) ++ js ":" ++ pad 2 (ms / 60000 mod 60)
  ++ js ":" ++ pad 2 (ms / 1000 mod 60) ++ js "." ++ pad 3 (ms mod 1000) ++ js "Z".

(** [w] digits at the start of [s]. *)
Definition read_digits (w : nat) (s : list Z) : option (Z * list Z) :=
  let d := take w s in
  if (length d =? w)%nat && forallb is_digit d then Some (digits_value d, drop w s) else None.
Definition read_unit (c : Z) (s : list Z) : option (list Z) := strip_unit c s.

(** The format of [toISOString] with a four-digit year. *)
Definition read_iso (s : list Z) : option Z :=
  '(y, s) ← read_digits 4 s; s ← read_unit 45 s; '(m, s) ← read_digits 2 s; s ← read_unit 45 s; '(d, s) ← read_digits 2 s;
  s ← read_unit 84 s; '(h, s) ← read_digits 2 s; s ← read_unit 58 s; '(mi, s) ← read_digits 2 s; s ← read_unit 58 s;
  '(sec, s) ← read_digits 2 s; s ← read_unit 46 s; '(ms, s) ← read_digits 3 s; s ← read_unit 90 s;
  if bool_decide (s = []) && (1 <=? m) && (m <=? 12) && (1 <=? d) && (d <=? 31) && (h <=? 23) && (mi <=? 59) && (sec <=? 59)
  then Some (days_from_civil y m d * MS_PER_DAY + h * 3600000 + mi * 60000 + sec * 1000 + ms) else None.

(** Texts of another form are read by the implementation's own rules. *)
Class Dates := {
  other_date : list Z -> option Z;
  date_le : list Z -> list Z -> bool    (** [a.localeCompare(b) <= 0] *)
}.

Section dates.
  Context `{!Dates}.

(** [Date.parse]; [None] is NaN. *)
Definition date_parse (s : list Z) : option Z := match read_iso s with Some t => Some t | None => other_date s end.

(** ** Creating *)

Definition SEND_TYPE_TEXT : Z := 0.
Definition SEND_TYPE_FILE : Z := 1.

Definition send_days (deleteInDays : jsval) : num :=
  let n := to_number deleteInDays in num_max (NZ 1) (num_min (NZ 31) (if num_truthy n then n else NZ 7)).

(** The time of the deletion; a date keeps whole milliseconds. *)
Definition deletion_time (now : Z) (deleteInDays : jsval) : Z :=
  match num_add (NZ now) (num_mul (num_mul (num_mul (num_mul (send_days deleteInDays) (NZ 24)) (NZ 60)) (NZ 60)) (NZ 1000)) with
  | Fin q => Z.quot (QArith_base.Qnum q) (Zpos (QArith_base.Qden q))
  | _ => 0
  end.

Definition text_if (v : jsval) (t : list Z) : jsval := if truthy v && negb (bool_decide (t = [])) then JStr t else JNull.

Definition buildSendPayload (now : Z) (name body hidden deleteInDays maxAccessCount password notes : jsval) : jsval :=
  let max := to_number maxAccessCount in
  let title := trim (text name) in
  JObj [(js "object", JStr (js "send"));
        (js "name", JStr (if bool_decide (title = []) then js "Untitled Send" else title));
        (js "notes", text_if notes (trim (to_string notes)));
        (js "type", JNum (NZ SEND_TYPE_TEXT));
        (js "text", JObj [(js "text", JStr (text body)); (js "hidden", JBool (truthy hidden))]);
        (js "file", JNull);
        (js "maxAccessCount", if num_ltb (NZ 0) max then JNum max else JNull);
        (js "deletionDate", JStr (toISOString (deletion_time now deleteInDays)));
        (js "expirationDate", JNull);
        (js "password", text_if password (to_string password));
        (js "emails", JNull);
        (js "disabled", JBool false);
        (js "hideEmail", JBool false)].

(** ** Listing *)

Definition or_zero (v : jsval) : jsval := js_or v (JNum (NZ 0)).
Definition sub_field (v : jsval) (k1 k2 : string) : jsval := if truthy (fld v k1) then fld (fld v k1) k2 else JUndef.
Definition text_or_empty (v : jsval) : jsval := JStr (if truthy v then to_string v else []).

Definition parse_send (s : jsval) : jsval :=
  JObj [text_field s "id"; (js "name", JStr (text_or (fld s "name") (js "Untitled Send")));
        (js "type", JNum (to_number (or_zero (fld s "type"))));
        (js "isFile", JBool (num_eqb (to_number (fld s "type")) (NZ SEND_TYPE_FILE)));
        text_field s "accessUrl";
        (js "accessCount", JNum (to_number (or_zero (fld s "accessCount"))));
        (js "maxAccessCount", if is_nullish (fld s "maxAccessCount") then JNull else JNum (to_number (fld s "maxAccessCount")));
        text_field s "deletionDate";
        (js "expirationDate", text_or_empty (fld s "expirationDate"));
        (js "passwordSet", JBool (truthy (fld s "passwordSet")));
        (js "disabled", JBool (truthy (fld s "disabled")));
        (js "notes", text_or_empty (fld s "notes"));
        (js "textPreview", text_or_empty (sub_field s "text" "text"));
        (js "textHidden", JBool (truthy (sub_field s "text" "hidden")));
        (js "fileName", text_or_empty (sub_field s "file" "fileName"))].

Definition deletion_text (row : jsval) : list Z := to_string (fld row "deletionDate").

Definition parseSends (raw : list Z) : list jsval :=
  sort_by (fun a b => date_le (deletion_text a) (deletion_text b)) (map parse_send (List.filter is_object (parseJsonArray raw))).

(** ** Labels *)

Definition plural (n : Z) (unit_ : list Z) : list Z := js "in " ++ Z_to_str n ++ js " " ++ unit_ ++ (if n =? 1 then [] else js "s").

Definition sendExpiryLabel (send : jsval) (now : Z) : list Z :=
  if negb (truthy send) || negb (truthy (fld send "deletionDate")) then []
  else match date_parse (to_string (fld send "deletionDate")) with
       | None => []
       | Some target =>
           let ms := target - now in
           if ms <=? 0 then js "expired"
           else
             let mins := ms / 60000 in
             if mins <? 60 then plural mins (js "minute")
             else
               let hours := mins / 60 in
               if hours <? 24 then plural hours (js "hour") else plural (hours / 24) (js "day")
       end.

Definition sendAccessLabel (send : jsval) : list Z :=
  if negb (truthy send) then []
  else if is_null (fld send "maxAccessCount") then to_string (fld send "accessCount") ++ js " views"
  else to_string (fld send "accessCount") ++ js " of " ++ to_string (fld send "maxAccessCount") ++ js " views".
End dates.
