(* ===== verification/SendsCorrect.v ===== *)
(** * A send expires when it says *)

From S2P Require Import Prelude.
From S2P Require Import JsNum.
From S2P Require Import JsString.
From S2P Require Import JsUnicode.
From S2P Require Import JsValue.
From S2P Require Import Json.
From S2P Require Import Items.
From S2P Require Import Sends.

(** ** The calendar *)

(** The year within an era, and the day within that year. *)
Lemma era_year doe : 0 <= doe < 146097 ->
  let yoe := (doe - doe / 1460 + doe / 36524 - doe / 146096) / 365 in
  0 <= yoe <= 399 /\ 0 <= doe - (365 * yoe + yoe / 4 - yoe / 100) <= 365.
Proof. intros H. cbv zeta. Z.to_euclidean_division_equations. lia. Qed.

(** The month of a day of the year, counted from March. *)
Definition month_ok (doy : Z) : bool :=
  let mp := (5 * doy + 2) / 153 in
  let d := doy - (153 * mp + 2) / 5 + 1 in
  let m := if mp <? 10 then mp + 3 else mp - 9 in
  ((153 * (if 2 <? m then m - 3 else m + 9) + 2) / 5 + d - 1 =? doy) && (1 <=? m) && (m <=? 12) && (1 <=? d) && (d <=? 31).

Lemma year_months : forallb month_ok (seqZ 0 366) = true.
Proof. vm_compute. reflexivity. Qed.

(** A date of the first era reads back to its day; month, day and year are in range. *)
Definition civil_ok (doe : Z) : Prop :=
  let '(y, m, d) := civil_from_days (doe - 719468) in
  days_from_civil y m d = doe - 719468 /\ 0 <= y <= 400 /\ 1 <= m <= 12 /\ 1 <= d <= 31.

Lemma first_era doe : 0 <= doe < 146097 -> civil_ok doe.
Proof.
  intros Hd. unfold civil_ok, civil_from_days. rewrite Z.sub_add, (Z.div_small doe), (Z.mod_small doe) by lia. cbv zeta.
  destruct (era_year doe Hd) as [Hy Hdoy]. cbv zeta in *. set (yoe := (doe - doe / 1460 + doe / 36524 - doe / 146096) / 365) in *.
  set (doy := doe - (365 * yoe + yoe / 4 - yoe / 100)) in *.
  assert (M : month_ok doy = true).
  { pose proof year_months as F. rewrite forallb_forall in F. apply F, list_elem_of_In, elem_of_seqZ. lia. }
  unfold month_ok in M. cbv zeta in M. set (mp := (5 * doy + 2) / 153) in *. set (d := doy - (153 * mp + 2) / 5 + 1) in *.
  set (m := if mp <? 10 then mp + 3 else mp - 9) in *. clearbody d m. unfold days_from_civil. cbv zeta.
  rewrite !andb_true_iff in M. destruct M as ((((M1 & M2) & M3) & M4) & M5). apply Z.eqb_eq in M1. rewrite M1.
  assert (Y : (if m <=? 2 then yoe + 0 * 400 + (if m <=? 2 then 1 else 0) - 1 else yoe + 0 * 400 + (if m <=? 2 then 1 else 0)) = yoe)
    by (destruct (m <=? 2); lia).
  rewrite Y, (Z.div_small yoe 400), (Z.mod_small yoe 400) by lia. unfold doy in *. destruct (m <=? 2); lia.
Qed.

Lemma civil_era z : let '(y, m, d) := civil_from_days (z mod 146097 - 719468) in
  civil_from_days (z - 719468) = (y + z / 146097 * 400, m, d).
Proof.
  unfold civil_from_days. rewrite !Z.sub_add, Zmod_mod. rewrite (Z.div_small (z mod 146097) 146097) by (apply Z.mod_pos_bound; lia).
  cbv zeta. do 2 f_equal. lia.
Qed.

Lemma days_era y m d e : days_from_civil (y + e * 400) m d = days_from_civil y m d + e * 146097.
Proof.
  unfold days_from_civil. cbv zeta. destruct (m <=? 2).
  - replace (y + e * 400 - 1) with (y - 1 + e * 400) by lia. rewrite Z.div_add, Z.mod_add by lia. lia.
  - rewrite Z.div_add, Z.mod_add by lia. lia.
Qed.

Lemma civil_roundtrip z : let '(y, m, d) := civil_from_days z in
  days_from_civil y m d = z /\ 1 <= m <= 12 /\ 1 <= d <= 31 /\ 0 <= y - (z + 719468) / 146097 * 400 <= 400.
Proof.
  pose proof (civil_era (z + 719468)) as E. replace (z + 719468 - 719468) with z in E by lia.
  pose proof (Z.mod_pos_bound (z + 719468) 146097 ltac:(lia)) as Hb. set (e := (z + 719468) / 146097) in *.
  assert (Hz : z + 719468 = 146097 * e + (z + 719468) mod 146097) by (apply Z.div_mod; lia). set (doe := (z + 719468) mod 146097) in *.
  pose proof (first_era doe Hb) as C.
  clearbody e doe. unfold civil_ok in C. destruct (civil_from_days (doe - 719468)) as [[y m] d]. rewrite E, days_era. lia.
Qed.

(** ** Digits *)

Lemma pad_spec w n : 0 <= n < 10 ^ Z.of_nat w ->
  length (pad w n) = w /\ Forall (fun c => is_digit c = true) (pad w n) /\ digits_value (pad w n) = n.
Proof.
  revert n. induction w as [|w IH]; intros n Hn; [cbn in *; split_and!; [done|constructor|cbn; lia]|].
  replace (Z.of_nat (S w)) with (Z.of_nat w + 1) in Hn by lia. rewrite Z.pow_add_r in Hn by lia.
  destruct (IH (n / 10)) as (H1 & H2 & H3).
  { split; [apply Z.div_pos; lia|]. apply Z.div_lt_upper_bound; lia. }
  pose proof (Z.mod_pos_bound n 10 ltac:(lia)) as Hm. cbn [pad]. split_and!.
  - rewrite length_app. cbn. lia.
  - apply Forall_app_2; [done|]. constructor; [|constructor]. unfold is_digit, in_range. lia.
  - unfold digits_value in *. rewrite fold_left_app, H3. cbn [fold_left]. pose proof (Z.div_mod n 10 ltac:(lia)). lia.
Qed.

Lemma read_pad w n s : 0 <= n < 10 ^ Z.of_nat w -> read_digits w (pad w n ++ s) = Some (n, s).
Proof.
  intros (H1 & H2 & H3)%pad_spec. unfold read_digits. rewrite take_app_le, take_ge, drop_app_ge by lia.
  rewrite H1, Nat.eqb_refl, Nat.sub_diag. apply forallb_Forall in H2. rewrite H2. cbn. by rewrite H3, drop_0.
Qed.

Lemma read_unit_lit c s : read_unit c (c :: s) = Some s.
Proof. unfold read_unit, strip_unit. by rewrite Z.eqb_refl. Qed.

(** ** Printing and reading a time *)

Definition LAST_TIME : Z := 2786859 * MS_PER_DAY.

Lemma iso_roundtrip t : 0 <= t <= LAST_TIME -> read_iso (toISOString t) = Some t.
Proof.
  intros Ht. unfold toISOString. pose proof (civil_roundtrip (t / MS_PER_DAY)) as C.
  assert (Hd : 0 <= t / MS_PER_DAY <= 2786859).
  { unfold LAST_TIME, MS_PER_DAY in *. Z.to_euclidean_division_equations. lia. }
  assert (He : 4 <= (t / MS_PER_DAY + 719468) / 146097 <= 23).
  { clear -Hd. generalize dependent (t / MS_PER_DAY). intros n Hd. Z.to_euclidean_division_equations. lia. }
  pose proof (Z.div_mod t MS_PER_DAY ltac:(done)) as Hq. pose proof (Z.mod_pos_bound t MS_PER_DAY ltac:(done)) as Hm.
  destruct (civil_from_days (t / MS_PER_DAY)) as [[y m] d]. destruct C as (C1 & C2 & C3 & C4). cbv zeta.
  set (ms := t mod MS_PER_DAY) in *. unfold MS_PER_DAY in Hm.
  assert (0 <= y <= 9999) by lia. unfold year_text. rewrite (proj2 (Z.leb_le 0 y)), (proj2 (Z.leb_le y 9999)) by lia. cbn [andb].
  assert (B : 0 <= ms / 3600000 < 24 /\ 0 <= ms / 60000 mod 60 < 60 /\ 0 <= ms / 1000 mod 60 < 60 /\ 0 <= ms mod 1000 < 1000
    /\ ms / 3600000 * 3600000 + ms / 60000 mod 60 * 60000 + ms / 1000 mod 60 * 1000 + ms mod 1000 = ms).
  { clear -Hm. clearbody ms. change (24 * 60 * 60 * 1000) with 86400000 in Hm. Z.to_euclidean_division_equations. lia. }
  destruct B as (B1 & B2 & B3 & B4 & B5). unfold read_iso.
  rewrite read_pad by (cbn; lia). cbn [mbind option_bind].
  change (js "-") with [45]. change (js "T") with [84]. change (js ":") with [58]. change (js ".") with [46]. change (js "Z") with [90].
  repeat (cbn [app]; rewrite read_unit_lit; cbn [mbind option_bind]; try (rewrite read_pad by (cbn; lia); cbn [mbind option_bind])).
  rewrite bool_decide_true by done. cbn [andb]. rewrite !(proj2 (Z.leb_le _ _)) by lia. cbn [andb]. f_equal.
  rewrite C1. clear -Hq B5. clearbody ms. revert Hq. generalize (t / MS_PER_DAY). intros n Hq. lia.
Qed.

(** ** Properties *)

(** The days asked for: a week when none are given, between one and 31. *)
Definition days_asked (z : Z) : Z := Z.max 1 (Z.min 31 (if z =? 0 then 7 else z)).

Lemma send_days_NZ d z : to_number d = NZ z -> send_days d = NZ (days_asked z).
Proof.
  intros E. unfold send_days. rewrite E. cbv zeta. unfold days_asked. rewrite num_truthy_NZ. destruct (Z.eqb_spec z 0) as [->|Hz]; cbn [negb].
  - reflexivity.
  - by rewrite num_min_NZ, num_max_NZ.
Qed.

Lemma deletion_time_NZ now d z : 0 <= now <= 240000000000000 -> to_number d = NZ z ->
  deletion_time now d = now + days_asked z * MS_PER_DAY.
Proof.
  intros Hn E. unfold deletion_time. rewrite (send_days_NZ d z E).
  assert (1 <= days_asked z <= 31) by (unfold days_asked; lia). revert H. generalize (days_asked z). intros n H.
  rewrite !num_mul_NZ by lia. rewrite num_add_NZ by lia. cbn [NZ QArith_base.Qnum QArith_base.Qden]. unfold MS_PER_DAY. rewrite Z.quot_1_r. lia.
Qed.

Lemma in_time now n : 0 <= now <= 240000000000000 -> 1 <= n <= 31 -> 0 <= now + n * MS_PER_DAY <= LAST_TIME.
Proof. unfold LAST_TIME, MS_PER_DAY. lia. Qed.

Lemma label_days now n : 1 <= n ->
  (let ms := now + n * MS_PER_DAY - now in
   if ms <=? 0 then js "expired"
   else let mins := ms / 60000 in
        if mins <? 60 then plural mins (js "minute")
        else let hours := mins / 60 in if hours <? 24 then plural hours (js "hour") else plural (hours / 24) (js "day"))
  = plural n (js "day").
Proof.
  intros Hn. cbv zeta. replace (now + n * MS_PER_DAY - now) with (n * 1440 * 60000) by (unfold MS_PER_DAY; lia).
  rewrite (proj2 (Z.leb_gt _ 0)), Z.div_mul by lia. rewrite (proj2 (Z.ltb_ge _ 60)) by lia.
  replace (n * 1440) with (n * 24 * 60) by lia. rewrite Z.div_mul, (proj2 (Z.ltb_ge _ 24)), Z.div_mul by lia. done.
Qed.

(** C40: A send asked to be deleted after any whole number of days carries a deletion
    date that reads back as exactly that many days from now, seven when none are
    given and never outside one to 31, and the list labels it accordingly from the
    moment it is created. *)
Theorem send_expires `{!Dates} now name body hidden d maxCount password notes z :
  0 <= now <= 240000000000000 -> to_number d = NZ z ->
  let send := buildSendPayload now name body hidden d maxCount password notes in
  date_parse (to_string (fld send "deletionDate")) = Some (now + days_asked z * MS_PER_DAY) /\
  sendExpiryLabel send now = plural (days_asked z) (js "day").
Proof.
  intros Hn E send. assert (Hd : 1 <= days_asked z <= 31) by (unfold days_asked; lia).
  assert (F : fld send "deletionDate" = JStr (toISOString (now + days_asked z * MS_PER_DAY))).
  { rewrite <- (deletion_time_NZ now d z Hn E). reflexivity. }
  assert (P : date_parse (to_string (fld send "deletionDate")) = Some (now + days_asked z * MS_PER_DAY)).
  { rewrite F. unfold date_parse. cbn [to_string]. by rewrite iso_roundtrip by (apply in_time; lia). }
  split; [done|]. unfold sendExpiryLabel. rewrite P.
  assert (T : truthy (fld send "deletionDate") = true).
  { rewrite F. cbn [truthy]. destruct (toISOString _) eqn:I; [|done]. pose proof (iso_roundtrip _ (in_time now _ Hn Hd)) as R. by rewrite I in R. }
  rewrite T. change (truthy send) with true. cbn [negb orb]. apply label_days. lia.
Qed.

Definition plain_dates : Dates := {| other_date _ := None; date_le a b := negb (str_ltb b a) |}.

Lemma send_expires_witness :
  let send := buildSendPayload 1700000000000 (JStr (js "s")) (JStr (js "t")) JUndef (JStr (js "3")) JUndef JUndef JUndef in
  to_string (fld send "deletionDate") = js "2023-11-17T22:13:20.000Z" /\ @sendExpiryLabel plain_dates send 1700000000000 = js "in 3 days".
Proof.
  split; [vm_compute; reflexivity|].
  exact (proj2 (@send_expires plain_dates 1700000000000 (JStr (js "s")) (JStr (js "t")) JUndef (JStr (js "3")) JUndef JUndef JUndef 3
    ltac:(lia) ltac:(vm_compute; reflexivity))).
Defined.
