(* ===== verification/LoadFlow.v ===== *)
(** * Loading keys into the companion ([Service.qml])

    The part of the service that opens a load window at the companion, starts the
    shared read of the vault with the branch that sends the keys, and closes the
    window on every way out.  The state is the properties of the QML object, grouped
    by what they are about; a handler is an action on it.  The vault around it
    (session, status, generation, settings, clock) is a parameter of each handler.

    What the panel shows (spinners, error texts, the items themselves) is left out.
    [listProc] is a [VaultProcess]: it keeps, next to [running], whether a run is in
    flight; a run asked to stop stays in flight until its exit (or is taken back), and
    a start before that does not start anything.  [VaultRuns] models those processes,
    and [VaultOwners] shows that they behave so. *)

From S2P Require Import Prelude.
From S2P Require Import JsNum.
From S2P Require Import JsString.
From S2P Require Import JsValue.
From S2P Require Import JsInt.
From S2P Require Import SshAgent.
From S2P Require Import SshPrompts.
From S2P Require Import Export.
From S2P Require Import Actions.
Local Open Scope act_scope.

(** ** State *)

(** [loadIdProc]: idle, running, or running with its output already read. *)
Inductive nonce_run := NonceIdle | NonceReading | NonceRead.
#[export] Instance nonce_run_eq_dec : EqDecision nonce_run.
Proof. solve_decision. Defined.

Record window := Window {
  sshAgentEpoch : Z;
  sshAgentLoadId : list Z;
  sshAgentLoadActive : bool;
  sshAgentNextLoadId : list Z;
  loadIdProc : nonce_run;
  sshAgentLoadedForVaultEpoch : Z;
  sshAgentLoadFailStreak : Z
}.

(** The command of [listProc]: none or the scrub of its buffers, or a read, with the
    nonce when it carries the agent branch. *)
Inductive list_command := Scrub | Listing (loadId : option (list Z)).

Record reader := Reader {
  listRunning : bool;
  listInFlight : bool;
  listCommand : list_command;
  listAgentBranchActive : bool;
  listRetriedWithoutAgent : bool;
  listReadEarly : bool;
  itemsEpoch : option Z             (** [readEpochs.items] *)
}.

Record helper := Helper { sshAgentGateOpen : bool; helperRunning : bool; stdinEnabled : bool }.

Record public_keys := PublicKeys {
  sshAgentKeyCount : Z;
  sshAgentKeysLoadedAt : num;
  sshPendingPublicKeys : list jsval;
  sshPendingPublicEpoch : Z;
  exportRunning : bool;
  clearRunning : bool
}.

Record loads := Loads { win : window; rdr : reader; hlp : helper; pub : public_keys }.

Record vault := Vault {
  session : bool;
  status : list Z;
  vaultEpoch : Z;
  agentEnabled : bool;
  unlockOnDemand : bool;
  listBlocked : bool;               (** a dependency is missing: [listReadMode] is blocked *)
  clock : num
}.

Inductive load_effect :=
| LoadLine (line : list Z)          (** a line of the load protocol is written *)
| PlainLine (line : list Z)         (** another line is written *)
| StartedRead (loadId : option (list Z))
| StoppedRead
| AskedNonce
| ArmedStartup
| ArmedLockAck
| StoppedLockAck
| ArmedTerminate
| StoppedTerminate
| Launched
| Exported (payload : list Z)
| ClearedExport.

Definition init_loads : loads :=
  Loads (Window 0 [] false [] NonceIdle (-1) 0)
    (Reader false false (Listing None) false false false None)
    (Helper false false true)
    (PublicKeys 0 (NZ 0) [] (-1) false false).

Notation act := (act loads load_effect).

Definition on_win (f : window -> window) (s : loads) : loads := Loads (f (win s)) (rdr s) (hlp s) (pub s).
Definition on_rdr (f : reader -> reader) (s : loads) : loads := Loads (win s) (f (rdr s)) (hlp s) (pub s).
Definition on_hlp (f : helper -> helper) (s : loads) : loads := Loads (win s) (rdr s) (f (hlp s)) (pub s).
Definition on_pub (f : public_keys -> public_keys) (s : loads) : loads := Loads (win s) (rdr s) (hlp s) (f (pub s)).

Definition unlocked (v : vault) : bool := str_eqb (status v) (js "unlocked").
Definition channel (s : loads) : bool := helperRunning (hlp s) && stdinEnabled (hlp s).
Definition when (b : bool) (a : act) : act := if b then a else nothing.

(** A property of type [int]. *)
Definition int_next (z : Z) : Z := i32 (z + 1).
Definition as_int (v : jsval) : option Z :=
  match v with
  | JNum (Fin q) => Some (i32 (Z.quot (QArith_base.Qnum q) (Zpos (QArith_base.Qden q))))
  | JNum _ => Some 0
  | _ => None
  end.

(** ** The companion's process *)

Definition startSshAgentHelper : act :=
  emit StoppedTerminate ;;
  set (on_hlp (fun h => Helper (sshAgentGateOpen h) (helperRunning h) true)) ;;
  reading (fun s => when (negb (helperRunning (hlp s))) (emit Launched)) ;;
  set (on_hlp (fun h => Helper (sshAgentGateOpen h) true (stdinEnabled h))).

Definition stopSshAgentHelper : act := reading (fun s =>
  if negb (helperRunning (hlp s)) then emit StoppedTerminate
  else
    when (stdinEnabled (hlp s))
      (emit (PlainLine sshAgentShutdownLine) ;;
       set (on_hlp (fun h => Helper (sshAgentGateOpen h) (helperRunning h) false))) ;;
    emit ArmedTerminate).

(** ** Nonces and windows *)

Definition primeSshAgentLoadId : act := reading (fun s =>
  if negb (bool_decide (loadIdProc (win s) = NonceIdle)) || negb (bool_decide (sshAgentNextLoadId (win s) = [])) then nothing
  else
    set (on_win (fun w => Window (sshAgentEpoch w) (sshAgentLoadId w) (sshAgentLoadActive w) (sshAgentNextLoadId w) NonceReading
                            (sshAgentLoadedForVaultEpoch w) (sshAgentLoadFailStreak w))) ;;
    emit AskedNonce).

Definition set_next (id : list Z) : loads -> loads :=
  on_win (fun w => Window (sshAgentEpoch w) (sshAgentLoadId w) (sshAgentLoadActive w) id (loadIdProc w)
                     (sshAgentLoadedForVaultEpoch w) (sshAgentLoadFailStreak w)).
Definition set_loaded (epoch streak : Z) : loads -> loads :=
  on_win (fun w => Window (sshAgentEpoch w) (sshAgentLoadId w) (sshAgentLoadActive w) (sshAgentNextLoadId w) (loadIdProc w) epoch streak).
Definition close_window : loads -> loads :=
  on_win (fun w => Window (sshAgentEpoch w) [] false (sshAgentNextLoadId w) (loadIdProc w)
                     (sshAgentLoadedForVaultEpoch w) (sshAgentLoadFailStreak w)).
Definition open_window (v : vault) : loads -> loads :=
  on_win (fun w => Window (int_next (sshAgentEpoch w)) (sshAgentNextLoadId w) true [] (loadIdProc w) (vaultEpoch v) (sshAgentLoadFailStreak w)).
Definition advance_epoch : loads -> loads :=
  on_win (fun w => Window (int_next (sshAgentEpoch w)) (sshAgentLoadId w) (sshAgentLoadActive w) (sshAgentNextLoadId w) (loadIdProc w)
                     (sshAgentLoadedForVaultEpoch w) (sshAgentLoadFailStreak w)).

Definition epoch_value (s : loads) : jsval := JNum (NZ (sshAgentEpoch (win s))).

Definition endSshAgentLoad (ok : bool) : act := reading (fun s =>
  if negb (sshAgentLoadActive (win s)) then nothing
  else
    set close_window ;;
    reading (fun s => when (channel s) (emit (LoadLine (sshAgentLoadEndLine (epoch_value s) (JBool ok))))) ;;
    primeSshAgentLoadId).

(** ** The shared read *)

Definition set_flags (branch retried : bool) : loads -> loads :=
  on_rdr (fun r => Reader (listRunning r) (listInFlight r) (listCommand r) branch retried (listReadEarly r) (itemsEpoch r)).
Definition set_early (early : bool) : loads -> loads :=
  on_rdr (fun r => Reader (listRunning r) (listInFlight r) (listCommand r) (listAgentBranchActive r) (listRetriedWithoutAgent r) early (itemsEpoch r)).
Definition set_stamp (stamp : option Z) : loads -> loads :=
  on_rdr (fun r => Reader (listRunning r) (listInFlight r) (listCommand r) (listAgentBranchActive r) (listRetriedWithoutAgent r) (listReadEarly r) stamp).
Definition set_command (c : list_command) : loads -> loads :=
  on_rdr (fun r => Reader (listRunning r) (listInFlight r) c (listAgentBranchActive r) (listRetriedWithoutAgent r) (listReadEarly r) (itemsEpoch r)).
Definition set_running (running inFlight : bool) : loads -> loads :=
  on_rdr (fun r => Reader running inFlight (listCommand r) (listAgentBranchActive r) (listRetriedWithoutAgent r) (listReadEarly r) (itemsEpoch r)).

(** [listProc.running = true] *)
Definition run_list : act := reading (fun s =>
  when (negb (listInFlight (rdr s))) (match listCommand (rdr s) with Listing id => emit (StartedRead id) | Scrub => nothing end) ;;
  set (set_running true true)).

Definition beginVaultRead (v : vault) : act := set (set_stamp (Some (vaultEpoch v))).
Definition vaultReadIsStale (v : vault) (s : loads) : bool :=
  negb (bool_decide (itemsEpoch (rdr s) = Some (vaultEpoch v))) || negb (session v).

Definition startVaultListRead (v : vault) (retrying : bool) : act :=
  set (set_early (negb (unlocked v))) ;;
  reading (fun s =>
    let useAgent := negb retrying && negb (listReadEarly (rdr s)) && sshAgentGateOpen (hlp s)
                    && isValidLoadId (JStr (sshAgentNextLoadId (win s))) in
    when useAgent
      (set (open_window v) ;;
       reading (fun s => when (stdinEnabled (hlp s))
         (emit (LoadLine (sshAgentLoadBeginLine (epoch_value s) (JStr (sshAgentLoadId (win s)))))))) ;;
    set (fun s => set_flags useAgent (listRetriedWithoutAgent (rdr s)) s) ;;
    set (fun s => set_command (Listing (if useAgent then Some (sshAgentLoadId (win s)) else None)) s) ;;
    run_list).

Definition loadItems (v : vault) : act := reading (fun s =>
  if negb (session v) then nothing
  else if listRunning (rdr s) && listReadEarly (rdr s) && negb (vaultReadIsStale v s) then nothing
  else beginVaultRead v ;; if listBlocked v then nothing else startVaultListRead v false).

Definition cancelSshAgentLoad : act :=
  reading (fun s => when (listRunning (rdr s)) (set (set_running false (listInFlight (rdr s))) ;; emit StoppedRead)) ;;
  endSshAgentLoad false ;;
  set (set_flags false false).

(** ** Public keys *)

Definition set_counts (n : Z) (at_ : num) : loads -> loads :=
  on_pub (fun p => PublicKeys n at_ (sshPendingPublicKeys p) (sshPendingPublicEpoch p) (exportRunning p) (clearRunning p)).
Definition set_pending (keys : list jsval) (epoch : Z) : loads -> loads :=
  on_pub (fun p => PublicKeys (sshAgentKeyCount p) (sshAgentKeysLoadedAt p) keys epoch (exportRunning p) (clearRunning p)).
Definition set_exporting (exporting clearing : bool) : loads -> loads :=
  on_pub (fun p => PublicKeys (sshAgentKeyCount p) (sshAgentKeysLoadedAt p) (sshPendingPublicKeys p) (sshPendingPublicEpoch p) exporting clearing).

Definition exportSshPublicKeys : act := reading (fun s =>
  let payload := sshExportPayload (JArr (sshPendingPublicKeys (pub s))) in
  set (fun s => set_pending [] (sshPendingPublicEpoch (pub s)) s) ;;
  if exportRunning (pub s) then nothing
  else set (fun s => set_exporting true (clearRunning (pub s)) s) ;; emit (Exported payload)).

Definition clearSshPublicKeys : act := reading (fun s =>
  set (set_pending [] (-1)) ;;
  if clearRunning (pub s) then nothing
  else set (fun s => set_exporting (exportRunning (pub s)) true s) ;; emit ClearedExport).

(** ** Vault transitions *)

Definition sshAgentVaultContext (v : vault) (s : loads) : jsval := JObj
  [(js "enabled", JBool (agentEnabled v)); (js "helperReady", JBool (sshAgentGateOpen (hlp s)));
   (js "loggedIn", JBool (negb (str_eqb (status v) (js "unauthenticated")))); (js "unlocked", JBool (unlocked v));
   (js "loading", JBool (sshAgentLoadActive (win s))); (js "hasPublicCache", JBool (0 <? sshAgentKeyCount (pub s)));
   (js "epoch", epoch_value s)].

Fixpoint write_lines (lines : list (list Z)) : act :=
  match lines with
  | [] => nothing
  | l :: lines => reading (fun s => when (channel s) (emit (LoadLine l))) ;; write_lines lines
  end.

Definition applySshAgentLifecycle (v : vault) (event : list Z) : act := reading (fun s =>
  let action := sshAgentLifecycleTransition event (sshAgentVaultContext v s) in
  when (cancelLoad action) cancelSshAgentLoad ;;
  write_lines (controlLines action) ;;
  when (advanceEpoch action) (set advance_epoch) ;;
  when (clearPublic action) (set (set_counts 0 (NZ 0)) ;; clearSshPublicKeys) ;;
  when (awaitLockAck action) (emit ArmedLockAck) ;;
  when (stopHelper action) stopSshAgentHelper ;;
  reading (fun s => when (startLoad action && negb (listRunning (rdr s))) (loadItems v))).

Definition maybeStartupLoad (v : vault) : act := reading (fun s =>
  if negb (sshAgentGateOpen (hlp s)) || negb (unlocked v) then nothing
  else if sshAgentLoadActive (win s) || listRunning (rdr s) then nothing
  else if sshAgentLoadedForVaultEpoch (win s) =? vaultEpoch v then nothing
  else if negb (isValidLoadId (JStr (sshAgentNextLoadId (win s)))) then primeSshAgentLoadId
  else set (fun s => set_loaded (vaultEpoch v) (sshAgentLoadFailStreak (win s)) s) ;; applySshAgentLifecycle v (js "startup")).

(** ** Ends of processes *)

(** The output of [loadIdProc], then its end. *)
Definition onSshAgentLoadIdRead (v : vault) (raw : jsval) : act :=
  let candidate := trim (to_string (js_or raw (JStr []))) in
  set (on_win (fun w => Window (sshAgentEpoch w) (sshAgentLoadId w) (sshAgentLoadActive w) (sshAgentNextLoadId w) NonceRead
                          (sshAgentLoadedForVaultEpoch w) (sshAgentLoadFailStreak w))) ;;
  set (set_next (if isValidLoadId (JStr candidate) then candidate else [])) ;;
  reading (fun s => when (negb (bool_decide (sshAgentNextLoadId (win s) = []))) (maybeStartupLoad v)).
Definition loadIdProc_exited : act :=
  set (on_win (fun w => Window (sshAgentEpoch w) (sshAgentLoadId w) (sshAgentLoadActive w) (sshAgentNextLoadId w) NonceIdle
                          (sshAgentLoadedForVaultEpoch w) (sshAgentLoadFailStreak w))).

Definition onListFinished (v : vault) : act := reading (fun s =>
  if vaultReadIsStale v s then nothing else maybeStartupLoad v).

Definition onListProcessExited (v : vault) (exitCode : Z) : act :=
  set (set_running false false) ;;
  reading (fun s =>
    match listCommand (rdr s) with
    | Scrub => nothing
    | Listing _ =>
        let hadAgentBranch := listAgentBranchActive (rdr s) in
        let wasEarly := listReadEarly (rdr s) in
        let retried := listRetriedWithoutAgent (rdr s) in
        set (set_flags false retried) ;; set (set_early false) ;;
        endSshAgentLoad (exitCode =? 0) ;;
        if exitCode =? 0 then set (set_flags false false) ;; onListFinished v
        else reading (fun s =>
          if hadAgentBranch && negb retried && negb (vaultReadIsStale v s)
          then set (set_flags false true) ;; beginVaultRead v ;; startVaultListRead v true
          else
            set (set_flags false false) ;;
            if wasEarly && unlocked v && negb (vaultReadIsStale v s)
            then beginVaultRead v ;; startVaultListRead v false
            else nothing)
    end).

(** A lock's scrub borrows the process when it is idle. *)
Definition scrub_list : act := reading (fun s =>
  if listRunning (rdr s) then nothing
  else match listCommand (rdr s) with
       | Scrub => nothing
       | Listing _ => set (set_command Scrub) ;; run_list
       end).

(** A read stopped while it waited for the vault helper is taken back: it has no exit
    ([VaultOwners]). *)
Definition withdraw_list : act := reading (fun s => when (negb (listRunning (rdr s))) (set (set_running false false))).

(** The vault is dropped: its reads are stale and a failed load may be tried again. *)
Definition forget_reads : act :=
  set (fun s => set_stamp None (set_loaded (sshAgentLoadedForVaultEpoch (win s)) 0 s)).

(** ** The gate *)

Definition sendSshAgentOptions (v : vault) : act := reading (fun s =>
  when (channel s) (emit (PlainLine (sshAgentOptionsLine (JBool (unlockOnDemand v)))))).

Definition onSshAgentGateOpenChanged (v : vault) : act := reading (fun s =>
  if sshAgentGateOpen (hlp s) then
    sendSshAgentOptions v ;;
    set (set_loaded (-1) 0) ;;
    primeSshAgentLoadId ;;
    emit ArmedStartup
  else
    endSshAgentLoad false ;;
    set (fun s => set_counts 0 (sshAgentKeysLoadedAt (pub s)) s)).

(** [root.sshAgentGateOpen = value]: the handler runs when the value changes. *)
Definition assign_gate (v : vault) (value : bool) : act := reading (fun s =>
  set (on_hlp (fun h => Helper value (helperRunning h) (stdinEnabled h))) ;;
  when (negb (Bool.eqb (sshAgentGateOpen (hlp s)) value)) (onSshAgentGateOpenChanged v)).

(** ** Messages of the companion about loads *)

(** The companion's epochs and counts are numbers; anything else cannot be stored. *)
Definition onPublicKey (message : jsval) : act := reading (fun s =>
  let epoch := get message (js "epoch") in
  let add := set (fun s => set_pending (sshPendingPublicKeys (pub s) ++ [message]) (sshPendingPublicEpoch (pub s)) s) in
  if strict_eqb (JNum (NZ (sshPendingPublicEpoch (pub s)))) epoch then add
  else match as_int epoch with
       | Some e => set (set_pending [] e) ;; add
       | None => nothing
       end).

Definition key_count (message : jsval) : Z :=
  default 0 (as_int (JNum (num_max (NZ 0) (num_or0 (num_floor (to_number (get message (js "keyCount")))))))).

Definition onKeysLoaded (v : vault) (message : jsval) : act :=
  set (fun s => set_loaded (sshAgentLoadedForVaultEpoch (win s)) 0 (set_counts (key_count message) (clock v) s)) ;;
  reading (fun s => when (strict_eqb (JNum (NZ (sshPendingPublicEpoch (pub s)))) (get message (js "epoch"))) exportSshPublicKeys).

Definition onLoadFailed (v : vault) (message : jsval) : act := reading (fun s =>
  if negb (strict_eqb (get message (js "epoch")) (epoch_value s)) then nothing
  else
    set (set_loaded (-1) (int_next (sshAgentLoadFailStreak (win s)))) ;;
    reading (fun s => when (sshAgentLoadFailStreak (win s) =? 1) (maybeStartupLoad v))).

Definition onStateChanged (message : jsval) : act :=
  set (fun s => set_counts (key_count message) (sshAgentKeysLoadedAt (pub s)) s).
