(* ===== verification/Companion.v ===== *)
(** * The companion's side of a load ([agent/src/main.rs])

    The lines about loads that the service writes, and the part of the companion's loop
    that reads them: the load it is busy with, taken from [key_load_begin] to the moment
    it has both the end and the payload, is cancelled, or has waited too long.  A line
    the loop refuses makes it return an error, and the companion exits.

    The keys themselves, the requests held for them and the lines about anything else
    are left out: none of them touches the load. *)

From S2P Require Import Prelude.
From S2P Require Import JsNum.
From S2P Require Import JsString.
From S2P Require Import JsValue.
From S2P Require Import SshAgent.

Inductive load_line := LoadBegin (epoch : Z) (id : list Z) | LoadEnd (epoch : Z) (ok : bool) | VaultLocked (epoch : Z) | LoggedOut.

Definition wire (l : load_line) : list Z :=
  match l with
  | LoadBegin e id => sshAgentLoadBeginLine (JNum (NZ e)) (JStr id)
  | LoadEnd e ok => sshAgentLoadEndLine (JNum (NZ e)) (JBool ok)
  | VaultLocked e => sshAgentVaultLockedLine (JNum (NZ e))
  | LoggedOut => sshAgentLoggedOutLine
  end.

(** ** The load *)

(** [payload]: one has been read, or given up; what it holds does not matter here. *)
Record active_load := ActiveLoad { al_epoch : Z; payload : bool; end_received : bool; payload_deadline_ms : option Z }.

Definition LOAD_END_GRACE_MS : Z := 5000.

Definition is_ascii_hexdigit (c : Z) : bool :=
  ((48 <=? c) && (c <=? 57)) || ((65 <=? c) && (c <=? 70)) || ((97 <=? c) && (c <=? 102)).
Definition parse_nonce (id : list Z) : bool := (length id =? 32)%nat && forallb is_ascii_hexdigit id.

(** A load that has ended and has its payload is settled: published, or failed. *)
Definition finish_load_if_ready (active : option active_load) : option active_load :=
  match active with
  | Some load => if end_received load && payload load then None else active
  | None => None
  end.

Definition with_payload (load : active_load) : active_load := ActiveLoad (al_epoch load) true (end_received load) (payload_deadline_ms load).

(** ** The loop *)

(** What wakes it: a line, the reader of the FIFO that is done, and the clock, at a
    time in milliseconds since the start. *)
Inductive companion_input := ReadLine (l : load_line) | PayloadRead (epoch : Z) | Tick.

(** [None] where the loop returns an error. *)
Definition read_line (now : Z) (l : load_line) (active : option active_load) : option (option active_load) :=
  match l with
  | VaultLocked _ | LoggedOut => Some None
  | LoadBegin epoch id =>
      match active with
      | Some _ => None
      | None => if parse_nonce id then Some (Some (ActiveLoad epoch false false None)) else None
      end
  | LoadEnd epoch ok =>
      match active with
      | None => None
      | Some load =>
          if negb (al_epoch load =? epoch) then None
          else if negb ok then Some None
          else Some (finish_load_if_ready (Some (ActiveLoad epoch (payload load) true (Some (now + LOAD_END_GRACE_MS)))))
      end
  end.

Definition payload_read (epoch : Z) (active : option active_load) : option active_load :=
  match active with
  | None => None
  | Some load => if negb (al_epoch load =? epoch) then active else finish_load_if_ready (Some (with_payload load))
  end.

Definition tick (now : Z) (active : option active_load) : option active_load :=
  match active with
  | Some (ActiveLoad _ false _ (Some deadline) as load) =>
      if deadline <=? now then finish_load_if_ready (Some (with_payload load)) else active
  | _ => active
  end.

Definition attend (now : Z) (x : companion_input) (active : option active_load) : option (option active_load) :=
  match x with
  | ReadLine l => read_line now l active
  | PayloadRead epoch => Some (payload_read epoch active)
  | Tick => Some (tick now active)
  end.

Fixpoint attend_all (xs : list (Z * companion_input)) (active : option active_load) : option (option active_load) :=
  match xs with
  | [] => Some active
  | (now, x) :: xs => attend now x active ≫= attend_all xs
  end.

(** The lines among what it was woken by. *)
Definition lines_read (xs : list (Z * companion_input)) : list load_line :=
  omap (fun x => match x.2 with ReadLine l => Some l | _ => None end) xs.

(** The window that is open: the load whose end has not been read. *)
Definition open_load (active : option active_load) : option Z :=
  match active with Some load => if end_received load then None else Some (al_epoch load) | None => None end.

(** ** What it comes to *)

(** A load that has ended waits for its payload, and no longer than the deadline. *)
Definition load_ok (active : option active_load) : Prop :=
  match active with Some load => end_received load = true -> payload load = false /\ is_Some (payload_deadline_ms load) | None => True end.

Lemma finish_ok load : (end_received load = true -> is_Some (payload_deadline_ms load)) -> load_ok (finish_load_if_ready (Some load)).
Proof. intros Hd. unfold finish_load_if_ready. destruct (end_received load) eqn:E, (payload load) eqn:P; cbn; rewrite ?E, ?P; done || auto. Qed.

Lemma finish_open load : open_load (finish_load_if_ready (Some load)) = open_load (Some load).
Proof. unfold finish_load_if_ready. destruct (end_received load) eqn:E, (payload load); cbn; by rewrite ?E. Qed.

Lemma payload_keeps load : load_ok (Some load) -> load_ok (finish_load_if_ready (Some (with_payload load))).
Proof. intros H. apply finish_ok. intros E. by apply H. Qed.

Lemma attend_ok now x a a' : load_ok a -> attend now x a = Some a' -> load_ok a'.
Proof.
  intros H. destruct x as [[e id|e ok| |]|e|]; cbn -[finish_load_if_ready].
  - destruct a; [done|]. destruct (parse_nonce id); [|done]. by intros [= <-].
  - destruct a as [load|]; [|done]. destruct (negb _); [done|]. destruct (negb ok); [by intros [= <-]|].
    pose proof (finish_ok (ActiveLoad e (payload load) true (Some (now + LOAD_END_GRACE_MS))) (fun _ => ltac:(by eexists))) as Hf. by intros [= <-].
  - by intros [= <-].
  - by intros [= <-].
  - intros [= <-]. destruct a as [load|]; [|done]. cbn. destruct (negb _); [done|]. by apply payload_keeps.
  - intros [= <-]. destruct a as [[e' [] er [d|]]|]; cbn [tick]; try done. destruct (d <=? now); [|done]. by apply payload_keeps.
Qed.

(** Nothing but lines opens or closes the window. *)
Lemma attend_open now x a a' : attend now x a = Some a' -> (forall l, x <> ReadLine l) -> open_load a' = open_load a.
Proof.
  destruct x as [l|e|]; intros E Hx; [by destruct (Hx l)| |]; cbn in E; injection E as <-.
  - destruct a as [load|]; [|done]. unfold payload_read. destruct (negb _); [done|]. apply (finish_open (with_payload load)).
  - destruct a as [[e' [] er [d|]]|]; cbn [tick]; try done. destruct (d <=? now); [|done]. apply (finish_open (with_payload (ActiveLoad e' false er (Some d)))).
Qed.

(** An ended load is settled by the first tick after its deadline. *)
Lemma tick_settles now load : load_ok (Some load) -> end_received load = true ->
  exists d, payload_deadline_ms load = Some d /\ (d <= now -> tick now (Some load) = None).
Proof.
  intros H E. destruct (H E) as [P [d D]]. exists d. split; [done|]. intros Hd. destruct load as [e p er dl]. cbn in *. subst. cbn.
  by rewrite (proj2 (Z.leb_le _ _) Hd).
Qed.
