(* ===== verification/LoadFlowCorrect.v ===== *)
(** * Load windows

    The order the service keeps to in the lines about loads, as an automaton, and the
    handlers of [LoadFlow] against it: each of them, from a state in the invariant,
    keeps the invariant and writes only lines the automaton allows.  What the companion
    of [Companion] makes of such lines is the last part. *)

From S2P Require Import Prelude.
From S2P Require Import JsNum.
From S2P Require Import JsString.
From S2P Require Import JsValue.
From S2P Require Import JsInt.
From S2P Require Import SshAgent.
From S2P Require Import SshPrompts.
From S2P Require Import Actions.
From S2P Require Import LoadFlow.
From S2P Require Import Companion.

(** ** The order of lines *)

(** How the service may go on: the window it has opened and the last epoch it named.  A
    window opens only when none is open, with a valid nonce and an epoch above every
    earlier one; only the open window can be ended; a lock or a logout ends it, and a
    logout moves the epoch on.  This is what the service keeps to by itself; what the
    companion takes is [read_line] of [Companion]. *)
Record talk := Talk { c_window : option Z; c_last : Z }.
Definition fresh : talk := Talk None 0.

Definition speak (c : talk) (l : load_line) : option talk :=
  match l with
  | LoadBegin e id =>
      if bool_decide (c_window c = None) && (c_last c <? e) && isValidLoadId (JStr id) then Some (Talk (Some e) e) else None
  | LoadEnd e _ => if bool_decide (c_window c = Some e) then Some (Talk None (c_last c)) else None
  | VaultLocked e => Some (Talk None (Z.max (c_last c) e))
  | LoggedOut => Some (Talk None (c_last c + 1))
  end.

Fixpoint speak_all (c : talk) (ls : list load_line) : option talk :=
  match ls with
  | [] => Some c
  | l :: ls => speak c l ≫= fun c => speak_all c ls
  end.

Lemma speak_all_app c ls ls' : speak_all c (ls ++ ls') = speak_all c ls ≫= fun c => speak_all c ls'.
Proof. revert c. induction ls as [|l ls IH]; intros c; cbn; [done|]. destruct (speak c l); cbn; auto. Qed.

(** ** What the companion makes of such lines *)

Lemma valid_nonce id : isValidLoadId (JStr id) = true -> parse_nonce id = true.
Proof.
  cbn. unfold parse_nonce. intros [-> Hf]%andb_true_iff. cbn. rewrite forallb_forall in Hf |- *. intros c Hc. specialize (Hf c Hc).
  unfold is_hex_lower, is_ascii_hexdigit in *. repeat (apply orb_true_iff in Hf as [Hf|Hf]); apply andb_true_iff in Hf as [H1 H2]; rewrite H1, H2; by rewrite ?orb_true_r.
Qed.

(** The companion and the service agree on the open window; a line that the order
    allows is taken, but for a window opened while the last load, ended as complete, is
    still waiting for its payload. *)
Lemma speak_taken now l c c' a : speak c l = Some c' -> c_window c = open_load a -> load_ok a ->
  (exists a', read_line now l a = Some a' /\ c_window c' = open_load a')
  \/ exists e id load, l = LoadBegin e id /\ a = Some load /\ end_received load = true /\ payload load = false.
Proof.
  intros Hs Hw Ha. destruct l as [e id|e ok|e|]; cbn [speak] in Hs.
  - destruct (bool_decide _) eqn:Ew; [|done]. destruct (_ <? _); [|done]. destruct (isValidLoadId (JStr id)) eqn:En; [|done]. cbn in Hs. injection Hs as <-.
    apply bool_decide_eq_true in Ew. rewrite Ew in Hw. destruct a as [load|]; cbn in Hw.
    + destruct (end_received load) eqn:Ee; [|done]. right. exists e, id, load. split_and!; [done..|]. by apply Ha.
    + left. cbn. rewrite (valid_nonce id En). by eexists.
  - destruct (bool_decide _) eqn:Ew; [|done]. injection Hs as <-. apply bool_decide_eq_true in Ew. rewrite Ew in Hw. left. destruct a as [load|]; [|done].
    cbn in Hw. destruct (end_received load) eqn:Ee; [done|]. injection Hw as ->. cbn -[finish_load_if_ready]. rewrite Z.eqb_refl. cbn -[finish_load_if_ready].
    destruct ok; cbn -[finish_load_if_ready]; eexists; (split; [done|]); [by rewrite finish_open|done].
  - injection Hs as <-. left. by eexists.
  - injection Hs as <-. left. by eexists.
Qed.

(** A companion that has read lines in that order, with whatever else happens to it in
    between, at whatever times. *)
Lemma speak_all_taken ls c c' a xs rest : speak_all c ls = Some c' -> ls = lines_read xs ++ rest -> c_window c = open_load a -> load_ok a ->
  (exists a', attend_all xs a = Some a' /\ (rest = [] -> c_window c' = open_load a'))
  \/ exists xs1 now e id xs2 load, xs = xs1 ++ (now, ReadLine (LoadBegin e id)) :: xs2
      /\ attend_all xs1 a = Some (Some load) /\ end_received load = true /\ payload load = false.
Proof.
  revert ls c a. induction xs as [|[now x] xs IH]; intros ls c a Hs -> Hw Ha.
  { left. exists a. split; [done|]. intros ->. by injection Hs as <-. }
  assert (Hnext : forall c1 a1, attend now x a = Some a1 -> c_window c1 = open_load a1 -> speak_all c1 (lines_read xs ++ rest) = Some c' ->
    (exists a', attend_all ((now, x) :: xs) a = Some a' /\ (rest = [] -> c_window c' = open_load a'))
    \/ exists xs1 now' e id xs2 load, (now, x) :: xs = xs1 ++ (now', ReadLine (LoadBegin e id)) :: xs2
        /\ attend_all xs1 a = Some (Some load) /\ end_received load = true /\ payload load = false).
  { intros c1 a1 E1 Hw1 Hs1. destruct (IH _ c1 a1 Hs1 eq_refl Hw1 (attend_ok _ _ _ _ Ha E1)) as [(a' & E & Hr)|(xs1 & n' & e & id & xs2 & load & -> & E & Hl)].
    - left. exists a'. split; [|done]. cbn. by rewrite E1.
    - right. exists ((now, x) :: xs1), n', e, id, xs2, load. split_and!; [done| |apply Hl..]. cbn. by rewrite E1. }
  destruct x as [l|e|]; [|eapply Hnext; [done|by erewrite (attend_open now (PayloadRead e))|done]|eapply Hnext; [done|by erewrite (attend_open now Tick)|done]].
  cbn in Hs. destruct (speak c l) as [c1|] eqn:E1; [|done]. destruct (speak_taken now l c c1 a E1 Hw Ha) as [(a1 & Ea & Hw1)|(e & id & load & -> & -> & He & Hp)].
  - by eapply Hnext.
  - right. exists [], now, e, id, xs, load. done.
Qed.

Definition line_of (x : load_effect) : list (list Z) := match x with LoadLine l => [l] | _ => [] end.
Definition lines_of (es : list load_effect) : list (list Z) := es ≫= line_of.

(** The lines are taken; where no companion runs, none is written. *)
Definition taken (w : option talk) (lines : list (list Z)) (w' : option talk) : Prop :=
  match w, w' with
  | Some c, Some c' => exists ls, lines = map wire ls /\ speak_all c ls = Some c'
  | None, None => lines = []
  | _, _ => False
  end.
Definition heard (w : option talk) (es : list load_effect) (w' : option talk) : Prop := taken w (lines_of es) w'.

Lemma taken_nil w : taken w [] w.
Proof. destruct w as [c|]; [|done]. by exists []. Qed.

Lemma taken_app w1 w2 w3 l1 l2 : taken w1 l1 w2 -> taken w2 l2 w3 -> taken w1 (l1 ++ l2) w3.
Proof.
  destruct w1 as [c1|], w2 as [c2|], w3 as [c3|]; cbn; try done; [|by intros -> ->].
  intros (ls1 & -> & H1) (ls2 & -> & H2). exists (ls1 ++ ls2). split; [by rewrite map_app|]. rewrite speak_all_app, H1. done.
Qed.

Lemma heard_nil w : heard w [] w.
Proof. apply taken_nil. Qed.

Lemma heard_app w1 w2 w3 e1 e2 : heard w1 e1 w2 -> heard w2 e2 w3 -> heard w1 (e1 ++ e2) w3.
Proof. unfold heard, lines_of. rewrite bind_app. apply taken_app. Qed.

(** ** The invariant *)

Definition last_epoch : Z := 2 ^ 31 - 1.

(** With [n] more epochs to come: no nonce is ready or coming while a window is open,
    and the companion has the same window open unless its input is closed. *)
Record loose (n : Z) (s : loads) (w : option talk) : Prop := {
  loose_epoch : 0 <= sshAgentEpoch (win s) <= last_epoch - n;
  loose_running : is_Some w -> helperRunning (hlp s) = true;
  loose_dead : w = None -> sshAgentLoadActive (win s) = true -> helperRunning (hlp s) = false;
  loose_nonce : loadIdProc (win s) = NonceReading -> sshAgentNextLoadId (win s) = [];
  loose_active : sshAgentLoadActive (win s) = true -> sshAgentNextLoadId (win s) = [] /\ loadIdProc (win s) <> NonceReading;
  loose_flight : listRunning (rdr s) = true -> listInFlight (rdr s) = true;
  loose_window : forall c, w = Some c ->
    c_window c = (if sshAgentLoadActive (win s) && stdinEnabled (hlp s) then Some (sshAgentEpoch (win s)) else None) /\
    c_last c <= sshAgentEpoch (win s)
}.

(** Between events a gate is open only with a companion, and a window only behind an
    open gate and with its read running. *)
Record tidy (n : Z) (s : loads) (w : option talk) : Prop := {
  tidy_loose : loose n s w;
  tidy_gate : sshAgentGateOpen (hlp s) = true -> is_Some w;
  tidy_active : sshAgentLoadActive (win s) = true ->
    sshAgentGateOpen (hlp s) = true /\ listRunning (rdr s) = true /\ listCommand (rdr s) <> Scrub
}.

Definition inactive (s : loads) : Prop := sshAgentLoadActive (win s) = false.
Definition idle (n : Z) (s : loads) (w : option talk) : Prop := tidy n s w /\ inactive s.

(** No window, and [F] of the processes. *)
Definition shut (n : Z) (F : helper -> reader -> option talk -> Prop) (s : loads) (w : option talk) : Prop :=
  loose n s w /\ inactive s /\ F (hlp s) (rdr s) w.
Definition guarded (h : helper) (_ : reader) (w : option talk) : Prop := sshAgentGateOpen h = true -> is_Some w.

Notation sends := (sends heard).

Lemma tidy_less n m s w : tidy n s w -> m <= n -> tidy m s w.
Proof. intros [[H1 H2 H3 H4 H5 H6 H7] H8 H9] Hm. split; [split|..]; try done. lia. Qed.
Lemma shut_idle n s w : shut n guarded s w -> idle n s w.
Proof. intros (H1 & H2 & H3). split; [|done]. split; [done..|]. unfold inactive in H2. congruence. Qed.
Lemma idle_shut n s w : idle n s w -> shut n guarded s w.
Proof. intros [[H1 H2 H3] H4]. done. Qed.

Lemma epoch_next n s w : loose n s w -> 1 <= n -> int_next (sshAgentEpoch (win s)) = sshAgentEpoch (win s) + 1.
Proof. intros [H _ _ _ _ _ _] Hn. unfold last_epoch in H. unfold int_next, i32. rewrite Z.mod_small; lia. Qed.

(** All the invariant looks at. *)
Definition sight (s : loads) :=
  ((sshAgentEpoch (win s), sshAgentLoadActive (win s), sshAgentNextLoadId (win s), loadIdProc (win s)), hlp s,
   (listRunning (rdr s), listInFlight (rdr s), listCommand (rdr s))).

Lemma loose_sight n s s' w : sight s = sight s' -> loose n s w -> loose n s' w.
Proof. intros [= E1 E2 E3 E4 E5 E6 E7 E8] [H1 H2 H3 H4 H5 H6 H7]. split; rewrite <- ?E1, <- ?E2, <- ?E3, <- ?E4, <- ?E5, <- ?E6, <- ?E7; done. Qed.
Lemma tidy_sight n s s' w : sight s = sight s' -> tidy n s w -> tidy n s' w.
Proof.
  intros E [H1 H2 H3]. split; [by eapply loose_sight| |]; injection E as E1 E2 E3 E4 E5 E6 E7 E8; rewrite <- ?E5; [done|].
  rewrite <- E2, <- E6, <- E8. done.
Qed.

(** ** Rules *)

(** An effect that is no load line changes nothing for the companion. *)
Lemma sends_quiet (P : loads -> option talk -> Prop) x : line_of x = [] -> sends P P (emit x).
Proof. intros Hx. apply sends_emit. intros s w H. exists w. split; [|done]. unfold heard, lines_of. cbn. rewrite Hx. apply taken_nil. Qed.

Lemma sends_skip (P Q : loads -> option talk -> Prop) : (forall s w, P s w -> Q s w) -> sends P Q nothing.
Proof. intros H. eapply sends_weaken; [apply sends_nothing, heard_nil|intros s w HP; exact HP|auto]. Qed.

Lemma sends_when (P Q : loads -> option talk -> Prop) (b : bool) a :
  (b = true -> sends P Q a) -> (b = false -> forall s w, P s w -> Q s w) -> sends P Q (when b a).
Proof. destruct b; cbn; [auto|]. intros _ H. apply sends_skip. auto. Qed.

Lemma sends_if (P Q : loads -> option talk -> Prop) (b : bool) a a' :
  (b = true -> sends P Q a) -> (b = false -> sends P Q a') -> sends P Q (if b then a else a').
Proof. destruct b; auto. Qed.

Lemma sends_sight n f : (forall s, sight (f s) = sight s) -> sends (tidy n) (tidy n) (set f).
Proof. intros Hf. apply sends_set; [exact heard_nil|]. intros s w. by apply tidy_sight. Qed.

Ltac seq_ Q := apply (sends_seq _ heard_app _ Q).
Ltac set_ := apply sends_set; [exact heard_nil|].
Ltac read_ := apply sends_reading; intros.
Ltac any_ := apply sends_any; intros.

(** ** Nonces and the end of a window *)

Lemma prime_sends n F : sends (shut n F) (shut n F) primeSshAgentLoadId.
Proof.
  read_. apply sends_if; intros Hb; [apply sends_skip; by intros ? ? [? _]|]. apply orb_false_iff in Hb as [_ Hn%negb_false_iff].
  apply bool_decide_eq_true in Hn. seq_ (shut n F); [set_|by apply sends_quiet].
  intros s w [([H1 H2 H3 H4 H5 H6 H7] & Ha & HF) ->]. unfold inactive in Ha. split; [|done].
  split; cbn in *; try done; congruence.
Qed.

Lemma end_sends n F ok : (forall h r c c', F h r (Some c) -> F h r (Some c')) ->
  sends (fun s w => loose n s w /\ F (hlp s) (rdr s) w) (shut n F) (endSshAgentLoad ok).
Proof.
  intros HFc. read_. apply sends_if; intros Hb.
  { apply sends_skip. intros ? ? [[? ?] ->]. apply negb_true_iff in Hb. done. }
  apply negb_false_iff in Hb.
  seq_ (fun s w => loose n (Loads (win s0) (rdr s) (hlp s) (pub s)) w /\ F (hlp s) (rdr s) w /\ s = close_window s0).
  { set_. intros ? ? [[Hl HF] ->]. split_and!; [|done..]. revert Hl. by apply loose_sight. }
  seq_ (shut n F); [|apply prime_sends].
  read_. apply sends_when; intros Hc.
  - apply sends_emit. intros s w [(Hl & HF & ->) <-]. destruct w as [c|].
    + destruct Hl as [H1 H2 H3 H4 H5 H6 H7]. cbn in *. destruct (H7 c eq_refl) as [Hw Hlast].
      unfold channel in Hc. cbn in Hc. apply andb_true_iff in Hc as [Hr Hi]. rewrite Hb, Hi in Hw.
      exists (Some (Talk None (c_last c))). split.
      * exists [LoadEnd (sshAgentEpoch (win s0)) ok]. split; [done|]. cbn. by rewrite Hw, bool_decide_true.
      * split; [|split; [done|by eapply HFc]]. split; cbn; try done. intros ? [= <-]. done.
    + exfalso. assert (Hd := loose_dead _ _ _ Hl eq_refl Hb). unfold channel in Hc. cbn in Hc, Hd. by rewrite Hd in Hc.
  - intros s w [(Hl & HF & ->) <-]. destruct Hl as [H1 H2 H3 H4 H5 H6 H7]. cbn in *. split; [|done].
    split; cbn; try done. intros c ->. destruct (H7 c eq_refl) as [Hw Hlast]. split; [|done].
    unfold channel in Hc. cbn in Hc. rewrite H2 in Hc by eauto. cbn in Hc. by rewrite Hb, Hc in Hw.
Qed.

Lemma cancel_sends n : sends (tidy n) (idle n) cancelSshAgentLoad.
Proof.
  seq_ (fun s w => loose n s w /\ guarded (hlp s) (rdr s) w).
  { read_. apply sends_when; intros Hb.
    - eapply sends_seq; [exact heard_app| |by apply sends_quiet]. set_.
      intros s w [[[H1 H2 H3 H4 H5 H6 H7] H8 H9] ->]. split; [|done]. by split.
    - by intros s w [[? ?] _]. }
  seq_ (shut n guarded); [apply end_sends; intros h r c c' _ _; eauto|].
  set_. intros s w (Hl & Ha & Hg). apply shut_idle. split; [|done]. revert Hl. by apply loose_sight.
Qed.

(** ** Reads *)

(** A window may be open whose read is about to start. *)
Definition starting_read (n : Z) (s : loads) (w : option talk) : Prop :=
  loose n s w /\ guarded (hlp s) (rdr s) w /\ (sshAgentLoadActive (win s) = true -> sshAgentGateOpen (hlp s) = true).

Lemma tidy_starting n s w : tidy n s w -> starting_read n s w.
Proof. intros [H1 H2 H3]. split_and!; [done..|]. by intros []%H3. Qed.

Lemma starting_sight n f : (forall s, sight (f s) = sight s) -> sends (starting_read n) (starting_read n) (set f).
Proof.
  intros Hf. set_. intros s w (H1 & H2 & H3). specialize (Hf s). split_and!; [revert H1; by apply loose_sight|..];
    injection Hf as E1 E2 E3 E4 E5 _ _ _; unfold guarded in *; rewrite ?E2, ?E5; done.
Qed.

Lemma run_list_sends n id : sends (starting_read n) (tidy n) (seq_act (set (fun s => set_command (Listing (id s)) s)) run_list).
Proof.
  seq_ (fun s w => starting_read n s w /\ listCommand (rdr s) <> Scrub).
  { set_. intros s w ([H1 H2 H3 H4 H5 H6 H7] & H8 & H9). split; [|done]. split_and!; [|done..]. by split. }
  read_. seq_ (fun s w => starting_read n s w /\ listCommand (rdr s) <> Scrub).
  { apply sends_when; [|by intros _ s w [? _]]. intros _. destruct (listCommand (rdr s0)) eqn:E.
    - apply sends_skip. by intros ? ? [? _].
    - eapply sends_weaken; [by apply sends_quiet|intros ? ? [H _]; exact H|done]. }
  set_. intros s w [([H1 H2 H3 H4 H5 H6 H7] & H8 & H9) Hc]. split; [by split|done|]. cbn. auto.
Qed.

Lemma open_sends v : sends (fun s w => tidy 1 s w /\ sshAgentGateOpen (hlp s) = true /\ isValidLoadId (JStr (sshAgentNextLoadId (win s))) = true)
  (starting_read 0)
  (seq_act (set (open_window v)) (reading (fun s => when (stdinEnabled (hlp s))
     (emit (LoadLine (sshAgentLoadBeginLine (epoch_value s) (JStr (sshAgentLoadId (win s))))))))).
Proof.
  seq_ (fun s w => exists s0, tidy 1 s0 w /\ sshAgentGateOpen (hlp s0) = true /\ isValidLoadId (JStr (sshAgentNextLoadId (win s0))) = true /\ s = open_window v s0).
  { set_. intros s w (H1 & H2 & H3). eauto. }
  read_. intros s w [(s1 & [Hl Hg Ha] & Hgate & Hv & ->) <-].
  assert (Hn : int_next (sshAgentEpoch (win s1)) = sshAgentEpoch (win s1) + 1) by (eapply epoch_next; [done|lia]).
  assert (Hne : sshAgentNextLoadId (win s1) <> []) by (intros E; by rewrite E in Hv).
  destruct Hl as [H1 H2 H3 H4 H5 H6 H7]. unfold last_epoch in *.
  assert (Hi : sshAgentLoadActive (win s1) = false) by (destruct (sshAgentLoadActive _) eqn:E; [by destruct H5|done]).
  destruct (Hg Hgate) as [c ->]. destruct (H7 c eq_refl) as [Hw Hlast]. rewrite Hi in Hw. cbn in Hw.
  assert (Hread : loadIdProc (win s1) <> NonceReading) by auto.
  unfold open_window, epoch_value; cbn; unfold when. destruct (stdinEnabled (hlp s1)) eqn:Es; cbn.
  - exists (Some (Talk (Some (sshAgentEpoch (win s1) + 1)) (sshAgentEpoch (win s1) + 1))). split.
    + exists [LoadBegin (sshAgentEpoch (win s1) + 1) (sshAgentNextLoadId (win s1))]. split; [cbn; by rewrite Hn|].
      cbn [speak_all speak]. rewrite Hw, bool_decide_true, (proj2 (Z.ltb_lt _ _)), Hv by (done || lia). done.
    + split_and!; [|by intros _; eauto|done]. split; cbn; rewrite ?Hn, ?Es; unfold last_epoch; try done; try lia; [by intros _; apply H2; eauto|]. intros ? [= <-]. cbn. auto with lia.
  - exists (Some c). split; [by exists []|]. split_and!; [|by intros _; eauto|done].
    split; cbn; rewrite ?Hn, ?Es; unfold last_epoch; try done; try lia. intros ? [= <-]. split; [done|lia].
Qed.

Lemma start_read_sends v retrying : sends (tidy 1) (tidy 0) (startVaultListRead v retrying).
Proof.
  seq_ (tidy 1); [by apply sends_sight|]. read_. cbv zeta. set (useAgent := _ && _ && _ && _).
  seq_ (starting_read 0).
  { apply sends_when; intros Hu.
    - apply andb_true_iff in Hu as [[_ Hg]%andb_true_iff Hv]. eapply sends_weaken; [apply (open_sends v)| |done]. by intros s w [? ->].
    - intros s w [Ht ->]. apply tidy_starting. eapply tidy_less; [done|lia]. }
  seq_ (starting_read 0); [by apply starting_sight|]. apply run_list_sends.
Qed.

Lemma load_items_sends v : sends (tidy 1) (tidy 0) (loadItems v).
Proof.
  read_. assert (Hs : forall s w, tidy 1 s w /\ s = s0 -> tidy 0 s w) by (intros s w [Ht _]; eapply tidy_less; [done|lia]).
  apply sends_if; intros _; [by apply sends_skip|]. apply sends_if; intros _; [by apply sends_skip|].
  seq_ (tidy 1); [apply sends_set; [exact heard_nil|]; intros s w [Ht _]; revert Ht; by apply tidy_sight|].
  apply sends_if; intros _; [|apply start_read_sends]. apply sends_skip. intros s w Ht. eapply tidy_less; [done|lia].
Qed.

(** ** Vault transitions *)

Lemma lifecycle_shape v s event :
  let live := agentEnabled v && sshAgentGateOpen (hlp s) in
  sshAgentLifecycleTransition event (sshAgentVaultContext v s) =
  if str_eqb event (js "disable") || str_eqb event (js "shutdown") then LifecycleAction [] true false false true true false
  else if existsb (str_eqb event) SSH_AGENT_LOCK_EVENTS
  then LifecycleAction (if live then [wire (VaultLocked (sshAgentEpoch (win s)))] else []) true false live false false false
  else if existsb (str_eqb event) SSH_AGENT_LOGOUT_EVENTS
  then LifecycleAction (if live then [wire LoggedOut] else []) true false false false true live
  else if existsb (str_eqb event) SSH_AGENT_LOAD_EVENTS
  then LifecycleAction [] false (live && unlocked v) false false false false
  else LifecycleAction [] false false false false false false.
Proof. reflexivity. Qed.

Lemma idle_sight n f : (forall s, sight (f s) = sight s) -> sends (idle n) (idle n) (set f).
Proof.
  intros Hf. set_. intros s w [Ht Ha]. split; [revert Ht; by apply tidy_sight|].
  specialize (Hf s). injection Hf as _ E _ _ _ _ _ _. unfold inactive in *. congruence.
Qed.

Lemma idle_window n s c : idle n s (Some c) -> c_window c = None /\ c_last c <= sshAgentEpoch (win s).
Proof. intros [[Hl _ _] Ha]. destruct (loose_window _ _ _ Hl c eq_refl) as [H1 H2]. unfold inactive in Ha. by rewrite Ha in H1. Qed.

(** The companion of an idle service may be any with no window and no later epoch. *)
Lemma idle_other n s c c' : idle n s (Some c) -> c_window c' = None -> c_last c' <= sshAgentEpoch (win s) -> idle n s (Some c').
Proof.
  intros [[[H1 H2 H3 H4 H5 H6 H7] H8 H9] Ha] Hw Hlast. unfold inactive in Ha. split; [|done].
  split; [split|..]; try done; try congruence; [intros _; apply H2; eauto|intros ? [= <-]; by rewrite Ha].
Qed.

Lemma lock_line_sends n (live : bool) e :
  sends (fun s w => idle n s w /\ sshAgentEpoch (win s) = e /\ (live = true -> sshAgentGateOpen (hlp s) = true)) (idle n)
    (write_lines (if live then [wire (VaultLocked e)] else [])).
Proof.
  destruct live; cbn [write_lines]; [|apply sends_skip; by intros ? ? [? _]]. seq_ (idle n); [|apply sends_skip; auto].
  read_. apply sends_when; intros Hc; [apply sends_emit|by intros s w [[? _] _]].
  intros s w [(Hi & He & Hg) ->]. destruct (tidy_gate _ _ _ (proj1 Hi) (Hg eq_refl)) as [c ->]. destruct (idle_window _ _ _ Hi) as [Hw Hl].
  exists (Some (Talk None (Z.max (c_last c) e))). split; [by exists [VaultLocked e]|]. apply (idle_other n _ c); [done|done|]. cbn. lia.
Qed.

Lemma logout_line_sends (live : bool) :
  sends (fun s w => idle 1 s w /\ (live = true -> sshAgentGateOpen (hlp s) = true)) (idle 0)
    (seq_act (write_lines (if live then [wire LoggedOut] else [])) (when live (set advance_epoch))).
Proof.
  destruct live; cbn [write_lines when]; cycle 1.
  { seq_ (idle 0); apply sends_skip; [|done]. intros s w [[Ht Ha] _]. split; [eapply tidy_less; [done|lia]|done]. }
  seq_ (fun s w => exists w0, idle 1 s w0 /\ (w = w0 \/ exists c, w0 = Some c /\ w = Some (Talk None (c_last c + 1)))).
  - eapply sends_seq; [exact heard_app| |apply sends_skip; intros s w H; exact H].
    read_. apply sends_when; intros Hc; [apply sends_emit|intros s w [[? _] _]; eauto].
    intros s w [[Hi Hg] ->]. destruct (tidy_gate _ _ _ (proj1 Hi) (Hg eq_refl)) as [c ->].
    exists (Some (Talk None (c_last c + 1))). split; [by exists [LoggedOut]|]. eauto 6.
  - set_. intros s w (w0 & Hi & Hw). assert (Hn := epoch_next 1 s w0 (tidy_loose _ _ _ (proj1 Hi)) ltac:(lia)).
    assert (Hi' : idle 0 (advance_epoch s) w0).
    { destruct Hi as [[[H1 H2 H3 H4 H5 H6 H7] H8 H9] Ha]. unfold inactive in Ha. split; [|done].
      split; [split|..]; cbn; rewrite ?Hn; try done; [lia|]. intros c ->. destruct (H7 c eq_refl) as [E Hl]. rewrite Ha in *. auto with lia. }
    destruct Hw as [->|(c & -> & ->)]; [done|]. apply (idle_other 0 _ c); [done..|]. cbn. rewrite Hn. destruct (idle_window _ _ _ Hi). lia.
Qed.

Lemma stop_sends n : sends (idle n) (idle n) stopSshAgentHelper.
Proof.
  read_. apply sends_if; intros Hb.
  { eapply sends_weaken; [by apply sends_quiet|intros ? ? [H _]; exact H|done]. }
  seq_ (idle n); [|by apply sends_quiet]. apply sends_when; [intros Hs|by intros _ ? ? [? _]].
  seq_ (idle n); [eapply sends_weaken; [by apply sends_quiet|intros ? ? [H _]; exact H|done]|].
  set_. intros s w [[[H1 H2 H3 H4 H5 H6 H7] H8 H9] Ha]. unfold inactive in Ha. split; [|done].
  split; [split|..]; cbn; try done; try congruence. intros c ->. destruct (H7 c eq_refl) as [E Hl]. by rewrite Ha in *.
Qed.

Lemma start_sends n : sends (idle n) (idle n) startSshAgentHelper.
Proof.
  seq_ (idle n); [by apply sends_quiet|].
  assert (Hh : forall s w r i, idle n s w -> (is_Some w -> r = true) -> idle n (on_hlp (fun h => Helper (sshAgentGateOpen h) r i) s) w).
  { intros s w r i [[[H1 H2 H3 H4 H5 H6 H7] H8 H9] Ha] Hr. unfold inactive in Ha. split; [|done].
    split; [split|..]; cbn; try done; try congruence. intros c ->. destruct (H7 c eq_refl) as [E Hl]. by rewrite Ha in *. }
  seq_ (idle n). { set_. intros s w Hi. apply Hh; [done|]. apply (loose_running _ _ _ (tidy_loose _ _ _ (proj1 Hi))). }
  seq_ (idle n). { any_. apply sends_when; [intros _; by apply sends_quiet|done]. }
  set_. intros s w Hi. by apply Hh.
Qed.

Lemma clear_public_sends n : sends (idle n) (idle n) (seq_act (set (set_counts 0 (NZ 0))) clearSshPublicKeys).
Proof.
  seq_ (idle n); [by apply idle_sight|]. any_.
  seq_ (idle n); [by apply idle_sight|]. apply sends_if; intros _; [by apply sends_skip|].
  seq_ (idle n); [by apply idle_sight|by apply sends_quiet].
Qed.

Lemma idle_less n m s w : idle n s w -> m <= n -> idle m s w.
Proof. intros [Ht Ha] Hm. split; [by eapply tidy_less|done]. Qed.

Lemma idle_tidy n s w : idle n s w -> tidy n s w.
Proof. by intros [? _]. Qed.

(** What follows the lines of a lifecycle action that cancels. *)
Lemma lifecycle_tail_sends n (clear ack stop : bool) k : sends (idle n) (tidy n)
  (seq_act (when clear (seq_act (set (set_counts 0 (NZ 0))) clearSshPublicKeys))
    (seq_act (when ack (emit ArmedLockAck)) (seq_act (when stop stopSshAgentHelper)
      (reading (fun s => when (false && negb (listRunning (rdr s))) k))))).
Proof.
  seq_ (idle n); [apply sends_when; [intros _; apply clear_public_sends|done]|].
  seq_ (idle n); [apply sends_when; [intros _; by apply sends_quiet|done]|].
  seq_ (idle n); [apply sends_when; [intros _; apply stop_sends|done]|]. apply sends_skip. apply idle_tidy.
Qed.

Lemma lifecycle_sends v event : sends (tidy 1) (tidy 0) (applySshAgentLifecycle v event).
Proof.
  read_. cbv zeta. rewrite lifecycle_shape. cbv zeta. set (live := agentEnabled v && _).
  assert (Hc : sends (fun s w => tidy 1 s w /\ s = s0)
    (fun s w => idle 1 s w /\ sshAgentEpoch (win s) = sshAgentEpoch (win s0) /\ hlp s = hlp s0) cancelSshAgentLoad).
  { intros s w [Ht ->]. destruct (cancel_sends 1 s0 w Ht) as (w' & Hh & Hi). exists w'. split; [done|]. split; [done|].
    unfold cancelSshAgentLoad, endSshAgentLoad, primeSshAgentLoadId, when, seq_act, reading, set, emit, nothing.
    destruct (listRunning (rdr s0)); cbn; destruct (sshAgentLoadActive (win s0)); cbn; try done;
      destruct (channel _); cbn; destruct (negb _ || negb _); done. }
  assert (Hg : live = true -> sshAgentGateOpen (hlp s0) = true) by (by intros [_ ?]%andb_true_iff).
  destruct (str_eqb event (js "disable") || _) eqn:E1; [|destruct (existsb _ SSH_AGENT_LOCK_EVENTS) eqn:E2;
    [|destruct (existsb _ SSH_AGENT_LOGOUT_EVENTS) eqn:E3]]; cbn [cancelLoad startLoad awaitLockAck stopHelper clearPublic advanceEpoch controlLines when].
  - eapply sends_seq; [exact heard_app|exact Hc|]. seq_ (idle 0); [apply sends_skip; intros s w [Hi _]; eapply idle_less; [done|lia]|].
    seq_ (idle 0); [by apply sends_skip|]. apply (lifecycle_tail_sends 0 true false true).
  - eapply sends_seq; [exact heard_app|exact Hc|]. seq_ (idle 1).
    { eapply sends_weaken; [apply (lock_line_sends 1 live)| |done]. intros s w (Hi & He & ->). auto. }
    seq_ (idle 0); [apply sends_skip; intros s w Hi; eapply idle_less; [done|lia]|]. apply (lifecycle_tail_sends 0 false live false).
  - eapply sends_seq; [exact heard_app|exact Hc|].
    apply sends_assoc. seq_ (idle 0); [|apply (lifecycle_tail_sends 0 true false false)].
    eapply sends_weaken; [apply (logout_line_sends live)| |done]. intros s w (Hi & _ & ->). auto.
  - assert (Hskip : sends (fun s w => tidy 1 s w /\ s = s0) (tidy 1) nothing) by (apply sends_skip; by intros ? ? [? _]).
    assert (Hsk : sends (tidy 1) (tidy 1) nothing) by (by apply sends_skip).
    assert (Hload : forall b : bool, sends (tidy 1) (tidy 0) (reading (fun s => when (b && negb (listRunning (rdr s))) (loadItems v)))).
    { intros b. any_.
      apply sends_when; [intros _; apply load_items_sends|]. intros _ s w Ht. eapply tidy_less; [done|lia]. }
    destruct (existsb _ SSH_AGENT_LOAD_EVENTS); cbn [cancelLoad startLoad awaitLockAck stopHelper clearPublic advanceEpoch controlLines when write_lines];
      repeat (eapply sends_seq; [exact heard_app|first [exact Hskip|exact Hsk]|]); apply Hload.
Qed.

Lemma maybe_startup_sends v : sends (tidy 1) (tidy 0) (maybeStartupLoad v).
Proof.
  assert (Hless : forall s0, sends (fun s w => tidy 1 s w /\ s = s0) (tidy 0) nothing).
  { intros s0. apply sends_skip. intros s w [Ht _]. eapply tidy_less; [done|lia]. }
  read_. apply sends_if; [by intros _|]; intros _. apply sends_if; [by intros _|]; intros Ha.
  apply sends_if; [by intros _|]; intros _. apply sends_if; intros _.
  - eapply sends_weaken; [apply (prime_sends 1 guarded)| |intros s w H%shut_idle; eapply tidy_less; [exact (idle_tidy _ _ _ H)|lia]].
    intros s w [Ht ->]. apply idle_shut. split; [done|]. by apply orb_false_iff in Ha as [? _].
  - seq_ (tidy 1); [set_; intros s w [Ht _]; revert Ht; by apply tidy_sight|]. apply lifecycle_sends.
Qed.

(** ** Ends of processes *)

Lemma nonce_read_sends v raw : sends (fun s w => tidy 1 s w /\ loadIdProc (win s) = NonceReading) (tidy 0) (onSshAgentLoadIdRead v raw).
Proof.
  unfold onSshAgentLoadIdRead. set (candidate := trim _).
  assert (Hstep : forall s w id, tidy 1 s w -> loadIdProc (win s) = NonceReading -> idle 1 (set_next id
    (on_win (fun w => Window (sshAgentEpoch w) (sshAgentLoadId w) (sshAgentLoadActive w) (sshAgentNextLoadId w) NonceRead
                        (sshAgentLoadedForVaultEpoch w) (sshAgentLoadFailStreak w)) s)) w).
  { intros s w id [[H1 H2 H3 H4 H5 H6 H7] H8 H9] Hn. assert (Ha : sshAgentLoadActive (win s) = false).
    { destruct (sshAgentLoadActive _) eqn:E; [|done]. by destruct H5. }
    split; [|done]. split; [split|..]; cbn; try done; congruence. }
  apply sends_assoc. seq_ (tidy 1).
  { intros s w [Ht Hn]. exists w. split; [apply heard_nil|]. by apply Hstep. }
  any_.
  apply sends_when; [intros _; apply maybe_startup_sends|]. intros _ s w Ht. eapply tidy_less; [done|lia].
Qed.

Lemma nonce_exited_sends n : sends (tidy n) (tidy n) loadIdProc_exited.
Proof. set_. intros s w [[H1 H2 H3 H4 H5 H6 H7] H8 H9]. split; [split|..]; cbn; try done. intros Ha. by destruct (H5 Ha). Qed.

Lemma list_finished_sends v : sends (tidy 1) (tidy 0) (onListFinished v).
Proof.
  any_. apply sends_if; intros _; [|apply maybe_startup_sends].
  apply sends_skip. intros s w Ht. eapply tidy_less; [done|lia].
Qed.

Lemma list_exited_sends v code : sends (tidy 1) (tidy 0) (onListProcessExited v code).
Proof.
  seq_ (fun s w => loose 1 s w /\ guarded (hlp s) (rdr s) w /\ (listCommand (rdr s) = Scrub -> inactive s)).
  { set_. intros s w [[H1 H2 H3 H4 H5 H6 H7] H8 H9]. split_and!; [by split|done|]. cbn. intros Hs. unfold inactive.
    destruct (sshAgentLoadActive (win s)) eqn:E; [|done]. by destruct (H9 eq_refl) as (_ & _ & []). }
  read_. destruct (listCommand (rdr s0)) as [|id] eqn:Ec; cbv zeta.
  { apply sends_skip. intros s w [(Hl & Hg & Hi) ->]. apply (tidy_less 1); [|lia]. apply idle_tidy, shut_idle. split_and!; auto. }
  assert (Hsight : forall f : loads -> loads, (forall s, sight (f s) = sight s) ->
    sends (fun s w => loose 1 s w /\ guarded (hlp s) (rdr s) w) (fun s w => loose 1 s w /\ guarded (hlp s) (rdr s) w) (set f)).
  { intros f Hf. set_. intros s w [Hl Hg]. split; [revert Hl; by apply loose_sight|]. specialize (Hf s). injection Hf as _ _ _ _ E _ _ _.
    unfold guarded in *. by rewrite E. }
  eapply sends_weaken; [|intros s w [(Hl & Hg & _) _]; exact (conj Hl Hg)|done].
  eapply sends_seq; [exact heard_app|by apply Hsight|]. eapply sends_seq; [exact heard_app|by apply Hsight|].
  seq_ (idle 1). { eapply sends_weaken; [apply (end_sends 1 guarded); intros h r c c' _ _; eauto|done|apply shut_idle]. }
  eapply sends_weaken; [|apply idle_tidy|done].
  apply sends_if; intros _. { seq_ (tidy 1); [by apply sends_sight|]. apply list_finished_sends. }
  any_. apply sends_if; intros _;
    (seq_ (tidy 1); [by apply sends_sight|]); [seq_ (tidy 1); [by apply sends_sight|]; apply start_read_sends|].
  apply sends_if; intros _; [seq_ (tidy 1); [by apply sends_sight|]; apply start_read_sends|].
  apply sends_skip. intros s w Ht. eapply tidy_less; [done|lia].
Qed.

Lemma scrub_sends n : sends (tidy n) (tidy n) scrub_list.
Proof.
  read_. apply sends_if; intros Hr; [apply sends_skip; by intros ? ? [? _]|]. destruct (listCommand (rdr s0)) eqn:Ec.
  { apply sends_skip. by intros ? ? [? _]. }
  assert (Hin : forall s w, tidy n s w -> listRunning (rdr s) = false -> inactive s).
  { intros s w [_ _ H9] Hf. unfold inactive. destruct (sshAgentLoadActive (win s)); [|done]. destruct (H9 eq_refl) as (_ & E & _). congruence. }
  seq_ (idle n).
  - set_. intros s w [Ht ->]. split; [|exact (Hin _ _ Ht Hr)]. assert (Hi := Hin _ _ Ht Hr). unfold inactive in Hi.
    destruct Ht as [[H1 H2 H3 H4 H5 H6 H7] H8 H9]. split; [by split|done|]. cbn. congruence.
  - read_. seq_ (idle n).
    { eapply sends_weaken; [|intros ? ? [H _]; exact H|done]. apply sends_when; [intros _|done].
      destruct (listCommand (rdr s1)); [by apply sends_skip|by apply sends_quiet]. }
    set_. intros s w [[[H1 H2 H3 H4 H5 H6 H7] H8 H9] Hi]. unfold inactive in Hi. split; [by split|done|]. cbn. congruence.
Qed.

Lemma withdraw_sends n : sends (tidy n) (tidy n) withdraw_list.
Proof.
  read_. apply sends_when; [intros Hr|intros _ ? ? [? _]; done]. apply negb_true_iff in Hr.
  set_. intros s w [[[H1 H2 H3 H4 H5 H6 H7] H8 H9] ->]. split; [by split|done|]. cbn. intros H. destruct (H9 H) as (_ & E & _). congruence.
Qed.

(** ** The gate *)

Lemma options_sends (P : loads -> option talk -> Prop) v : sends P P (sendSshAgentOptions v).
Proof. any_. apply sends_when; [intros _; by apply sends_quiet|done]. Qed.

Lemma gate_opens n v : sends (fun s w => tidy n s w /\ is_Some w) (tidy n) (assign_gate v true).
Proof.
  read_. destruct (sshAgentGateOpen (hlp s0)) eqn:Eg; cbn [Bool.eqb negb when].
  { eapply sends_seq; [exact heard_app| |by apply sends_skip]. set_. intros s w [[Ht Hw] ->]. revert Ht. apply tidy_sight.
    unfold sight. cbn. by destruct s0 as [? ? [? ? ?] ?]; cbn in *; subst. }
  seq_ (fun s w => idle n s w /\ sshAgentGateOpen (hlp s) = true).
  { set_. intros s w [[[[H1 H2 H3 H4 H5 H6 H7] H8 H9] Hw] ->]. split; [|done].
    assert (Ha : sshAgentLoadActive (win s0) = false) by (destruct (sshAgentLoadActive _); [destruct H9; congruence|done]).
    split; [|done]. split; [by split|done|]. cbn. congruence. }
  read_. intros s w [[Hi Hg] ->]. rewrite Hg. revert w Hi.
  enough (sends (idle n) (tidy n) (seq_act (sendSshAgentOptions v) (seq_act (set (set_loaded (-1) 0)) (seq_act primeSshAgentLoadId (emit ArmedStartup))))) as He
    by (intros w Hi; exact (He s1 w Hi)).
  seq_ (idle n); [apply options_sends|]. seq_ (idle n); [by apply idle_sight|].
  seq_ (idle n); [eapply sends_weaken; [apply (prime_sends n guarded)|apply idle_shut|apply shut_idle]|].
  eapply sends_weaken; [by apply sends_quiet|intros s' w' H; exact H|apply idle_tidy].
Qed.

Lemma gate_shuts n v :
  sends (fun s w => loose n s w /\ (sshAgentLoadActive (win s) = true -> sshAgentGateOpen (hlp s) = true)) (idle n) (assign_gate v false).
Proof.
  read_. seq_ (fun s w => loose n s w /\ guarded (hlp s) (rdr s) w /\ sshAgentGateOpen (hlp s) = false /\
    (sshAgentLoadActive (win s) = true -> sshAgentGateOpen (hlp s0) = true)).
  { set_. intros s w [[[H1 H2 H3 H4 H5 H6 H7] Hg] ->]. split_and!; [by split|by intros|done|done]. }
  destruct (sshAgentGateOpen (hlp s0)) eqn:Eg; cbn [Bool.eqb negb when].
  - read_. intros s w [(Hl & Hg & Hf & _) ->]. rewrite Hf. revert w Hl Hg.
    enough (sends (fun s w => loose n s w /\ guarded (hlp s) (rdr s) w) (idle n)
      (seq_act (endSshAgentLoad false) (set (fun s => set_counts 0 (sshAgentKeysLoadedAt (pub s)) s)))) as He by (intros w Hl Hg; exact (He s1 w (conj Hl Hg))).
    seq_ (idle n); [|by apply idle_sight].
    eapply sends_weaken; [apply (end_sends n guarded); intros h r c c' _ _; eauto|done|apply shut_idle].
  - apply sends_skip. intros s w (Hl & Hg & _ & Ha). apply shut_idle. split_and!; [done| |done]. unfold inactive.
    destruct (sshAgentLoadActive (win s)); [|done]. by specialize (Ha eq_refl).
Qed.

(** ** Messages *)

Lemma public_key_sends n m : sends (tidy n) (tidy n) (onPublicKey m).
Proof.
  any_. cbv zeta. apply sends_if; intros _; [by apply sends_sight|].
  destruct (as_int _); [|by apply sends_skip]. seq_ (tidy n); by apply sends_sight.
Qed.

Lemma keys_loaded_sends n v m : sends (tidy n) (tidy n) (onKeysLoaded v m).
Proof.
  seq_ (tidy n); [by apply sends_sight|]. any_.
  apply sends_when; [intros _|done]. any_. cbv zeta.
  seq_ (tidy n); [by apply sends_sight|]. apply sends_if; intros _; [by apply sends_skip|].
  seq_ (tidy n); [by apply sends_sight|by apply sends_quiet].
Qed.

Lemma load_failed_sends v m : sends (tidy 1) (tidy 0) (onLoadFailed v m).
Proof.
  assert (Hless : sends (tidy 1) (tidy 0) nothing) by (apply sends_skip; intros s w Ht; eapply tidy_less; [done|lia]).
  any_. apply sends_if; intros _; [done|].
  seq_ (tidy 1); [by apply sends_sight|]. any_.
  apply sends_when; [intros _; apply maybe_startup_sends|]. intros _ s w Ht. eapply tidy_less; [done|lia].
Qed.

(** ** Who moves the gate

    Only its own assignment does. *)

Definition keeps_gate (a : Actions.act loads load_effect) : Prop := forall s, sshAgentGateOpen (hlp (a s).1) = sshAgentGateOpen (hlp s).

Lemma keeps_nothing : keeps_gate nothing.
Proof. done. Qed.
Lemma keeps_emit x : keeps_gate (emit x).
Proof. done. Qed.
Lemma keeps_set f : (forall s, sshAgentGateOpen (hlp (f s)) = sshAgentGateOpen (hlp s)) -> keeps_gate (set f).
Proof. intros Hf s. apply Hf. Qed.
Lemma keeps_seq a b : keeps_gate a -> keeps_gate b -> keeps_gate (seq_act a b).
Proof. intros Ha Hb s. unfold seq_act. specialize (Ha s). destruct (a s) as [s1 e1]. specialize (Hb s1). destruct (b s1). cbn in *. congruence. Qed.
Lemma keeps_reading f : (forall s, keeps_gate (f s)) -> keeps_gate (reading f).
Proof. intros Hf s. apply Hf. Qed.
Lemma keeps_if (b : bool) x y : keeps_gate x -> keeps_gate y -> keeps_gate (if b then x else y).
Proof. by destruct b. Qed.

Create HintDb keeps.
#[export] Hint Resolve keeps_nothing keeps_emit keeps_seq keeps_if : keeps.
#[export] Hint Extern 1 (keeps_gate (set _)) => apply keeps_set; intros; reflexivity : keeps.
#[export] Hint Extern 1 (keeps_gate (reading _)) => apply keeps_reading; intros; cbv beta zeta : keeps.
#[export] Hint Extern 1 (keeps_gate (when _ _)) => unfold when : keeps.
#[export] Hint Extern 2 (keeps_gate (match ?x with _ => _ end)) => destruct x : keeps.
Ltac keeps_ h := unfold h; auto 30 with keeps nocore.

Lemma start_keeps : keeps_gate startSshAgentHelper.
Proof. keeps_ startSshAgentHelper. Qed.
Lemma stop_keeps : keeps_gate stopSshAgentHelper.
Proof. keeps_ stopSshAgentHelper. Qed.
Lemma prime_keeps : keeps_gate primeSshAgentLoadId.
Proof. keeps_ primeSshAgentLoadId. Qed.
#[export] Hint Resolve start_keeps stop_keeps prime_keeps : keeps.
Lemma end_keeps ok : keeps_gate (endSshAgentLoad ok).
Proof. keeps_ endSshAgentLoad. Qed.
Lemma run_keeps : keeps_gate run_list.
Proof. keeps_ run_list. Qed.
Lemma begin_keeps v : keeps_gate (beginVaultRead v).
Proof. keeps_ beginVaultRead. Qed.
#[export] Hint Resolve end_keeps run_keeps begin_keeps : keeps.
Lemma start_read_keeps v r : keeps_gate (startVaultListRead v r).
Proof. keeps_ startVaultListRead. Qed.
#[export] Hint Resolve start_read_keeps : keeps.
Lemma load_items_keeps v : keeps_gate (loadItems v).
Proof. keeps_ loadItems. Qed.
Lemma cancel_keeps : keeps_gate cancelSshAgentLoad.
Proof. keeps_ cancelSshAgentLoad. Qed.
Lemma clear_keeps : keeps_gate clearSshPublicKeys.
Proof. keeps_ clearSshPublicKeys. Qed.
Lemma export_keeps : keeps_gate exportSshPublicKeys.
Proof. keeps_ exportSshPublicKeys. Qed.
Lemma lines_keeps ls : keeps_gate (write_lines ls).
Proof. induction ls; cbn [write_lines]; auto 10 with keeps nocore. Qed.
#[export] Hint Resolve load_items_keeps cancel_keeps clear_keeps export_keeps lines_keeps : keeps.
Lemma lifecycle_keeps v event : keeps_gate (applySshAgentLifecycle v event).
Proof. keeps_ applySshAgentLifecycle. Qed.
#[export] Hint Resolve lifecycle_keeps : keeps.
Lemma maybe_startup_keeps v : keeps_gate (maybeStartupLoad v).
Proof. keeps_ maybeStartupLoad. Qed.
#[export] Hint Resolve maybe_startup_keeps : keeps.
Lemma list_exited_keeps v code : keeps_gate (onListProcessExited v code).
Proof. unfold onListProcessExited, onListFinished. auto 40 with keeps nocore. Qed.
Lemma options_keeps v : keeps_gate (sendSshAgentOptions v).
Proof. keeps_ sendSshAgentOptions. Qed.
Lemma nonce_read_keeps v raw : keeps_gate (onSshAgentLoadIdRead v raw).
Proof. keeps_ onSshAgentLoadIdRead. Qed.
#[export] Hint Resolve list_exited_keeps options_keeps nonce_read_keeps : keeps.
Lemma gate_changed_keeps v : keeps_gate (onSshAgentGateOpenChanged v).
Proof. keeps_ onSshAgentGateOpenChanged. Qed.
Lemma load_failed_keeps v m : keeps_gate (onLoadFailed v m).
Proof. keeps_ onLoadFailed. Qed.
Lemma keys_loaded_keeps v m : keeps_gate (onKeysLoaded v m).
Proof. keeps_ onKeysLoaded. Qed.
Lemma public_key_keeps m : keeps_gate (onPublicKey m).
Proof. keeps_ onPublicKey. Qed.
Lemma withdraw_keeps : keeps_gate withdraw_list.
Proof. keeps_ withdraw_list. Qed.
Lemma scrub_keeps : keeps_gate scrub_list.
Proof. keeps_ scrub_list. Qed.
#[export] Hint Resolve gate_changed_keeps load_failed_keeps keys_loaded_keeps public_key_keeps scrub_keeps withdraw_keeps : keeps.

Lemma assigned_gate v b s : sshAgentGateOpen (hlp (assign_gate v b s).1) = b.
Proof.
  unfold assign_gate, reading, seq_act, set. cbn. unfold when. destruct (negb _); [|done].
  match goal with |- context [onSshAgentGateOpenChanged v ?s'] => assert (E := gate_changed_keeps v s') end.
  destruct (onSshAgentGateOpenChanged _ _). cbn in *. done.
Qed.

(** ** Reads that carry keys

    Only with the gate open, the vault unlocked and a valid nonce. *)

Definition keyed_read (v : vault) (g : bool) (x : load_effect) : Prop :=
  match x with StartedRead (Some id) => g = true /\ unlocked v = true /\ isValidLoadId (JStr id) = true | _ => True end.
Definition at_gate (g : bool) (s : loads) : Prop := sshAgentGateOpen (hlp s) = g.
Definition careful (v : vault) (a : Actions.act loads load_effect) : Prop :=
  forall s, Forall (keyed_read v (sshAgentGateOpen (hlp s))) (a s).2.

Lemma careful_nothing v : careful v nothing.
Proof. constructor. Qed.
Lemma careful_emit v x : (match x with StartedRead (Some _) => false | _ => true end) = true -> careful v (emit x).
Proof. intros Hx s. constructor; [|constructor]. by destruct x as [| |[]| | | | | | | | | |]. Qed.
Lemma careful_set v f : careful v (set f).
Proof. constructor. Qed.
Lemma careful_seq v a b : careful v a -> keeps_gate a -> careful v b -> careful v (seq_act a b).
Proof.
  intros Ha Hk Hb s. specialize (Ha s). specialize (Hk s). unfold seq_act. destruct (a s) as [s1 e1]. specialize (Hb s1). destruct (b s1) as [s2 e2].
  cbn in *. rewrite Hk in Hb. by apply Forall_app.
Qed.
Lemma careful_reading v f : (forall s, careful v (f s)) -> careful v (reading f).
Proof. intros Hf s. apply Hf. Qed.
Lemma careful_if v (b : bool) x y : careful v x -> careful v y -> careful v (if b then x else y).
Proof. by destruct b. Qed.

Create HintDb careful.
#[export] Hint Resolve careful_nothing careful_set careful_if : careful.
#[export] Hint Extern 1 (careful _ (emit _)) => apply careful_emit; reflexivity : careful.
#[export] Hint Extern 1 (careful _ (seq_act _ _)) => apply careful_seq; [|solve [auto 30 with keeps nocore]|] : careful.
#[export] Hint Extern 1 (careful _ (reading _)) => apply careful_reading; intros; cbv beta zeta : careful.
#[export] Hint Extern 1 (careful _ (when _ _)) => unfold when : careful.
#[export] Hint Extern 2 (careful _ (match ?x with _ => _ end)) => destruct x : careful.
Ltac careful_ h := unfold h; auto 40 with careful nocore.

Lemma start_careful v : careful v startSshAgentHelper.
Proof. careful_ startSshAgentHelper. Qed.
Lemma stop_careful v : careful v stopSshAgentHelper.
Proof. careful_ stopSshAgentHelper. Qed.
Lemma prime_careful v : careful v primeSshAgentLoadId.
Proof. careful_ primeSshAgentLoadId. Qed.
#[export] Hint Resolve start_careful stop_careful prime_careful : careful.
Lemma end_careful v ok : careful v (endSshAgentLoad ok).
Proof. careful_ endSshAgentLoad. Qed.
Lemma begin_careful v v' : careful v (beginVaultRead v').
Proof. careful_ beginVaultRead. Qed.
#[export] Hint Resolve end_careful begin_careful : careful.

Lemma start_read_careful v r : careful v (startVaultListRead v r).
Proof.
  intros s. unfold startVaultListRead, seq_act, set, reading at 1. cbn.
  destruct (negb r && negb (negb (unlocked v)) && sshAgentGateOpen (hlp s) && _) eqn:E; cbn.
  - apply andb_true_iff in E as [[[_ Hu]%andb_true_iff Hg]%andb_true_iff Hv]. rewrite negb_involutive in Hu.
    unfold run_list, reading, seq_act, when. cbn. destruct (stdinEnabled (hlp s)); cbn; destruct (negb (listInFlight _)); cbn;
      repeat (apply Forall_cons_2; [done|]); constructor.
  - unfold run_list, reading, when. cbn. destruct (negb (listInFlight (rdr s))); cbn; repeat constructor.
Qed.
#[export] Hint Resolve start_read_careful : careful.
Lemma load_items_careful v : careful v (loadItems v).
Proof. careful_ loadItems. Qed.
Lemma cancel_careful v : careful v cancelSshAgentLoad.
Proof. careful_ cancelSshAgentLoad. Qed.
Lemma clear_careful v : careful v clearSshPublicKeys.
Proof. careful_ clearSshPublicKeys. Qed.
Lemma export_careful v : careful v exportSshPublicKeys.
Proof. careful_ exportSshPublicKeys. Qed.
Lemma lines_careful v ls : careful v (write_lines ls).
Proof. induction ls; cbn [write_lines]; auto 10 with careful nocore. Qed.
#[export] Hint Resolve load_items_careful cancel_careful clear_careful export_careful lines_careful : careful.
Lemma lifecycle_careful v event : careful v (applySshAgentLifecycle v event).
Proof. careful_ applySshAgentLifecycle. Qed.
#[export] Hint Resolve lifecycle_careful : careful.
Lemma maybe_startup_careful v : careful v (maybeStartupLoad v).
Proof. careful_ maybeStartupLoad. Qed.
#[export] Hint Resolve maybe_startup_careful : careful.
Lemma list_exited_careful v code : careful v (onListProcessExited v code).
Proof. unfold onListProcessExited, onListFinished. auto 40 with careful nocore. Qed.
Lemma options_careful v : careful v (sendSshAgentOptions v).
Proof. careful_ sendSshAgentOptions. Qed.
Lemma nonce_read_careful v raw : careful v (onSshAgentLoadIdRead v raw).
Proof. careful_ onSshAgentLoadIdRead. Qed.
#[export] Hint Resolve list_exited_careful options_careful nonce_read_careful : careful.
Lemma gate_changed_careful v : careful v (onSshAgentGateOpenChanged v).
Proof. careful_ onSshAgentGateOpenChanged. Qed.
Lemma load_failed_careful v m : careful v (onLoadFailed v m).
Proof. careful_ onLoadFailed. Qed.
Lemma keys_loaded_careful v m : careful v (onKeysLoaded v m).
Proof. careful_ onKeysLoaded. Qed.
Lemma public_key_careful v m : careful v (onPublicKey m).
Proof. careful_ onPublicKey. Qed.
#[export] Hint Resolve gate_changed_careful load_failed_careful keys_loaded_careful public_key_careful : careful.

Lemma scrub_careful v : careful v scrub_list.
Proof.
  intros s. unfold scrub_list, reading at 1. destruct (listRunning (rdr s)); [constructor|]. destruct (listCommand (rdr s)); [constructor|].
  unfold seq_act, set, run_list, reading, when. cbn. destruct (negb _); cbn; constructor.
Qed.
Lemma withdraw_careful v : careful v withdraw_list.
Proof. careful_ withdraw_list. Qed.
#[export] Hint Resolve scrub_careful withdraw_careful : careful.

(** ** Locking *)

(** What cancelling leaves and does. *)
(** The random number for the next window is asked for unless one is there or on its way. *)
Definition asks_nonce (s : loads) : bool :=
  sshAgentLoadActive (win s) && bool_decide (loadIdProc (win s) = NonceIdle) && bool_decide (sshAgentNextLoadId (win s) = []).

Lemma cancel_spec s :
  let '(s', es) := cancelSshAgentLoad s in
  inactive s' /\ listRunning (rdr s') = false /\ sshAgentEpoch (win s') = sshAgentEpoch (win s) /\ hlp s' = hlp s /\ pub s' = pub s /\
  es = (if listRunning (rdr s) then [StoppedRead] else [])
    ++ (if sshAgentLoadActive (win s) && channel s then [LoadLine (wire (LoadEnd (sshAgentEpoch (win s)) false))] else [])
    ++ (if asks_nonce s then [AskedNonce] else []).
Proof.
  unfold cancelSshAgentLoad, endSshAgentLoad, primeSshAgentLoadId, asks_nonce, inactive, when, seq_act, reading, set, emit, nothing.
  destruct (listRunning (rdr s)) eqn:Er, (sshAgentLoadActive (win s)) eqn:Ea; cbn; rewrite ?Ea; cbn;
    try match goal with |- context [channel ?s'] => change (channel s') with (channel s); destruct (channel s); cbn end;
    repeat match goal with |- context [negb ?x] => destruct x; cbn end; by rewrite ?Er; split_and!.
Qed.

(** Writing the lines of an action when the channel is open. *)
Lemma write_lines_spec ls s : write_lines ls s = (s, if channel s then map LoadLine ls else []).
Proof.
  induction ls as [|l ls IH]; cbn; [by destruct (channel s)|]. unfold seq_act, reading, when. destruct (channel s) eqn:E; cbn; rewrite IH; done.
Qed.

Lemma lock_event_shape v s event : event ∈ SSH_AGENT_LOCK_EVENTS ->
  let live := agentEnabled v && sshAgentGateOpen (hlp s) in
  sshAgentLifecycleTransition event (sshAgentVaultContext v s) =
  LifecycleAction (if live then [wire (VaultLocked (sshAgentEpoch (win s)))] else []) true false live false false false.
Proof. intros He. cbv zeta. rewrite lifecycle_shape. unfold SSH_AGENT_LOCK_EVENTS in *. set_unfold in He. by destruct He as [->|[->|[->|[]]]]. Qed.

(** C21: What a lock, a screen lock or a suspend does about loads, in this order: it stops
    the running read, ends the open window as failed, asks for the random number of the
    next window when a window was open and none is there or on its way, tells the
    companion of the lock, and awaits the acknowledgement exactly when the companion
    serves.  Both lines are under the current epoch, and no read, window or companion is
    started. *)
Theorem lock_closes_first v event s : event ∈ SSH_AGENT_LOCK_EVENTS ->
  let live := agentEnabled v && sshAgentGateOpen (hlp s) in
  let '(s', es) := applySshAgentLifecycle v event s in
  inactive s' /\ listRunning (rdr s') = false /\ sshAgentEpoch (win s') = sshAgentEpoch (win s) /\ hlp s' = hlp s /\ pub s' = pub s /\
  es = (if listRunning (rdr s) then [StoppedRead] else [])
    ++ (if sshAgentLoadActive (win s) && channel s then [LoadLine (wire (LoadEnd (sshAgentEpoch (win s)) false))] else [])
    ++ (if asks_nonce s then [AskedNonce] else [])
    ++ (if live && channel s then [LoadLine (wire (VaultLocked (sshAgentEpoch (win s))))] else [])
    ++ (if live then [ArmedLockAck] else []).
Proof.
  intros He. cbv zeta. unfold applySshAgentLifecycle, reading at 1. cbv zeta. rewrite (lock_event_shape v s event He). cbv zeta.
  set (live := agentEnabled v && _). cbn [cancelLoad startLoad awaitLockAck stopHelper clearPublic advanceEpoch controlLines].
  unfold seq_act. unfold when at 1. assert (Hc := cancel_spec s). destruct (cancelSshAgentLoad s) as [s1 e1].
  destruct Hc as (H1 & H2 & H3 & H4 & H5 & ->). rewrite write_lines_spec.
  assert (Ech : channel s1 = channel s) by (unfold channel; by rewrite H4). rewrite Ech.
  unfold when, nothing, reading, emit. destruct live, (channel s); cbn; rewrite ?app_nil_r, <- ?app_assoc; by split_and!.
Qed.

Lemma lock_closes_first_witness :
  let v := Vault true (js "unlocked") 3 true true false (NZ 0) in
  let s := Loads (Window 4 (js "0123456789abcdef0123456789abcdef") true [] NonceIdle 3 0) (Reader true true (Listing None) true false false (Some 3))
             (Helper true true true) (PublicKeys 2 (NZ 0) [] 4 false false) in
  js "suspend" ∈ SSH_AGENT_LOCK_EVENTS /\
  let '(s', es) := applySshAgentLifecycle v (js "suspend") s in
  inactive s' /\ es = [StoppedRead; LoadLine (wire (LoadEnd 4 false)); AskedNonce; LoadLine (wire (VaultLocked 4)); ArmedLockAck].
Proof.
  cbv zeta. assert (He : js "suspend" ∈ SSH_AGENT_LOCK_EVENTS) by (unfold SSH_AGENT_LOCK_EVENTS; set_solver). split; [exact He|].
  pose proof (lock_closes_first (Vault true (js "unlocked") 3 true true false (NZ 0)) (js "suspend")
    (Loads (Window 4 (js "0123456789abcdef0123456789abcdef") true [] NonceIdle 3 0) (Reader true true (Listing None) true false false (Some 3))
       (Helper true true true) (PublicKeys 2 (NZ 0) [] 4 false false)) He) as H.
  cbv zeta in H. destruct (applySshAgentLifecycle _ _ _) as [s' es]. split; [exact (proj1 H)|]. exact (proj2 (proj2 (proj2 (proj2 (proj2 H))))).
Defined.
