(* ===== verification/AgentService.v ===== *)
(** * The companion in the service ([Service.qml])

    The supervisor of [SshAgent], the prompts of [PromptFlow] and the loads of
    [LoadFlow] as one object: an event of the companion's process goes through the
    reducer, whose state is committed first, then the gate's handler runs, then the
    side effects in order, and a message of the companion is dispatched by its type. *)

From S2P Require Import Prelude.
From S2P Require Import JsNum.
From S2P Require Import JsString.
From S2P Require Import JsValue.
From S2P Require Import SshAgent.
From S2P Require Import SshPrompts.
From S2P Require Import Scripts.
From S2P Require Import Actions.
From S2P Require Import PromptFlow.
From S2P Require Import LoadFlow.
Local Open Scope act_scope.

Record service := Service {
  sup : agent_state;                (** [sshAgentState] *)
  lds : loads;
  prm : prompts;
  probing : bool                    (** [sshAgentLockProbeProc.running] *)
}.

(** What every handler finds around it; the channel and the vault's status the prompts
    see are those of the loads. *)
Record around := Around { around_vault : vault; around_prompts : surroundings; runtimeDir : jsval }.

Definition seen (a : around) (s : service) : surroundings :=
  let e := around_prompts a in
  Surroundings (clock (around_vault a)) (screenLocked e) (approvalPopup e) (approvalWindowSec e) (approvalUntilScreenLock e)
    (unlocked (around_vault a)) (channel (lds s)) (open_panel e) (close_panel e).

Inductive service_effect :=
| FromLoads (x : load_effect)
| FromPrompts (x : effect)
| SaidHello
| CancelledRestart
| RestartIn (ms : num)
| Probed
| Killed
| Revoked (line : list Z).

Definition init_service (p : panel) : service := Service sshAgentInitialState init_loads (init_prompts p) false.

Notation sact := (Actions.act service service_effect).

Definition on_loads (a : Actions.act loads load_effect) : sact := fun s =>
  let '(l, es) := a (lds s) in (Service (sup s) l (prm s) (probing s), map FromLoads es).
Definition on_prompts (a : Actions.act prompts effect) : sact := fun s =>
  let '(p, es) := a (prm s) in (Service (sup s) (lds s) p (probing s), map FromPrompts es).
Definition set_sup (st : agent_state) (s : service) : service := Service st (lds s) (prm s) (probing s).
Definition set_probing (b : bool) (s : service) : service := Service (sup s) (lds s) (prm s) b.
Definition if_so (b : bool) (a : sact) : sact := if b then a else nothing.

Section handlers.
  Context (a : around).
Let v := around_vault a.

Definition prompt_event (ev : flow_event) : sact := reading (fun s => on_prompts (handle (seen a s) ev)).

Definition onSshAgentMessage (message : jsval) : sact :=
  let typed t := strict_eqb (get message (js "type")) (JStr (js t)) in
  if typed "approval_required"%string then prompt_event (ApprovalRequired message)
  else if typed "unlock_required"%string then prompt_event (UnlockRequired message)
  else if typed "request_cancelled"%string then prompt_event (RequestCancelled message)
  else if typed "grants_changed"%string then prompt_event (GrantsChanged message)
  else if typed "public_key"%string then on_loads (onPublicKey message)
  else if typed "keys_loaded"%string then on_loads (onKeysLoaded v message)
  else if typed "load_failed"%string then on_loads (onLoadFailed v message)
  else if typed "locked"%string then on_loads (emit StoppedLockAck)
  else if typed "state_changed"%string then on_loads (onStateChanged message)
  else nothing.

(** The side effects the reducer asks for, in the order they are done. *)
Definition perform (action : agent_action) : sact :=
  if_so (cancelRestart action) (emit CancelledRestart) ;;
  if_so (stop action) (on_loads stopSshAgentHelper) ;;
  reading (fun s => if_so (writeHello action && helperRunning (hlp (lds s))) (emit SaidHello)) ;;
  if_so (num_leb (NZ 0) (restartInMs action)) (emit (RestartIn (restartInMs action))) ;;
  if_so (start action) (on_loads startSshAgentHelper) ;;
  if_so (truthy (message action)) (onSshAgentMessage (message action)).

Definition applySshAgentEvent (k : event_kind) : sact := reading (fun s =>
  let '(st, action) := sshAgentReduce (Some (sup s)) (AgentEvent k (JNum (clock v))) in
  set (set_sup st) ;;
  on_loads (assign_gate v (gateOpen st)) ;;
  perform action).

(** ** The companion's process *)

Definition onSshAgentHelperExited : sact := reading (fun s =>
  if (negb (bool_decide (phase_of (sup s) = starting)) && negb (bool_decide (phase_of (sup s) = handshaking)))
     || negb (bool_decide (is_Some (sshAgentLockProbeCommand (runtimeDir a)))) || probing s
  then applySshAgentEvent (EvExited JUndef)
  else set (set_probing true) ;; emit Probed).

(** [sshAgentProc.onExited] *)
Definition helper_exited : sact :=
  on_loads (set (on_hlp (fun h => Helper (sshAgentGateOpen h) false (stdinEnabled h))) ;; emit StoppedTerminate) ;;
  onSshAgentHelperExited.

Definition probe_exited (exitCode : Z) : sact :=
  set (set_probing false) ;; applySshAgentEvent (EvExited (JBool (sshAgentLockHeld (JNum (NZ exitCode))))).

Definition onScreenLockState : sact := reading (fun s =>
  if_so (screenLocked (around_prompts a) && helperRunning (hlp (lds s)))
    (if_so (channel (lds s)) (emit (Revoked sshAgentRevokeGrantsLine)))).

Definition onStatusChanged : sact := prompt_event PromptFlow.StatusChanged ;; on_loads (maybeStartupLoad v).

(** ** Events *)

Inductive service_event :=
| HelperStarted | HelperLine (line : jsval) | HelperExited | ProbeExited (exitCode : Z)
| HandshakeTimer | RestartTimer | KillTimer
| SupervisableChanged (value : bool) | OptionsChanged
| Lifecycle (event : list Z) | StatusMoved | VaultDropped | ScreenLockMoved
| ItemsWanted | ListExited (exitCode : Z) | ListWithdrawn | ListScrubbed
| NonceOutput (raw : jsval) | NonceExited | StartupTimer | ExportExited | ClearExited
| Clicked (ev : flow_event).

Definition dispatch (ev : service_event) : sact :=
  match ev with
  | HelperStarted =>
      on_loads (set (on_hlp (fun h => Helper (sshAgentGateOpen h) true (stdinEnabled h)))) ;; applySshAgentEvent EvStarted
  | HelperLine line => applySshAgentEvent (EvLine line)
  | HelperExited => helper_exited
  | ProbeExited code => probe_exited code
  | HandshakeTimer => applySshAgentEvent EvHandshakeTimeout
  | RestartTimer => applySshAgentEvent EvRestartTimer
  | KillTimer => reading (fun s => if_so (helperRunning (hlp (lds s))) (emit Killed))
  | SupervisableChanged b => applySshAgentEvent (EvEnabled (JBool b))
  | OptionsChanged => on_loads (sendSshAgentOptions v)
  | Lifecycle event => on_loads (applySshAgentLifecycle v event)
  | StatusMoved => onStatusChanged
  | VaultDropped => on_loads forget_reads
  | ScreenLockMoved => onScreenLockState
  | ItemsWanted => on_loads (loadItems v)
  | ListExited code => on_loads (onListProcessExited v code)
  | ListWithdrawn => on_loads withdraw_list
  | ListScrubbed => on_loads scrub_list
  | NonceOutput raw => on_loads (onSshAgentLoadIdRead v raw)
  | NonceExited => on_loads loadIdProc_exited
  | StartupTimer => on_loads (maybeStartupLoad v)
  | ExportExited => on_loads (set (fun s => set_exporting false (clearRunning (pub s)) s))
  | ClearExited => on_loads (set (fun s => set_exporting (exportRunning (pub s)) false s))
  | Clicked ev => prompt_event ev
  end.
End handlers.

(** ** The companion and the processes

    What one companion has read of the load protocol since it started, [None] while
    none runs.  An event is possible when the process it comes from is in the state
    for it: a companion starts when none runs, lines come from a running one, a read
    exits when it is in flight, the output of the nonce is read once per run and
    before its exit, and the user's clicks are not messages of the companion. *)
Record world := World { svc : service; transcript : option (list (list Z)) }.

Definition user_event (ev : flow_event) : bool :=
  match ev with ApprovalRequired _ | UnlockRequired _ | RequestCancelled _ | GrantsChanged _ | PromptFlow.StatusChanged => false | _ => true end.

Definition possible (w : world) (ev : service_event) : Prop :=
  match ev with
  | HelperStarted => transcript w = None
  | HelperLine _ => is_Some (transcript w)
  | ProbeExited _ => probing (svc w) = true
  | ListExited _ => listInFlight (rdr (lds (svc w))) = true
  | ListWithdrawn => listRunning (rdr (lds (svc w))) = false /\ listInFlight (rdr (lds (svc w))) = true
  | NonceOutput _ => loadIdProc (win (lds (svc w))) = NonceReading
  | NonceExited => loadIdProc (win (lds (svc w))) = NonceRead
  | Clicked ev => user_event ev = true
  | _ => True
  end.

Definition load_line_of (x : service_effect) : list (list Z) := match x with FromLoads (LoadLine l) => [l] | _ => [] end.
Definition load_lines (es : list service_effect) : list (list Z) := es ≫= load_line_of.

(** The companion's process before the service handles the event. *)
Definition listener (w : world) (ev : service_event) : option (list (list Z)) :=
  match ev with HelperStarted => Some [] | HelperExited => None | _ => transcript w end.

Definition next_world (a : around) (ev : service_event) (w : world) : world :=
  let '(s, es) := dispatch a ev (svc w) in
  World s ((fun t => t ++ load_lines es) <$> listener w ev).

(** Epochs are properties of type [int]: no run reaches the last one. *)
Definition room (w : world) : Prop := sshAgentEpoch (win (lds (svc w))) < 2 ^ 31 - 1.

Inductive reached : world -> Prop :=
| reached_init p : reached (World (init_service p) None)
| reached_step a ev w : reached w -> possible w ev -> room w -> reached (next_world a ev w).
