(* ===== verification/AgentServiceCorrect.v ===== *)
(** * The companion, its loads and its prompts together

    In every state the service can reach, whatever order events arrive in: what it has
    written about loads is a conversation the companion accepts but for one race, a window is
    open only behind an open gate, and the prompts are in a state of their own
    transition system, fed only by well-formed messages of a companion that is ready. *)

From S2P Require Import Prelude.
From S2P Require Import JsNum.
From S2P Require Import JsString.
From S2P Require Import JsValue.
From S2P Require Import Json.
From S2P Require Import SshAgent.
From S2P Require Import SshAgentCorrect.
From S2P Require Import SshPrompts.
From S2P Require Import SshPromptsCorrect.
From S2P Require Import Scripts.
From S2P Require Import Actions.
From S2P Require Import PromptFlow.
From S2P Require Import PromptFlowCorrect.
From S2P Require Import LoadFlow.
From S2P Require Import Companion.
From S2P Require Import LoadFlowCorrect.
From S2P Require Import AgentService.

(** ** Lifting *)

Definition heard_all (w : option talk) (es : list service_effect) (w' : option talk) : Prop := taken w (load_lines es) w'.

Lemma heard_all_nil w : heard_all w [] w.
Proof. apply taken_nil. Qed.
Lemma heard_all_app w1 w2 w3 e1 e2 : heard_all w1 e1 w2 -> heard_all w2 e2 w3 -> heard_all w1 (e1 ++ e2) w3.
Proof. unfold heard_all, load_lines. rewrite bind_app. apply taken_app. Qed.

Lemma lines_from_loads es : load_lines (map FromLoads es) = lines_of es.
Proof. unfold load_lines, lines_of. induction es as [|x es IH]; cbn; [done|]. rewrite IH. by destruct x. Qed.
Lemma lines_from_prompts es : load_lines (map FromPrompts es) = [].
Proof. unfold load_lines. by induction es as [|x es IH]. Qed.

Notation sends := (Actions.sends heard_all).

(** The supervisor in its invariant with the gate at [g], and [P] of the loads. *)
Definition holds (g : bool) (P : loads -> option talk -> Prop) (s : service) (w : option talk) : Prop :=
  agent_inv (sup s) /\ gateOpen (sup s) = g /\ sshAgentGateOpen (hlp (lds s)) = g /\ P (lds s) w.

Lemma on_loads_holds g P Q a : Actions.sends heard P Q a -> keeps_gate a -> sends (holds g P) (holds g Q) (on_loads a).
Proof.
  intros Ha Hk s w (H1 & H2 & H3 & H4). destruct (Ha _ _ H4) as (w' & Hh & HQ). specialize (Hk (lds s)). exists w'. unfold on_loads.
  destruct (a (lds s)) as [l es]. cbn in *. split; [unfold heard_all; by rewrite lines_from_loads|]. split_and!; cbn; congruence || done.
Qed.

Lemma on_prompts_holds g P a : sends (holds g P) (holds g P) (on_prompts a).
Proof.
  intros s w H. exists w. unfold on_prompts. destruct (a (prm s)) as [p es]. cbn. split; [unfold heard_all; rewrite lines_from_prompts; apply taken_nil|done].
Qed.

Lemma holds_impl g (P Q : loads -> option talk -> Prop) s w : (forall l w, P l w -> Q l w) -> holds g P s w -> holds g Q s w.
Proof. intros H (H1 & H2 & H3 & H4). split_and!; auto. Qed.

Lemma sends_plain (P : service -> option talk -> Prop) x : load_line_of x = [] -> sends P P (emit x).
Proof. intros Hx. apply sends_emit. intros s w H. exists w. split; [|done]. unfold heard_all, load_lines. cbn. rewrite Hx. apply taken_nil. Qed.

Lemma sends_same (P Q : service -> option talk -> Prop) : (forall s w, P s w -> Q s w) -> sends P Q nothing.
Proof. intros H s w HP. exists w. split; [apply taken_nil|auto]. Qed.

Lemma sends_if_so (P Q : service -> option talk -> Prop) (b : bool) a :
  (b = true -> sends P Q a) -> (b = false -> forall s w, P s w -> Q s w) -> sends P Q (if_so b a).
Proof. destruct b; cbn; [auto|]. intros _ H. apply sends_same. auto. Qed.

Ltac then_ Q := apply (sends_seq _ heard_all_app _ Q).

(** ** Messages *)

Lemma less01 l w : tidy 1 l w -> tidy 0 l w.
Proof. intros H. eapply tidy_less; [done|lia]. Qed.
#[local] Hint Resolve less01 : core.

Lemma prompt_event_holds a g P ev : sends (holds g P) (holds g P) (prompt_event a ev).
Proof. apply sends_any. intros s0. apply on_prompts_holds. Qed.

Lemma message_holds a g m : sends (holds g (tidy 1)) (holds g (tidy 0)) (onSshAgentMessage a m).
Proof.
  assert (Hp : forall ev, sends (holds g (tidy 1)) (holds g (tidy 0)) (prompt_event a ev)).
  { intros ev. eapply sends_weaken; [apply (prompt_event_holds a g (tidy 1))|done|]. intros s w. apply holds_impl; auto. }
  assert (Hl : forall f, Actions.sends heard (tidy 1) (tidy 1) f -> keeps_gate f -> sends (holds g (tidy 1)) (holds g (tidy 0)) (on_loads f)).
  { intros f H1 H2. eapply sends_weaken; [by apply on_loads_holds|done|]. intros s w. apply holds_impl; auto. }
  unfold onSshAgentMessage. cbv zeta. repeat (destruct (strict_eqb _ _); [auto|]).
  - apply Hl; [apply public_key_sends|auto with keeps].
  - apply Hl; [apply keys_loaded_sends|auto with keeps].
  - apply on_loads_holds; [apply load_failed_sends|auto with keeps].
  - apply Hl; [by apply LoadFlowCorrect.sends_quiet|auto with keeps].
  - apply Hl; [by apply sends_sight|unfold onStateChanged; auto with keeps].
  - apply sends_same. intros s w. apply holds_impl; auto.
Qed.

(** ** Events of the supervisor *)

(** What a transition asks for with the gate open, and with it shut. *)
Lemma reduce_asks s ev st action : agent_inv s -> sshAgentReduce (Some s) ev = (st, action) ->
  (gateOpen st = true -> start action = false /\ stop action = false) /\ (gateOpen st = false -> truthy (message action) = false).
Proof.
  intros I H. assert (Hr := agent_reduce_inv s ev I). rewrite H in Hr. cbn in Hr.
  assert (Hg := inv_gate _ I). revert H. reduce_cases ev.
  all: unfold sshAgentFailOnExit; repeat case_match; intros [= <- <-]; cbn in *; split; try done; try congruence.
  all: rewrite Hg; intros Hg'; destruct (phase_of s); cbn in *; try done; try congruence.
Qed.

(** Before an event of the supervisor: the invariant, or, as the companion has just
    gone, all of it but that somebody is behind the gate. *)
Definition before (k : event_kind) (s : service) (w : option talk) : Prop :=
  agent_inv (sup s) /\ gateOpen (sup s) = sshAgentGateOpen (hlp (lds s)) /\ loose 1 (lds s) w /\
  (sshAgentLoadActive (win (lds s)) = true -> sshAgentGateOpen (hlp (lds s)) = true) /\
  (tidy 1 (lds s) w \/ exists held, k = EvExited held) /\ ((exists line, k = EvLine line) -> is_Some w).

Definition inv (n : Z) (s : service) (w : option talk) : Prop := exists g, holds g (tidy n) s w.

Lemma inv_before n k s w : inv n s w -> 1 <= n -> ((exists line, k = EvLine line) -> is_Some w) -> before k s w.
Proof.
  intros (g & H1 & H2 & H3 & H4) Hn Hl. assert (Ht : tidy 1 (lds s) w) by (by eapply tidy_less). split_and!; [done|congruence|apply Ht| |by left|done].
  by intros []%(tidy_active _ _ _ Ht).
Qed.

(** The gate is assigned what the supervisor says. *)
Lemma assign_opens v st : agent_inv st -> gateOpen st = true ->
  sends (fun s w => tidy 1 (lds s) w /\ is_Some w /\ sup s = st) (holds true (tidy 1)) (on_loads (assign_gate v true)).
Proof.
  intros I E s w (Ht & Hw & Es). destruct (gate_opens 1 v (lds s) w) as (w' & Hh & HQ); [done|]. exists w'. unfold on_loads.
  assert (Hg := assigned_gate v true (lds s)). destruct (assign_gate v true (lds s)) as [l es]. cbn in *.
  split; [unfold heard_all; by rewrite lines_from_loads|]. split_and!; cbn; congruence || done.
Qed.

Lemma assign_shuts v st : agent_inv st -> gateOpen st = false ->
  sends (fun s w => loose 1 (lds s) w /\ (sshAgentLoadActive (win (lds s)) = true -> sshAgentGateOpen (hlp (lds s)) = true) /\ sup s = st)
    (holds false (idle 1)) (on_loads (assign_gate v false)).
Proof.
  intros I E s w (Hl & Ha & Es). destruct (gate_shuts 1 v (lds s) w) as (w' & Hh & HQ); [done|]. exists w'. unfold on_loads.
  assert (Hg := assigned_gate v false (lds s)). destruct (assign_gate v false (lds s)) as [l es]. cbn in *.
  split; [unfold heard_all; by rewrite lines_from_loads|]. split_and!; cbn; congruence || done.
Qed.

(** With the gate shut the rest of an event may stop or start the companion. *)
Lemma shut_tail a (action : agent_action) : truthy (message action) = false -> sends (holds false (idle 1)) (inv 0) (perform a action).
Proof.
  intros Hm. then_ (holds false (idle 1)); [apply sends_if_so; [intros _; by apply sends_plain|done]|].
  then_ (holds false (idle 1)); [apply sends_if_so; [intros _; apply on_loads_holds; [apply stop_sends|auto with keeps]|done]|].
  then_ (holds false (idle 1)); [apply sends_any; intros; apply sends_if_so; [intros _; by apply sends_plain|done]|].
  then_ (holds false (idle 1)); [apply sends_if_so; [intros _; by apply sends_plain|done]|].
  then_ (holds false (idle 1)); [apply sends_if_so; [intros _; apply on_loads_holds; [apply start_sends|auto with keeps]|done]|].
  rewrite Hm. apply sends_same. intros s w H. exists false. eapply holds_impl; [|exact H]. intros l w' Hi. apply less01, idle_tidy, Hi.
Qed.

(** With the gate open it may only hand on a message. *)
Lemma open_tail a (action : agent_action) : start action = false -> stop action = false -> sends (holds true (tidy 1)) (inv 0) (perform a action).
Proof.
  intros Hst Hsp. unfold perform. rewrite Hst, Hsp. cbn [if_so]. then_ (holds true (tidy 1)); [apply sends_if_so; [intros _; by apply sends_plain|done]|].
  then_ (holds true (tidy 1)); [by apply sends_same|].
  then_ (holds true (tidy 1)); [apply sends_any; intros; apply sends_if_so; [intros _; by apply sends_plain|done]|].
  then_ (holds true (tidy 1)); [apply sends_if_so; [intros _; by apply sends_plain|done]|].
  then_ (holds true (tidy 1)); [by apply sends_same|].
  apply sends_if_so; [intros _|intros _ s w H; exists true; eapply holds_impl; [|exact H]; auto].
  eapply sends_weaken; [apply message_holds|done|]. intros s w H. by exists true.
Qed.

Lemma apply_sends a k : sends (before k) (inv 0) (applySshAgentEvent a k).
Proof.
  apply sends_reading. intros s0. set (v := around_vault a). destruct (sshAgentReduce _ _) as [st action] eqn:E.
  eapply (sends_pure _ _ _ (agent_inv (sup s0) /\ gateOpen (sup s0) = sshAgentGateOpen (hlp (lds s0)))); [intros s w [(? & ? & _) ->]; done|].
  intros [I Eg]. destruct (reduce_asks _ _ _ _ I E) as [Ho Hs]. assert (I' : agent_inv st).
  { replace st with (sshAgentReduce (Some (sup s0)) (AgentEvent k (JNum (clock v)))).1 by (by rewrite E). by apply agent_reduce_inv. }
  destruct (gateOpen st) eqn:Est.
  - then_ (fun s w => tidy 1 (lds s) w /\ is_Some w /\ sup s = st).
    { apply sends_set; [exact heard_all_nil|]. intros s w [(_ & _ & _ & _ & Ht & Hl) ->]. cbn.
      assert (Hne : forall held, k <> EvExited held).
      { intros held ->. destruct (gateOpen (sup s0)) eqn:E0.
        - assert (Hp : phase_of (sup s0) = ready) by (rewrite (inv_gate _ I) in E0; by apply bool_decide_eq_true in E0).
          destruct (gate_stays_open _ _ _ _ E Hp Est) as (_ & H & _). by apply (H held).
        - by destruct (gate_open_cause _ _ _ _ E E0 Est) as (_ & line & m & H & _). }
      destruct Ht as [Ht|[held Hk]]; [|by destruct (Hne held)]. split_and!; [done| |done].
      destruct (gateOpen (sup s0)) eqn:E0; [apply (tidy_gate _ _ _ Ht); congruence|].
      destruct (gate_open_cause _ _ _ _ E E0 Est) as (_ & line & m & H & _). apply Hl. eauto. }
    then_ (holds true (tidy 1)); [by apply assign_opens|]. destruct (Ho eq_refl). by apply open_tail.
  - then_ (fun s w => loose 1 (lds s) w /\ (sshAgentLoadActive (win (lds s)) = true -> sshAgentGateOpen (hlp (lds s)) = true) /\ sup s = st).
    { apply sends_set; [exact heard_all_nil|]. intros s w [(_ & _ & Hl & Ha & _) ->]. done. }
    then_ (holds false (idle 1)); [by apply assign_shuts|]. by apply shut_tail, Hs.
Qed.

(** ** Every event *)

(** The companion as the service handles the event. *)
Definition listening (ev : service_event) (w : option talk) : option talk :=
  match ev with HelperStarted => Some fresh | HelperExited => None | _ => w end.

Definition may (ev : service_event) (s : service) (w : option talk) : Prop :=
  match ev with
  | HelperStarted => w = None
  | HelperLine _ => is_Some w
  | NonceOutput _ => loadIdProc (win (lds s)) = NonceReading
  | _ => True
  end.

Lemma loads_event (f : Actions.act loads load_effect) : Actions.sends heard (tidy 1) (tidy 0) f -> keeps_gate f -> sends (inv 1) (inv 0) (on_loads f).
Proof.
  intros Hf Hk s w (g & H). destruct (on_loads_holds g _ _ f Hf Hk s w H) as (w' & Hh & H'). exists w'. split; [done|]. by exists g.
Qed.

Lemma calm_event (f : Actions.act loads load_effect) : Actions.sends heard (tidy 1) (tidy 1) f -> keeps_gate f -> sends (inv 1) (inv 0) (on_loads f).
Proof. intros Hf. apply loads_event. eapply sends_weaken; [exact Hf|done|auto]. Qed.

Lemma supervised_event a k : (forall line, k <> EvLine line) -> sends (inv 1) (inv 0) (applySshAgentEvent a k).
Proof. intros Hk. eapply sends_weaken; [apply apply_sends| |done]. intros s w H. apply (inv_before 1); [done|lia|]. intros [line ->]. by destruct (Hk line). Qed.

Lemma inv_less s w : inv 1 s w -> inv 0 s w.
Proof. intros (g & H). exists g. eapply holds_impl; [|exact H]. auto. Qed.
#[local] Hint Resolve inv_less : core.

Lemma prompts_event a ev : sends (inv 1) (inv 0) (prompt_event a ev).
Proof.
  intros s w (g & H). destruct (prompt_event_holds a g (tidy 1) ev s w H) as (w' & Hh & H'). exists w'. split; [done|]. apply inv_less. by exists g.
Qed.

(** A change of the process under way, before the supervisor hears of it. *)
Lemma process_moves (P : service -> option talk -> Prop) k (f : loads -> loads) :
  (forall s w, P s w -> before k (Service (sup s) (f (lds s)) (prm s) (probing s)) w) -> sends P (before k) (on_loads (set f)).
Proof. intros H s w HP. exists w. split; [apply heard_all_nil|]. by apply H. Qed.

Lemma started_event a : sends (fun s w => inv 1 s None /\ w = Some fresh) (inv 0) (dispatch a HelperStarted).
Proof.
  then_ (before EvStarted); [|apply apply_sends]. apply process_moves.
  intros s w [(g & H1 & H2 & H3 & [[L1 L2 L3 L4 L5 L6 L7] H5 H6]) ->].
  assert (Hg : sshAgentGateOpen (hlp (lds s)) = false). { destruct (sshAgentGateOpen _); [|done]. by destruct (H5 eq_refl). }
  assert (Ha : sshAgentLoadActive (win (lds s)) = false). { destruct (sshAgentLoadActive _); [|done]. destruct H6 as [E _]; congruence. }
  assert (Hl : loose 1 (on_hlp (fun h => Helper (sshAgentGateOpen h) true (stdinEnabled h)) (lds s)) (Some fresh)).
  { split; cbn; try done. intros c [= <-]. rewrite Ha. cbn. split; [done|lia]. }
  split_and!; cbn; [done|congruence|done|congruence| |by intros [? [=]]]. left. split; [done|cbn; congruence|cbn; congruence].
Qed.

Lemma exited_event a : sends (fun s w => (exists w0, inv 1 s w0) /\ w = None) (inv 0) (dispatch a HelperExited).
Proof.
  then_ (before (EvExited JUndef)).
  - intros s w [(w0 & g & H1 & H2 & H3 & [[L1 L2 L3 L4 L5 L6 L7] H5 H6]) ->]. exists None. split; [done|].
    split_and!; cbn; [done|congruence| |by intros [? _]%H6|by right; eexists|by intros [? [=]]]. by split; cbn.
  - apply sends_reading. intros s0. destruct (_ || _ || _) eqn:E.
    { eapply sends_weaken; [apply apply_sends|by intros s w [H _]|done]. }
    then_ (inv 0); [|by apply sends_plain]. apply sends_set; [exact heard_all_nil|].
    intros s w [(H1 & H2 & Hl & Ha & _) ->]. apply orb_false_iff in E as [[E _]%orb_false_iff _].
    assert (Hg : gateOpen (sup s0) = false). { rewrite (inv_gate _ H1). destruct (phase_of (sup s0)); done. }
    exists false. split_and!; cbn; [done|done|congruence|]. apply less01, idle_tidy, shut_idle. split_and!; [done| |intros ?; congruence].
    unfold inactive. destruct (sshAgentLoadActive _); [|done]. specialize (Ha eq_refl). congruence.
Qed.

Lemma sends_apply (P Q : service -> option talk -> Prop) a s w : sends P Q a -> P s w -> exists w', heard_all w (a s).2 w' /\ Q (a s).1 w'.
Proof. intros Ha. apply Ha. Qed.

Lemma dispatch_inv a ev s w : inv 1 s w -> may ev s w ->
  exists w', heard_all (listening ev w) (dispatch a ev s).2 w' /\ inv 0 (dispatch a ev s).1 w'.
Proof.
  intros Hi Hm. destruct ev; cbn [listening may] in *;
    lazymatch goal with
    | |- context [dispatch a HelperStarted] => idtac
    | |- context [dispatch a HelperExited] => idtac
    | |- context [dispatch a (HelperLine _)] => idtac
    | |- context [dispatch a (NonceOutput _)] => idtac
    | _ => apply (sends_apply (inv 1)); [|exact Hi]; unfold dispatch
    end.
  - subst w. eapply sends_apply; [apply started_event|done].
  - eapply sends_apply; [apply apply_sends|]. apply (inv_before 1); [done|lia|done].
  - eapply sends_apply; [apply exited_event|]. split; [by exists w|done].
  - then_ (inv 1); [|by apply supervised_event]. apply sends_set; [exact heard_all_nil|]. done.
  - by apply supervised_event.
  - by apply supervised_event.
  - apply sends_any. intros s0. apply sends_if_so; [intros _|auto]. eapply sends_weaken; [by apply sends_plain|done|auto].
  - by apply supervised_event.
  - apply calm_event; [apply options_sends|auto with keeps].
  - apply loads_event; [apply lifecycle_sends|auto with keeps].
  - then_ (inv 1); [|apply loads_event; [apply maybe_startup_sends|auto with keeps]].
    intros s' w' (g & H). destruct (prompt_event_holds a g (tidy 1) PromptFlow.StatusChanged s' w' H) as (w2 & Hh & H'). exists w2. split; [done|by exists g].
  - apply calm_event; [by apply sends_sight|unfold forget_reads; auto with keeps].
  - apply sends_any. intros s0. apply sends_if_so; [intros _|auto]. apply sends_if_so; [intros _|auto]. eapply sends_weaken; [by apply sends_plain|done|auto].
  - apply loads_event; [apply load_items_sends|auto with keeps].
  - apply loads_event; [apply list_exited_sends|auto with keeps].
  - apply calm_event; [apply withdraw_sends|auto with keeps].
  - apply calm_event; [apply scrub_sends|auto with keeps].
  - destruct Hi as (g & H1 & H2 & H3 & H4). eapply (sends_apply (holds g (fun l w => tidy 1 l w /\ loadIdProc (win l) = NonceReading))); [|done].
    eapply sends_weaken; [apply on_loads_holds; [apply nonce_read_sends|auto with keeps]|done|]. intros s' w' H. by exists g.
  - apply calm_event; [apply nonce_exited_sends|unfold loadIdProc_exited; auto with keeps].
  - apply loads_event; [apply maybe_startup_sends|auto with keeps].
  - apply calm_event; [by apply sends_sight|auto with keeps].
  - apply calm_event; [by apply sends_sight|auto with keeps].
  - apply prompts_event.
Qed.

(** ** Reachable worlds *)

Definition spoken (t : option (list (list Z))) (w : option talk) : Prop := taken ((fun _ => fresh) <$> t) (default [] t) w.

Lemma inv_room w c : inv 0 (svc w) c -> room w -> inv 1 (svc w) c.
Proof.
  intros (g & H1 & H2 & H3 & [[L1 L2 L3 L4 L5 L6 L7] H5 H6]) Hr. exists g. split_and!; [done..|]. split; [split|..]; try done.
  unfold room, last_epoch in *. lia.
Qed.

Lemma possible_may w ev c : spoken (transcript w) c -> possible w ev -> may ev (svc w) c.
Proof.
  unfold spoken. destruct ev; cbn; try done.
  - intros H E. rewrite E in H. by destruct c.
  - intros H [t E]. rewrite E in H. cbn in H. destruct c; [eauto|done].
Qed.

Lemma spoken_listening w ev c : spoken (transcript w) c -> spoken (listener w ev) (listening ev c).
Proof. intros H. destruct ev; try done. cbn. by exists []. Qed.

Lemma step_inv a ev w c : inv 0 (svc w) c -> spoken (transcript w) c -> possible w ev -> room w ->
  exists c', heard_all (listening ev c) (dispatch a ev (svc w)).2 c' /\ inv 0 (svc (next_world a ev w)) c' /\ spoken (transcript (next_world a ev w)) c'.
Proof.
  intros Hi Hs Hp Hr. destruct (dispatch_inv a ev (svc w) c) as (c' & Hh & Hi'); [by apply inv_room|by eapply possible_may|].
  exists c'. split; [done|]. unfold next_world. destruct (dispatch a ev (svc w)) as [s es]. cbn in *. split; [done|].
  assert (Hl := spoken_listening w ev c Hs). unfold spoken, heard_all in *. destruct (listener w ev) as [t|]; cbn in *; [|].
  - eapply (taken_app (Some fresh)); done.
  - destruct (listening ev c); [done|]. cbn in Hh. by destruct c'.
Qed.

Lemma reached_inv w : reached w -> exists c, inv 0 (svc w) c /\ spoken (transcript w) c.
Proof.
  induction 1 as [p|a ev w Hw (c & Hi & Hs) Hp Hr].
  - exists None. split; [|done]. exists false. split_and!; cbn; [apply agent_inv_initial|done|done|].
    split; [split|..]; cbn; unfold last_epoch; try done; lia.
  - destruct (step_inv a ev w c Hi Hs Hp Hr) as (c' & _ & H1 & H2). eauto.
Qed.

(** ** Reads that carry keys *)

Definition gate_of (s : service) : bool := sshAgentGateOpen (hlp (lds s)).
Definition keyed (v : vault) (g : bool) (x : service_effect) : Prop := match x with FromLoads x => keyed_read v g x | _ => True end.

(** The action leaves the gate, and starts a read with keys only behind it. *)
Definition steady (v : vault) (a : Actions.act service service_effect) : Prop :=
  forall s, gate_of (a s).1 = gate_of s /\ Forall (keyed v (gate_of s)) (a s).2.

Lemma steady_loads v f : careful v f -> keeps_gate f -> steady v (on_loads f).
Proof.
  intros Hc Hk s. specialize (Hc (lds s)). specialize (Hk (lds s)). unfold on_loads, gate_of. destruct (f (lds s)) as [l es]. cbn in *. split; [done|].
  apply Forall_fmap. eapply Forall_impl; [exact Hc|done].
Qed.
Lemma steady_prompts v f : steady v (on_prompts f).
Proof. intros s. unfold on_prompts. destruct (f (prm s)) as [p es]. cbn. split; [done|]. apply Forall_fmap, Forall_true. done. Qed.
Lemma steady_nothing v : steady v nothing.
Proof. done. Qed.
Lemma steady_emit v x : (match x with FromLoads _ => false | _ => true end) = true -> steady v (emit x).
Proof. intros Hx s. split; [done|]. constructor; [by destruct x|constructor]. Qed.
Lemma steady_set v f : (forall s, lds (f s) = lds s) -> steady v (set f).
Proof. intros Hf s. unfold gate_of. cbn. rewrite Hf. done. Qed.
Lemma steady_seq v a b : steady v a -> steady v b -> steady v (seq_act a b).
Proof.
  intros Ha Hb s. specialize (Ha s). unfold seq_act. destruct (a s) as [s1 e1]. specialize (Hb s1). destruct (b s1) as [s2 e2]. cbn in *.
  destruct Ha as [E1 F1], Hb as [E2 F2]. rewrite E1 in *. split; [done|]. by apply Forall_app.
Qed.
Lemma steady_reading v f : (forall s, steady v (f s)) -> steady v (reading f).
Proof. intros Hf s. apply Hf. Qed.
Lemma steady_if v (b : bool) x y : steady v x -> steady v y -> steady v (if b then x else y).
Proof. by destruct b. Qed.

Create HintDb steady.
#[local] Hint Resolve steady_prompts steady_nothing steady_seq steady_if : steady.
#[local] Hint Extern 1 (steady _ (on_loads _)) => apply steady_loads; [solve [auto 10 with careful nocore]|solve [auto 10 with keeps nocore]] : steady.
#[local] Hint Extern 1 (steady _ (emit _)) => apply steady_emit; reflexivity : steady.
#[local] Hint Extern 1 (steady _ (set _)) => apply steady_set; reflexivity : steady.
#[local] Hint Extern 1 (steady _ (reading _)) => apply steady_reading; intros; cbv beta zeta : steady.
#[local] Hint Extern 1 (steady _ (if_so _ _)) => unfold if_so : steady.
#[local] Hint Extern 1 (steady _ (prompt_event _ _)) => unfold prompt_event : steady.

Lemma message_steady a m : steady (around_vault a) (onSshAgentMessage a m).
Proof. unfold onSshAgentMessage, onStateChanged. cbv zeta. auto 20 with steady nocore. Qed.
#[local] Hint Resolve message_steady : steady.

Lemma perform_steady a action : steady (around_vault a) (perform a action).
Proof. unfold perform. auto 20 with steady nocore. Qed.

(** An action that ends behind the gate it assigned, or left alone. *)
Definition ends_steady (v : vault) (a : Actions.act service service_effect) : Prop := forall s, Forall (keyed v (gate_of (a s).1)) (a s).2.

Lemma steady_ends v a : steady v a -> ends_steady v a.
Proof. intros H s. destruct (H s) as [-> ?]. done. Qed.

Lemma ends_seq v a b : ends_steady v a -> steady v b -> ends_steady v (seq_act a b).
Proof.
  intros Ha Hb s. specialize (Ha s). unfold seq_act. destruct (a s) as [s1 e1]. specialize (Hb s1). destruct (b s1) as [s2 e2]. cbn in *.
  destruct Hb as [E2 F2]. rewrite E2. by apply Forall_app.
Qed.

Lemma ends_after v a b : (forall s, (a s).2 = []) -> ends_steady v b -> ends_steady v (seq_act a b).
Proof. intros Ha Hb s. specialize (Ha s). unfold seq_act. destruct (a s) as [s1 e1]. specialize (Hb s1). destruct (b s1) as [s2 e2]. cbn in *. by subst e1. Qed.

Lemma assign_ends v b : ends_steady v (on_loads (assign_gate v b)).
Proof.
  intros s. unfold on_loads, gate_of. assert (Hg := assigned_gate v b (lds s)).
  assert (Hc : Forall (keyed_read v b) (assign_gate v b (lds s)).2).
  { unfold assign_gate, reading, seq_act, set, when. cbn. destruct (negb _); [|constructor].
    match goal with |- context [onSshAgentGateOpenChanged v ?s'] => assert (E := gate_changed_careful v s') end.
    destruct (onSshAgentGateOpenChanged _ _). exact E. }
  destruct (assign_gate v b (lds s)) as [l es]. cbn in *. rewrite Hg. apply Forall_fmap. eapply Forall_impl; [exact Hc|done].
Qed.

Lemma apply_ends a k : ends_steady (around_vault a) (applySshAgentEvent a k).
Proof.
  intros s. unfold applySshAgentEvent, reading. destruct (sshAgentReduce _ _) as [st action]. revert s.
  apply ends_after; [done|]. apply ends_seq; [apply assign_ends|apply perform_steady].
Qed.

Lemma ends_read v f : (forall s, ends_steady v (f s)) -> ends_steady v (reading f).
Proof. intros Hf s. apply Hf. Qed.

Lemma dispatch_ends a ev : ends_steady (around_vault a) (dispatch a ev).
Proof.
  destruct ev; unfold dispatch; try apply apply_ends; try (apply steady_ends; auto 20 with steady nocore; fail).
  - apply ends_after; [done|apply apply_ends].
  - intros s. unfold helper_exited, seq_act at 1, on_loads. cbn.
    match goal with |- context [onSshAgentHelperExited a ?s'] => assert (E : Forall (keyed (around_vault a) (gate_of (onSshAgentHelperExited a s').1)) (onSshAgentHelperExited a s').2) end.
    { unfold onSshAgentHelperExited, reading. destruct (_ || _ || _); [apply apply_ends|]. repeat constructor. }
    destruct (onSshAgentHelperExited _ _) as [s2 e2]. cbn in *. by constructor.
  - apply ends_after; [done|apply apply_ends].
  - apply steady_ends. unfold onStatusChanged. auto 20 with steady nocore.
  - apply steady_ends. unfold forget_reads. auto 20 with steady nocore.
  - apply steady_ends. unfold onScreenLockState. auto 20 with steady nocore.
  - apply steady_ends. unfold loadIdProc_exited. auto 20 with steady nocore.
Qed.

(** ** Prompts *)

(** The prompts move only through their own events, a request only from a well-formed
    message while the supervisor is ready. *)
Definition fed (s : service) (p : prompts) : Prop :=
  p = prm s \/ exists e fe, p = (handle e fe (prm s)).1 /\
    (request_of fe <> [] -> phase_of (sup s) = ready) /\
    Forall (fun m => exists o, m = JObj o /\ well_formed_message o /\ obj_get o (js "type") <> JStr (js "ready")) (request_of fe).

Definition apart (a : Actions.act service service_effect) : Prop := forall s, prm (a s).1 = prm s.

Lemma apart_loads f : apart (on_loads f).
Proof. intros s. unfold on_loads. by destruct (f (lds s)). Qed.
Lemma apart_nothing : apart nothing.
Proof. done. Qed.
Lemma apart_emit x : apart (emit x).
Proof. done. Qed.
Lemma apart_set f : (forall s, prm (f s) = prm s) -> apart (set f).
Proof. intros Hf s. apply Hf. Qed.
Lemma apart_seq a b : apart a -> apart b -> apart (seq_act a b).
Proof. intros Ha Hb s. specialize (Ha s). unfold seq_act. destruct (a s) as [s1 e1]. specialize (Hb s1). destruct (b s1) as [s2 e2]. cbn in *. congruence. Qed.
Lemma apart_reading f : (forall s, apart (f s)) -> apart (reading f).
Proof. intros Hf s. apply Hf. Qed.
Lemma apart_if (b : bool) x y : apart x -> apart y -> apart (if b then x else y).
Proof. by destruct b. Qed.
Create HintDb apart.
#[local] Hint Resolve apart_loads apart_nothing apart_emit apart_seq apart_if : apart.
#[local] Hint Extern 1 (apart (set _)) => apply apart_set; reflexivity : apart.
#[local] Hint Extern 1 (apart (reading _)) => apply apart_reading; intros; cbv beta zeta : apart.
#[local] Hint Extern 1 (apart (if_so _ _)) => unfold if_so : apart.

(** After a part that leaves the prompts alone. *)
Lemma seq_prompts a b s : apart a -> exists s', prm (seq_act a b s).1 = prm (b s').1 /\ prm s' = prm s.
Proof. intros Ha. specialize (Ha s). unfold seq_act. destruct (a s) as [s1 e1]. exists s1. by destruct (b s1). Qed.

Lemma message_prompts a m s : prm (onSshAgentMessage a m s).1 = prm s \/
  exists e fe, prm (onSshAgentMessage a m s).1 = (handle e fe (prm s)).1 /\ Forall (fun x => x = m) (request_of fe).
Proof.
  assert (Hp : forall fe, Forall (fun x => x = m) (request_of fe) -> exists e fe', prm (prompt_event a fe s).1 = (handle e fe' (prm s)).1 /\ Forall (fun x => x = m) (request_of fe')).
  { intros fe Hf. exists (seen a s), fe. unfold prompt_event, reading, on_prompts. by destruct (handle _ _ _). }
  unfold onSshAgentMessage. cbv zeta. destruct (strict_eqb _ _); [right; apply Hp; by repeat constructor|].
  destruct (strict_eqb _ _); [right; apply Hp; by repeat constructor|]. do 2 (destruct (strict_eqb _ _); [right; by apply Hp|]).
  left. repeat (destruct (strict_eqb _ _); [apply apart_loads|]). done.
Qed.

(** The message a transition hands on. *)
Lemma reduce_message s ev st action : agent_inv s -> sshAgentReduce (Some s) ev = (st, action) -> truthy (message action) = true ->
  phase_of s = ready /\ exists o, message action = JObj o /\ well_formed_message o /\ obj_get o (js "type") <> JStr (js "ready").
Proof.
  intros I H. revert H. reduce_cases ev.
  all: unfold sshAgentFailOnExit; repeat case_match; intros [= <- <-]; try done; intros _.
  split; [destruct (phase_of s); cbn in *; try done; congruence|]. exists m. split_and!; [done|by eapply parseAgentEvent_ok|].
  intros E. rewrite E in Heqb2. done.
Qed.

Lemma apply_fed a k s : agent_inv (sup s) -> fed s (prm (applySshAgentEvent a k s).1).
Proof.
  intros I. unfold applySshAgentEvent, reading. destruct (sshAgentReduce _ _) as [st action] eqn:E.
  assert (Hp : forall s1, prm s1 = prm s -> fed s (prm (perform a action s1).1)).
  { intros s1 Es. unfold perform. do 5 (match goal with |- context [seq_act ?x ?y ?z] =>
      let s' := fresh "s'" in let H1 := fresh in let H2 := fresh in
      destruct (seq_prompts x y z) as (s' & H1 & H2); [auto 10 with apart nocore|]; rewrite H1; rewrite Es in H2; clear H1 Es; rename H2 into Es end).
    unfold if_so. destruct (truthy (message action)) eqn:Et; [|by left].
    destruct (reduce_message _ _ _ _ I E Et) as (Hr & o & Eo & Ho & Hn). rewrite Eo in *.
    destruct (message_prompts a (JObj o) s'3) as [->|(e & fe & -> & Hf)]; [by left|]. right. exists e, fe. rewrite Es. split_and!; [done|done|].
    eapply Forall_impl; [exact Hf|]. intros m ->. eauto. }
  destruct (seq_prompts (set (set_sup st)) (seq_act (on_loads (assign_gate (around_vault a) (gateOpen st))) (perform a action)) s) as (s1 & -> & E1); [auto with apart nocore|].
  destruct (seq_prompts (on_loads (assign_gate (around_vault a) (gateOpen st))) (perform a action) s1) as (s2 & -> & E2); [auto with apart nocore|].
  apply Hp. congruence.
Qed.

Lemma fed_from s s1 p : sup s1 = sup s -> prm s1 = prm s -> fed s1 p -> fed s p.
Proof. intros E1 E2. unfold fed. by rewrite E1, E2. Qed.

Lemma dispatch_fed a ev w : possible w ev -> agent_inv (sup (svc w)) -> fed (svc w) (prm (dispatch a ev (svc w)).1).
Proof.
  set (s := svc w). intros Hp I.
  assert (Hloads : forall f, fed s (prm (on_loads f s).1)) by (intros f; left; apply apart_loads).
  assert (Hev : forall fe, request_of fe = [] -> fed s (prm (prompt_event a fe s).1)).
  { intros fe Hf. right. exists (seen a s), fe. unfold prompt_event, reading, on_prompts. rewrite Hf. destruct (handle _ _ _). split_and!; [done|done|constructor]. }
  assert (Happly : forall k s1, sup s1 = sup s -> prm s1 = prm s -> fed s (prm (applySshAgentEvent a k s1).1)).
  { intros k s1 E1 E2. eapply fed_from; [exact E1|exact E2|]. apply apply_fed. by rewrite E1. }
  destruct ev; unfold dispatch; auto.
  - unfold on_loads, seq_act at 1. cbn. match goal with |- context [applySshAgentEvent a ?k ?s1] => specialize (Happly k s1 eq_refl eq_refl) end.
    by destruct (applySshAgentEvent _ _ _).
  - unfold helper_exited, seq_act at 1, on_loads. cbn. unfold onSshAgentHelperExited, reading. destruct (_ || _ || _); [|by left].
    match goal with |- context [applySshAgentEvent a ?k ?s1] => specialize (Happly k s1 eq_refl eq_refl) end. by destruct (applySshAgentEvent _ _ _).
  - unfold probe_exited, seq_act, set. match goal with |- context [applySshAgentEvent a ?k ?s1] => specialize (Happly k s1 eq_refl eq_refl) end.
    by destruct (applySshAgentEvent _ _ _).
  - unfold reading, if_so. destruct (helperRunning _); by left.
  - unfold onStatusChanged, seq_act. specialize (Hev PromptFlow.StatusChanged eq_refl). destruct (prompt_event a PromptFlow.StatusChanged s) as [s1 e1].
    assert (E := apart_loads (maybeStartupLoad (around_vault a)) s1). destruct (on_loads _ s1). cbn in *. by rewrite E.
  - unfold onScreenLockState, reading, if_so. destruct (_ && _); [|by left]. destruct (channel _); by left.
  - apply Hev. cbn in Hp. by destruct ev.
Qed.

Lemma reached_prompts w : reached w -> exists h, flow (fun _ => True) h (prm (svc w)) /\
  Forall (fun m => exists o, m = JObj o /\ well_formed_message o /\ obj_get o (js "type") <> JStr (js "ready")) h.
Proof.
  induction 1 as [p|a ev w Hw (h & Hf & Hm) Hp Hr]; [exists []; split; constructor|].
  destruct (reached_inv w Hw) as (c & (g & I & _) & _).
  assert (Hd := dispatch_fed a ev w Hp I). unfold next_world. destruct (dispatch a ev (svc w)) as [s es]. cbn in *.
  destruct Hd as [->|(e & fe & -> & _ & Hfe)]; [eauto|]. exists (h ++ request_of fe). split; [|by apply Forall_app].
  apply flow_step; [done|done|]. eapply Forall_impl; [exact Hfe|]. by intros m (o & -> & _).
Qed.

(** ** Runs for examples *)

Definition a_vault (st : string) : vault := Vault true (js st) 1 true true false (NZ 1000).
Definition somewhere : around := Around (a_vault "unlocked") calm (JStr (js "/run/user/1000")).

Fixpoint play (a : around) (evs : list service_event) (w : world) : world :=
  match evs with
  | [] => w
  | ev :: evs => play a evs (next_world a ev w)
  end.
Definition at_first : world := World (init_service (Panel false (js "main"))) None.

Definition says (o : list (list Z * jsval)) : service_event := HelperLine (JStr (stringify (JObj o))).
Definition says_ready : service_event := says
  [(js "v", JNum (NZ 2)); (js "type", JStr (js "ready")); (js "socketPath", JStr (js "/s")); (js "fifoPath", JStr (js "/f")); (js "agentVersion", JStr (js "1"))].
Definition says_request (program : string) (id : Z) : service_event := says
  [(js "v", JNum (NZ 2)); (js "type", JStr (js "approval_required")); (js "requestId", JNum (NZ id)); (js "fingerprint", JStr (js "SHA256:k"));
   (js "processPath", JStr (js program)); (js "grantOffered", JBool true)].
Definition a_nonce : list Z := js "0123456789abcdef0123456789abcdef".
Definition to_ready : list service_event := [SupervisableChanged true; HelperStarted; says_ready].
Definition to_window : list service_event := to_ready ++ [NonceOutput (JStr a_nonce); NonceExited].

(** Whether each event of a run is possible when it comes. *)
Fixpoint playable (a : around) (evs : list service_event) (w : world) : Prop :=
  match evs with
  | [] => True
  | ev :: evs => possible w ev /\ room w /\ playable a evs (next_world a ev w)
  end.

Lemma play_reached a evs w : reached w -> playable a evs w -> reached (play a evs w).
Proof. revert w. induction evs as [|ev evs IH]; intros w Hw; cbn; [done|]. intros (Hp & Hr & Hn). apply IH; [by constructor|done]. Qed.

Lemma window_reached : reached (play somewhere to_window at_first).
Proof. apply play_reached; [constructor|]. vm_compute. repeat (split; [eauto|split; [reflexivity|]]). done. Qed.

(** ** Properties *)

(** C5: Whatever order events arrive in, what the service has written about loads to the
    running companion since it started are lines with rising epochs and valid nonces,
    and the companion's loop takes every one of them that it has read, at whatever times
    and whatever comes from the FIFO and the clock in between, with one exception: a
    window that opens while the load before it, ended as complete, still waits for its
    payload.  Once it has read them all, the window it has open is the one the service
    holds open unless its input is closed.  No line about loads is written while no
    companion runs. *)
Theorem loads_follow_protocol w : reached w ->
  (forall t, transcript w = Some t -> exists ls c, t = map wire ls /\ speak_all fresh ls = Some c /\ c_last c <= sshAgentEpoch (win (lds (svc w))) /\
     forall xs rest, ls = lines_read xs ++ rest ->
       (exists load, attend_all xs None = Some load /\
          (rest = [] -> open_load load = (if sshAgentLoadActive (win (lds (svc w))) && stdinEnabled (hlp (lds (svc w))) then Some (sshAgentEpoch (win (lds (svc w)))) else None)))
       \/ (exists xs1 now e id xs2 load, xs = xs1 ++ (now, ReadLine (LoadBegin e id)) :: xs2
             /\ attend_all xs1 None = Some (Some load) /\ end_received load = true /\ payload load = false)) /\
  (transcript w = None -> sshAgentGateOpen (hlp (lds (svc w))) = false /\ sshAgentLoadActive (win (lds (svc w))) = false) /\
  (forall a ev, possible w ev -> room w -> listener w ev = None -> load_lines (dispatch a ev (svc w)).2 = []).
Proof.
  intros Hw. destruct (reached_inv w Hw) as (c & Hi & Hs). split_and!.
  - intros t Et. destruct Hi as (g & _ & _ & _ & [Hl Hg Ha]). unfold spoken in Hs. rewrite Et in Hs. cbn in Hs. destruct c as [c|]; [|done].
    destruct Hs as (ls & -> & Hh). destruct (loose_window _ _ _ Hl c eq_refl) as [Hwin Hlast]. exists ls, c. split_and!; [done..|].
    intros xs rest E. destruct (speak_all_taken ls fresh c None xs rest Hh E eq_refl I) as [(a' & Ea & Hr)|Hr]; [left|by right].
    exists a'. split; [done|]. intros ->. by rewrite <- Hr.
  - intros Et. destruct Hi as (g & _ & _ & _ & [Hl Hg Ha]). unfold spoken in Hs. rewrite Et in Hs. cbn in Hs. destruct c as [c|]; [done|].
    assert (Hf : sshAgentGateOpen (hlp (lds (svc w))) = false) by (destruct (sshAgentGateOpen _); [by destruct (Hg eq_refl)|done]).
    split; [done|]. destruct (sshAgentLoadActive _); [|done]. destruct (Ha eq_refl). congruence.
  - intros a ev Hp Hr Hn. destruct (step_inv a ev w c Hi Hs Hp Hr) as (c' & Hh & _ & _).
    assert (Hl := spoken_listening w ev c Hs). rewrite Hn in Hl. unfold spoken, heard_all in *. cbn in Hl. destruct (listening ev c); [done|].
    by destruct c'.
Qed.

Lemma loads_follow_protocol_witness :
  let w := play somewhere to_window at_first in
  transcript w = Some [wire (LoadBegin 1 a_nonce)] /\
  exists ls c, [wire (LoadBegin 1 a_nonce)] = map wire ls /\ speak_all fresh ls = Some c /\ c_last c <= sshAgentEpoch (win (lds (svc w))).
Proof.
  cbv zeta. assert (E : transcript (play somewhere to_window at_first) = Some [wire (LoadBegin 1 a_nonce)]) by (vm_compute; reflexivity).
  split; [exact E|]. destruct (proj1 (loads_follow_protocol _ window_reached) _ E) as (ls & c & H1 & H2 & H3 & _). exists ls, c. auto.
Defined.

(** The service does not wait for the companion to settle a load: the read ends, the
    next nonce comes, and a list asked for then opens a window; a companion that has not
    got the payload of the first one yet refuses the line, and exits. *)
Example begin_before_settled :
  let evs := to_window ++ [ListExited 0; NonceOutput (JStr a_nonce); NonceExited; ItemsWanted] in
  let w := play somewhere evs at_first in
  playable somewhere evs at_first
  /\ transcript w = Some (map wire [LoadBegin 1 a_nonce; LoadEnd 1 true; LoadBegin 2 a_nonce])
  /\ attend_all [(0, ReadLine (LoadBegin 1 a_nonce)); (10, ReadLine (LoadEnd 1 true)); (20, ReadLine (LoadBegin 2 a_nonce))] None = None
  /\ attend_all [(0, ReadLine (LoadBegin 1 a_nonce)); (5, PayloadRead 1); (10, ReadLine (LoadEnd 1 true)); (20, ReadLine (LoadBegin 2 a_nonce))] None
     = Some (Some (ActiveLoad 2 false false None)).
Proof. vm_compute. split; [|done]. repeat (split; [eauto|split; [reflexivity|]]). done. Qed.

(** In every reachable state the gate is the supervisor's and open only with a
    running companion; a load window is open only behind the open gate, with its read
    running, its nonce used up and no other one ready or coming. *)
Theorem window_behind_gate w : reached w ->
  let l := lds (svc w) in
  sshAgentGateOpen (hlp l) = bool_decide (phase_of (sup (svc w)) = ready) /\
  (sshAgentGateOpen (hlp l) = true -> is_Some (transcript w)) /\
  (sshAgentLoadActive (win l) = true ->
     sshAgentGateOpen (hlp l) = true /\ listRunning (rdr l) = true /\ listInFlight (rdr l) = true /\
     sshAgentNextLoadId (win l) = [] /\ loadIdProc (win l) <> NonceReading).
Proof.
  intros Hw. destruct (reached_inv w Hw) as (c & (g & I & E1 & E2 & [[L1 L2 L3 L4 L5 L6 L7] Hg Ha]) & Hs). cbn zeta. split_and!.
  - rewrite <- (inv_gate _ I). congruence.
  - intros H. destruct (Hg H) as [c' ->]. unfold spoken in Hs. destruct (transcript w); [eauto|done].
  - intros H. destruct (Ha H) as (H1 & H2 & _), (L5 H) as [H3 H4]. auto.
Qed.

Lemma window_behind_gate_witness :
  let w := play somewhere to_window at_first in
  sshAgentLoadActive (win (lds (svc w))) = true /\ sshAgentNextLoadId (win (lds (svc w))) = [].
Proof.
  cbv zeta. split; [vm_compute; reflexivity|].
  apply (proj2 (proj2 (window_behind_gate _ window_reached))). vm_compute. reflexivity.
Defined.

(** C13: A read of the vault that carries the keys is started only while the vault is
    unlocked, behind an open gate, and with a valid nonce, whatever the state. *)
Theorem keys_read_guarded a ev s :
  Forall (fun x => match x with
    | FromLoads (StartedRead (Some id)) =>
        unlocked (around_vault a) = true /\ sshAgentGateOpen (hlp (lds (dispatch a ev s).1)) = true /\ isValidLoadId (JStr id) = true
    | _ => True
    end) (dispatch a ev s).2.
Proof.
  eapply Forall_impl; [apply (dispatch_ends a ev s)|]. intros [[| |[id|]| | | | | | | | | |]| | | | | | |]; try done.
  intros (Hg & Hu & Hv). auto.
Qed.

(** The prompts of the service are always in a state of their own transition
    system: every request that ever reached them was a well-formed message, and one
    reaches them only while the supervisor is ready. *)
Theorem prompts_fed_by_ready w : reached w ->
  (exists h, flow (fun _ => True) h (prm (svc w)) /\ flow_inv (core (prm (svc w))) /\
     Forall (fun m => exists o, m = JObj o /\ well_formed_message o /\ obj_get o (js "type") <> JStr (js "ready")) h) /\
  (forall a ev, possible w ev -> fed (svc w) (prm (dispatch a ev (svc w)).1)).
Proof.
  intros Hw. destruct (reached_prompts w Hw) as (h & Hf & Hm). split.
  - exists h. split_and!; [done| |done]. apply (flow_asked _ _ _ Hf).
  - intros a ev Hp. apply dispatch_fed; [done|]. by destruct (reached_inv w Hw) as (c & (g & I & _) & _).
Qed.

Lemma prompts_fed_by_ready_witness :
  let w := play somewhere (to_ready ++ [says_request "/bin/git" 7]) at_first in
  on_screen (prm (svc w)) = Some (js "/bin/git", JNum (NZ 7)) /\ flow_inv (core (prm (svc w))).
Proof.
  cbv zeta. split; [vm_compute; reflexivity|].
  assert (Hr : reached (play somewhere (to_ready ++ [says_request "/bin/git" 7]) at_first)).
  { apply play_reached; [constructor|]. vm_compute. repeat (split; [eauto|split; [reflexivity|]]). done. }
  by destruct (prompts_fed_by_ready _ Hr) as [(h & _ & H & _) _].
Defined.

(** The prompts outlive their companion.  One asks for [/bin/a] under its first id and
    is gone before the answer; the next one, counting from the start again, asks for
    [/bin/b] under the same id.  The prompt for [/bin/a] is still shown, and approving
    it approves [/bin/b]. *)
Example stale_prompt :
  let w := play somewhere (to_ready ++ [says_request "/bin/a" 1; HelperExited; RestartTimer; HelperStarted; says_ready; says_request "/bin/b" 1]) at_first in
  on_screen (prm (svc w)) = Some (js "/bin/a", JNum (NZ 1)) /\
  FromPrompts (Wrote (sshAgentApproveLine (JNum (NZ 1)) (JNum (NZ 0)) (JBool false)))
    ∈ (dispatch somewhere (Clicked (Approve (JNum (NZ 0)) JUndef)) (svc w)).2.
Proof. vm_compute. split; [done|]. apply list_elem_of_here. Qed.

(** A window opens for a read that carries no keys when one without them is already
    running: a list asked for before the handshake, and again after it. *)
Example window_without_read :
  let w := play somewhere (ItemsWanted :: to_window) at_first in
  let '(s, es) := dispatch somewhere ItemsWanted (svc w) in
  sshAgentLoadActive (win (lds s)) = true /\ load_lines es = [wire (LoadBegin 1 a_nonce)] /\ es = [FromLoads (LoadLine (wire (LoadBegin 1 a_nonce)))].
Proof. vm_compute. auto. Qed.

(** Asking for the list while the read with the keys runs forgets that it carries
    them: its failure is then not retried without them. *)
Example retry_forgotten :
  let w := play somewhere (to_window ++ [ItemsWanted]) at_first in
  sshAgentLoadActive (win (lds (svc w))) = true /\ listAgentBranchActive (rdr (lds (svc w))) = false /\
  (dispatch somewhere (ListExited 1) (svc w)).2 = [FromLoads (LoadLine (wire (LoadEnd 1 false))); FromLoads AskedNonce].
Proof. vm_compute. auto. Qed.
