(* ===== verification/VaultRuns.v ===== *)
(** * The vault helper and the runs in it ([Service.qml], [VaultProcess.qml])

    The service starts one vault helper, watches it, and runs every [bw] through it: a
    process asked to run is written to the helper under a fresh number when the helper
    is up and waits otherwise; a reply ends the process that has the number; a helper
    that goes away ends all of them and locks the vault.

    The state is the properties of the two QML objects.  What the rest of the service
    does to a process (give it a command, start it, stop it) is an event of its own,
    possible at any time, also between two of the ends a lost helper causes: those are
    kept in [agenda] and taken one by one.  The warning texts are left out.

    A [Process] of the shell is [Off], [Launching] or [Up]; [running] is false only when
    it is [Off], and [processId] positive only when it is [Up]. *)

From stdpp Require Import gmap sorting functions.
From S2P Require Import Prelude.
From S2P Require Import JsNum.
From S2P Require Import JsString.
From S2P Require Import JsValue.
From S2P Require Import JsInt.
From S2P Require Import Json.
From S2P Require Import Shell.
From S2P Require Import Helpers.
From S2P Require Import Commands.
From S2P Require Import Actions.
Local Open Scope act_scope.

(** ** State *)

Inductive helper_state := Pending | Starting | Active | Fallback | Stopped.
#[export] Instance helper_state_eq_dec : EqDecision helper_state.
Proof. solve_decision. Defined.

(** [vaultHelperInspectProc]: idle, running, or running with its output already read. *)
Inductive inspect_run := InspectIdle | InspectReading | InspectRead.
#[export] Instance inspect_run_eq_dec : EqDecision inspect_run.
Proof. solve_decision. Defined.

Inductive os_process := Off | Launching | Up.
#[export] Instance os_process_eq_dec : EqDecision os_process.
Proof. solve_decision. Defined.

(** What a [VaultProcess] is given before it is started. *)
Record spec := Spec {
  command : list (list Z);
  environment : list (list Z * jsval);
  inject : list (list Z * jsval);
  capture : list Z;
  wantsSession : bool;
  stdinText : list Z
}.

Record vault_process := VaultProcess {
  asked : spec;
  running : bool;
  runId : Z;
  sessionHeld : bool;
  outputHeld : bool;
  outText : list Z;
  errText : list Z;
  localRunning : bool               (** [local.running]: its scrub runs here *)
}.

Record watch := Watch {
  vaultHelperState : helper_state;
  vaultHelperProc : os_process;
  vaultHelperRestarts : Z;
  readyTimedOut : bool;
  retryPending : bool;
  readyTimer : bool;
  settleTimer : bool;
  startLater : bool;                (** [Qt.callLater(startVaultHelper)] *)
  retryLater : bool                 (** [Qt.callLater(retryVaultHelper)] *)
}.

Record table := Table {
  vaultRunSeq : Z;
  vaultRuns : gmap Z nat;
  vaultWaiting : list nat;
  vaultQuerySeq : Z;
  vaultQueries : gset Z
}.

(** What a lost helper leaves to do, in order. *)
Inductive task := FinishRun (id : Z) (p : nat) | FailQuery (q : Z) | Restart.

Record supervisor := Supervisor {
  wat : watch;
  tbl : table;
  procs : nat -> vault_process;
  vaultHelper : inspection;
  inspecting : inspect_run;
  shuttingDown : bool;
  heldSession : bool;               (** [session === heldSessionMarker] *)
  agenda : list task
}.

Inductive run_effect :=
| Inspecting | Launched | Terminated
| Wrote (line : list Z)
| WroteExec (id : Z) (p : nat) (line : list Z)
| WroteKill (id : Z) (line : list Z)
| Started (p : nat)
| Exited (p : nat) (exitCode : num)
| StartedScrub (p : nat)
| KilledScrub (p : nat)
| RanHere (p : nat)                 (** a run of the shell itself, without the helper *)
| Answered (q : option Z) (ok : bool)
| LockedVault.

Notation act := (act supervisor run_effect).

Definition no_spec : spec := Spec [] [] [] (js "plain") true [].
Definition idle_process : vault_process := VaultProcess no_spec false 0 false false [] [] false.
Definition init_supervisor : supervisor :=
  Supervisor (Watch Pending Off 0 false false false false false false) (Table 0 ∅ [] 0 ∅) (fun _ => idle_process)
    uninspectedHelper InspectIdle false false [].

Definition on_wat (f : watch -> watch) (s : supervisor) : supervisor :=
  Supervisor (f (wat s)) (tbl s) (procs s) (vaultHelper s) (inspecting s) (shuttingDown s) (heldSession s) (agenda s).
Definition on_tbl (f : table -> table) (s : supervisor) : supervisor :=
  Supervisor (wat s) (f (tbl s)) (procs s) (vaultHelper s) (inspecting s) (shuttingDown s) (heldSession s) (agenda s).
Definition on_proc (p : nat) (f : vault_process -> vault_process) (s : supervisor) : supervisor :=
  Supervisor (wat s) (tbl s) (<[p := f (procs s p)]> (procs s)) (vaultHelper s) (inspecting s) (shuttingDown s) (heldSession s) (agenda s).
Definition set_inspecting (b : inspect_run) (s : supervisor) : supervisor :=
  Supervisor (wat s) (tbl s) (procs s) (vaultHelper s) b (shuttingDown s) (heldSession s) (agenda s).
Definition set_inspected (i : inspection) (s : supervisor) : supervisor :=
  Supervisor (wat s) (tbl s) (procs s) i InspectRead (shuttingDown s) (heldSession s) (agenda s).
Definition set_shutting (s : supervisor) : supervisor :=
  Supervisor (wat s) (tbl s) (procs s) (vaultHelper s) (inspecting s) true (heldSession s) (agenda s).
Definition set_held (b : bool) (s : supervisor) : supervisor :=
  Supervisor (wat s) (tbl s) (procs s) (vaultHelper s) (inspecting s) (shuttingDown s) b (agenda s).
Definition set_agenda (ts : list task) (s : supervisor) : supervisor :=
  Supervisor (wat s) (tbl s) (procs s) (vaultHelper s) (inspecting s) (shuttingDown s) (heldSession s) ts.

Definition set_state (st : helper_state) : supervisor -> supervisor :=
  on_wat (fun w => Watch st (vaultHelperProc w) (vaultHelperRestarts w) (readyTimedOut w) (retryPending w) (readyTimer w) (settleTimer w)
                     (startLater w) (retryLater w)).
Definition set_os (o : os_process) : supervisor -> supervisor :=
  on_wat (fun w => Watch (vaultHelperState w) o (vaultHelperRestarts w) (readyTimedOut w) (retryPending w) (readyTimer w) (settleTimer w)
                     (startLater w) (retryLater w)).
Definition set_restarts (n : Z) : supervisor -> supervisor :=
  on_wat (fun w => Watch (vaultHelperState w) (vaultHelperProc w) n (readyTimedOut w) (retryPending w) (readyTimer w) (settleTimer w)
                     (startLater w) (retryLater w)).
Definition set_retry (timedOut pending : bool) : supervisor -> supervisor :=
  on_wat (fun w => Watch (vaultHelperState w) (vaultHelperProc w) (vaultHelperRestarts w) timedOut pending (readyTimer w) (settleTimer w)
                     (startLater w) (retryLater w)).
Definition set_timers (ready settle : bool) : supervisor -> supervisor :=
  on_wat (fun w => Watch (vaultHelperState w) (vaultHelperProc w) (vaultHelperRestarts w) (readyTimedOut w) (retryPending w) ready settle
                     (startLater w) (retryLater w)).
Definition set_later (start retry : bool) : supervisor -> supervisor :=
  on_wat (fun w => Watch (vaultHelperState w) (vaultHelperProc w) (vaultHelperRestarts w) (readyTimedOut w) (retryPending w) (readyTimer w)
                     (settleTimer w) start retry).

Definition set_runs (seq : Z) (runs : gmap Z nat) : supervisor -> supervisor :=
  on_tbl (fun t => Table seq runs (vaultWaiting t) (vaultQuerySeq t) (vaultQueries t)).
Definition set_waiting (waiting : list nat) : supervisor -> supervisor :=
  on_tbl (fun t => Table (vaultRunSeq t) (vaultRuns t) waiting (vaultQuerySeq t) (vaultQueries t)).
Definition set_queries (seq : Z) (qs : gset Z) : supervisor -> supervisor :=
  on_tbl (fun t => Table (vaultRunSeq t) (vaultRuns t) (vaultWaiting t) seq qs).

Definition set_running_flag (b : bool) (x : vault_process) : vault_process :=
  VaultProcess (asked x) b (runId x) (sessionHeld x) (outputHeld x) (outText x) (errText x) (localRunning x).
Definition set_runId (n : Z) (x : vault_process) : vault_process :=
  VaultProcess (asked x) (running x) n (sessionHeld x) (outputHeld x) (outText x) (errText x) (localRunning x).
Definition set_local (b : bool) (x : vault_process) : vault_process :=
  VaultProcess (asked x) (running x) (runId x) (sessionHeld x) (outputHeld x) (outText x) (errText x) b.
Definition set_asked (a : spec) (x : vault_process) : vault_process :=
  VaultProcess a (running x) (runId x) (sessionHeld x) (outputHeld x) (outText x) (errText x) (localRunning x).
Definition not_held (x : vault_process) : vault_process :=
  VaultProcess (asked x) (running x) (runId x) false false (outText x) (errText x) (localRunning x).
Definition no_text (x : vault_process) : vault_process :=
  VaultProcess (asked x) (running x) (runId x) (sessionHeld x) (outputHeld x) [] [] (localRunning x).
Definition ended (out err : list Z) (session output : bool) (x : vault_process) : vault_process :=
  VaultProcess (asked x) false 0 session output out err (localRunning x).

Definition is_state (st : helper_state) (s : supervisor) : bool := bool_decide (vaultHelperState (wat s) = st).
Definition vaultHelperActive (s : supervisor) : bool := is_state Active s.
Definition helper_running (s : supervisor) : bool := negb (bool_decide (vaultHelperProc (wat s) = Off)).
Definition when (b : bool) (a : act) : act := if b then a else nothing.

(** A property of type [int]. *)
Definition seq_next (z : Z) : Z := i32 (z + 1).

(** ** Requests *)

Definition int_value (n : Z) : jsval := JNum (NZ n).

(** The values that go by name, and the environment without them. *)
Definition exec_inject (a : spec) : list (list Z * jsval) :=
  let given := copy_into [] (inject a) in
  let given := if wantsSession a && is_undef (obj_get given sessionEnvVar) then obj_set given sessionEnvVar (JStr (js "session")) else given in
  fold_left (fun o kv => match heldSecretName kv.2 with [] => o | held => obj_set o kv.1 (JStr (js "secret:" ++ held)) end)
    (entries (environment a)) given.
Definition exec_environment (a : spec) : list (list Z * jsval) :=
  fold_left (fun o kv => match heldSecretName kv.2 with [] => obj_set o kv.1 kv.2 | _ => o end) (entries (environment a)) [].

Definition exec_line (id : Z) (a : spec) : list Z :=
  vaultExecLine (int_value id) (JArr (map JStr (command a))) (JObj (exec_environment a)) (JObj (exec_inject a)) (JStr (capture a))
    (JStr (stdinText a)).
Definition kill_line (id : Z) : list Z := vaultHelperLine (js "kill") [(js "id", int_value id)].
Definition hello_line : list Z := vaultHelperLine (js "hello") [].
Definition shutdown_line : list Z := vaultHelperLine (js "shutdown") [].

(** ** A process ([VaultProcess.qml] and the service's side of it) *)

Definition killLocal (p : nat) : act := reading (fun s => when (localRunning (procs s p)) (emit (KilledScrub p))).

Definition vaultKill (p : nat) : act := reading (fun s =>
  if 0 <? runId (procs s p) then
    when (vaultHelperActive s) (emit (WroteKill (runId (procs s p)) (kill_line (runId (procs s p)))))
  else if runId (procs s p) =? -1 then killLocal p
  else set (fun s => set_waiting (List.filter (fun q => negb (q =? p)%nat) (vaultWaiting (tbl s))) s)).

(** Entered in the table under the next number. *)
Definition register (p : nat) (s : supervisor) : supervisor :=
  on_proc p (set_runId (seq_next (vaultRunSeq (tbl s))))
    (set_runs (seq_next (vaultRunSeq (tbl s))) (<[seq_next (vaultRunSeq (tbl s)) := p]> (vaultRuns (tbl s))) s).

Definition enqueue (p : nat) (s : supervisor) : supervisor :=
  if bool_decide (p ∈ vaultWaiting (tbl s)) then s else set_waiting (vaultWaiting (tbl s) ++ [p]) s.

Definition vaultStart (p : nat) : act := reading (fun s =>
  if is_state Pending s || is_state Starting s || is_state Stopped s || (is_state Active s && negb (helper_running s))
  then set (enqueue p)
  else if negb (vaultHelperActive s) then emit (RanHere p)
  else
    set (register p) ;;
    reading (fun s => emit (WroteExec (runId (procs s p)) p (exec_line (runId (procs s p)) (asked (procs s p))))) ;;
    emit (Started p)).

Definition start (p : nat) : act :=
  set (on_proc p not_held) ;;
  reading (fun s =>
    if isScrubCommand (command (asked (procs s p))) then
      set (on_proc p (fun x => set_runId (-1) (no_text x))) ;;
      reading (fun s => when (negb (localRunning (procs s p))) (emit (StartedScrub p))) ;;
      set (on_proc p (set_local true))
    else vaultStart p).

(** [running = b], with [onRunningChanged] when that is a change. *)
Definition set_running (p : nat) (b : bool) : act := reading (fun s =>
  if Bool.eqb (running (procs s p)) b then nothing
  else
    set (on_proc p (set_running_flag b)) ;;
    (if b && (runId (procs s p) =? 0) then start p
     else if negb b && negb (runId (procs s p) =? 0) then vaultKill p
     else nothing)).

Definition finish (p : nat) (exitCode : num) (out err : jsval) (session output : bool) : act :=
  set (on_proc p (ended (text out) (text err) session output)) ;; emit (Exited p exitCode).

(** [local.onExited]: only scrubs run here. *)
Definition local_exited (p : nat) (exitCode : num) : act :=
  set (on_proc p (set_local false)) ;;
  reading (fun s => when (runId (procs s p) =? -1) (finish p exitCode (JStr []) (JStr []) false false)).

Definition flushVaultWaiting : act := reading (fun s =>
  set (set_waiting []) ;;
  fold_right (fun p rest => reading (fun s => when (running (procs s p)) (vaultStart p)) ;; rest) nothing (vaultWaiting (tbl s))).

(** ** The helper's life *)

Definition allowVaultWithoutHelper : bool := false.
Definition vaultHelperMaxRestarts : Z := 3.

Definition useVaultFallback : act :=
  if negb allowVaultWithoutHelper then set (set_state Stopped)
  else set (set_state Fallback) ;; flushVaultWaiting.

Section plugin.
  Context (sshAgentPluginDir : list Z).

Definition inspectVaultHelper : act := reading (fun s =>
  if negb (bool_decide (inspecting s = InspectIdle)) then nothing
  else if bool_decide (sshAgentPluginDir = []) then useVaultFallback
  else set (set_inspecting InspectReading) ;; emit Inspecting).

Definition startVaultHelper : act := reading (fun s =>
  if bool_decide (vaultHelperPath (JStr sshAgentPluginDir) (i_source (vaultHelper s)) = []) then useVaultFallback
  else
    set (set_state Starting) ;;
    set (fun s => set_timers true (settleTimer (wat s)) s) ;;
    reading (fun s => when (negb (helper_running s)) (set (set_os Launching) ;; emit Launched))).

Definition onVaultHelperInspected (raw : jsval) : act :=
  set (set_inspected (parseVaultHelperInspection raw)) ;;
  reading (fun s =>
    if negb (is_state Pending s) then nothing
    else if helperReady (Some (vaultHelper s)) then startVaultHelper
    else useVaultFallback).

Definition stopVaultHelper : act := set (set_state Stopped).

Definition retryVaultHelper : act := reading (fun s =>
  if negb (is_state Stopped s) then nothing
  else if readyTimedOut (wat s) && bool_decide (vaultHelperProc (wat s) = Up) then set (set_retry true true)
  else
    set (set_retry false false) ;;
    set (set_restarts 0) ;;
    set (set_state Pending) ;;
    inspectVaultHelper).

(** [recheckHelpers], as far as this helper goes; also what the end of a build does. *)
Definition recheckHelpers : act := reading (fun s =>
  if shuttingDown s then nothing
  else if is_state Stopped s then retryVaultHelper
  else inspectVaultHelper).

Definition onVaultHelperReadyTimeout : act :=
  set (fun s => set_timers false (settleTimer (wat s)) s) ;;
  reading (fun s =>
    if negb (is_state Starting s) then nothing
    else
      set (fun s => set_retry (helper_running s) (retryPending (wat s)) s) ;;
      set (set_state Stopped) ;;
      when (helper_running s) (emit Terminated)).

Definition settle_timeout : act :=
  set (fun s => set_timers (readyTimer (wat s)) false s) ;;
  reading (fun s => when (is_state Active s) (set (set_restarts 0))).

Definition onVaultHelperStarted : act := set (set_os Up) ;; emit (Wrote hello_line).

(** The entry of a table that the property key [v] names. *)
Definition find_run (runs : gmap Z nat) (v : jsval) : option (Z * nat) :=
  snd <$> list_find (fun kv => to_string (int_value kv.1) = to_string v) (map_to_list runs).
Definition find_query (qs : gset Z) (v : jsval) : option Z :=
  snd <$> list_find (fun q => to_string (int_value q) = to_string v) (elements qs).

(** [adopts]: whether the service takes the session this run unlocked for its own. *)
Definition exit_line (message : jsval) (adopts : bool) : act := reading (fun s =>
  match find_run (vaultRuns (tbl s)) (get message (js "id")) with
  | None => nothing
  | Some (id, p) =>
      set (fun s => set_runs (vaultRunSeq (tbl s)) (delete id (vaultRuns (tbl s))) s) ;;
      finish p (to_number (get message (js "code"))) (get message (js "out")) (get message (js "err"))
        (strict_eqb (get message (js "session")) (JBool true)) (strict_eqb (get message (js "held")) (JBool true)) ;;
      when (strict_eqb (get message (js "session")) (JBool true) && adopts) (set (set_held true))
  end).

Definition result_line (message : jsval) : act := reading (fun s =>
  match find_query (vaultQueries (tbl s)) (get message (js "q")) with
  | None => nothing
  | Some q =>
      set (fun s => set_queries (vaultQuerySeq (tbl s)) (vaultQueries (tbl s) ∖ {[q]}) s) ;;
      emit (Answered (Some q) (strict_eqb (get message (js "ok")) (JBool true)))
  end).

Definition onVaultHelperLine (line : jsval) (adopts : bool) : act := reading (fun s =>
  match parseVaultHelperLine line with
  | None => nothing
  | Some message =>
      let type := get message (js "type") in
      if strict_eqb type (JStr (js "ready")) then
        (if negb (is_state Starting s) || readyTimedOut (wat s) then nothing
         else
           set (set_timers false true) ;;
           set (set_state Active) ;;
           flushVaultWaiting)
      else if strict_eqb type (JStr (js "exit")) then exit_line message adopts
      else if strict_eqb type (JStr (js "result")) then result_line message
      else nothing
  end).

(** The order [for (var id in runs)] takes: by number. *)
Definition by_id (a b : Z * nat) : Prop := a.1 <= b.1.
#[export] Instance by_id_dec : RelDecision by_id := fun a b => Z_le_dec a.1 b.1.

Definition exit_tasks (t : table) (unexpected : bool) : list task :=
  map (fun kv => FinishRun kv.1 kv.2) (merge_sort by_id (map_to_list (vaultRuns t)))
  ++ map FailQuery (merge_sort Z.le (elements (vaultQueries t)))
  ++ (if unexpected then [Restart] else []).

(** [exited] of the helper's process: it is gone by then. *)
Definition onVaultHelperExited : act :=
  set (set_os Off) ;;
  set (set_timers false false) ;;
  reading (fun s =>
    if readyTimedOut (wat s) then
      set (fun s => set_retry false (retryPending (wat s)) s) ;;
      when (retryPending (wat s) && negb (shuttingDown s)) (set (fun s => set_later (startLater (wat s)) true s))
    else
      let unexpected := (is_state Active s || is_state Starting s) && negb (shuttingDown s) in
      when unexpected (set (set_state Starting)) ;;
      when (unexpected && heldSession s) (set (set_held false) ;; emit LockedVault) ;;
      set (fun s => set_agenda (exit_tasks (tbl s) unexpected) (set_queries (vaultQuerySeq (tbl s)) ∅ (set_runs (vaultRunSeq (tbl s)) ∅ s)))).

Definition next_task (t : task) : act :=
  match t with
  | FinishRun _ p => finish p (NZ 1) (JStr []) (JStr (js "the vault helper stopped")) false false
  | FailQuery q => emit (Answered (Some q) false)
  | Restart => reading (fun s =>
      if vaultHelperRestarts (wat s) <? vaultHelperMaxRestarts then
        set (set_restarts (vaultHelperRestarts (wat s) + 1)) ;;
        set (fun s => set_later true (retryLater (wat s)) s)
      else stopVaultHelper)
  end.

Definition vaultQuery (type : list Z) (fields : list (list Z * jsval)) : act := reading (fun s =>
  if negb (vaultHelperActive s) then emit (Answered None false)
  else
    let q := seq_next (vaultQuerySeq (tbl s)) in
    set (fun s => set_queries q ({[q]} ∪ vaultQueries (tbl s)) s) ;;
    emit (Wrote (vaultHelperLine type (copy_into [(js "q", int_value q)] fields)))).

Definition releaseVaultHelper : act :=
  set set_shutting ;; reading (fun s => when (helper_running s) (emit (Wrote shutdown_line))).

(** ** Events *)

Inductive run_event :=
(* what the rest of the service and the user do *)
| Ask (p : nat) (a : spec) | SetRunning (p : nat) (b : bool) | Withdraw (p : nat)
| Query (type : list Z) (fields : list (list Z * jsval)) | DropSession | Recheck | Retry | Unload
(* the next thing a lost helper leaves to do *)
| NextTask
(* what the processes, timers and deferred calls do *)
| InspectionOutput (raw : jsval) | InspectionExited | StartDeferred | RetryDeferred | ReadyTimeout | SettleTimeout
| HelperStarted | HelperNotStarted | HelperLine (line : jsval) (adopts : bool) | HelperExited | LocalExited (p : nat) (exitCode : num).

Definition dispatch (ev : run_event) : act :=
  match ev with
  | Ask p a => set (on_proc p (set_asked a))
  | SetRunning p b => set_running p b
  | Withdraw p => vaultKill p
  | Query type fields => vaultQuery type fields
  | DropSession => set (set_held false)
  | Recheck => recheckHelpers
  | Retry => retryVaultHelper
  | Unload => releaseVaultHelper
  | NextTask => reading (fun s => match agenda s with [] => nothing | t :: ts => set (set_agenda ts) ;; next_task t end)
  | InspectionOutput raw => onVaultHelperInspected raw
  | InspectionExited => set (set_inspecting InspectIdle)
  | StartDeferred => set (fun s => set_later false (retryLater (wat s)) s) ;; startVaultHelper
  | RetryDeferred => set (fun s => set_later (startLater (wat s)) false s) ;; retryVaultHelper
  | ReadyTimeout => onVaultHelperReadyTimeout
  | SettleTimeout => settle_timeout
  | HelperStarted => onVaultHelperStarted
  | HelperNotStarted => set (set_os Off)
  | HelperLine line adopts => onVaultHelperLine line adopts
  | HelperExited => onVaultHelperExited
  | LocalExited p code => local_exited p code
  end.

(** An event of a process, a timer or a deferred call comes when nothing is being
    handled, and from one that can send it: a launch is decided before the ready timer
    fires, and [cancelEnvelopeUnlockJobs] withdraws a process it has stopped. *)
Definition possible (s : supervisor) (ev : run_event) : Prop :=
  match ev with
  | Ask _ _ | SetRunning _ _ | Query _ _ | DropSession | Recheck | Retry | Unload => True
  | Withdraw p => running (procs s p) = false /\ runId (procs s p) = 0
  | NextTask => agenda s <> []
  | InspectionOutput _ => agenda s = [] /\ inspecting s = InspectReading
  | InspectionExited => agenda s = [] /\ inspecting s = InspectRead
  | StartDeferred => agenda s = [] /\ startLater (wat s) = true
  | RetryDeferred => agenda s = [] /\ retryLater (wat s) = true
  | ReadyTimeout => agenda s = [] /\ readyTimer (wat s) = true /\ vaultHelperProc (wat s) <> Launching
  | SettleTimeout => agenda s = [] /\ settleTimer (wat s) = true
  | HelperStarted | HelperNotStarted => agenda s = [] /\ vaultHelperProc (wat s) = Launching
  | HelperLine _ _ | HelperExited => agenda s = [] /\ vaultHelperProc (wat s) = Up
  | LocalExited p _ => agenda s = [] /\ localRunning (procs s p) = true
  end.

(** Run numbers are properties of type [int]: no run of the service reaches the last. *)
Definition room (s : supervisor) : Prop :=
  vaultRunSeq (tbl s) + Z.of_nat (length (vaultWaiting (tbl s))) + 1 < 2 ^ 31 /\ vaultQuerySeq (tbl s) + 1 < 2 ^ 31.

Definition step_supervisor (ev : run_event) (s : supervisor) : supervisor := (dispatch ev s).1.

Inductive reached : supervisor -> Prop :=
| reached_init : reached init_supervisor
| reached_step ev s : reached s -> possible s ev -> room s -> reached (step_supervisor ev s).
End plugin.
