(* ===== verification/VaultRunsCorrect.v ===== *)
(** * The vault helper and its runs are kept straight

    The lifecycle invariant ([life]) and the table invariant ([tables]), which every
    event preserves.  What they mean for the owners of the processes is in
    [VaultOwners]. *)

From stdpp Require Import gmap sorting functions.
From S2P Require Import Prelude.
From S2P Require Import JsNum.
From S2P Require Import JsString.
From S2P Require Import JsValue.
From S2P Require Import JsInt.
From S2P Require Import Json.
From S2P Require Import Shell.
From S2P Require Import Helpers.
From S2P Require Import Commands.
From S2P Require Import Actions.
From S2P Require Import VaultRuns.
Local Open Scope act_scope.

Definition up (s : supervisor) : bool := is_state Active s && bool_decide (vaultHelperProc (wat s) = Up).

Definition is_restart (t : task) : bool := match t with Restart => true | _ => false end.
Definition restart_due (s : supervisor) : bool := existsb is_restart (agenda s).

(** ** The helper's life *)

Record life (s : supervisor) : Prop := {
  life_fallback : vaultHelperState (wat s) <> Fallback;
  life_active : vaultHelperState (wat s) = Active ->
    vaultHelperProc (wat s) = Up \/ (vaultHelperProc (wat s) = Off /\ shuttingDown s = true);
  life_pending : vaultHelperState (wat s) = Pending -> vaultHelperProc (wat s) = Off;
  life_stopped : vaultHelperState (wat s) = Stopped -> readyTimedOut (wat s) = true \/ vaultHelperProc (wat s) = Off;
  life_restarts : 0 <= vaultHelperRestarts (wat s) <= vaultHelperMaxRestarts;
  life_timedOut : readyTimedOut (wat s) = true -> vaultHelperState (wat s) = Stopped /\ vaultHelperProc (wat s) = Up;
  life_timer : readyTimer (wat s) = true -> vaultHelperState (wat s) = Starting;
  life_launching : vaultHelperProc (wat s) = Launching -> vaultHelperState (wat s) = Starting;
  life_later : startLater (wat s) = true ->
    vaultHelperState (wat s) = Starting /\ vaultHelperProc (wat s) = Off /\ readyTimer (wat s) = false /\ restart_due s = false;
  life_restart : restart_due s = true ->
    vaultHelperState (wat s) = Starting /\ vaultHelperProc (wat s) = Off /\ readyTimer (wat s) = false;
  life_agenda : agenda s <> [] -> vaultHelperProc (wat s) = Off;
  life_once : forall a b, agenda s = a ++ Restart :: b -> b = [];
  life_held : heldSession s = true -> shuttingDown s = false -> vaultHelperState (wat s) = Active
}.

(** What [life] reads of a state. *)
Definition life_part (s : supervisor) : watch * bool * bool * list task := (wat s, shuttingDown s, heldSession s, agenda s).

Lemma life_same s s' : life_part s' = life_part s -> life s -> life s'.
Proof. unfold life_part. intros [= Hw Hsd Hh Ha] [H1 H2 H3 H4 H5 H6 H7 H8 H9 H10 H11 H12 H13]. unfold restart_due in *. split; unfold restart_due; rewrite ?Hw, ?Hsd, ?Hh, ?Ha; assumption. Qed.

(** An action that leaves that part alone. *)
Definition aside (a : act) : Prop := forall s, life_part (a s).1 = life_part s.

Lemma aside_nothing : aside nothing.
Proof. done. Qed.
Lemma aside_emit x : aside (emit x).
Proof. done. Qed.
Lemma aside_set f : (forall s, life_part (f s) = life_part s) -> aside (set f).
Proof. intros H s. apply H. Qed.
Lemma aside_seq a b : aside a -> aside b -> aside (a ;; b).
Proof.
  intros Ha Hb s. specialize (Ha s). unfold seq_act. destruct (a s) as [s1 e1]. specialize (Hb s1). destruct (b s1) as [s2 e2].
  cbn in *. congruence.
Qed.
Lemma aside_reading f : (forall s, aside (f s)) -> aside (reading f).
Proof. intros H s. apply H. Qed.
Lemma aside_if (b : bool) x y : aside x -> aside y -> aside (if b then x else y).
Proof. by destruct b. Qed.
Lemma aside_life a s : aside a -> life s -> life (a s).1.
Proof. intros Ha. by apply life_same. Qed.

Create HintDb aside.
#[export] Hint Resolve aside_nothing aside_emit aside_seq aside_if : aside.
#[export] Hint Extern 1 (aside (set _)) => apply aside_set; reflexivity : aside.
#[export] Hint Extern 1 (aside (reading _)) => apply aside_reading; intro : aside.
#[export] Hint Extern 1 (aside (when _ _)) => unfold when : aside.
#[export] Hint Extern 2 (aside (match ?x with _ => _ end)) => destruct x : aside.

Lemma enqueue_aside p : aside (set (enqueue p)).
Proof. apply aside_set. intros s. unfold enqueue. by case_bool_decide. Qed.
#[export] Hint Resolve enqueue_aside : aside.

Lemma vaultKill_aside p : aside (vaultKill p).
Proof. unfold vaultKill, killLocal. auto 10 with aside. Qed.
Lemma vaultStart_aside p : aside (vaultStart p).
Proof. unfold vaultStart. auto 10 with aside. Qed.
#[export] Hint Resolve vaultKill_aside vaultStart_aside : aside.
Lemma start_aside p : aside (start p).
Proof. unfold start. auto 12 with aside. Qed.
Lemma finish_aside p code out err a b : aside (finish p code out err a b).
Proof. unfold finish. auto with aside. Qed.
#[export] Hint Resolve start_aside finish_aside : aside.
Lemma set_running_aside p b : aside (set_running p b).
Proof. unfold set_running. auto 10 with aside. Qed.
Lemma local_exited_aside p code : aside (local_exited p code).
Proof. unfold local_exited. auto 10 with aside. Qed.
Lemma flush_aside : aside flushVaultWaiting.
Proof.
  unfold flushVaultWaiting. apply aside_reading. intros s. apply aside_seq; [by apply aside_set|].
  induction (vaultWaiting (tbl s)); cbn; auto 10 with aside.
Qed.
Lemma query_aside type fields : aside (vaultQuery type fields).
Proof. unfold vaultQuery. auto 10 with aside. Qed.
Lemma result_aside m : aside (result_line m).
Proof. unfold result_line. auto 10 with aside. Qed.
#[export] Hint Resolve set_running_aside local_exited_aside flush_aside query_aside result_aside : aside.

(** ** Every event keeps the helper's life in order *)

Ltac open_life s H :=
  destruct s as [[st os n timed pend ready settle later retry] t f vh ins sd held ag];
  destruct H as [Hfb Hac Hpe Hst Hre Hti Htm Hla Hlt Hrs Hag Hon Hhe]; cbn in *.

Ltac known :=
  repeat match goal with
  | |- context [bool_decide (?a = ?b)] => first [change (bool_decide (a = b)) with true | change (bool_decide (a = b)) with false]
  end.

Ltac life_auto :=
  split; unfold restart_due, vaultHelperMaxRestarts in *; cbn in *; known; first [lia | solve [eauto] | solve [intuition congruence] | idtac].

(** Without the plugin's directory no helper is ever tried. *)
Definition rooted (dir : list Z) (s : supervisor) : Prop :=
  dir = [] -> vaultHelperState (wat s) = Pending \/ vaultHelperState (wat s) = Stopped.

Ltac rooted_auto R := clear -R; unfold rooted in *; cbn in *; naive_solver.

Definition lively (dir : list Z) (s : supervisor) : Prop := life s /\ rooted dir s.

Definition no_helper (s : supervisor) : Prop :=
  vaultHelperProc (wat s) = Off /\ startLater (wat s) = false /\ restart_due s = false /\ readyTimer (wat s) = false /\ is_state Active s = false.

Lemma pending_no_helper s : life s -> vaultHelperState (wat s) = Pending -> no_helper s.
Proof.
  intros H Hp. unfold no_helper, is_state. rewrite Hp. repeat split; [by apply (life_pending s H)| | |]; apply not_true_is_false; intros E.
  - destruct (life_later _ H E). congruence.
  - destruct (life_restart _ H E). congruence.
  - pose proof (life_timer _ H E). congruence.
Qed.

Lemma fallback_lively dir s : life s -> no_helper s -> lively dir (useVaultFallback s).1.
Proof.
  intros H (Ho & Hl & Hd & Hr & Ha). split; [|intros; by right]. apply bool_decide_eq_false in Ha. unfold useVaultFallback, allowVaultWithoutHelper.
  open_life s H. life_auto.
Qed.

Lemma lively_same dir s s' : life_part s' = life_part s -> lively dir s -> lively dir s'.
Proof. intros E [H R]. split; [by eapply life_same|]. unfold rooted, life_part in *. injection E as Hw _ _ _. by rewrite Hw. Qed.

Lemma aside_lively dir a s : aside a -> lively dir s -> lively dir (a s).1.
Proof. intros Ha. by apply lively_same. Qed.

Lemma inspect_lively dir s : lively dir s -> (vaultHelperState (wat s) = Stopped -> no_helper s) -> lively dir (inspectVaultHelper dir s).1.
Proof.
  intros [H R] Hn. unfold inspectVaultHelper, reading. case_bool_decide; cbn [negb]; [|done].
  case_bool_decide as Hd; [|by apply (lively_same dir s)]. apply fallback_lively; [done|].
  destruct (R Hd) as [Hp|Hs]; [by apply pending_no_helper|by apply Hn].
Qed.

Lemma path_known dir source : vaultHelperPath (JStr dir) source <> [] -> dir <> [].
Proof. intros Hp ->. by apply Hp. Qed.

Lemma start_lively dir s : life s -> no_helper s -> agenda s = [] -> lively dir (startVaultHelper dir s).1.
Proof.
  intros H Hn Hnil. unfold startVaultHelper, seq_act, reading, when, helper_running.
  case_bool_decide as Hp; [by apply fallback_lively|]. apply path_known in Hp. split; [|by intros ?%Hp].
  destruct Hn as (Ho & Hl & Hd & Hr & Ha). apply bool_decide_eq_false in Ha. open_life s H. subst os ag. known. cbn. life_auto.
Qed.

Lemma retry_lively dir s : lively dir s -> lively dir (retryVaultHelper dir s).1.
Proof.
  intros [H R]. unfold retryVaultHelper, reading. unfold is_state. case_bool_decide as Hs; cbn [negb]; [|done].
  destruct (readyTimedOut (wat s) && bool_decide (vaultHelperProc (wat s) = Up)) eqn:Ht.
  { apply andb_true_iff in Ht as [Ht _]. split; [|intros; by right]. open_life s H. subst. life_auto. }
  unfold seq_act, Actions.set at 1 2 3. cbn -[inspectVaultHelper].
  set (s' := set_state Pending (set_restarts 0 (set_retry false false s))).
  enough (lively dir s' /\ vaultHelperState (wat s') <> Stopped) as [Hl Hw].
  { pose proof (inspect_lively dir s' Hl) as Hi. destruct (inspectVaultHelper dir s') as [s2 e2]. apply Hi. by intros. }
  split; [|done]. split; [|intros; by left].
  assert (Ho : vaultHelperProc (wat s) = Off).
  { destruct (life_stopped _ H Hs) as [Hq|]; [|done]. pose proof (life_timedOut _ H Hq) as [_ Hu]. rewrite Hq, Hu in Ht. done. }
  subst s'. open_life s H. subst. life_auto.
Qed.

Lemma timeout_lively dir s : lively dir s -> readyTimer (wat s) = true -> vaultHelperProc (wat s) <> Launching -> lively dir (onVaultHelperReadyTimeout s).1.
Proof.
  intros [H R] Hr Hl. unfold onVaultHelperReadyTimeout, seq_act, reading, is_state, helper_running. open_life s H. subst ready.
  destruct st, os; cbn; known; cbn; (split; [life_auto|rooted_auto R]).
Qed.

Lemma settle_lively dir s : lively dir s -> lively dir (settle_timeout s).1.
Proof.
  intros [H R]. unfold settle_timeout, seq_act, reading, is_state. open_life s H.
  destruct st; cbn; known; cbn; (split; [life_auto|rooted_auto R]).
Qed.

Lemma os_lively dir s o : lively dir s -> vaultHelperProc (wat s) = Launching -> agenda s = [] -> o <> Launching -> lively dir (set_os o s).
Proof.
  intros [H R] Hl Ha Ho. open_life s H. subst. pose proof (Hla eq_refl). subst.
  split; [life_auto; destruct o; congruence|rooted_auto R].
Qed.

Lemma unload_lively dir s : lively dir s -> lively dir (releaseVaultHelper s).1.
Proof.
  intros [H R]. unfold releaseVaultHelper, seq_act, reading, helper_running. open_life s H.
  destruct os; cbn; known; cbn; (split; [life_auto|]); done.
Qed.

Lemma drop_lively dir s : lively dir s -> lively dir (set_held false s).
Proof. intros [H R]. open_life s H. split; [life_auto|done]. Qed.

Lemma hold_lively dir s : lively dir s -> vaultHelperState (wat s) = Active -> lively dir (set_held true s).
Proof. intros [H R] Ha. open_life s H. subst. split; [life_auto|done]. Qed.

Lemma take_task_life s x ts : life s -> agenda s = x :: ts -> is_restart x = false -> life (set_agenda ts s).
Proof.
  intros H Ha Hx. open_life s H. subst ag. unfold restart_due in *. cbn in Hlt, Hrs. rewrite Hx in *. cbn in Hlt, Hrs. life_auto.
  intros a b ->. by apply (Hon (x :: a) b).
Qed.

Lemma next_task_lively dir s x ts : lively dir s -> agenda s = x :: ts -> lively dir (next_task x (set_agenda ts s)).1.
Proof.
  intros [H R] Ha. destruct x as [id p|q|].
  - apply aside_lively; [cbn; auto with aside|]. split; [by eapply take_task_life|done].
  - apply aside_lively; [cbn; auto with aside|]. split; [by eapply take_task_life|done].
  - assert (ts = []) as -> by (by apply (life_once _ H [] ts)). open_life s H. subst ag. cbn in Hrs. specialize (Hrs eq_refl) as (-> & -> & ->).
    assert (sd = true \/ held = false) by (destruct sd, held; auto; by specialize (Hhe eq_refl eq_refl)).
    unfold reading, when, vaultHelperMaxRestarts. cbn. destruct (n <? 3) eqn:Hn; cbn; (split; [|rooted_auto R]); apply Z.ltb_lt in Hn || apply Z.ltb_ge in Hn; life_auto.
    + intros a b E. by destruct a.
    + intros a b E. by destruct a.
Qed.

Lemma exit_tasks_due t b : existsb is_restart (exit_tasks t b) = b.
Proof.
  unfold exit_tasks. rewrite !existsb_app.
  assert (existsb is_restart (map (fun kv => FinishRun kv.1 kv.2) (merge_sort by_id (map_to_list (vaultRuns t)))) = false) as ->
    by (induction (merge_sort by_id _); done).
  assert (existsb is_restart (map FailQuery (merge_sort Z.le (elements (vaultQueries t)))) = false) as -> by (induction (merge_sort Z.le _); done).
  by destruct b.
Qed.

Lemma exit_tasks_once t u a b : exit_tasks t u = a ++ Restart :: b -> b = [].
Proof.
  unfold exit_tasks. rewrite app_assoc. set (l := map _ _ ++ map _ _).
  assert (existsb is_restart l = false).
  { pose proof (exit_tasks_due t false) as E. unfold exit_tasks in E. by rewrite app_nil_r in E. }
  clearbody l. revert l H. induction a as [|x a IH]; intros [|y l] H E; cbn in *; simplify_eq.
  - by destruct u; simplify_eq.
  - destruct u; simplify_eq. by destruct a.
  - apply orb_false_iff in H as [_ H]. by apply (IH l H).
Qed.

Lemma exit_lively dir s : lively dir s -> vaultHelperProc (wat s) = Up -> agenda s = [] -> lively dir (onVaultHelperExited s).1.
Proof.
  intros [H R] Hu Ha. unfold onVaultHelperExited, seq_act, reading, when, is_state. open_life s H. subst os ag.
  assert (later = false) as -> by (destruct later; [|done]; by destruct (Hlt eq_refl) as (_ & ? & _)).
  destruct timed; cbn.
  { destruct (Hti eq_refl) as [-> _]. destruct (pend && negb sd); cbn; (split; [life_auto|rooted_auto R]). }
  destruct st, sd, held; known; cbn; try congruence; (split; [|rooted_auto R]); life_auto; rewrite ?exit_tasks_due; try done; try by intros; eapply exit_tasks_once.
Qed.

Lemma ready_lively dir s : lively dir s -> vaultHelperState (wat s) = Starting -> vaultHelperProc (wat s) = Up -> agenda s = [] ->
  lively dir (set_state Active (set_timers false true s)).
Proof.
  intros [H R] Hs Hu Ha. open_life s H. subst. split; [|rooted_auto R].
  assert (later = false) as -> by (destruct later; [|done]; by destruct (Hlt eq_refl) as (_ & ? & _)).
  assert (timed = false) as -> by (destruct timed; [|done]; by destruct (Hti eq_refl)). life_auto.
Qed.

Lemma line_lively dir s line adopts : lively dir s -> (vaultRuns (tbl s) <> ∅ -> vaultHelperState (wat s) = Active) ->
  vaultHelperProc (wat s) = Up -> agenda s = [] -> lively dir (onVaultHelperLine line adopts s).1.
Proof.
  intros H Hr Hu Ha. unfold onVaultHelperLine, reading at 1. destruct (parseVaultHelperLine line) as [m|]; [|done].
  destruct (strict_eqb _ _).
  { destruct (negb (is_state Starting s) || readyTimedOut (wat s)) eqn:Hn; [done|].
    apply orb_false_iff in Hn as [Hs Hto]. apply negb_false_iff, bool_decide_eq_true in Hs.
    unfold seq_act, Actions.set at 1 2. cbn -[flushVaultWaiting]. set (s' := set_state Active (set_timers false true s)).
    assert (lively dir s') as Hl by (by apply ready_lively).
    pose proof (aside_lively dir flushVaultWaiting s' flush_aside Hl) as Hf. by destruct (flushVaultWaiting s'). }
  destruct (strict_eqb _ _); [|destruct (strict_eqb _ _); [by apply aside_lively; auto with aside|done]].
  unfold exit_line, reading. destruct (find_run _ _) as [[id p]|] eqn:Hf; [|done].
  assert (vaultHelperState (wat s) = Active) as Hact.
  { apply Hr. intros E. rewrite E in Hf. done. }
  unfold seq_act, when. destruct (_ && adopts); cbn; [|by apply (lively_same dir s)].
  apply hold_lively; [|done]. by apply (lively_same dir s).
Qed.

(** ** The table of runs

    [todo] are the processes asked to run and not yet looked at. *)
Record tables (live : bool) (t : table) (f : nat -> vault_process) (ag : list task) (todo : list nat) : Prop := {
  tab_runs : forall n p, vaultRuns t !! n = Some p -> runId (f p) = n /\ 0 < n <= vaultRunSeq t;
  tab_ids : forall p, 0 < runId (f p) -> vaultRuns t !! runId (f p) = Some p \/ FinishRun (runId (f p)) p ∈ ag;
  tab_dying : forall n p, FinishRun n p ∈ ag -> runId (f p) = n /\ 0 < n <= vaultRunSeq t;
  tab_once : NoDup ag;
  tab_asked : forall p, running (f p) = true -> runId (f p) = 0 -> p ∈ vaultWaiting t \/ p ∈ todo;
  tab_nodup : NoDup (vaultWaiting t) /\ NoDup todo;
  tab_waiting : forall p, p ∈ vaultWaiting t \/ p ∈ todo -> runId (f p) <= 0;
  tab_flushed : live = true -> vaultWaiting t = [];
  tab_live : live = false -> vaultRuns t = ∅;
  tab_local : forall p, runId (f p) < 0 -> runId (f p) = -1 /\ localRunning (f p) = true;
  tab_seq : 0 <= vaultRunSeq t
}.

Ltac open_tables H := destruct H as [Hru Hid Hdy Hno Has [Hn1 Hn2] Hwa Hfl Hli Hlo Hse]; cbn in *.
Ltac at_proc q p := destruct (decide (q = p)) as [->|?]; [rewrite ?fn_lookup_insert in * | rewrite ?fn_lookup_insert_ne in * by done].

Lemma tables_ext live t t' f f' ag todo :
  vaultRuns t' = vaultRuns t -> vaultRunSeq t' = vaultRunSeq t -> vaultWaiting t' = vaultWaiting t ->
  (forall q, runId (f' q) = runId (f q)) -> (forall q, running (f' q) = true -> running (f q) = true \/ runId (f q) <> 0) ->
  (forall q, localRunning (f q) = true -> localRunning (f' q) = true \/ 0 <= runId (f q)) ->
  tables live t f ag todo -> tables live t' f' ag todo.
Proof.
  intros Er Es Ew Ei Eg El H. open_tables H. split; rewrite ?Er, ?Es, ?Ew; auto; intros; rewrite ?Ei in *; eauto.
  - destruct (Eg p) as [?|?]; [done|by apply Has|done].
  - destruct (Hlo p) as [-> Hl]; [done|]. split; [done|]. destruct (El p Hl) as [?|?]; [done|lia].
Qed.

Lemma tables_skip live t f ag p todo : tables live t f ag (p :: todo) -> running (f p) = false -> tables live t f ag todo.
Proof.
  intros H Hr. open_tables H. apply NoDup_cons in Hn2 as [? ?]. split; auto.
  - intros q Hq Hq0. destruct (Has q Hq Hq0) as [?|[->|?]%elem_of_cons]; auto. congruence.
  - intros q [?|?]; apply Hwa; [by left|right; by right].
Qed.

Lemma tables_register t f ag p todo : tables true t f ag (p :: todo) ->
  tables true (Table (vaultRunSeq t + 1) (<[vaultRunSeq t + 1 := p]> (vaultRuns t)) (vaultWaiting t) (vaultQuerySeq t) (vaultQueries t))
    (<[p := set_runId (vaultRunSeq t + 1) (f p)]> f) ag todo.
Proof.
  intros H. open_tables H. apply NoDup_cons in Hn2 as [Hp Hn2]. assert (Hp0 : runId (f p) <= 0) by (apply Hwa; right; by left).
  split; cbn; auto; try lia.
  - intros n q Hq. apply lookup_insert_Some in Hq as [[<- <-]|[Hn Hq]]; [rewrite fn_lookup_insert; cbn; lia|].
    destruct (Hru n q Hq). at_proc q p; lia.
  - intros q Hq. at_proc q p; cbn; [left; by rewrite lookup_insert_eq|]. destruct (Hid q Hq) as [Hl|?]; [left|by right].
    destruct (Hru _ _ Hl). rewrite lookup_insert_ne by lia. done.
  - intros n q Hq. destruct (Hdy n q Hq). at_proc q p; lia.
  - intros q Hq Hq0. at_proc q p; cbn in *; [lia|]. destruct (Has q Hq Hq0) as [?|[->|?]%elem_of_cons]; auto. done.
  - intros q Hq. assert (q <> p) by (intros ->; destruct Hq as [Hq|?]; [rewrite (Hfl eq_refl) in Hq; set_solver|done]). at_proc q p; [done|].
    apply Hwa. destruct Hq; [by left|right; by right].
  - intros q Hq. at_proc q p; cbn in *; [lia|auto].
Qed.

Lemma tables_enqueue t f ag p todo : tables false t f ag (p :: todo) ->
  tables false (Table (vaultRunSeq t) (vaultRuns t) (if bool_decide (p ∈ vaultWaiting t) then vaultWaiting t else vaultWaiting t ++ [p])
                  (vaultQuerySeq t) (vaultQueries t)) f ag todo.
Proof.
  intros H. open_tables H. apply NoDup_cons in Hn2 as [Hp Hn2].
  assert (Hin : forall q, q ∈ (if bool_decide (p ∈ vaultWaiting t) then vaultWaiting t else vaultWaiting t ++ [p]) <-> q ∈ vaultWaiting t \/ q = p).
  { intros q. case_bool_decide; [set_solver|]. rewrite elem_of_app, list_elem_of_singleton. done. }
  split; cbn; auto; try done.
  - intros q Hq Hq0. rewrite Hin. destruct (Has q Hq Hq0) as [?|[->|?]%elem_of_cons]; auto.
  - split; [|done]. case_bool_decide; [done|]. apply NoDup_app. split_and!; [done|set_solver|apply NoDup_singleton].
  - intros q. rewrite Hin. intros [[?| ->]|?]; apply Hwa; [by left|right; by left|right; by right].
Qed.

Lemma tables_ask live t f ag p : tables live t f ag [] -> runId (f p) = 0 ->
  tables live t (<[p := set_running_flag true (f p)]> f) ag [p].
Proof.
  intros H Hp. open_tables H. split; auto.
  - intros n q Hq. specialize (Hru n q Hq). at_proc q p; done.
  - intros q. at_proc q p; [cbn; lia|auto].
  - intros n q Hq. specialize (Hdy n q Hq). at_proc q p; done.
  - intros q. at_proc q p; [intros; right; by left|]. intros Hq Hq0. destruct (Has q Hq Hq0); set_solver.
  - split; [done|apply NoDup_singleton].
  - intros q. at_proc q p; [cbn; lia|]. intros [?|?%list_elem_of_singleton]; [apply Hwa; by left|done].
  - intros q. at_proc q p; [cbn; lia|auto].
Qed.

Lemma tables_scrub live t f ag p todo x : tables live t f ag (p :: todo) -> runId x = -1 -> localRunning x = true ->
  tables live t (<[p := x]> f) ag todo.
Proof.
  intros H Hx Hl. open_tables H. apply NoDup_cons in Hn2 as [Hp Hn2]. assert (Hp0 : runId (f p) <= 0) by (apply Hwa; right; by left).
  split; auto.
  - intros n q Hq. destruct (Hru n q Hq). at_proc q p; [lia|done].
  - intros q. at_proc q p; [lia|auto].
  - intros n q Hq. destruct (Hdy n q Hq). at_proc q p; [lia|done].
  - intros q. at_proc q p; [lia|]. intros Hq Hq0. destruct (Has q Hq Hq0) as [?|[->|?]%elem_of_cons]; auto. done.
  - intros q Hq. at_proc q p; [lia|]. apply Hwa. destruct Hq; [by left|right; by right].
  - intros q. at_proc q p; auto.
Qed.

(** The end of a run that nothing else stands for. *)
Lemma tables_ended live t t' f ag ag' p x :
  tables live t f ag [] -> runId x = 0 -> running x = false ->
  vaultRunSeq t' = vaultRunSeq t -> vaultWaiting t' = vaultWaiting t ->
  (forall n q, vaultRuns t' !! n = Some q <-> vaultRuns t !! n = Some q /\ q <> p) ->
  (forall a, a ∈ ag' <-> a ∈ ag /\ (forall n, a <> FinishRun n p)) -> NoDup ag' ->
  tables live t' (<[p := x]> f) ag' [].
Proof.
  intros H Hx Hg Es Ew Er Ea Hd. open_tables H. split; rewrite ?Es, ?Ew; auto.
  - intros n q [Hq Hne]%Er. at_proc q p; [done|auto].
  - intros q. at_proc q p; [lia|]. intros Hq. destruct (Hid q Hq); [left; by apply Er|right]. apply Ea. split; [done|congruence].
  - intros n q [Hq Hne]%Ea. at_proc q p; [by destruct (Hne n)|auto].
  - intros q. at_proc q p; [congruence|auto].
  - intros q. at_proc q p; [lia|auto].
  - intros Hlv. specialize (Hli Hlv). apply map_empty. intros n. destruct (vaultRuns t' !! n) as [q|] eqn:E; [|done].
    apply Er in E as [E _]. by rewrite Hli in E.
  - intros q. at_proc q p; [lia|auto].
Qed.

Lemma tables_exit live t f b u : tables live t f [] [] ->
  tables false (Table (vaultRunSeq t) ∅ (vaultWaiting t) (vaultQuerySeq t) b) f (exit_tasks t u) [].
Proof.
  intros H. open_tables H.
  assert (Hf : forall n p, FinishRun n p ∈ exit_tasks t u <-> vaultRuns t !! n = Some p).
  { intros n p. unfold exit_tasks. rewrite !elem_of_app, !list_elem_of_fmap, <- elem_of_map_to_list. split.
    - intros [([n' p'] & [= -> ->] & Hi)|[(? & ? & _)|Hi]]; [by rewrite merge_sort_Permutation in Hi|done|]. destruct u; set_solver.
    - intros Hi. left. exists (n, p). by rewrite merge_sort_Permutation. }
  split; cbn; auto; try done.
  - intros p Hp. right. apply Hf. destruct (Hid p Hp); [done|set_solver].
  - intros n p Hp%Hf. auto.
  - unfold exit_tasks. apply NoDup_app. split_and!.
    + apply NoDup_fmap_2_strong; [by intros [] [] _ _ [= -> ->]|]. rewrite merge_sort_Permutation. apply NoDup_map_to_list.
    + intros x Hx. apply list_elem_of_fmap in Hx as (? & -> & _). destruct u; set_solver.
    + apply NoDup_app. split_and!; [|intros x Hx; apply list_elem_of_fmap in Hx as (? & -> & _); destruct u; set_solver|destruct u; [apply NoDup_singleton|constructor]].
      * apply NoDup_fmap_2; [by intros ?? [= ->]|]. rewrite merge_sort_Permutation. apply NoDup_elements.
Qed.

Lemma tables_ready t f : tables false t f [] [] ->
  tables true (Table (vaultRunSeq t) (vaultRuns t) [] (vaultQuerySeq t) (vaultQueries t)) f [] (vaultWaiting t).
Proof. intros H. open_tables H. split; cbn; auto; try done; naive_solver. Qed.

Lemma tables_withdraw live t f ag p : tables live t f ag [] -> running (f p) = false ->
  tables live (Table (vaultRunSeq t) (vaultRuns t) (List.filter (fun q => negb (q =? p)%nat) (vaultWaiting t)) (vaultQuerySeq t) (vaultQueries t)) f ag [].
Proof.
  intros H Hp. open_tables H.
  assert (Hin : forall q, q ∈ List.filter (fun q => negb (q =? p)%nat) (vaultWaiting t) <-> q ∈ vaultWaiting t /\ q <> p).
  { intros q. rewrite !list_elem_of_In, filter_In, negb_true_iff, Nat.eqb_neq. done. }
  split; cbn; auto; try done.
  - intros q Hq Hq0. rewrite Hin. left. split; [|congruence]. destruct (Has q Hq Hq0); [done|set_solver].
  - split; [|done]. apply NoDup_ListNoDup, List.NoDup_filter. by apply NoDup_ListNoDup.
  - intros q [Hq|Hq]; [|set_solver]. apply Hwa. left. by apply Hin.
  - intros Hl. by rewrite (Hfl Hl).
Qed.

Lemma tables_task live t f x ag : tables live t f (x :: ag) [] -> (forall n p, x <> FinishRun n p) -> tables live t f ag [].
Proof.
  intros H Hx. open_tables H. apply NoDup_cons in Hno as [? ?]. split; auto.
  - intros p Hp. destruct (Hid p Hp) as [?|[E|?]%elem_of_cons]; auto. by destruct (Hx (runId (f p)) p).
  - intros n p Hp. apply Hdy. by right.
Qed.

(** ** Every event keeps the table in order *)

Definition tabs (todo : list nat) (s : supervisor) : Prop := tables (up s) (tbl s) (procs s) (agenda s) todo.

Lemma seq_next_room z : 0 <= z -> z + 1 < 2 ^ 31 -> seq_next z = z + 1.
Proof. intros. unfold seq_next. apply i32_small. lia. Qed.

Lemma up_part s s' : life_part s' = life_part s -> up s' = up s /\ agenda s' = agenda s.
Proof. unfold life_part, up, is_state. intros [= -> _ _ ->]. done. Qed.

Lemma up_spec s : life s -> up s = true <-> vaultHelperState (wat s) = Active /\ helper_running s = true.
Proof.
  intros H. unfold up, is_state, helper_running. rewrite andb_true_iff, !bool_decide_eq_true, negb_true_iff, bool_decide_eq_false.
  pose proof (life_active s H). pose proof (life_launching s H). destruct (vaultHelperProc (wat s)); naive_solver.
Qed.

(** Where a start goes: into the table when the helper is up, to the queue otherwise. *)
Lemma vaultStart_next p s : life s -> (vaultStart p s).1 = if up s then register p s else enqueue p s.
Proof.
  intros H. pose proof (up_spec s H) as Hu. pose proof (life_fallback s H) as Hf. unfold vaultStart, reading, is_state, vaultHelperActive, is_state.
  destruct (up s).
  - destruct Hu as [[-> ->] _]; [done|]. done.
  - assert (vaultHelperState (wat s) = Active -> helper_running s = false) as Hx by (intros E; apply not_true_is_false; intros E'; destruct Hu as [_ Hu]; by specialize (Hu (conj E E'))).
    destruct (vaultHelperState (wat s)); try done. by rewrite (Hx eq_refl).
Qed.

Lemma vaultStart_tabs p todo s : life s -> tabs (p :: todo) s -> vaultRunSeq (tbl s) + 1 < 2 ^ 31 -> tabs todo (vaultStart p s).1.
Proof.
  intros Hl H Hr. pose proof (vaultStart_aside p s) as Ha. apply up_part in Ha as [Hu Ha]. unfold tabs. rewrite Hu, Ha. rewrite vaultStart_next by done.
  unfold tabs in H. destruct (up s).
  - unfold register. cbn. rewrite seq_next_room by (try done; apply (tab_seq _ _ _ _ _ H)). by apply tables_register.
  - apply tables_enqueue in H. revert H. unfold enqueue. case_bool_decide; apply tables_ext; auto.
Qed.

Lemma vaultStart_seq p s : life s -> 0 <= vaultRunSeq (tbl s) -> vaultRunSeq (tbl s) + 1 < 2 ^ 31 ->
  vaultRunSeq (tbl (vaultStart p s).1) <= vaultRunSeq (tbl s) + 1.
Proof.
  intros Hl H0 Hr. rewrite vaultStart_next by done. destruct (up s); [cbn; rewrite seq_next_room by done; lia|].
  unfold enqueue. case_bool_decide; cbn; lia.
Qed.

Definition flush_over (ws : list nat) : act :=
  fold_right (fun p rest => reading (fun s => when (running (procs s p)) (vaultStart p)) ;; rest) nothing ws.

Lemma flush_over_cons p ws s : (flush_over (p :: ws) s).1 = (flush_over ws (if running (procs s p) then (vaultStart p s).1 else s)).1.
Proof. cbn [flush_over fold_right]. rewrite fst_seq. unfold reading, when. by destruct (running (procs s p)). Qed.

Lemma flush_over_tabs ws s : life s -> tabs ws s -> vaultRunSeq (tbl s) + Z.of_nat (length ws) < 2 ^ 31 -> tabs [] (flush_over ws s).1.
Proof.
  revert s. induction ws as [|p ws IH]; intros s Hl H Hr; [done|]. rewrite flush_over_cons. cbn [length] in Hr.
  destruct (running (procs s p)) eqn:Hp.
  - apply IH; [apply aside_life; auto with aside|apply vaultStart_tabs; auto; lia|].
    pose proof (vaultStart_seq p s Hl (tab_seq _ _ _ _ _ H)). lia.
  - apply IH; [done| |lia]. by eapply tables_skip.
Qed.

Lemma start_tabs p s : life s -> tabs [p] s -> vaultRunSeq (tbl s) + 1 < 2 ^ 31 -> tabs [] (start p s).1.
Proof.
  intros Hl H Hr. unfold start. rewrite fst_seq. set (s' := (Actions.set (on_proc p not_held) s).1).
  assert (tabs [p] s') as H'.
  { revert H. unfold tabs. apply tables_ext; try done; intros q; cbn; at_proc q p; cbn; auto. }
  assert (life s') by (revert Hl; by apply life_same). unfold reading at 1. destruct (isScrubCommand _).
  2: { by apply vaultStart_tabs. }
  rewrite !fst_seq. unfold reading, when.
  assert (tabs [] (on_proc p (set_local true) (on_proc p (fun x => set_runId (-1) (no_text x)) s'))) as Hs; [|by destruct (negb _)].
  apply (tables_ext (up s') (tbl s') _ (<[p := set_local true (set_runId (-1) (no_text (procs s' p)))]> (procs s'))); try done;
    [..|by eapply tables_scrub]; intros q; cbn; at_proc q p; cbn; auto.
Qed.

Lemma tabs_same s s' todo : life_part s' = life_part s -> tbl s' = tbl s -> procs s' = procs s -> tabs todo s -> tabs todo s'.
Proof. intros E Et Ep. apply up_part in E as [E1 E2]. unfold tabs. by rewrite E1, E2, Et, Ep. Qed.

Lemma kill_tabs p s : tabs [] s -> running (procs s p) = false -> tabs [] (vaultKill p s).1.
Proof.
  intros H Hr. unfold vaultKill, killLocal, reading, when. destruct (0 <? _); [by destruct (vaultHelperActive s)|].
  destruct (_ =? -1); [by destruct (localRunning _)|]. by apply tables_withdraw.
Qed.

Lemma set_running_tabs p b s : life s -> tabs [] s -> vaultRunSeq (tbl s) + 1 < 2 ^ 31 -> tabs [] (set_running p b s).1.
Proof.
  intros Hl H Hr. unfold set_running, reading at 1. destruct (Bool.eqb _ b) eqn:Hb; [done|]. rewrite fst_seq. cbn [fst Actions.set].
  set (s' := on_proc p (set_running_flag b) s). assert (life s') as Hl' by (revert Hl; by apply life_same).
  assert (b = false -> tabs [] s') as Hstop.
  { intros ->. revert H. apply tables_ext; try done; intros q; cbn; at_proc q p; cbn; auto. }
  destruct b; cbn [andb negb].
  - destruct (runId (procs s p) =? 0) eqn:H0.
    + apply Z.eqb_eq in H0. apply start_tabs; [done| |done]. by apply tables_ask.
    + apply Z.eqb_neq in H0. revert H. apply tables_ext; try done; intros q; cbn; at_proc q p; cbn; auto.
  - destruct (runId (procs s p) =? 0); cbn [negb]; [by apply Hstop|]. apply kill_tabs; [by apply Hstop|]. cbn. by rewrite fn_lookup_insert.
Qed.

Lemma find_run_Some runs v id p : find_run runs v = Some (id, p) -> runs !! id = Some p.
Proof.
  unfold find_run. intros ([i x] & H & E)%fmap_Some. apply list_find_Some in H as (H & _ & _). cbn in E. subst x.
  by apply elem_of_map_to_list, (list_elem_of_lookup_2 _ i).
Qed.

Lemma exit_line_tabs m adopts s : tabs [] s -> agenda s = [] -> tabs [] (exit_line m adopts s).1.
Proof.
  intros H Hag. unfold exit_line, reading. destruct (find_run _ _) as [[id p]|] eqn:Hf; [|done]. apply find_run_Some in Hf.
  assert (tabs [] (on_proc p (ended (text (get m (js "out"))) (text (get m (js "err"))) (strict_eqb (get m (js "session")) (JBool true))
    (strict_eqb (get m (js "held")) (JBool true))) (set_runs (vaultRunSeq (tbl s)) (delete id (vaultRuns (tbl s))) s))) as Ht.
  2: { rewrite !fst_seq. unfold when. by destruct (_ && adopts). }
  destruct (tab_runs _ _ _ _ _ H id p Hf) as [Hid _].
  eapply tables_ended; try done; [..|apply (tab_once _ _ _ _ _ H)]; cbn.
  - intros n q. rewrite lookup_delete_Some. split; intros [H1 H2]; split; [done|intros ->|congruence|done].
    destruct (tab_runs _ _ _ _ _ H n p H2). congruence.
  - rewrite Hag. set_solver.
Qed.

(** Runs stay in the table only while the helper is up. *)
Lemma tabs_down s todo : tabs todo s -> up s = false -> vaultRuns (tbl s) = ∅.
Proof. intros H Hu. by apply (tab_live _ _ _ _ _ H). Qed.

Lemma finish_task_tabs id p ag s code out err a b : tabs [] s -> agenda s = FinishRun id p :: ag -> up s = false ->
  tabs [] (finish p code out err a b (set_agenda ag s)).1.
Proof.
  intros H Hag Hu. pose proof (tabs_down s [] H Hu) as Hr. destruct (tab_dying _ _ _ _ _ H id p) as [Hid _]; [rewrite Hag; by left|].
  pose proof (tab_once _ _ _ _ _ H) as Hd. rewrite Hag in Hd. apply NoDup_cons in Hd as [Hni Hd].
  eapply tables_ended; try done; cbn.
  - intros n q. rewrite Hr, lookup_empty. naive_solver.
  - intros x. rewrite Hag, elem_of_cons. split; [|naive_solver]. intros Hx. split; [by right|]. intros n ->.
    destruct (tab_dying _ _ _ _ _ H n p) as [Hn _]; [rewrite Hag; by right|]. congruence.
Qed.

Lemma local_exited_tabs p code s : tabs [] s -> tabs [] (local_exited p code s).1.
Proof.
  intros H. unfold local_exited. rewrite fst_seq. unfold reading, when. cbn [fst Actions.set procs on_proc]. rewrite fn_lookup_insert. cbn [runId set_local].
  destruct (runId (procs s p) =? -1) eqn:Hp.
  - apply Z.eqb_eq in Hp.
    assert (tabs [] (on_proc p (fun x => ended [] [] false false (set_local false x)) s)) as Ht.
    + eapply tables_ended; try done; [..|apply (tab_once _ _ _ _ _ H)]; cbn.
      * intros n q. split; [|by intros []]. intros Hq. split; [done|]. intros ->. destruct (tab_runs _ _ _ _ _ H n p Hq). lia.
      * intros x. split; [|by intros []]. intros Hx. split; [done|]. intros n ->. destruct (tab_dying _ _ _ _ _ H n p Hx). lia.
    + revert Ht. apply tables_ext; try done; intros q; cbn; at_proc q p; cbn; auto.
  - apply Z.eqb_neq in Hp. revert H. intros H. pose proof (tab_local _ _ _ _ _ H p). revert H.
    apply tables_ext; try done; intros q; cbn; at_proc q p; cbn; auto. right. lia.
Qed.

(** What only concerns the helper leaves the table and the processes alone. *)
Definition outer (a : act) : Prop := forall s, tbl (a s).1 = tbl s /\ procs (a s).1 = procs s /\ agenda (a s).1 = agenda s.

Lemma outer_nothing : outer nothing.
Proof. done. Qed.
Lemma outer_emit x : outer (emit x).
Proof. done. Qed.
Lemma outer_set f : (forall s, tbl (f s) = tbl s /\ procs (f s) = procs s /\ agenda (f s) = agenda s) -> outer (set f).
Proof. intros H s. apply H. Qed.
Lemma outer_seq a b : outer a -> outer b -> outer (a ;; b).
Proof. intros Ha Hb s. rewrite fst_seq. destruct (Ha s) as (<- & <- & <-). apply Hb. Qed.
Lemma outer_reading f : (forall s, outer (f s)) -> outer (reading f).
Proof. intros H s. apply H. Qed.
Lemma outer_if (b : bool) x y : outer x -> outer y -> outer (if b then x else y).
Proof. by destruct b. Qed.

Create HintDb outer.
#[export] Hint Resolve outer_nothing outer_emit outer_seq outer_if : outer.
#[export] Hint Extern 1 (outer (set _)) => apply outer_set; done : outer.
#[export] Hint Extern 1 (outer (reading _)) => apply outer_reading; intro : outer.
#[export] Hint Extern 1 (outer (when _ _)) => unfold when : outer.

Lemma fallback_outer : outer useVaultFallback.
Proof. unfold useVaultFallback, allowVaultWithoutHelper. cbn. auto with outer. Qed.
#[export] Hint Resolve fallback_outer : outer.
Lemma start_outer dir : outer (startVaultHelper dir).
Proof. unfold startVaultHelper. auto 12 with outer. Qed.
Lemma inspect_outer dir : outer (inspectVaultHelper dir).
Proof. unfold inspectVaultHelper. auto 10 with outer. Qed.
#[export] Hint Resolve start_outer inspect_outer : outer.
Lemma inspected_outer dir raw : outer (onVaultHelperInspected dir raw).
Proof. unfold onVaultHelperInspected. auto 10 with outer. Qed.
Lemma retry_outer dir : outer (retryVaultHelper dir).
Proof. unfold retryVaultHelper. auto 12 with outer. Qed.
#[export] Hint Resolve inspected_outer retry_outer : outer.
Lemma recheck_outer dir : outer (recheckHelpers dir).
Proof. unfold recheckHelpers. auto 12 with outer. Qed.
Lemma timeout_outer : outer onVaultHelperReadyTimeout.
Proof. unfold onVaultHelperReadyTimeout. auto 12 with outer. Qed.
Lemma settle_outer : outer settle_timeout.
Proof. unfold settle_timeout. auto 12 with outer. Qed.
Lemma unload_outer : outer releaseVaultHelper.
Proof. unfold releaseVaultHelper. auto 12 with outer. Qed.
#[export] Hint Resolve recheck_outer timeout_outer settle_outer unload_outer : outer.

Lemma tabs_outer a s todo : outer a -> up (a s).1 = up s -> tabs todo s -> tabs todo (a s).1.
Proof. intros Ha Hu. unfold tabs. destruct (Ha s) as (-> & -> & ->). by rewrite Hu. Qed.

Definition resting (s : supervisor) : Prop := vaultHelperState (wat s) <> Active.

Lemma resting_up s : resting s -> up s = false.
Proof. unfold resting, up, is_state. intros H. by rewrite bool_decide_eq_false_2. Qed.

Lemma tabs_resting a s todo : outer a -> resting s -> resting (a s).1 -> tabs todo s -> tabs todo (a s).1.
Proof. intros Ha H1 H2. apply tabs_outer; [done|]. by rewrite !resting_up. Qed.

Lemma fallback_rests s : resting (useVaultFallback s).1.
Proof. done. Qed.
Lemma start_rests dir s : resting (startVaultHelper dir s).1.
Proof.
  unfold startVaultHelper, reading at 1. case_bool_decide; [apply fallback_rests|]. rewrite !fst_seq. unfold reading, when. by destruct (negb _).
Qed.
Lemma inspect_rests dir s : resting s -> resting (inspectVaultHelper dir s).1.
Proof. intros H. unfold inspectVaultHelper, reading. destruct (negb _); [done|]. by case_bool_decide. Qed.
Lemma retry_rests dir s : resting s -> resting (retryVaultHelper dir s).1.
Proof.
  intros H. unfold retryVaultHelper, reading at 1. destruct (negb _); [done|]. destruct (_ && _); [done|]. rewrite !fst_seq. by apply inspect_rests.
Qed.

Lemma state_resting s st : is_state st s = true -> st <> Active -> resting s.
Proof. unfold is_state, resting. intros ->%bool_decide_eq_true. done. Qed.

(** ** Every event *)

Definition orderly (dir : list Z) (s : supervisor) : Prop := lively dir s /\ tabs [] s.

Lemma aside_orderly dir a s : aside a -> lively dir s -> tabs [] (a s).1 -> orderly dir (a s).1.
Proof. intros Ha Hl Ht. split; [by apply aside_lively|done]. Qed.

Lemma retry_orderly dir s : orderly dir s -> orderly dir (retryVaultHelper dir s).1.
Proof.
  intros [Hl Ht]. split; [by apply retry_lively|]. destruct (is_state Stopped s) eqn:Hs.
  - apply (state_resting s) in Hs; [|done]. apply tabs_resting; auto with outer. by apply retry_rests.
  - unfold retryVaultHelper, reading. by rewrite Hs.
Qed.

Lemma inspect_orderly dir s : orderly dir s -> is_state Stopped s = false -> orderly dir (inspectVaultHelper dir s).1.
Proof.
  intros [Hl Ht] Hs. split; [apply inspect_lively; [done|]; intros E; unfold is_state in Hs; by rewrite E in Hs|].
  unfold inspectVaultHelper, reading. destruct (negb _); [done|]. case_bool_decide as Hd; [|done].
  apply tabs_resting; auto with outer; [|apply fallback_rests]. unfold resting. by destruct Hl as [_ R], (R Hd) as [-> | ->].
Qed.

Lemma recheck_orderly dir s : orderly dir s -> orderly dir (recheckHelpers dir s).1.
Proof.
  intros H. unfold recheckHelpers, reading. destruct (shuttingDown s); [done|]. destruct (is_state Stopped s) eqn:Hs; [by apply retry_orderly|by apply inspect_orderly].
Qed.

Lemma later_lively dir s b : lively dir s -> lively dir (set_later (startLater (wat s)) b s).
Proof. intros [H R]. open_life s H. split; [life_auto|done]. Qed.

Lemma start_deferred_orderly dir s : orderly dir s -> agenda s = [] -> startLater (wat s) = true -> orderly dir (dispatch dir StartDeferred s).1.
Proof.
  intros [[H R] Ht] Ha Hs. cbn [dispatch]. rewrite fst_seq. cbn [fst Actions.set]. destruct (life_later s H Hs) as (H1 & H2 & H3 & H4).
  set (s' := set_later false (retryLater (wat s)) s).
  assert (life s' /\ no_helper s') as [H' Hn].
  { split; [subst s'; open_life s H; subst; life_auto|]. repeat split; try done. unfold is_state. cbn. by rewrite H1. }
  split; [by apply start_lively|]. apply tabs_resting; auto with outer; [by unfold resting; cbn; rewrite H1|apply start_rests].
Qed.

Lemma inspected_orderly dir raw s : orderly dir s -> agenda s = [] -> orderly dir (onVaultHelperInspected dir raw s).1.
Proof.
  intros [Hl Ht] Ha. unfold onVaultHelperInspected. rewrite fst_seq. cbn [fst Actions.set]. set (s' := set_inspected _ s).
  assert (orderly dir s') as [Hl' Ht'] by (split; [by apply (lively_same dir s)|done]). unfold reading.
  destruct (is_state Pending s') eqn:Hp; cbn [negb]; [|done]. pose proof (state_resting _ _ Hp ltac:(done)).
  apply bool_decide_eq_true in Hp. pose proof (pending_no_helper s' (proj1 Hl') Hp). destruct (helperReady _).
  - split; [by apply start_lively; [apply Hl'| |]|]. apply tabs_resting; auto with outer. apply start_rests.
  - split; [by apply fallback_lively; [apply Hl'|]|]. apply tabs_resting; auto with outer. apply fallback_rests.
Qed.

Lemma os_up s o : vaultHelperProc (wat s) = Launching -> life s -> up (set_os o s) = up s.
Proof. intros Hl H. pose proof (life_launching s H Hl) as Hs. by rewrite !resting_up by (unfold resting; cbn; by rewrite Hs). Qed.

Lemma timeout_orderly dir s : orderly dir s -> readyTimer (wat s) = true -> vaultHelperProc (wat s) <> Launching -> orderly dir (onVaultHelperReadyTimeout s).1.
Proof.
  intros [Hl Ht] Hr Ho. split; [by apply timeout_lively|]. pose proof (life_timer s (proj1 Hl) Hr) as Hs.
  apply tabs_resting; auto with outer; [by unfold resting; rewrite Hs|].
  unfold onVaultHelperReadyTimeout. rewrite fst_seq. unfold reading, is_state. cbn. rewrite Hs. cbn. unfold when. by destruct (helper_running _).
Qed.

Lemma exit_orderly dir s : orderly dir s -> vaultHelperProc (wat s) = Up -> agenda s = [] -> orderly dir (onVaultHelperExited s).1.
Proof.
  intros [Hl Ht] Ho Ha. split; [by apply exit_lively|]. unfold onVaultHelperExited. rewrite !fst_seq. unfold reading at 1. cbn [fst Actions.set].
  set (s' := set_timers false false (set_os Off s)).
  assert (Hoff : forall x, vaultHelperProc (wat x) = Off -> up x = false) by (intros x Hx; unfold up; rewrite Hx; apply andb_false_r).
  destruct (readyTimedOut (wat s')) eqn:Hto.
  - destruct (life_timedOut s (proj1 Hl) Hto) as [Hs _]. rewrite fst_seq.
    assert (tabs [] (set_retry false (retryPending (wat s')) s')) as Hx; [|unfold when; by destruct (_ && _)].
    revert Ht. unfold tabs. rewrite (Hoff (set_retry _ _ _)) by done. by rewrite (resting_up s) by (unfold resting; by rewrite Hs).
  - rewrite !fst_seq. unfold tabs. cbn [fst Actions.set up agenda set_agenda]. rewrite Hoff; [|by destruct (_ && heldSession _), (_ && negb _)].
    unfold tabs in Ht. rewrite Ha in Ht. destruct (_ && negb _), (heldSession _); cbn; eapply tables_exit in Ht; apply Ht.
Qed.

Lemma line_orderly dir s line adopts : orderly dir s -> room s -> vaultHelperProc (wat s) = Up -> agenda s = [] ->
  orderly dir (onVaultHelperLine line adopts s).1.
Proof.
  intros [Hl Ht] [Hr _] Ho Ha. split.
  { apply line_lively; auto. intros Hne. destruct (up s) eqn:Hu; [by apply (up_spec s (proj1 Hl)) in Hu as []|]. by destruct Hne; eapply tabs_down. }
  unfold onVaultHelperLine, reading at 1. destruct (parseVaultHelperLine line) as [m|]; [|done]. destruct (strict_eqb _ _).
  { destruct (is_state Starting s) eqn:Hs; cbn [negb orb]; [|done]. destruct (readyTimedOut (wat s)) eqn:Hto; [done|].
    rewrite !fst_seq. cbn [fst Actions.set]. unfold flushVaultWaiting, reading at 1. rewrite fst_seq. cbn [fst Actions.set].
    set (s' := set_waiting [] (set_state Active (set_timers false true s))).
    change (tabs [] (flush_over (vaultWaiting (tbl s)) s').1).
    pose proof (state_resting s _ Hs ltac:(done)) as Hrest. apply bool_decide_eq_true in Hs. apply flush_over_tabs.
    - pose proof (ready_lively dir s Hl Hs Ho Ha) as [Hy _]. revert Hy. by apply life_same.
    - unfold tabs in *. rewrite (resting_up s Hrest), Ha in Ht. apply tables_ready in Ht. subst s'. unfold up, is_state. cbn. rewrite Ho, Ha. exact Ht.
    - cbn. lia. }
  destruct (strict_eqb _ _); [by apply exit_line_tabs|]. destruct (strict_eqb _ _); [|done].
  unfold result_line, reading. destruct (find_query _ _); [|done]. rewrite fst_seq. revert Ht. apply tables_ext; auto.
Qed.

Lemma task_orderly dir s : orderly dir s -> orderly dir (dispatch dir NextTask s).1.
Proof.
  intros [Hl Ht]. cbn [dispatch]. unfold reading at 1. destruct (agenda s) as [|x ag] eqn:Ha; [done|]. rewrite fst_seq. cbn [fst Actions.set].
  split; [by apply next_task_lively|].
  assert (vaultHelperProc (wat s) = Off) as Ho by (apply (life_agenda s (proj1 Hl)); by rewrite Ha).
  assert (up s = false) as Hu by (unfold up; rewrite Ho; apply andb_false_r).
  destruct x as [id p|q|]; cbn [next_task].
  - by eapply finish_task_tabs.
  - unfold tabs in *. rewrite Ha in Ht. by eapply tables_task.
  - assert (tabs [] (set_agenda ag s)) as Ht' by (unfold tabs in *; rewrite Ha in Ht; by eapply tables_task).
    assert (resting (set_agenda ag s)) as Hs.
    { unfold resting. cbn. destruct (life_restart s (proj1 Hl)) as [-> _]; [|done]. unfold restart_due. by rewrite Ha. }
    unfold reading at 1. destruct (_ <? _).
    + apply tabs_resting; [auto 10 with outer|done|done|done].
    + apply tabs_resting; [unfold stopVaultHelper; auto with outer|done|done|done].
Qed.

Lemma dispatch_orderly dir ev s : orderly dir s -> possible s ev -> room s -> orderly dir (dispatch dir ev s).1.
Proof.
  intros H Hp Hr. pose proof H as [Hl Ht]. pose proof Hr as [Hr1 _]. destruct ev; cbn [possible] in Hp; try destruct Hp as [Ha Hp].
  - apply aside_orderly; [cbn; auto with aside|done|]. revert Ht. apply tables_ext; try done; intros q; cbn; at_proc q p; cbn; auto.
  - apply aside_orderly; [cbn; auto with aside|done|]. apply set_running_tabs; [apply Hl|done|lia].
  - apply aside_orderly; [cbn; auto with aside|done|]. by apply kill_tabs.
  - apply aside_orderly; [cbn; auto with aside|done|]. cbn [dispatch]. unfold vaultQuery, reading. destruct (negb _); [done|].
    revert Ht. apply tables_ext; auto.
  - split; [by apply drop_lively|done].
  - by apply recheck_orderly.
  - by apply retry_orderly.
  - split; [by apply unload_lively|]. apply tabs_outer; auto with outer. cbn [dispatch]. unfold releaseVaultHelper. rewrite fst_seq. unfold reading, when. by destruct (helper_running _).
  - by apply task_orderly.
  - by apply inspected_orderly.
  - split; [by apply (lively_same dir s)|done].
  - by apply start_deferred_orderly.
  - cbn [dispatch]. rewrite fst_seq. apply retry_orderly. split; [by apply later_lively|done].
  - destruct Hp. by apply timeout_orderly.
  - split; [by apply settle_lively|]. apply tabs_outer; auto with outer. cbn [dispatch]. unfold settle_timeout. rewrite fst_seq. unfold reading, when. by destruct (is_state Active _).
  - split; [by apply os_lively|]. revert Ht. unfold tabs. cbn. by rewrite os_up by (done || apply Hl).
  - split; [by apply os_lively|]. revert Ht. unfold tabs. cbn. by rewrite os_up by (done || apply Hl).
  - by apply line_orderly.
  - by apply exit_orderly.
  - apply aside_orderly; [cbn; auto with aside|done|]. by apply local_exited_tabs.
Qed.

Lemma reached_orderly dir s : reached dir s -> orderly dir s.
Proof.
  induction 1 as [|ev s Hs IH Hp Hr]; [|by apply dispatch_orderly]. split; [split; [|by left]|].
  - split; cbn; try done; try lia; try (unfold vaultHelperMaxRestarts; lia). intros [] ? ?; done.
  - split; cbn; try done; try lia; try split; try constructor; set_solver.
Qed.
