(* ===== verification/VaultOwners.v ===== *)
(** * What the owners of the runs can rely on

    Built on the invariants of [VaultRunsCorrect]: what each handler may send, the
    refinement of a process to the two flags its owner sees, where a run in flight is,
    the session key and the helper, the restart budget, and what a request carries. *)

From stdpp Require Import gmap sorting functions.
From S2P Require Import Prelude.
From S2P Require Import JsNum.
From S2P Require Import JsString.
From S2P Require Import JsValue.
From S2P Require Import JsInt.
From S2P Require Import Json.
From S2P Require Import Shell.
From S2P Require Import Helpers.
From S2P Require Import Commands.
From S2P Require Import AssociationsCorrect.
From S2P Require Import Actions.
From S2P Require Import VaultRuns.
From S2P Require Import VaultRunsCorrect.
Local Open Scope act_scope.

(** ** What a handler may send *)

Definition emits (E : run_effect -> Prop) (a : act) : Prop := forall s, Forall E (a s).2.

Lemma emits_nothing E : emits E nothing.
Proof. constructor. Qed.
Lemma emits_set E f : emits E (set f).
Proof. constructor. Qed.
Lemma emits_emit (E : run_effect -> Prop) x : E x -> emits E (emit x).
Proof. intros H s. by constructor. Qed.
Lemma emits_seq E a b : emits E a -> emits E b -> emits E (a ;; b).
Proof. intros Ha Hb s. rewrite snd_seq. by apply Forall_app. Qed.
Lemma emits_reading E f : (forall s, emits E (f s)) -> emits E (reading f).
Proof. intros H s. apply H. Qed.
Lemma emits_if E (b : bool) x y : emits E x -> emits E y -> emits E (if b then x else y).
Proof. by destruct b. Qed.

Create HintDb emits.
#[export] Hint Resolve emits_nothing emits_set emits_seq emits_if : emits.
#[export] Hint Extern 1 (emits _ (emit _)) => apply emits_emit; done : emits.
#[export] Hint Extern 1 (emits _ (reading _)) => apply emits_reading; intro : emits.
#[export] Hint Extern 1 (emits _ (when _ _)) => unfold when : emits.
#[export] Hint Extern 2 (emits _ (match ?x with _ => _ end)) => destruct x : emits.

Definition no_exit (x : run_effect) : Prop := match x with Exited _ _ => False | _ => True end.
Definition no_launch (x : run_effect) : Prop := match x with Launched => False | _ => True end.

Definition neither (x : run_effect) : Prop := no_exit x /\ no_launch x.
Lemma neither_exit a : emits neither a -> emits no_exit a.
Proof. intros H s. eapply Forall_impl; [apply H|]. by intros x []. Qed.
Lemma neither_launch a : emits neither a -> emits no_launch a.
Proof. intros H s. eapply Forall_impl; [apply H|]. by intros x []. Qed.

Lemma vaultKill_emits p : emits neither (vaultKill p).
Proof. unfold vaultKill, killLocal. auto 10 with emits. Qed.
Lemma vaultStart_emits p : emits neither (vaultStart p).
Proof. unfold vaultStart. auto 10 with emits. Qed.
#[export] Hint Resolve vaultKill_emits vaultStart_emits : emits.
Lemma start_emits p : emits neither (start p).
Proof. unfold start. auto 12 with emits. Qed.
#[export] Hint Resolve start_emits : emits.
Lemma set_running_emits p b : emits neither (set_running p b).
Proof. unfold set_running. auto 12 with emits. Qed.
Lemma flush_emits : emits neither flushVaultWaiting.
Proof.
  unfold flushVaultWaiting. apply emits_reading. intros s. apply emits_seq; [auto with emits|].
  induction (vaultWaiting (tbl s)); cbn; auto 10 with emits.
Qed.
#[export] Hint Resolve set_running_emits flush_emits : emits.
Lemma fallback_emits : emits neither useVaultFallback.
Proof. unfold useVaultFallback. auto with emits. Qed.
#[export] Hint Resolve fallback_emits : emits.
Lemma inspect_emits dir : emits neither (inspectVaultHelper dir).
Proof. unfold inspectVaultHelper. auto 10 with emits. Qed.
#[export] Hint Resolve inspect_emits : emits.
Lemma retry_emits dir : emits neither (retryVaultHelper dir).
Proof. unfold retryVaultHelper. auto 12 with emits. Qed.
#[export] Hint Resolve retry_emits : emits.
Lemma recheck_emits dir : emits neither (recheckHelpers dir).
Proof. unfold recheckHelpers. auto 12 with emits. Qed.
Lemma timeout_emits : emits neither onVaultHelperReadyTimeout.
Proof. unfold onVaultHelperReadyTimeout. auto 12 with emits. Qed.
Lemma settle_emits : emits neither settle_timeout.
Proof. unfold settle_timeout. auto 12 with emits. Qed.
Lemma exited_emits : emits neither onVaultHelperExited.
Proof. unfold onVaultHelperExited. auto 20 with emits. Qed.
Lemma query_emits type fields : emits neither (vaultQuery type fields).
Proof. unfold vaultQuery. auto 12 with emits. Qed.
Lemma unload_emits : emits neither releaseVaultHelper.
Proof. unfold releaseVaultHelper. auto 12 with emits. Qed.
Lemma result_emits m : emits neither (result_line m).
Proof. unfold result_line. auto 12 with emits. Qed.
#[export] Hint Resolve recheck_emits timeout_emits settle_emits exited_emits query_emits unload_emits result_emits : emits.

Lemma start_helper_emits dir : emits no_exit (startVaultHelper dir).
Proof. unfold startVaultHelper. pose proof (neither_exit _ fallback_emits). auto 12 with emits. Qed.
Lemma inspected_emits dir raw : emits no_exit (onVaultHelperInspected dir raw).
Proof. unfold onVaultHelperInspected. pose proof (neither_exit _ fallback_emits). pose proof (start_helper_emits dir). auto 12 with emits. Qed.
Lemma finish_emits p code out err a b : emits no_launch (finish p code out err a b).
Proof. unfold finish. auto with emits. Qed.
#[export] Hint Resolve start_helper_emits inspected_emits finish_emits : emits.

(** ** A process as its owner sees it

    Whether it is running, and whether a run is in flight: one that was asked to stop
    stays in flight until its exit, unless it was still waiting for the helper. *)

Definition owner_view (s : supervisor) (p : nat) : bool * bool :=
  (running (procs s p), running (procs s p) || negb (runId (procs s p) =? 0)).

Definition exits_of (p : nat) (es : list run_effect) : list num :=
  omap (fun x => match x with Exited q code => if (q =? p)%nat then Some code else None | _ => None end) es.

Inductive owner_step : bool * bool -> list num -> bool * bool -> Prop :=
| own_same v : owner_step v [] v
| own_start f : owner_step (false, f) [] (true, true)
| own_stop : owner_step (true, true) [] (false, true)
| own_withdrawn : owner_step (true, true) [] (false, false)
| own_exit r code : owner_step (r, true) [code] (false, false).

Lemma exits_none p es : Forall no_exit es -> exits_of p es = [].
Proof. induction 1 as [|x es Hx _ IH]; [done|]. by destruct x. Qed.

Lemma owner_same p s s' es : Forall no_exit es -> owner_view s' p = owner_view s p -> owner_step (owner_view s p) (exits_of p es) (owner_view s' p).
Proof. intros He ->. rewrite exits_none by done. constructor. Qed.

Lemma owner_outer a s p : outer a -> emits no_exit a -> owner_step (owner_view s p) (exits_of p (a s).2) (owner_view (a s).1 p).
Proof. intros Ha He. apply owner_same; [apply He|]. unfold owner_view. by destruct (Ha s) as (_ & -> & _). Qed.

Lemma view_same s s' p : running (procs s' p) = running (procs s p) -> runId (procs s' p) = runId (procs s p) -> owner_view s' p = owner_view s p.
Proof. unfold owner_view. by intros -> ->. Qed.

Lemma view_running s p : running (procs s p) = true -> owner_view s p = (true, true).
Proof. unfold owner_view. by intros ->. Qed.

Lemma vaultStart_running p q s : life s -> running (procs (vaultStart p s).1 q) = running (procs s q).
Proof.
  intros H. rewrite vaultStart_next by done. destruct (up s).
  - unfold register. cbn. at_proc q p; done.
  - unfold enqueue. by case_bool_decide.
Qed.

Lemma vaultStart_other p q s : life s -> q <> p -> owner_view (vaultStart p s).1 q = owner_view s q.
Proof.
  intros H Hq. rewrite vaultStart_next by done. destruct (up s).
  - unfold register, owner_view. cbn. by rewrite fn_lookup_insert_ne.
  - unfold enqueue. by case_bool_decide.
Qed.

Lemma vaultStart_view p q s : life s -> running (procs s p) = true -> owner_view (vaultStart p s).1 q = owner_view s q.
Proof.
  intros H Hr. destruct (decide (q = p)) as [->|Hq]; [|by apply vaultStart_other].
  rewrite !view_running; [done|done|]. by rewrite vaultStart_running.
Qed.

Lemma flush_over_view ws q s : life s -> owner_view (flush_over ws s).1 q = owner_view s q.
Proof.
  revert s. induction ws as [|p ws IH]; intros s H; [done|]. rewrite flush_over_cons. destruct (running (procs s p)) eqn:Hp; [|by apply IH].
  rewrite IH by (apply aside_life; auto with aside). by apply vaultStart_view.
Qed.

Lemma start_running p q s : life s -> running (procs (start p s).1 q) = running (procs s q).
Proof.
  intros H. unfold start. rewrite fst_seq. cbn [fst Actions.set]. unfold reading at 1. destruct (isScrubCommand _).
  - rewrite !fst_seq. unfold reading, when. destruct (negb _); cbn; at_proc q p; done.
  - rewrite vaultStart_running by (revert H; by apply life_same). cbn. at_proc q p; done.
Qed.

Lemma start_other p q s : life s -> q <> p -> owner_view (start p s).1 q = owner_view s q.
Proof.
  intros H Hq. unfold start. rewrite fst_seq. cbn [fst Actions.set]. unfold reading at 1. destruct (isScrubCommand _).
  - rewrite !fst_seq. unfold reading, when, owner_view. destruct (negb _); cbn; by rewrite !fn_lookup_insert_ne.
  - rewrite vaultStart_other by (try done; revert H; by apply life_same). unfold owner_view. cbn. by rewrite !fn_lookup_insert_ne.
Qed.

Lemma vaultKill_view p q s : owner_view (vaultKill p s).1 q = owner_view s q.
Proof. unfold vaultKill, killLocal, reading, when. repeat (destruct (_ : bool); try done). Qed.

Lemma set_running_step p b q s : life s -> owner_step (owner_view s q) (exits_of q (set_running p b s).2) (owner_view (set_running p b s).1 q).
Proof.
  intros H. rewrite exits_none by apply (neither_exit _ (set_running_emits p b)).
  unfold set_running, reading at 1. destruct (Bool.eqb _ b) eqn:Hb; [constructor|]. apply eqb_false_iff in Hb. rewrite fst_seq. cbn [fst Actions.set].
  set (s' := on_proc p (set_running_flag b) s). assert (life s') as H' by (revert H; by apply life_same).
  assert (q <> p -> owner_view s' q = owner_view s q) as Hq by (intros Hq; unfold owner_view; cbn; by rewrite fn_lookup_insert_ne).
  destruct (decide (q = p)) as [->|Hne].
  2: { rewrite <- (Hq Hne). destruct (b && _); [rewrite start_other by done; constructor|]. destruct (_ && _); [rewrite vaultKill_view|]; constructor. }
  assert (running (procs s' p) = b) as Hr by (cbn; by rewrite fn_lookup_insert).
  destruct b; cbn [andb negb].
  - assert (running (procs s p) = false) as Hf by (by destruct (running (procs s p))).
    replace (owner_view s p) with (false, negb (runId (procs s p) =? 0)) by (unfold owner_view; by rewrite Hf).
    destruct (runId (procs s p) =? 0); rewrite view_running; try constructor; [by rewrite start_running|done].
  - rewrite (view_running s) by (by destruct (running (procs s p))).
    assert (owner_view s' p = (false, negb (runId (procs s p) =? 0))) as Hv by (unfold owner_view; cbn; by rewrite fn_lookup_insert).
    assert (forall x, owner_view ((if negb x then vaultKill p else nothing) s').1 p = owner_view s' p) as -> by (intros []; [done|apply vaultKill_view]).
    rewrite Hv. destruct (_ =? 0); constructor.
Qed.

Lemma finish_step p code out err a b q s : owner_view s p = (running (procs s p), true) ->
  owner_step (owner_view s q) (exits_of q (finish p code out err a b s).2) (owner_view (finish p code out err a b s).1 q).
Proof.
  intros Hv. unfold finish. cbn. destruct (decide (q = p)) as [->|Hq].
  - rewrite Nat.eqb_refl, Hv. unfold owner_view. cbn. rewrite fn_lookup_insert. cbn. constructor.
  - assert ((p =? q)%nat = false) as -> by (apply Nat.eqb_neq; congruence). unfold owner_view. cbn. rewrite fn_lookup_insert_ne by done. constructor.
Qed.

Lemma in_flight s p : runId (procs s p) <> 0 -> owner_view s p = (running (procs s p), true).
Proof. intros H. unfold owner_view. rewrite (proj2 (Z.eqb_neq _ _) H). by rewrite orb_true_r. Qed.

Lemma local_exited_step p code q s : owner_step (owner_view s q) (exits_of q (local_exited p code s).2) (owner_view (local_exited p code s).1 q).
Proof.
  unfold local_exited. rewrite fst_seq, snd_seq. unfold reading, when. cbn [fst snd app Actions.set]. set (s' := on_proc p (set_local false) s).
  assert (forall r, owner_view s' r = owner_view s r) as Hv by (intros r; unfold owner_view; cbn; at_proc r p; done).
  rewrite <- Hv. destruct (_ =? -1) eqn:Hp; [|constructor]. apply Z.eqb_eq in Hp. apply finish_step, in_flight. by rewrite Hp.
Qed.

Lemma exit_line_step m adopts q s : tabs [] s -> owner_step (owner_view s q) (exits_of q (exit_line m adopts s).2) (owner_view (exit_line m adopts s).1 q).
Proof.
  intros Ht. unfold exit_line, reading. destruct (find_run _ _) as [[id p]|] eqn:Hf; [|constructor]. apply find_run_Some in Hf.
  destruct (tab_runs _ _ _ _ _ Ht id p Hf) as [Hid Hpos]. rewrite !fst_seq, !snd_seq. cbn [fst snd Actions.set app].
  set (s' := set_runs _ _ s). set (fin := finish p _ _ _ _ _).
  assert (forall x, (when x (set (set_held true)) (fin s').1).2 = []) as He by (by intros []). rewrite He, app_nil_r.
  assert (forall x, owner_view (when x (set (set_held true)) (fin s').1).1 q = owner_view (fin s').1 q) as -> by (by intros []).
  change (owner_view s q) with (owner_view s' q). apply finish_step, in_flight. change (runId (procs s p) <> 0). lia.
Qed.

Lemma line_step dir line adopts q s : orderly dir s -> vaultHelperProc (wat s) = Up -> agenda s = [] ->
  owner_step (owner_view s q) (exits_of q (onVaultHelperLine line adopts s).2) (owner_view (onVaultHelperLine line adopts s).1 q).
Proof.
  intros [Hl Ht] Ho Ha. unfold onVaultHelperLine, reading at 1 2. destruct (parseVaultHelperLine line) as [m|]; [|constructor].
  destruct (strict_eqb _ _).
  { destruct (negb (is_state Starting s) || readyTimedOut (wat s)) eqn:Hn; [constructor|]. apply orb_false_iff in Hn as [Hs Hto].
    apply negb_false_iff, bool_decide_eq_true in Hs. rewrite !fst_seq, !snd_seq. cbn [fst snd Actions.set app].
    set (s' := set_state Active (set_timers false true s)). change (owner_view s q) with (owner_view s' q).
    apply owner_same; [apply (neither_exit _ flush_emits)|]. unfold flushVaultWaiting, reading. rewrite fst_seq. cbn [fst Actions.set].
    change (owner_view (flush_over (vaultWaiting (tbl s)) (set_waiting [] s')).1 q = owner_view (set_waiting [] s') q).
    apply flush_over_view. pose proof (ready_lively dir s Hl Hs Ho Ha) as [Hy _]. revert Hy. by apply life_same. }
  destruct (strict_eqb _ _); [by apply exit_line_step|]. destruct (strict_eqb _ _); [|constructor].
  apply owner_same; [apply (neither_exit _ (result_emits m))|]. unfold result_line, reading. by destruct (find_query _ _).
Qed.

Lemma task_step dir q s : orderly dir s -> owner_step (owner_view s q) (exits_of q (dispatch dir NextTask s).2) (owner_view (dispatch dir NextTask s).1 q).
Proof.
  intros [Hl Ht]. cbn [dispatch]. unfold reading at 1 2. destruct (agenda s) as [|x ag] eqn:Ha; [constructor|].
  rewrite fst_seq, snd_seq. cbn [fst snd Actions.set app]. change (owner_view s q) with (owner_view (set_agenda ag s) q).
  destruct x as [id p|r|]; cbn [next_task].
  - apply finish_step, in_flight. destruct (tab_dying _ _ _ _ _ Ht id p) as [Hid ?]; [rewrite Ha; by left|].
    change (runId (procs s p) <> 0). lia.
  - constructor.
  - apply owner_outer; unfold stopVaultHelper; [auto 10 with outer|auto 10 with emits].
Qed.

(** C4: Each [VaultProcess] behaves, for the part of the service that owns it, like a
    process with two flags: a start makes it running and in flight, a stop leaves it in
    flight until its exit (or takes it back when it was still waiting for the helper),
    and an exit arrives only while a run is in flight, exactly one per run, to the
    process that asked for it, whatever the helper, its restarts and the other
    processes do in between. *)
Theorem process_refines dir ev s p : reached dir s -> possible s ev ->
  owner_step (owner_view s p) (exits_of p (dispatch dir ev s).2) (owner_view (step_supervisor dir ev s) p).
Proof.
  intros H Hp. apply reached_orderly in H. pose proof H as [Hl Ht]. unfold step_supervisor.
  destruct ev as [r a|r b|r|? ?| | | | | |raw| | | | | | | |line adopts| |r code]; cbn [possible] in Hp.
  - apply owner_same; [constructor|]. apply view_same; cbn; at_proc p r; done.
  - apply set_running_step, Hl.
  - apply owner_same; [apply (neither_exit _ (vaultKill_emits r))|apply vaultKill_view].
  - apply owner_same; [apply (neither_exit _ (query_emits _ _))|]. cbn [dispatch]. unfold vaultQuery, reading. by destruct (negb _).
  - by apply owner_same; [constructor|].
  - apply owner_outer; cbn [dispatch]; auto using neither_exit with outer emits.
  - apply owner_outer; cbn [dispatch]; auto using neither_exit with outer emits.
  - apply owner_outer; cbn [dispatch]; auto using neither_exit with outer emits.
  - by apply (task_step dir).
  - apply owner_outer; cbn [dispatch]; auto with outer emits.
  - by apply owner_same; [constructor|].
  - apply owner_outer; cbn [dispatch]; auto with outer emits.
  - apply owner_outer; cbn [dispatch]; [auto with outer|]. apply emits_seq; auto using neither_exit with emits.
  - apply owner_outer; cbn [dispatch]; auto using neither_exit with outer emits.
  - apply owner_outer; cbn [dispatch]; auto using neither_exit with outer emits.
  - by apply owner_same; [repeat constructor|].
  - by apply owner_same; [constructor|].
  - destruct Hp. by apply (line_step dir).
  - apply owner_same; [apply (neither_exit _ exited_emits)|]. cbn [dispatch]. unfold onVaultHelperExited. rewrite !fst_seq. unfold reading. cbn [fst Actions.set].
    destruct (readyTimedOut _); rewrite !fst_seq; unfold when; [by destruct (_ && _)|].
    destruct ((_ || _) && _); cbn [andb]; [by destruct (heldSession _)|done].
  - apply local_exited_step.
Qed.

(** ** Where a run in flight is *)

Definition located (s : supervisor) (p : nat) : Prop :=
  (runId (procs s p) = 0 /\ p ∈ vaultWaiting (tbl s) /\ up s = false)
  \/ (runId (procs s p) = -1 /\ localRunning (procs s p) = true)
  \/ (0 < runId (procs s p) /\ vaultRuns (tbl s) !! runId (procs s p) = Some p /\ up s = true)
  \/ (0 < runId (procs s p) /\ FinishRun (runId (procs s p)) p ∈ agenda s /\ up s = false).

(** A run in flight is in one place at any time: it waits for the helper, or its
    scrub runs in the shell, or the helper has it under the number the process keeps,
    or the helper is gone and its failure is about to be delivered.  A number in the
    table is that of exactly one process, and at most the last one given. *)
Theorem runs_accounted dir s p : reached dir s ->
  (owner_view s p = (running (procs s p), true) -> located s p)
  /\ (forall n, vaultRuns (tbl s) !! n = Some p -> runId (procs s p) = n /\ 0 < n <= vaultRunSeq (tbl s)).
Proof.
  intros H%reached_orderly. destruct H as [[Hl _] Ht]. split; [|by intros n Hn; apply (tab_runs _ _ _ _ _ Ht)].
  unfold located. intros Hf. destruct (Z.lt_trichotomy 0 (runId (procs s p))) as [Hp|[Hp|Hp]].
  - destruct (tab_ids _ _ _ _ _ Ht p Hp) as [Hi|Hi].
    + right; right; left. split_and!; [done|done|]. apply not_false_is_true. intros Hu. by rewrite (tabs_down s [] Ht Hu) in Hi.
    + do 3 right. split_and!; [done|done|]. unfold up. rewrite (life_agenda s Hl); [apply andb_false_r|]. intros E. rewrite E in Hi. set_solver.
  - left. unfold owner_view in Hf. rewrite <- Hp in Hf. cbn in Hf. rewrite orb_false_r in Hf. injection Hf as Hr.
    destruct (tab_asked _ _ _ _ _ Ht p Hr (eq_sym Hp)) as [Hw|Hw]; [|set_solver]. split_and!; [done|done|].
    apply not_true_is_false. intros Hu. rewrite (tab_flushed _ _ _ _ _ Ht Hu) in Hw. set_solver.
  - right; left. apply (tab_local _ _ _ _ _ Ht). lia.
Qed.

(** C10: The service takes its session for open only while the helper that holds the key
    is up: when that helper goes away, the vault is locked before anything else
    happens, and every run the helper had is left to fail after that. *)
Theorem key_with_helper dir s : reached dir s -> heldSession s = true -> shuttingDown s = false ->
  up s = true
  /\ (dispatch dir HelperExited s).2 = [LockedVault]
  /\ heldSession (step_supervisor dir HelperExited s) = false
  /\ (agenda s = [] -> forall n p, vaultRuns (tbl s) !! n = Some p -> FinishRun n p ∈ agenda (step_supervisor dir HelperExited s)).
Proof.
  intros H%reached_orderly Hh Hsd. destruct H as [[Hl _] Ht]. pose proof (life_held s Hl Hh Hsd) as Ha.
  destruct (life_active s Hl Ha) as [Ho|[_ Hx]]; [|congruence].
  assert (readyTimedOut (wat s) = false) as Hto by (apply not_true_is_false; intros E; by destruct (life_timedOut s Hl E); congruence).
  split; [unfold up, is_state; by rewrite Ha, Ho|]. unfold step_supervisor. cbn [dispatch]. unfold onVaultHelperExited.
  rewrite !fst_seq, !snd_seq. unfold reading. cbn [fst snd Actions.set app]. unfold is_state. cbn. rewrite Hto, Ha, Hsd. cbn. rewrite Hh. cbn.
  split_and!; try done. intros _ n p Hn. unfold exit_tasks. apply elem_of_app. left. apply list_elem_of_fmap. exists (n, p).
  split; [done|]. rewrite merge_sort_Permutation. by apply elem_of_map_to_list.
Qed.

(** ** Restarts *)

Inductive trace (dir : list Z) : supervisor -> list run_event -> list run_effect -> supervisor -> Prop :=
| trace_nil s : trace dir s [] [] s
| trace_cons s ev evs es s' : possible s ev -> room s -> trace dir (step_supervisor dir ev s) evs es s' ->
    trace dir s (ev :: evs) ((dispatch dir ev s).2 ++ es) s'.

(** Events that give the helper new attempts: it stayed up, or the user asks again. *)
Definition renews (ev : run_event) : bool :=
  match ev with SettleTimeout | Retry | Recheck | RetryDeferred => true | _ => false end.

Definition is_launch (x : run_effect) : bool := match x with Launched => true | _ => false end.
Definition launches (es : list run_effect) : Z := Z.of_nat (length (List.filter is_launch es)).

Definition flag (b : bool) : Z := if b then 1 else 0.
Definition attempts_left (s : supervisor) : Z :=
  vaultHelperMaxRestarts - vaultHelperRestarts (wat s) + flag (startLater (wat s)) + flag (is_state Pending s).

Lemma launches_app a b : launches (a ++ b) = launches a + launches b.
Proof. unfold launches. rewrite List.filter_app, length_app. lia. Qed.

Lemma launches_none es : Forall no_launch es -> launches es = 0.
Proof. induction 1 as [|x es Hx _ IH]; [done|]. by destruct x. Qed.

Lemma attempts_same s s' : wat s' = wat s -> attempts_left s' = attempts_left s.
Proof. unfold attempts_left, is_state. by intros ->. Qed.

Lemma aside_wat a s : aside a -> wat (a s).1 = wat s.
Proof. intros Ha. specialize (Ha s). unfold life_part in Ha. congruence. Qed.

(** What an event costs. *)
Definition pays (a : act) (s : supervisor) : Prop := launches (a s).2 + attempts_left (a s).1 <= attempts_left s.

Lemma pays_aside a s : aside a -> emits no_launch a -> pays a s.
Proof. intros Ha He. unfold pays. rewrite (launches_none _ (He s)), (attempts_same s) by (by apply aside_wat). lia. Qed.

Lemma start_pays dir s : vaultHelperProc (wat s) = Off -> startLater (wat s) = false ->
  launches (startVaultHelper dir s).2 + attempts_left (startVaultHelper dir s).1 <= vaultHelperMaxRestarts - vaultHelperRestarts (wat s) + 1.
Proof.
  intros Ho Hs. unfold startVaultHelper, reading. case_bool_decide.
  - unfold useVaultFallback, attempts_left, is_state. cbn. rewrite Hs. unfold launches. known. cbn. lia.
  - rewrite !fst_seq, !snd_seq. unfold reading, helper_running. cbn. rewrite Ho. known. cbn. unfold attempts_left, is_state. cbn. rewrite Hs. unfold launches. known. cbn. lia.
Qed.

Lemma task_pays dir s : pays (dispatch dir NextTask) s.
Proof.
  unfold pays. cbn [dispatch]. unfold reading. destruct (agenda s) as [|x ag]; [unfold launches; cbn; lia|]. rewrite fst_seq, snd_seq. cbn [fst snd Actions.set app].
  rewrite <- (attempts_same s (set_agenda ag s)) by done. destruct x as [id p|q|]; cbn [next_task].
  - by apply pays_aside; auto with aside emits.
  - by apply pays_aside; auto with aside emits.
  - unfold reading, stopVaultHelper. set (s' := set_agenda ag s). destruct (vaultHelperRestarts (wat s') <? vaultHelperMaxRestarts); unfold attempts_left, is_state; cbn.
    + destruct (startLater (wat s)); unfold launches; cbn; lia.
    + unfold launches. cbn. known. case_bool_decide; cbn; lia.
Qed.

Lemma line_emits line adopts : emits no_launch (onVaultHelperLine line adopts).
Proof.
  unfold onVaultHelperLine, exit_line. pose proof (neither_launch _ flush_emits). pose proof (fun m => neither_launch _ (result_emits m)).
  apply emits_reading. intros s. destruct (parseVaultHelperLine line); auto 20 with emits.
Qed.

Lemma line_pays line adopts s : pays (onVaultHelperLine line adopts) s.
Proof.
  unfold pays. rewrite (launches_none _ (line_emits line adopts s)). unfold onVaultHelperLine, reading. destruct (parseVaultHelperLine line) as [m|]; [|unfold launches; cbn; lia].
  destruct (strict_eqb _ _).
  { unfold is_state. case_bool_decide as Hs; cbn [negb orb]; [|unfold launches; cbn; lia]. destruct (readyTimedOut (wat s)); [unfold launches; cbn; lia|]. rewrite !fst_seq. cbn [fst Actions.set].
    rewrite (attempts_same (set_state Active (set_timers false true s))) by (by apply aside_wat, flush_aside).
    unfold attempts_left, is_state. cbn. rewrite Hs. known. cbn. lia. }
  destruct (strict_eqb _ _).
  { unfold exit_line, reading. destruct (find_run _ _) as [[id p]|]; [|unfold launches; cbn; lia]. rewrite !fst_seq. unfold when. rewrite (attempts_same s); [lia|]. by destruct (_ && adopts). }
  destruct (strict_eqb _ _); [|unfold launches; cbn; lia]. rewrite (attempts_same s); [lia|]. apply aside_wat, result_aside.
Qed.

Lemma exited_pays s : pays onVaultHelperExited s.
Proof.
  unfold pays. rewrite (launches_none _ (neither_launch _ exited_emits s)). unfold onVaultHelperExited. rewrite !fst_seq. unfold reading. cbn [fst Actions.set].
  destruct (readyTimedOut _); rewrite !fst_seq; unfold when, attempts_left.
  - destruct (_ && _); cbn; unfold is_state; cbn; lia.
  - unfold is_state at 1 2. destruct ((_ || _) && _) eqn:Hu; cbn [andb].
    + clear Hu. destruct (heldSession _); cbn; unfold is_state; cbn; known; cbn; case_bool_decide; cbn; lia.
    + cbn. unfold is_state. cbn. lia.
Qed.

Lemma event_pays dir ev s : orderly dir s -> possible s ev -> renews ev = false -> pays (dispatch dir ev) s.
Proof.
  intros [[Hl Hro] Ht] Hp Hn. destruct ev as [r a|r b|r|? ?| | | | | |raw| | | | | | | |line adopts| |r code]; try done; cbn [possible] in Hp; cbn [dispatch].
  - apply pays_aside; auto with aside emits.
  - apply pays_aside; auto using neither_launch with aside emits.
  - apply pays_aside; auto using neither_launch with aside emits.
  - apply pays_aside; auto using neither_launch with aside emits.
  - unfold pays, attempts_left, is_state, launches. cbn. lia.
  - unfold pays. rewrite (launches_none _ (neither_launch _ unload_emits s)). rewrite (attempts_same s); [lia|].
    unfold releaseVaultHelper. rewrite fst_seq. unfold reading, when. by destruct (helper_running _).
  - apply (task_pays dir).
  - unfold pays, onVaultHelperInspected. rewrite fst_seq, snd_seq. unfold reading. cbn [fst snd Actions.set app]. set (s' := set_inspected _ s).
    rewrite <- (attempts_same s s') by done. destruct (is_state Pending s') eqn:Hs; cbn [negb]; [|unfold launches; cbn; lia].
    assert (life s') as Hl' by (revert Hl; by apply life_same). pose proof Hs as Hs2. apply bool_decide_eq_true in Hs2.
    destruct (pending_no_helper s' Hl' Hs2) as (H1 & H2 & _). destruct (helperReady _).
    + pose proof (start_pays dir s' H1 H2). unfold attempts_left at 2. rewrite Hs, H2. cbn [flag]. lia.
    + unfold useVaultFallback, attempts_left, is_state, launches. cbn. known. destruct (startLater _); cbn; case_bool_decide; cbn; lia.
  - apply pays_aside; auto with aside emits.
  - unfold pays. rewrite fst_seq, snd_seq. cbn [fst snd Actions.set app]. destruct Hp as [Ha Hp]. destruct (life_later s Hl Hp) as (H1 & H2 & _).
    set (s' := set_later false (retryLater (wat s)) s). pose proof (start_pays dir s' H2 eq_refl). unfold attempts_left at 2, is_state. rewrite Hp, H1. known. cbn in *. lia.
  - unfold pays. rewrite (launches_none _ (neither_launch _ timeout_emits s)). destruct Hp as (_ & Hr & _). pose proof (life_timer s Hl Hr) as Hs.
    unfold onVaultHelperReadyTimeout. rewrite fst_seq. unfold reading, attempts_left, is_state. cbn. rewrite Hs. known. cbn. unfold when. destruct (helper_running _); cbn; known; cbn; lia.
  - unfold pays, attempts_left, is_state, launches, onVaultHelperStarted. cbn. lia.
  - unfold pays, attempts_left, is_state, launches. cbn. lia.
  - apply line_pays.
  - apply exited_pays.
  - apply pays_aside; [auto with aside|]. unfold local_exited. auto 10 with emits.
Qed.

(** C29: Between two moments at which the helper settled or the user asked again, it is
    launched at most four times (once, and three restarts), however often it dies, is
    killed or fails to start. *)
Theorem restarts_bounded dir s evs es s' : reached dir s -> trace dir s evs es s' -> forallb (fun ev => negb (renews ev)) evs = true ->
  launches es <= vaultHelperMaxRestarts + 1.
Proof.
  intros H Ht Hn. enough (launches es <= attempts_left s /\ attempts_left s <= vaultHelperMaxRestarts + 1) by lia.
  split; [enough (launches es + attempts_left s' <= attempts_left s /\ 0 <= attempts_left s') by lia|].
  - induction Ht as [s|s ev evs es s' Hp Hr Ht IH].
    + split; [unfold launches; cbn; lia|]. apply reached_orderly in H as [[Hl _] _]. pose proof (life_restarts s Hl).
      unfold attempts_left, vaultHelperMaxRestarts, flag in *. repeat destruct_match; lia.
    + cbn in Hn. apply andb_true_iff in Hn as [Hn1 Hn2]. apply negb_true_iff in Hn1. rewrite launches_app.
      pose proof (event_pays dir ev s (reached_orderly dir s H) Hp Hn1) as Hpay. unfold pays in Hpay.
      destruct IH as [IH1 IH2]; [by apply reached_step|done|]. unfold step_supervisor in IH1. lia.
  - apply reached_orderly in H as [[Hl _] _]. pose proof (life_restarts s Hl). pose proof (life_later s Hl). unfold attempts_left, is_state, vaultHelperMaxRestarts in *.
    destruct (startLater (wat s)); [|case_bool_decide; cbn; lia]. destruct H0 as [-> _]; [done|]. known. cbn. lia.
Qed.

(** ** What a request carries *)

Lemma own_fold_held l o k : NoDup l.*1 ->
  own k (fold_left (fun o kv => match heldSecretName kv.2 with [] => o | held => obj_set o kv.1 (JStr (js "secret:" ++ held)) end) l o)
  = match own k l with
    | Some v => match heldSecretName v with [] => own k o | held => Some (JStr (js "secret:" ++ held)) end
    | None => own k o
    end.
Proof.
  revert o. induction l as [|[k' v'] l IH]; intros o Hd; [done|]. cbn in Hd. apply NoDup_cons in Hd as [Hk Hd]. cbn [fold_left fst snd]. rewrite IH by done. clear IH.
  cbn [own]. destruct (str_eqb k' k) eqn:E.
  - apply str_eqb_eq in E as ->. assert (own k l = None) as -> by (by apply own_None). destruct (heldSecretName v'); [done|apply own_set_eq].
  - apply str_eqb_neq in E. destruct (own k l) as [v|]; destruct (heldSecretName v'); try done; rewrite own_set_ne by done; done.
Qed.

Lemma own_fold_plain l o k : NoDup l.*1 ->
  own k (fold_left (fun o kv => match heldSecretName kv.2 with [] => obj_set o kv.1 kv.2 | _ => o end) l o)
  = match own k l with
    | Some v => match heldSecretName v with [] => Some v | _ => own k o end
    | None => own k o
    end.
Proof.
  revert o. induction l as [|[k' v'] l IH]; intros o Hd; [done|]. cbn in Hd. apply NoDup_cons in Hd as [Hk Hd]. cbn [fold_left fst snd]. rewrite IH by done. clear IH.
  cbn [own]. destruct (str_eqb k' k) eqn:E.
  - apply str_eqb_eq in E as ->. assert (own k l = None) as -> by (by apply own_None). destruct (heldSecretName v'); [apply own_set_eq|done].
  - apply str_eqb_neq in E. destruct (own k l) as [v|]; destruct (heldSecretName v'); try done; rewrite own_set_ne by done; done.
Qed.

Lemma own_entries o k : NoDup o.*1 -> NoDup (entries o).*1 /\ own k (entries o) = own k o.
Proof.
  intros Hd. assert (NoDup (entries o).*1) as Hd' by (by rewrite entries_perm). split; [done|].
  apply option_eq. intros v. split; intros E%own_In; apply own_NoDup; try done; [by rewrite entries_perm in E|by rewrite entries_perm].
Qed.

(** A value the helper holds travels by name: in a request, a variable of the
    process's environment that refers to a held value is left out of the environment
    and injected as [secret:<name>], and every other one is passed on as it is. *)
Theorem held_by_name a k v : NoDup (environment a).*1 -> own k (environment a) = Some v ->
  (heldSecretName v = [] -> own k (exec_environment a) = Some v)
  /\ (heldSecretName v <> [] -> own k (exec_environment a) = None /\ own k (exec_inject a) = Some (JStr (js "secret:" ++ heldSecretName v))).
Proof.
  intros Hd Hk. destruct (own_entries (environment a) k Hd) as [Hd' He]. unfold exec_environment, exec_inject.
  rewrite own_fold_plain, own_fold_held, He, Hk by done. by destruct (heldSecretName v).
Qed.

(** ** A concrete run

    The helper is found, starts and answers; process 7 has a run in it that unlocks the
    vault; then the helper is killed while process 8 runs. *)

Definition demo_dir : list Z := js "/p".
Definition demo_inspection : jsval := JStr (js "state=ok" ++ [10] ++ js "source=development" ++ [10] ++ js "protocol=1" ++ [10]).
Definition demo_line (fields : list (list Z * jsval)) : jsval := JStr (stringify (JObj fields)).
Definition demo_ready : jsval := demo_line [(js "type", JStr (js "ready"))].
Definition demo_unlocked : jsval := demo_line [(js "type", JStr (js "exit")); (js "id", int_value 1); (js "code", int_value 0); (js "session", JBool true)].
Definition demo_spec : spec := Spec [js "bw"; js "unlock"] [(js "PW", JStr (heldSecretRef (JStr (js "pw1")))); (js "A", JStr (js "b"))] [] (js "session") true [].

Definition demo_events : list run_event :=
  [Recheck; Ask 7 demo_spec; SetRunning 7 true; InspectionOutput demo_inspection; InspectionExited; HelperStarted; HelperLine demo_ready false;
   HelperLine demo_unlocked true; Ask 8 demo_spec; SetRunning 8 true].

Definition run_all (dir : list Z) (evs : list run_event) (s : supervisor) : supervisor := fold_left (fun s ev => step_supervisor dir ev s) evs s.

Ltac reach_demo :=
  repeat match goal with
  | |- reached _ (step_supervisor _ _ _) => apply reached_step; [|by vm_compute; repeat split|by vm_compute; repeat split]
  end; apply reached_init.

Lemma demo_reached n : (n <= length demo_events)%nat -> reached demo_dir (run_all demo_dir (take n demo_events) init_supervisor).
Proof.
  intros Hn. do 11 (destruct n as [|n]; [cbn [take demo_events run_all fold_left]; reach_demo|]). cbn in Hn. lia.
Qed.

Lemma process_refines_witness :
  exits_of 7 (dispatch demo_dir (HelperLine demo_unlocked true) (run_all demo_dir (take 7 demo_events) init_supervisor)).2 = [NZ 0]
  /\ owner_step (owner_view (run_all demo_dir (take 7 demo_events) init_supervisor) 7)
       (exits_of 7 (dispatch demo_dir (HelperLine demo_unlocked true) (run_all demo_dir (take 7 demo_events) init_supervisor)).2)
       (owner_view (step_supervisor demo_dir (HelperLine demo_unlocked true) (run_all demo_dir (take 7 demo_events) init_supervisor)) 7).
Proof.
  split; [vm_compute; reflexivity|].
  apply (process_refines demo_dir (HelperLine demo_unlocked true) (run_all demo_dir (take 7 demo_events) init_supervisor) 7);
    [apply demo_reached; cbn; lia|by vm_compute; repeat split].
Defined.

Lemma runs_accounted_witness : located (run_all demo_dir (take 3 demo_events) init_supervisor) 7 /\ located (run_all demo_dir demo_events init_supervisor) 8.
Proof.
  split.
  - apply (runs_accounted demo_dir (run_all demo_dir (take 3 demo_events) init_supervisor) 7); [apply demo_reached; cbn; lia|vm_compute; reflexivity].
  - apply (runs_accounted demo_dir (run_all demo_dir (take 10 demo_events) init_supervisor) 8); [apply demo_reached; cbn; lia|vm_compute; reflexivity].
Defined.

Lemma key_with_helper_witness :
  vaultRuns (tbl (run_all demo_dir (take 10 demo_events) init_supervisor)) !! 2 = Some 8%nat
  /\ (dispatch demo_dir HelperExited (run_all demo_dir (take 10 demo_events) init_supervisor)).2 = [LockedVault].
Proof.
  split; [vm_compute; reflexivity|].
  apply (key_with_helper demo_dir (run_all demo_dir (take 10 demo_events) init_supervisor)); [apply demo_reached; cbn; lia|vm_compute; reflexivity|vm_compute; reflexivity].
Defined.

Lemma restarts_bounded_witness :
  exists es s', trace demo_dir (run_all demo_dir (take 3 demo_events) init_supervisor)
      [InspectionOutput demo_inspection; HelperStarted; HelperExited; NextTask; StartDeferred] es s'
    /\ launches es = 2 /\ launches es <= vaultHelperMaxRestarts + 1.
Proof.
  set (s0 := run_all demo_dir (take 3 demo_events) init_supervisor).
  set (evs := [InspectionOutput demo_inspection; HelperStarted; HelperExited; NextTask; StartDeferred]).
  assert (exists es s', trace demo_dir s0 evs es s' /\ launches es = 2) as (es & s' & Ht & Hn).
  { do 2 eexists. split; [repeat (apply trace_cons; [by vm_compute; repeat split|by vm_compute; repeat split|]); apply trace_nil|vm_compute; reflexivity]. }
  exists es, s'. split; [exact Ht|]. split; [exact Hn|].
  apply (restarts_bounded demo_dir s0 evs es s'); [apply demo_reached; cbn; lia|exact Ht|vm_compute; reflexivity].
Defined.

Lemma held_by_name_witness :
  own (js "PW") (exec_environment demo_spec) = None /\ own (js "PW") (exec_inject demo_spec) = Some (JStr (js "secret:pw1")).
Proof.
  apply (held_by_name demo_spec (js "PW") (JStr (heldSecretRef (JStr (js "pw1")))));
    [apply (bool_decide_unpack _); vm_compute; exact I|vm_compute; reflexivity|by vm_compute].
Defined.

(** A process stopped while it waits keeps its place in the queue
    ([onRunningChanged] reaches [vaultKill] only with a number).  A lock's scrub of it,
    which runs in the shell, is then sent to the helper a second time when the helper
    is up. *)
Theorem scrub_runs_twice :
  let before := run_all demo_dir [Recheck; Ask 7 demo_spec; SetRunning 7 true; SetRunning 7 false; Ask 7 (Spec scrubCommand [] [] (js "plain") true [])] init_supervisor in
  let started := run_all demo_dir [SetRunning 7 true; InspectionOutput demo_inspection; HelperStarted] before in
  (dispatch demo_dir (SetRunning 7 true) before).2 = [StartedScrub 7]
  /\ exists line, (dispatch demo_dir (HelperLine demo_ready false) started).2 = [WroteExec 1 7 line; Started 7].
Proof. split; [vm_compute; reflexivity|]. eexists. vm_compute. reflexivity. Qed.
