(* ===== verification/LockDown.v ===== *)
(** * What a lock leaves behind ([Service.qml])

    A lock runs [bw lock] with the key of the vault it closes, and removes the session
    remembered in the keyring; a suspend waits for both.  The state is the properties of
    the service for the queue of locks, the session's keyring entry and the suspend, the
    three processes, the copies of keys the vault helper holds for the queued locks, and
    the keyring itself, which the two keyring processes change with the scripts of
    [KeyringRun].

    An unlock's other effects, the panel and the logout sweep are left out.  The
    secret service is the parameter of [KeyringRun]. *)

From stdpp Require Import gmap.
From S2P Require Import Prelude.
From S2P Require Import JsNum.
From S2P Require Import JsString.
From S2P Require Import JsValue.
From S2P Require Import JsInt.
From S2P Require Import Accounts.
From S2P Require Import KeyringRun.
From S2P Require Import Actions.
Local Open Scope act_scope.

(** ** State *)

Record vault := Vault {
  session : bool;                   (** [session !== ""] *)
  unlocked : bool;                  (** [status === "unlocked"] *)
  vaultEpoch : Z;
  activeSlot : list Z;
  rememberSession : bool;
  logoutPending : bool
}.

Record storing := Storing {
  sessionStorePending : bool;
  storeEpoch : option Z;            (** [readEpochs.sessionStore] *)
  sessionStoreSlot : list Z;
  keyringStoreProc : option (list Z)  (** the account its running command stores for *)
}.

Record clearing := Clearing {
  sessionClearSlots : list (list Z);
  sessionClearRun : option (list Z * Z);              (** account and attempt *)
  keyringClearProc : option (list Z * option Z);      (** the account, and the status once it has run *)
  clearLater : list (list Z * Z)                      (** the deferred retries *)
}.

(** A queued lock: the account and the generation it was asked for (the account is its
    environment; the generation is not in the source), the number of its key's copy. *)
Record bw_lock := BwLock { lockSlot : list Z; lockEpoch : Z; lockKey : Z; attempts : Z; checking : bool }.

Record locking := Locking {
  lockRun : option bw_lock;
  lockQueue : list bw_lock;
  lockSeq : Z;
  lockProc : bool;                  (** running *)
  pumpLater : bool;                 (** [Qt.callLater(pumpBwLock)] *)
  stepLater : bool                  (** [Qt.callLater(runBwLockStep)] *)
}.

Record service := Service {
  vlt : vault;
  sto : storing;
  clr : clearing;
  lok : locking;
  suspendLockPending : bool;
  heldKeys : gmap Z Z;              (** the helper's copies [lock<n>]: whose key each is *)
  keyring : ring
}.

Inductive lock_effect :=
| RanLock (l : bw_lock)             (** [bw lock], or [bw status] when it checks *)
| RanStore (slot : list Z)
| RanClear (slot : list Z)
| StillStored (slot : list Z)       (** the user is told *)
| StillUnlocked                     (** the user is told *)
| AckSleep.

Notation act := (act service lock_effect).

Definition on_vlt (f : vault -> vault) (s : service) : service :=
  Service (f (vlt s)) (sto s) (clr s) (lok s) (suspendLockPending s) (heldKeys s) (keyring s).
Definition on_sto (f : storing -> storing) (s : service) : service :=
  Service (vlt s) (f (sto s)) (clr s) (lok s) (suspendLockPending s) (heldKeys s) (keyring s).
Definition on_clr (f : clearing -> clearing) (s : service) : service :=
  Service (vlt s) (sto s) (f (clr s)) (lok s) (suspendLockPending s) (heldKeys s) (keyring s).
Definition on_lok (f : locking -> locking) (s : service) : service :=
  Service (vlt s) (sto s) (clr s) (f (lok s)) (suspendLockPending s) (heldKeys s) (keyring s).
Definition set_suspend (b : bool) (s : service) : service :=
  Service (vlt s) (sto s) (clr s) (lok s) b (heldKeys s) (keyring s).
Definition set_held (h : gmap Z Z) (s : service) : service :=
  Service (vlt s) (sto s) (clr s) (lok s) (suspendLockPending s) h (keyring s).
Definition set_keyring (r : ring) (s : service) : service :=
  Service (vlt s) (sto s) (clr s) (lok s) (suspendLockPending s) (heldKeys s) r.

Definition set_open (session unlocked : bool) (epoch : Z) : service -> service :=
  on_vlt (fun v => Vault session unlocked epoch (activeSlot v) (rememberSession v) (logoutPending v)).
Definition set_status (unlocked : bool) : service -> service :=
  on_vlt (fun v => Vault (session v) unlocked (vaultEpoch v) (activeSlot v) (rememberSession v) (logoutPending v)).
Definition set_slot (slot : list Z) : service -> service :=
  on_vlt (fun v => Vault (session v) (unlocked v) (vaultEpoch v) slot (rememberSession v) (logoutPending v)).
Definition set_remember (b : bool) : service -> service :=
  on_vlt (fun v => Vault (session v) (unlocked v) (vaultEpoch v) (activeSlot v) b (logoutPending v)).
Definition set_logout (b : bool) : service -> service :=
  on_vlt (fun v => Vault (session v) (unlocked v) (vaultEpoch v) (activeSlot v) (rememberSession v) b).

Definition set_store_pending (b : bool) : service -> service :=
  on_sto (fun t => Storing b (storeEpoch t) (sessionStoreSlot t) (keyringStoreProc t)).
Definition set_store_proc (p : option (list Z)) : service -> service :=
  on_sto (fun t => Storing (sessionStorePending t) (storeEpoch t) (sessionStoreSlot t) p).
Definition set_clear (slots : list (list Z)) (run : option (list Z * Z)) (proc : option (list Z * option Z)) (later : list (list Z * Z)) : service -> service :=
  on_clr (fun _ => Clearing slots run proc later).
Definition set_run (run : option bw_lock) (queue : list bw_lock) : service -> service :=
  on_lok (fun k => Locking run queue (lockSeq k) (lockProc k) (pumpLater k) (stepLater k)).
Definition set_lock_proc (b : bool) : service -> service :=
  on_lok (fun k => Locking (lockRun k) (lockQueue k) (lockSeq k) b (pumpLater k) (stepLater k)).
Definition set_lock_later (pump step : bool) : service -> service :=
  on_lok (fun k => Locking (lockRun k) (lockQueue k) (lockSeq k) (lockProc k) pump step).

Definition when (b : bool) (a : act) : act := if b then a else nothing.
Definition is_running {A} (p : option A) : bool := match p with Some _ => true | None => false end.
Definition nonempty {A} (l : list A) : bool := match l with [] => false | _ => true end.

(** A property of type [int]. *)
Definition int_succ (z : Z) : Z := i32 (z + 1).

(** ** Suspend *)

Definition ackSleep : act := emit AckSleep.

Definition maybeAckSleep : act := reading (fun s =>
  if negb (suspendLockPending s) then nothing
  else if is_running (lockRun (lok s)) || nonempty (lockQueue (lok s)) then nothing
  else if is_running (sessionClearRun (clr s)) || nonempty (sessionClearSlots (clr s)) then nothing
  else set (set_suspend false) ;; ackSleep).

(** ** The session in the keyring *)

Definition storeCurrentSession : act := reading (fun s =>
  if logoutPending (vlt s) then set (set_store_pending false)
  else if negb (rememberSession (vlt s)) || negb (session (vlt s)) then set (set_store_pending false)
  else if is_running (keyringStoreProc (sto s)) || is_running (keyringClearProc (clr s)) then set (set_store_pending true)
  else
    let slot := activeSlot (vlt s) in
    set (on_sto (fun _ => Storing false (Some (vaultEpoch (vlt s))) slot (Some slot))) ;;
    emit (RanStore slot)).

(** [slot] undefined is [None]; [attempt] defaults to 1. *)
Definition requestSessionCredentialClear (slot : option (list Z)) (attempt : Z) : act := reading (fun s =>
  let target := match slot with Some x => if isAccountSlot (JStr x) then x else activeSlot (vlt s) | None => activeSlot (vlt s) end in
  let c := clr s in
  if is_running (keyringClearProc c) then
    when (negb (bool_decide (target ∈ sessionClearSlots c)))
      (set (set_clear (sessionClearSlots c ++ [target]) (sessionClearRun c) (keyringClearProc c) (clearLater c)))
  else
    set (set_clear (sessionClearSlots c) (Some (target, attempt)) (Some (target, None)) (clearLater c)) ;;
    emit (RanClear target)).

Definition epochOperationIsStale (s : service) : bool := negb (bool_decide (storeEpoch (sto s) = Some (vaultEpoch (vlt s)))).

(** [keyringStoreProc.onExited]: the process is idle by then. *)
Definition onSessionStored : act :=
  set (set_store_proc None) ;;
  reading (fun s =>
    if epochOperationIsStale s || negb (unlocked (vlt s)) || negb (session (vlt s)) then
      set (set_store_pending (rememberSession (vlt s) && unlocked (vlt s) && session (vlt s))) ;;
      requestSessionCredentialClear (Some (sessionStoreSlot (sto s))) 1
    else set (set_store_pending false)).

Definition pumpSessionKeyring : act := reading (fun s =>
  let c := clr s in
  if is_running (keyringClearProc c) || is_running (keyringStoreProc (sto s)) then nothing
  else match sessionClearSlots c with
       | next :: waiting =>
           set (set_clear waiting (sessionClearRun c) (keyringClearProc c) (clearLater c)) ;;
           requestSessionCredentialClear (Some next) 1
       | [] => when (sessionStorePending (sto s)) storeCurrentSession
       end).

(** [keyringClearProc.onExited] *)
Definition onSessionClearExited (exitCode : Z) : act :=
  set (fun s => set_clear (sessionClearSlots (clr s)) (sessionClearRun (clr s)) None (clearLater (clr s)) s) ;;
  reading (fun s =>
    let c := clr s in
    match sessionClearRun c with
    | Some (slot, attempt) =>
        if negb (exitCode =? 0) && (attempt <? 2)
        then set (set_clear (sessionClearSlots c) (sessionClearRun c) None (clearLater c ++ [(slot, attempt + 1)]))
        else
          set (set_clear (sessionClearSlots c) None None (clearLater c)) ;;
          when (negb (exitCode =? 0)) (emit (StillStored slot)) ;;
          maybeAckSleep
    | None => maybeAckSleep
    end).

(** ** [bw lock] *)

Definition lockSecretNames (s : service) : list Z :=
  map lockKey (lockQueue (lok s)) ++ match lockRun (lok s) with Some l => [lockKey l] | None => [] end.

(** The helper drops every copy but the queued locks'. *)
Definition forgetVault : act := set (fun s => set_held (filter (fun kv => kv.1 ∈ lockSecretNames s) (heldKeys s)) s).

Definition runBwLockStep : act := reading (fun s =>
  match lockRun (lok s) with
  | None => nothing
  | Some l =>
      if lockProc (lok s) then set (fun s => set_lock_later (pumpLater (lok s)) true s)
      else
        let l := BwLock (lockSlot l) (lockEpoch l) (lockKey l) (if checking l then attempts l else attempts l + 1) (checking l) in
        set (fun s => set_run (Some l) (lockQueue (lok s)) s) ;;
        set (set_lock_proc true) ;;
        emit (RanLock l)
  end).

Definition pumpBwLock : act := reading (fun s =>
  if is_running (lockRun (lok s)) || lockProc (lok s) then nothing
  else match lockQueue (lok s) with
       | [] => nothing
       | l :: queue => set (set_run (Some l) queue) ;; runBwLockStep
       end).

(** The copy is made by the helper, which has the key when the service has a session. *)
Definition requestBwLock : act := reading (fun s =>
  if negb (session (vlt s)) then nothing
  else
    let n := int_succ (lockSeq (lok s)) in
    set (fun s => set_held (<[n := vaultEpoch (vlt s)]> (heldKeys s)) s) ;;
    set (on_lok (fun k => Locking (lockRun k) (lockQueue k ++ [BwLock (activeSlot (vlt s)) (vaultEpoch (vlt s)) n 0 false]) n
                            (lockProc k) (pumpLater k) (stepLater k))) ;;
    pumpBwLock).

Definition finishBwLock : act :=
  reading (fun s =>
    match lockRun (lok s) with
    | Some l => set (fun s => set_held (delete (lockKey l) (heldKeys s)) s)
    | None => nothing
    end) ;;
  set (fun s => set_run None (lockQueue (lok s)) s) ;;
  set (fun s => set_lock_later true (stepLater (lok s)) s) ;;
  maybeAckSleep.

(** [stillUnlocked]: what [bw status] printed names an unlocked vault. *)
Definition onBwLockExited (exitCode : Z) (stillUnlocked : bool) : act :=
  set (set_lock_proc false) ;;
  reading (fun s =>
    match lockRun (lok s) with
    | None => nothing
    | Some l =>
        if checking l then when ((exitCode =? 0) && stillUnlocked) (emit StillUnlocked) ;; finishBwLock
        else if exitCode =? 0 then finishBwLock
        else
          set (fun s => set_run (Some (BwLock (lockSlot l) (lockEpoch l) (lockKey l) (attempts l) (checking l || (2 <=? attempts l)))) (lockQueue (lok s)) s) ;;
          set (fun s => set_lock_later (pumpLater (lok s)) true s)
    end).

(** ** Opening and closing the vault *)

Definition dropVaultState : act :=
  set (fun s => set_open false (unlocked (vlt s)) (vaultEpoch (vlt s)) s) ;;
  forgetVault ;;
  set (fun s => set_open false (unlocked (vlt s)) (int_succ (vaultEpoch (vlt s))) s) ;;
  set (on_sto (fun t => Storing false None (sessionStoreSlot t) (keyringStoreProc t))).

Definition lockVault : act :=
  requestBwLock ;;
  requestSessionCredentialClear None 1 ;;
  dropVaultState ;;
  set (set_status false).

(** [leaveActiveAccount] and [enterAccount], with the status of the account entered;
    [refreshAccountCredentials] clears the entry of one that must not have it. *)
Definition switchAccount (slot : list Z) : act :=
  requestBwLock ;;
  requestSessionCredentialClear None 1 ;;
  dropVaultState ;;
  set (set_slot slot) ;;
  reading (fun s => when (negb (rememberSession (vlt s))) (requestSessionCredentialClear None 1)) ;;
  set (set_status false).

(** [onUnlockSuccess] *)
Definition unlock : act :=
  set (fun s => set_open true true (int_succ (vaultEpoch (vlt s))) s) ;; storeCurrentSession.
(** [onSessionHandoff] with a key *)
Definition handoff : act :=
  set (fun s => set_open true (unlocked (vlt s)) (int_succ (vaultEpoch (vlt s))) s) ;;
  storeCurrentSession ;;
  set (set_status true).
(** [onKeyringLookupFinished] with a key *)
Definition adopt : act := set (fun s => set_open true (unlocked (vlt s)) (int_succ (vaultEpoch (vlt s))) s).
(** The re-prompt's check of the master password mints a new key. *)
Definition verified : act := set (fun s => set_open true (unlocked (vlt s)) (vaultEpoch (vlt s)) s) ;; storeCurrentSession.

(** [applyStatus]: [bw status] found the vault closed; [present] is the rest of
    [vaultStatePresent()]. *)
Definition status_closed (present : bool) : act := reading (fun s =>
  when (session (vlt s) || unlocked (vlt s) || present)
    (when (session (vlt s)) (requestSessionCredentialClear None 1) ;; dropVaultState) ;;
  set (set_status false)).

(** [onVaultHelperExited]: the helper and every key it held are gone. *)
Definition helper_lost : act := reading (fun s =>
  set (set_held ∅) ;;
  when (session (vlt s))
    (set (fun s => set_open false (unlocked (vlt s)) (vaultEpoch (vlt s)) s) ;;
     if unlocked (vlt s) then lockVault else dropVaultState)).

(** [onRememberSessionChanged]; [ready] is [started && accountsLoaded]. *)
Definition remember_changed (b ready : bool) : act :=
  set (set_remember b) ;;
  when (ready && negb b) (set (set_store_pending false) ;; requestSessionCredentialClear None 1).

Definition logout : act := reading (fun s =>
  if logoutPending (vlt s) then nothing else set (set_logout true) ;; lockVault).
(** [finishLogoutIfReady], then [moveOffRemovedAccount]; [enters] when the account moved
    to is one of the list. *)
Definition logout_done (slot : list Z) (enters : bool) : act :=
  set (set_logout false) ;; set (set_status false) ;; set (set_slot slot) ;;
  reading (fun s => when (enters && negb (rememberSession (vlt s))) (requestSessionCredentialClear None 1)).

(** [onSleepSignal]: the machine is about to sleep. *)
Definition sleep (lockOnSuspend : bool) : act := reading (fun s =>
  if negb lockOnSuspend || negb (unlocked (vlt s)) then ackSleep
  else set (set_suspend true) ;; lockVault ;; maybeAckSleep).

(** ** Events *)

Inductive lock_event :=
| Unlock | Handoff | Adopt | Verified | StatusOpen | StatusClosed (present : bool) | UnlockRefused
| LockVault | SwitchAccount (slot : list Z) | HelperLost | RememberChanged (b ready : bool) | ClearWanted
| Logout | LogoutDone (slot : list Z) (enters : bool) | Sleep (lockOnSuspend : bool) | Wake
| StoreRan (token : list Z) | StoreExited | ClearRan | ClearExited (exitCode : Z) | LockExited (exitCode : Z) (stillUnlocked : bool)
| BusyTimer | RetryClear | PumpDeferred | StepDeferred.

Section service_handlers.
  Context `{!SecretService}.

Definition store_ran (token : list Z) : act := reading (fun s =>
  match keyringStoreProc (sto s) with
  | Some slot => set (set_keyring (run_session_store (keyring s) (JStr slot) token).2)
  | None => nothing
  end).

Definition clear_ran : act := reading (fun s =>
  match keyringClearProc (clr s) with
  | Some (slot, _) =>
      let '(code, r) := run_session_clear (keyring s) (JStr slot) in
      set (set_keyring r) ;;
      set (set_clear (sessionClearSlots (clr s)) (sessionClearRun (clr s)) (Some (slot, Some code)) (clearLater (clr s)))
  | None => nothing
  end).

Definition dispatch (ev : lock_event) : act :=
  match ev with
  | Unlock => unlock
  | Handoff => handoff
  | Adopt => adopt
  | Verified => verified
  | StatusOpen => set (set_status true)
  | StatusClosed present => status_closed present
  | UnlockRefused => set (set_status false)
  | LockVault => lockVault
  | SwitchAccount slot => switchAccount slot
  | HelperLost => helper_lost
  | RememberChanged b ready => remember_changed b ready
  | ClearWanted => requestSessionCredentialClear None 1
  | Logout => logout
  | LogoutDone slot enters => logout_done slot enters
  | Sleep lockOnSuspend => sleep lockOnSuspend
  | Wake => set (set_suspend false)
  | StoreRan token => store_ran token
  | StoreExited => onSessionStored
  | ClearRan => clear_ran
  | ClearExited code => onSessionClearExited code
  | LockExited code out => onBwLockExited code out
  | BusyTimer => pumpSessionKeyring
  | RetryClear => reading (fun s =>
      match clearLater (clr s) with
      | [] => nothing
      | (slot, attempt) :: later =>
          set (set_clear (sessionClearSlots (clr s)) (sessionClearRun (clr s)) (keyringClearProc (clr s)) later) ;;
          requestSessionCredentialClear (Some slot) attempt
      end)
  | PumpDeferred => set (fun s => set_lock_later false (stepLater (lok s)) s) ;; pumpBwLock
  | StepDeferred => set (fun s => set_lock_later (pumpLater (lok s)) false s) ;; runBwLockStep
  end.

(** A process acts before it exits and exits with the status it got, or is killed
    (another status).  Deferred calls come before timers, and before the exit of a
    process started after them.
    An unlock is refused only on the lock screen, a password is verified only in an
    unlocked vault that is not being signed out, and only accounts are entered. *)
Definition possible (s : service) (ev : lock_event) : Prop :=
  match ev with
  | UnlockRefused => unlocked (vlt s) = false
  | Verified => unlocked (vlt s) = true /\ logoutPending (vlt s) = false
  | SwitchAccount slot => isAccountSlot (JStr slot) = true /\ logoutPending (vlt s) = false
  | LogoutDone slot _ => isAccountSlot (JStr slot) = true /\ logoutPending (vlt s) = true
  | StoreRan _ | StoreExited => is_running (keyringStoreProc (sto s)) = true
  | ClearRan => exists slot, keyringClearProc (clr s) = Some (slot, None)
  | ClearExited code => clearLater (clr s) = [] /\ exists slot status, keyringClearProc (clr s) = Some (slot, status) /\ (code = 0 -> status = Some 0)
  | LockExited _ _ => lockProc (lok s) = true
  | RetryClear => clearLater (clr s) <> []
  | BusyTimer => clearLater (clr s) = []
  | PumpDeferred => pumpLater (lok s) = true
  | StepDeferred => stepLater (lok s) = true
  | _ => True
  end.

(** [vaultEpoch] and [lockSeq] are properties of type [int]. *)
Definition room (s : service) : Prop := 0 <= vaultEpoch (vlt s) < 2 ^ 31 - 2 /\ 0 <= lockSeq (lok s) < 2 ^ 31 - 2.

Definition step_service (ev : lock_event) (s : service) : service := (dispatch ev s).1.

Definition init_service (slot : list Z) (remember : bool) (r : ring) : service :=
  Service (Vault false false 0 slot remember false) (Storing false None [] None) (Clearing [] None None [])
    (Locking None [] 0 false false false) false ∅ r.

(** The accounts whose entry the user was told of. *)
Definition told_by (es : list lock_effect) : list (list Z) :=
  omap (fun x => match x with StillStored slot => Some slot | _ => None end) es.

(** The accounts whose session the clear reported as removed although the search that
    looks for what is left failed and printed nothing. *)
Definition missed_by (ev : lock_event) (s : service) : list (list Z) :=
  match ev, keyringClearProc (clr s) with
  | ClearRan, Some (slot, _) =>
      let e := session_entry (JStr slot) in
      let '(code, bytes) := search_reply (secret_clear (keyring s) e).2 e in
      if negb (code =? 0) && (bytes =? 0) then [slot] else []
  | _, _ => []
  end.

(** From a keyring [r0]: [told] are the accounts the user was told of so far, [missed]
    those of a search that failed unnoticed, and [lost] whether a helper was lost. *)
Inductive reached (r0 : ring) : list (list Z) -> list (list Z) -> bool -> service -> Prop :=
| reached_init slot remember : isAccountSlot (JStr slot) = true -> reached r0 [] [] false (init_service slot remember r0)
| reached_step ev told missed lost s : reached r0 told missed lost s -> possible s ev -> room s ->
    reached r0 (told_by (dispatch ev s).2 ++ told) (missed_by ev s ++ missed)
      (lost || match ev with HelperLost => true | _ => false end) (step_service ev s).
End service_handlers.
