(* ===== verification/LockDownCorrect.v ===== *)
(** * The session's keyring entry is accounted for

    The invariant of the session's keyring entry ([ring_inv]), kept by every event: an
    entry that this run of the service wrote belongs to the open vault, or something is
    still going to remove it, or the user was told that it could not be removed. *)

From stdpp Require Import gmap.
From S2P Require Import Prelude.
From S2P Require Import JsNum.
From S2P Require Import JsString.
From S2P Require Import JsValue.
From S2P Require Import JsInt.
From S2P Require Import Accounts.
From S2P Require Import AccountsCorrect.
From S2P Require Import KeyringRun.
From S2P Require Import KeyringRunCorrect.
From S2P Require Import Actions.
From S2P Require Import LockDown.
Local Open Scope act_scope.

Definition slot_ok (x : list Z) : Prop := isAccountSlot (JStr x) = true.
Definition stored (r : ring) (x : list Z) : Prop := is_Some (items r !! session_entry (JStr x)).

Lemma session_entry_inj x y : slot_ok x -> slot_ok y -> session_entry (JStr x) = session_entry (JStr y) -> x = y.
Proof.
  unfold slot_ok, session_entry. intros Hx Hy [_ E]%entry_name_inj; [|vm_compute; set_solver|vm_compute; set_solver].
  unfold accountSlot in E. by rewrite Hx, Hy in E.
Qed.

Section correct.
  Context `{Hsvc : !SecretService}.

(** The search of a clear that reports success says whether the entry is gone, or has
    failed. *)
Lemma clear_result r x y : slot_ok x -> slot_ok y ->
  (stored (run_session_clear r (JStr x)).2 y -> stored r y)
  /\ ((run_session_clear r (JStr x)).1 = 0 -> stored (run_session_clear r (JStr x)).2 x ->
      (search_reply (run_session_clear r (JStr x)).2 (session_entry (JStr x))).1 <> 0 /\ (search_reply (run_session_clear r (JStr x)).2 (session_entry (JStr x))).2 = 0).
Proof.
  intros Hx Hy. unfold run_session_clear, stored. destruct (secret_clear r (session_entry (JStr x))) as [[d m] r1] eqn:E. cbn [fst snd]. split.
  - apply secret_clear_cases in E as [[-> _]|[-> _]]; [done|]. cbn. intros [v Hv]. apply lookup_delete_Some in Hv as [_ Hv]. by exists v.
  - intros H0 [v Hv]. destruct (_ =? 0) eqn:Hz; [|done]. apply Z.eqb_eq in Hz. split; [|done]. intros Hs.
    destruct (search_reply_bytes r1 (session_entry (JStr x)) Hs) as [_ Hb]. apply Hb in Hz. congruence.
Qed.

Lemma store_result r x y token : slot_ok x -> slot_ok y -> stored (run_session_store r (JStr x) token).2 y -> stored r y \/ y = x.
Proof.
  intros Hx Hy. unfold run_session_store, stored. destruct (_ || _); cbn; [|by left]. intros [v Hv].
  apply lookup_insert_Some in Hv as [[E _]|[_ Hv]]; [right; by apply session_entry_inj|left; by exists v].
Qed.

(** ** The session's entry *)

Definition current (s : service) (x : list Z) : Prop :=
  session (vlt s) = true /\ unlocked (vlt s) = true /\ logoutPending (vlt s) = false /\ activeSlot (vlt s) = x.

(** Something is still going to remove it, or to look whether it must. *)
Definition owed (s : service) (x : list Z) : Prop :=
  keyringStoreProc (sto s) = Some x \/ (exists st, keyringClearProc (clr s) = Some (x, st) /\ st <> Some 0)
  \/ x ∈ sessionClearSlots (clr s) \/ x ∈ (clearLater (clr s)).*1.

(** With [P] for the accounts about to be looked after. *)
Record ring_but (P : list Z -> Prop) (r0 : ring) (told : list (list Z)) (s : service) : Prop := {
  ri_entry : forall x, slot_ok x -> stored (keyring s) x -> stored r0 x \/ current s x \/ owed s x \/ x ∈ told \/ P x;
  ri_active : slot_ok (activeSlot (vlt s));
  ri_store : forall x, keyringStoreProc (sto s) = Some x -> sessionStoreSlot (sto s) = x /\ slot_ok x;
  ri_epoch : forall e, storeEpoch (sto s) = Some e -> e <= vaultEpoch (vlt s);
  ri_fresh : storeEpoch (sto s) = Some (vaultEpoch (vlt s)) -> sessionStoreSlot (sto s) = activeSlot (vlt s) /\ logoutPending (vlt s) = false;
  ri_clear : forall x st, keyringClearProc (clr s) = Some (x, st) -> slot_ok x /\ exists a, sessionClearRun (clr s) = Some (x, a);
  ri_slots : forall x, x ∈ sessionClearSlots (clr s) -> slot_ok x;
  ri_later : forall x a, (x, a) ∈ clearLater (clr s) -> slot_ok x /\ a = 2;
  ri_run : (forall x, ~ P x) -> sessionClearRun (clr s) <> None -> keyringClearProc (clr s) <> None \/ clearLater (clr s) <> [];
  ri_retry : clearLater (clr s) <> [] -> sessionClearRun (clr s) <> None;
  ri_one : (length (clearLater (clr s)) <= 1)%nat;
  ri_attempt : forall x a, sessionClearRun (clr s) = Some (x, a) -> 1 <= a <= 2
}.

Definition ring_inv : ring -> list (list Z) -> service -> Prop := ring_but (fun _ => False).

(** What it looks at. *)
Definition ring_part (s : service) := (vlt s, sto s, clr s, keyring s).

Lemma ring_same P r0 told s s' : ring_part s' = ring_part s -> ring_but P r0 told s -> ring_but P r0 told s'.
Proof.
  unfold ring_part. intros [= Ev Es Ec Ek] [H1 H2 H3 H4 H5 H6 H7 H8 H9 H10 H11 H12].
  split; unfold current, owed in *; rewrite ?Ev, ?Es, ?Ec, ?Ek; assumption.
Qed.

(** The invariant's [told] are all the accounts that need not be looked after any more:
    those the user was told of and those of a search that failed unnoticed. *)
Lemma told_mono r0 told told' s : (forall x, x ∈ told -> x ∈ told') -> ring_inv r0 told s -> ring_inv r0 told' s.
Proof.
  intros Hm [H1 H2 H3 H4 H5 H6 H7 H8 H9 H10 H11 H12]. split; auto. intros x Hx Hs. destruct (H1 x Hx Hs) as [|[|[|[|]]]]; auto 6.
Qed.
Lemma told_more r0 told told' s : ring_inv r0 told s -> ring_inv r0 (told' ++ told) s.
Proof. apply told_mono. set_solver. Qed.

(** What is owed for the account named. *)
Definition target_of (slot : option (list Z)) (s : service) : list Z :=
  match slot with Some x => if isAccountSlot (JStr x) then x else activeSlot (vlt s) | None => activeSlot (vlt s) end.

Lemma target_ok P r0 told slot s : ring_but P r0 told s -> slot_ok (target_of slot s).
Proof. intros H. unfold target_of. destruct slot as [x|]; [|apply (ri_active _ _ _ _ H)]. destruct (isAccountSlot (JStr x)) eqn:E; [done|apply (ri_active _ _ _ _ H)]. Qed.

Lemma request_owed slot a s : owed (requestSessionCredentialClear slot a s).1 (target_of slot s).
Proof.
  unfold requestSessionCredentialClear, reading, owed. fold (target_of slot s).
  destruct (is_running (keyringClearProc (clr s))) eqn:E.
  - unfold when. case_bool_decide as Hin; cbn; [auto|]. right. right. left. set_solver.
  - rewrite fst_seq. cbn. right. left. by exists None.
Qed.

Ltac request_cases slot s :=
  unfold requestSessionCredentialClear, reading, when; fold (target_of slot s); destruct (is_running _); [destruct (negb _)|].

Lemma request_vlt slot a s : vlt (requestSessionCredentialClear slot a s).1 = vlt s /\ sto (requestSessionCredentialClear slot a s).1 = sto s
  /\ keyring (requestSessionCredentialClear slot a s).1 = keyring s.
Proof. request_cases slot s; done. Qed.

Lemma request_keeps_owed slot a s x : owed s x -> owed (requestSessionCredentialClear slot a s).1 x.
Proof.
  unfold requestSessionCredentialClear, reading, owed. destruct (keyringClearProc (clr s)) as [[y st]|] eqn:E; cbn.
  - unfold when. destruct (negb _); cbn; [|by rewrite E]. set_solver.
  - intros [?|[(? & ? & _)|?]]; [by left|done|by right; right].
Qed.

Lemma request_settles P r0 told slot a s : ring_but P r0 told s -> (forall x, P x -> x = target_of slot s) -> 1 <= a <= 2 ->
  ring_inv r0 told (requestSessionCredentialClear slot a s).1.
Proof.
  intros H HP Ha. destruct (request_vlt slot a s) as (Ev & Es & Ek). pose proof (target_ok P r0 told slot s H) as Ht. pose proof (request_owed slot a s) as Hto.
  pose proof (fun x => request_keeps_owed slot a s x) as Ho. destruct H as [H1 H2 H3 H4 H5 H6 H7 H8 H9 H10 H11 H12].
  split; rewrite ?Ev, ?Es, ?Ek; auto.
  - intros x Hx Hs. unfold current. rewrite Ev. destruct (H1 x Hx Hs) as [|[|[|[|Hp]]]]; auto. right. right. left. by rewrite (HP x Hp).
  - request_cases slot s; cbn; auto.
    intros x st [= <- <-]. eauto.
  - request_cases slot s; cbn; auto.
    intros x. rewrite elem_of_app, list_elem_of_singleton. intros [?| ->]; auto.
  - request_cases slot s; cbn; auto.
  - intros _ _. left. unfold requestSessionCredentialClear, reading, when. destruct (keyringClearProc (clr s)) eqn:E; cbn; [|done]. destruct (negb _); cbn; congruence.
  - request_cases slot s; cbn; auto.
  - request_cases slot s; cbn; auto.
  - request_cases slot s; cbn; auto. by intros x b [= <- <-].
Qed.

Lemma request_inv r0 told slot a s : ring_inv r0 told s -> 1 <= a <= 2 -> ring_inv r0 told (requestSessionCredentialClear slot a s).1.
Proof. intros H Ha. by apply (request_settles (fun _ => False)). Qed.

Lemma int_succ_room z : 0 <= z < 2 ^ 31 - 1 -> int_succ z = z + 1.
Proof. intros. unfold int_succ. apply i32_small. lia. Qed.

Lemma pending_inv r0 told b s : ring_inv r0 told s -> ring_inv r0 told (set_store_pending b s).
Proof. intros [H1 H2 H3 H4 H5 H6 H7 H8 H9 H10 H11 H12]. by split. Qed.

Lemma store_inv r0 told s : ring_inv r0 told s -> ring_inv r0 told (storeCurrentSession s).1.
Proof.
  intros H. unfold storeCurrentSession, reading. destruct (logoutPending (vlt s)) eqn:El; [by apply pending_inv|].
  destruct (_ || _); [by apply pending_inv|]. destruct (keyringStoreProc (sto s)) eqn:Es; cbn [is_running orb]; [by apply pending_inv|].
  destruct (is_running _); [by apply pending_inv|]. destruct H as [H1 H2 H3 H4 H5 H6 H7 H8 H9 H10 H11 H12]. split; cbn; auto.
  - intros x Hx Hs. unfold owed, current in *. cbn. destruct (H1 x Hx Hs) as [|[|[[?|?]|[|]]]]; auto. congruence.
  - by intros x [= <-].
  - intros e [= <-]. lia.
Qed.

(** The vault is dropped: nothing of it may still be counted on. *)
Lemma drop_vlt s : vlt (dropVaultState s).1 =
  Vault false (unlocked (vlt s)) (int_succ (vaultEpoch (vlt s))) (activeSlot (vlt s)) (rememberSession (vlt s)) (logoutPending (vlt s)).
Proof. done. Qed.
Lemma lock_request_vlt s : vlt (requestBwLock s).1 = vlt s.
Proof.
  unfold requestBwLock, reading. destruct (negb _); [done|]. rewrite !fst_seq. unfold pumpBwLock, reading. destruct (_ || _); [done|].
  destruct (lockQueue _); [done|]. rewrite fst_seq. unfold runBwLockStep, reading. destruct (lockRun _); [|done]. by destruct (lockProc _).
Qed.

Lemma drop_inv r0 told s : ring_inv r0 told s -> (forall x, current s x -> owed s x) -> ring_inv r0 told (dropVaultState s).1.
Proof.
  intros [H1 H2 H3 H4 H5 H6 H7 H8 H9 H10 H11 H12] Hc. split; cbn; auto; try done.
  intros x Hx Hs. destruct (H1 x Hx Hs) as [|[Hcur|[|[|]]]]; auto. right. right. left. by apply Hc.
Qed.

Lemma status_down_inv r0 told s : ring_inv r0 told s -> session (vlt s) = false \/ unlocked (vlt s) = false -> ring_inv r0 told (set_status false s).
Proof.
  intros [H1 H2 H3 H4 H5 H6 H7 H8 H9 H10 H11 H12] Hd. split; cbn; auto.
  intros x Hx Hs. destruct (H1 x Hx Hs) as [|[(Ha & Hb & _)|[|[|]]]]; auto. destruct Hd; congruence.
Qed.

(** [requestBwLock] touches the locks only. *)
Definition locks_only (a : act) : Prop := forall s, ring_part (a s).1 = ring_part s.
Lemma locks_only_seq a b : locks_only a -> locks_only b -> locks_only (a ;; b).
Proof. intros Ha Hb s. rewrite fst_seq. by rewrite Hb, Ha. Qed.

Lemma step_lock_only : locks_only runBwLockStep.
Proof. intros s. unfold runBwLockStep, reading. destruct (lockRun (lok s)) as [l|]; [|done]. by destruct (lockProc (lok s)). Qed.
Lemma pump_lock_only : locks_only pumpBwLock.
Proof.
  intros s. unfold pumpBwLock, reading. destruct (_ || _); [done|]. destruct (lockQueue (lok s)); [done|]. rewrite fst_seq. by rewrite step_lock_only.
Qed.
Lemma request_lock_only : locks_only requestBwLock.
Proof. intros s. unfold requestBwLock, reading. destruct (negb _); [done|]. rewrite !fst_seq. by rewrite pump_lock_only. Qed.
Lemma ack_only : locks_only maybeAckSleep.
Proof. intros s. unfold maybeAckSleep, reading. destruct (negb _); [done|]. destruct (_ || _); [done|]. by destruct (_ || _). Qed.
Lemma finish_lock_only : locks_only finishBwLock.
Proof. intros s. unfold finishBwLock. rewrite !fst_seq. rewrite ack_only. unfold reading. by destruct (lockRun (lok s)). Qed.

Lemma locks_only_inv r0 told a s : locks_only a -> ring_inv r0 told s -> ring_inv r0 told (a s).1.
Proof. intros Ha. by apply ring_same. Qed.

(** The common beginning of a lock and of leaving an account. *)
Definition close_vault : act := requestBwLock ;; requestSessionCredentialClear None 1 ;; dropVaultState.

Lemma close_inv r0 told s : ring_inv r0 told s -> ring_inv r0 told (close_vault s).1.
Proof.
  intros H. unfold close_vault. rewrite !fst_seq. apply drop_inv.
  - apply request_inv; [|lia]. apply locks_only_inv; [apply request_lock_only|done].
  - intros x (_ & _ & _ & Hx). destruct (request_vlt None 1 (requestBwLock s).1) as (Ev & _). rewrite Ev in Hx. subst x. apply (request_owed None).
Qed.

Lemma close_vlt s : vlt (close_vault s).1 =
  Vault false (unlocked (vlt s)) (int_succ (vaultEpoch (vlt s))) (activeSlot (vlt s)) (rememberSession (vlt s)) (logoutPending (vlt s)).
Proof.
  unfold close_vault. rewrite !fst_seq, drop_vlt. destruct (request_vlt None 1 (requestBwLock s).1) as (-> & _). by rewrite lock_request_vlt.
Qed.

Lemma seq_assoc (a b c : act) s : ((a ;; b ;; c) s).1 = (((a ;; b) ;; c) s).1.
Proof. by rewrite !fst_seq. Qed.

Lemma lock_inv r0 told s : ring_inv r0 told s -> ring_inv r0 told (lockVault s).1.
Proof.
  intros H. assert ((lockVault s).1 = set_status false (close_vault s).1) as -> by (unfold lockVault, close_vault; by rewrite !fst_seq).
  apply status_down_inv; [by apply close_inv|]. rewrite close_vlt. by left.
Qed.

Lemma slot_inv r0 told slot s : ring_inv r0 told s -> slot_ok slot -> storeEpoch (sto s) <> Some (vaultEpoch (vlt s)) ->
  session (vlt s) = false \/ unlocked (vlt s) = false -> ring_inv r0 told (set_slot slot s).
Proof.
  intros [H1 H2 H3 H4 H5 H6 H7 H8 H9 H10 H11 H12] Hsl Hf Hd. split; cbn; auto.
  - intros x Hx Hs. destruct (H1 x Hx Hs) as [|[(Ha & Hb & _)|[|[|]]]]; auto. destruct Hd; congruence.
  - done.
Qed.

Lemma open_inv r0 told u e s : ring_inv r0 told s -> (unlocked (vlt s) = true -> u = true) -> vaultEpoch (vlt s) <= e -> ring_inv r0 told (set_open true u e s).
Proof.
  intros [H1 H2 H3 H4 H5 H6 H7 H8 H9 H10 H11 H12] Hu He. split; cbn; auto.
  - intros x Hx Hs. unfold current in *. cbn. destruct (H1 x Hx Hs) as [|[(_ & ? & ? & ?)|[|[|]]]]; auto 6.
  - intros e' E. specialize (H4 _ E). lia.
  - intros E. pose proof (H4 _ E). apply H5. rewrite E. f_equal. lia.
Qed.

Lemma status_up_inv r0 told s : ring_inv r0 told s -> ring_inv r0 told (set_status true s).
Proof.
  intros [H1 H2 H3 H4 H5 H6 H7 H8 H9 H10 H11 H12]. split; cbn; auto.
  intros x Hx Hs. unfold current in *. cbn. destruct (H1 x Hx Hs) as [|[(? & ? & ? & ?)|[|[|]]]]; auto 6.
Qed.

(** What a lock does to the account side depends on little. *)
Lemma request_clr slot a s s' : clr s' = clr s -> activeSlot (vlt s') = activeSlot (vlt s) ->
  clr (requestSessionCredentialClear slot a s').1 = clr (requestSessionCredentialClear slot a s).1.
Proof.
  intros Ec Ea. unfold requestSessionCredentialClear, reading, when. rewrite Ec, Ea. destruct (is_running _); [destruct (negb _)|]; done.
Qed.

Lemma drop_ring s s' : sto s' = sto s -> clr s' = clr s -> keyring s' = keyring s ->
  Vault false (unlocked (vlt s')) (vaultEpoch (vlt s')) (activeSlot (vlt s')) (rememberSession (vlt s')) (logoutPending (vlt s'))
  = Vault false (unlocked (vlt s)) (vaultEpoch (vlt s)) (activeSlot (vlt s)) (rememberSession (vlt s)) (logoutPending (vlt s)) ->
  ring_part (dropVaultState s').1 = ring_part (dropVaultState s).1.
Proof. intros Es Ec Ek [= E1 E2 E3 E4 E5]. unfold ring_part. rewrite !drop_vlt. cbn. by rewrite Es, Ec, Ek, E1, E2, E3, E4, E5. Qed.

Lemma lock_request_parts s : sto (requestBwLock s).1 = sto s /\ clr (requestBwLock s).1 = clr s /\ keyring (requestBwLock s).1 = keyring s.
Proof. pose proof (request_lock_only s) as Hr. unfold ring_part in Hr. split_and!; congruence. Qed.

Lemma close_ring s s' : sto s' = sto s -> clr s' = clr s -> keyring s' = keyring s ->
  Vault false (unlocked (vlt s')) (vaultEpoch (vlt s')) (activeSlot (vlt s')) (rememberSession (vlt s')) (logoutPending (vlt s'))
  = Vault false (unlocked (vlt s)) (vaultEpoch (vlt s)) (activeSlot (vlt s)) (rememberSession (vlt s)) (logoutPending (vlt s)) ->
  ring_part (close_vault s').1 = ring_part (close_vault s).1.
Proof.
  intros Es Ec Ek Ev. unfold close_vault. rewrite !fst_seq. destruct (lock_request_parts s) as (Q1 & Q2 & Q3), (lock_request_parts s') as (Q1' & Q2' & Q3').
  destruct (request_vlt None 1 (requestBwLock s).1) as (V1 & V2 & V3), (request_vlt None 1 (requestBwLock s').1) as (V1' & V2' & V3').
  apply drop_ring; rewrite ?V1, ?V2, ?V3, ?V1', ?V2', ?V3', ?lock_request_vlt; try congruence.
  apply request_clr; [congruence|]. rewrite !lock_request_vlt. by injection Ev.
Qed.

Lemma lock_close s : (lockVault s).1 = set_status false (close_vault s).1.
Proof. unfold lockVault, close_vault. by rewrite !fst_seq. Qed.

Lemma status_part b s s' : ring_part s' = ring_part s -> ring_part (set_status b s') = ring_part (set_status b s).
Proof. unfold ring_part. cbn. by intros [= -> -> -> ->]. Qed.

Lemma lock_dropped_inv r0 told s : ring_inv r0 told s -> ring_inv r0 told (lockVault (set_open false (unlocked (vlt s)) (vaultEpoch (vlt s)) s)).1.
Proof.
  intros H. rewrite lock_close. apply (ring_same _ r0 told (set_status false (close_vault s).1)); [|rewrite <- lock_close; by apply lock_inv].
  by apply status_part, close_ring.
Qed.

Lemma logout_inv r0 told s : ring_inv r0 told s -> ring_inv r0 told (logout s).1.
Proof.
  intros H. unfold logout, reading. destruct (logoutPending (vlt s)); [done|]. rewrite fst_seq. cbn [fst Actions.set]. rewrite lock_close.
  assert (ring_part (close_vault (set_logout true s)).1 = ring_part (set_logout true (close_vault s).1)) as E.
  { assert (vlt (close_vault (set_logout true s)).1 = vlt (set_logout true (close_vault s).1)) as Ev by (cbn; by rewrite !close_vlt).
    unfold ring_part. rewrite Ev. cbn. unfold close_vault. rewrite !fst_seq. cbn.
    destruct (lock_request_parts s) as (Q1 & Q2 & Q3), (lock_request_parts (set_logout true s)) as (Q1' & Q2' & Q3').
    destruct (request_vlt None 1 (requestBwLock s).1) as (V1 & V2 & V3), (request_vlt None 1 (requestBwLock (set_logout true s)).1) as (V1' & V2' & V3').
    rewrite V2, V2', V3, V3', Q1, Q1', Q3, Q3'. f_equal. f_equal. apply request_clr; [by rewrite Q2, Q2'|]. by rewrite !lock_request_vlt. }
  pose proof (close_inv r0 told s H) as Hc. pose proof (close_vlt s) as Hv. apply status_down_inv.
  - apply (ring_same _ r0 told (set_logout true (close_vault s).1)); [done|]. clear E.
    assert (storeEpoch (sto (close_vault s).1) = None) as He by (unfold close_vault; by rewrite !fst_seq).
    destruct Hc as [H1 H2 H3 H4 H5 H6 H7 H8 H9 H10 H11 H12]. split; cbn; auto; [|congruence].
    intros x Hx Hs. destruct (H1 x Hx Hs) as [|[(Ha & _)|[|[|]]]]; auto. rewrite Hv in Ha. done.
  - left. rewrite close_vlt. done.
Qed.

Lemma logout_done_inv r0 told slot enters s : ring_inv r0 told s -> slot_ok slot -> logoutPending (vlt s) = true -> ring_inv r0 told (logout_done slot enters s).1.
Proof.
  intros H Hs Hl. unfold logout_done. rewrite !fst_seq. cbn [fst Actions.set].
  assert (ring_inv r0 told (set_slot slot (set_status false (set_logout false s)))) as Hi.
  { destruct H as [H1 H2 H3 H4 H5 H6 H7 H8 H9 H10 H11 H12]. split; cbn; auto.
    - intros x Hx Hst. destruct (H1 x Hx Hst) as [|[(_ & _ & Ha & _)|[|[|]]]]; auto. congruence.
    - intros E. destruct (H5 E). congruence. }
  unfold reading, when. destruct (_ && _); [apply request_inv; [done|lia]|done].
Qed.

Lemma switch_inv r0 told slot s : ring_inv r0 told s -> slot_ok slot -> ring_inv r0 told (switchAccount slot s).1.
Proof.
  intros H Hs.
  assert (ring_inv r0 told (set_slot slot (close_vault s).1)) as Hi.
  { apply slot_inv; [by apply close_inv|done| |left; by rewrite close_vlt]. unfold close_vault. by rewrite !fst_seq. }
  assert ((switchAccount slot s).1 = (((reading (fun s => when (negb (rememberSession (vlt s))) (requestSessionCredentialClear None 1))) ;; set (set_status false)) (set_slot slot (close_vault s).1)).1) as ->
    by (unfold switchAccount, close_vault; by rewrite !fst_seq).
  rewrite fst_seq. cbn [fst Actions.set]. unfold reading, when. assert (session (vlt (set_slot slot (close_vault s).1)) = false) as Hse by (cbn; by rewrite close_vlt).
  destruct (negb _); apply status_down_inv; auto; [apply request_inv; [done|lia]|]. left. destruct (request_vlt None 1 (set_slot slot (close_vault s).1)) as (-> & _). done.
Qed.

Lemma closed_inv r0 told present s : ring_inv r0 told s -> ring_inv r0 told (status_closed present s).1.
Proof.
  intros H. unfold status_closed, reading. rewrite fst_seq. cbn [fst Actions.set]. unfold when. destruct (session (vlt s)) eqn:Es; cbn [orb].
  - rewrite fst_seq. apply status_down_inv; [|left; by rewrite drop_vlt]. apply drop_inv; [apply request_inv; [done|lia]|].
    intros x (_ & _ & _ & Hx). destruct (request_vlt None 1 s) as (Ev & _). rewrite Ev in Hx. subst x. apply (request_owed None).
  - destruct (_ || present) eqn:Eu; [rewrite fst_seq|].
    + apply status_down_inv; [|left; by rewrite drop_vlt]. apply drop_inv; [done|]. intros x (Ha & _). cbn in Ha. congruence.
    + apply status_down_inv; [done|by left].
Qed.

Lemma lost_inv r0 told s : ring_inv r0 told s -> ring_inv r0 told (helper_lost s).1.
Proof.
  intros H. unfold helper_lost, reading. rewrite fst_seq. cbn [fst Actions.set]. set (s0 := set_held ∅ s).
  assert (ring_inv r0 told s0) as H0 by (revert H; by apply ring_same). unfold when. destruct (session (vlt s)) eqn:Es; [|done]. rewrite fst_seq. cbn [fst Actions.set].
  destruct (unlocked (vlt s)) eqn:Eu.
  - by apply lock_dropped_inv.
  - apply drop_inv; [|intros x (Ha & _); done]. destruct H0 as [H1 H2 H3 H4 H5 H6 H7 H8 H9 H10 H11 H12]. split; cbn; auto.
    intros x Hx Hst. destruct (H1 x Hx Hst) as [|[(_ & Ha & _)|[|[|]]]]; auto. cbn in Ha. congruence.
Qed.

Lemma store_ran_inv r0 told token s : ring_inv r0 told s -> ring_inv r0 told (store_ran token s).1.
Proof.
  intros H. unfold store_ran, reading. destruct (keyringStoreProc (sto s)) as [y|] eqn:Ey; [|done]. destruct H as [H1 H2 H3 H4 H5 H6 H7 H8 H9 H10 H11 H12].
  destruct (H3 y Ey) as [_ Hy]. split; cbn; auto. intros x Hx Hst. apply store_result in Hst as [Hst| ->]; [exact (H1 x Hx Hst)| |done|done].
  right. right. left. by left.
Qed.

Lemma stored_inv r0 told s : ring_inv r0 told s -> is_running (keyringStoreProc (sto s)) = true -> ring_inv r0 told (onSessionStored s).1.
Proof.
  intros H Hr. unfold onSessionStored. rewrite fst_seq. cbn [fst Actions.set]. set (s0 := set_store_proc None s).
  destruct (keyringStoreProc (sto s)) as [y|] eqn:Ey; [|done]. pose proof (ri_store _ _ _ _ H y Ey) as [Hslot Hy].
  pose proof (ri_run _ _ _ _ H) as Hrun.
  assert (ring_but (fun x => x = y) r0 told s0) as H0.
  { destruct H as [H1 H2 H3 H4 H5 H6 H7 H8 H9 H10 H11 H12]. split; cbn; auto; [|done].
    intros x Hx Hst. unfold owed in *. cbn. destruct (H1 x Hx Hst) as [|[|[[E|]|[|[]]]]]; auto 8. right. right. right. right. congruence. }
  unfold reading. destruct (epochOperationIsStale s0 || negb (unlocked (vlt s0)) || negb (session (vlt s0))) eqn:Est.
  - rewrite fst_seq. cbn [fst Actions.set]. apply (request_settles (fun x => x = y)); [| |lia].
    + destruct H0 as [H1 H2 H3 H4 H5 H6 H7 H8 H9 H10 H11 H12]. by split.
    + intros x ->. unfold target_of. cbn. rewrite Hslot. by rewrite Hy.
  - cbn [fst Actions.set]. apply pending_inv. apply orb_false_iff in Est as [Est Hse]. apply orb_false_iff in Est as [Est Hun].
    apply negb_false_iff, bool_decide_eq_true in Est. apply negb_false_iff in Hse, Hun. destruct H0 as [H1 H2 H3 H4 H5 H6 H7 H8 H9 H10 H11 H12].
    split; cbn; auto. destruct (H5 Est) as [Ha Hlo]. cbn in Ha. intros x Hx Hst. destruct (H1 x Hx Hst) as [|[|[|[| ->]]]]; auto 6.
    right. left. split_and!; try done. cbn. congruence.
Qed.

Lemma clear_ran_inv r0 told s : ring_inv r0 told s -> ring_inv r0 (missed_by ClearRan s ++ told) (clear_ran s).1.
Proof.
  intros H. unfold clear_ran, reading, missed_by. destruct (keyringClearProc (clr s)) as [[y st]|] eqn:Ey; [|done].
  destruct H as [H1 H2 H3 H4 H5 H6 H7 H8 H9 H10 H11 H12]. destruct (H6 y st Ey) as [Hy Ha].
  pose proof (fun x Hx => clear_result (keyring s) y x Hy Hx) as Hres.
  assert ((run_session_clear (keyring s) (JStr y)).2 = (secret_clear (keyring s) (session_entry (JStr y))).2) as Es by done.
  destruct (run_session_clear (keyring s) (JStr y)) as [c r] eqn:Er. cbn in Es. subst r. set (r := (secret_clear _ _).2) in *. match goal with |- context [?m ++ told] => set (missed := m) end.
  assert (c = 0 -> stored r y -> y ∈ missed) as Hmiss.
  { intros -> Hst. destruct (proj2 (Hres y Hy) eq_refl Hst) as [E1 E2]. unfold missed. cbn in E1, E2 |- *. fold r.
    destruct (search_reply r (session_entry (JStr y))) as [c n]. cbn in E1, E2. subst n. apply Z.eqb_neq in E1. rewrite E1. cbn. set_solver. }
  clearbody missed. rewrite fst_seq. cbn in Hres |- *. split; cbn; auto.
  - intros x Hx Hst. destruct (Hres x Hx) as [Hold _]. unfold owed in *. cbn. rewrite Ey in H1. cbn in H1. rewrite elem_of_app.
    destruct (decide (x = y /\ c = 0)) as [[-> ->]|Hn]; [auto 8|].
    destruct (H1 x Hx (Hold Hst)) as [|[|[[|[(st' & [= -> ->] & Hne)|]]|[|]]]]; auto 8.
    right. right. left. right. left. exists (Some c). split; [done|]. intros [= ->]. by apply Hn.
  - intros x st' [= <- <-]. auto.
Qed.

Lemma busy_inv r0 told s : ring_inv r0 told s -> ring_inv r0 told (pumpSessionKeyring s).1.
Proof.
  intros H. unfold pumpSessionKeyring, reading. destruct (_ || _) eqn:Eb; [done|]. destruct (sessionClearSlots (clr s)) as [|y ys] eqn:Es.
  { unfold when. destruct (sessionStorePending (sto s)); [by apply store_inv|done]. }
  rewrite fst_seq. cbn [fst Actions.set]. apply (request_settles (fun x => x = y)); [| |lia].
  - destruct H as [H1 H2 H3 H4 H5 H6 H7 H8 H9 H10 H11 H12]. split; cbn; auto.
    + intros x Hx Hst. unfold owed in *. cbn. rewrite Es in H1. destruct (H1 x Hx Hst) as [|[|[[|[|[Hin|]]]|[|[]]]]]; auto 8.
      apply elem_of_cons in Hin as [->|Hin]; auto 8.
    + intros x Hx. apply H7. rewrite Es. by right.
  - intros x ->. unfold target_of. assert (slot_ok y) as -> by (apply (ri_slots _ _ _ _ H); rewrite Es; by left). done.
Qed.

Lemma retry_inv r0 told s : ring_inv r0 told s -> ring_inv r0 told (dispatch RetryClear s).1.
Proof.
  intros H. cbn [dispatch]. unfold reading at 1. destruct (clearLater (clr s)) as [|[y a] later] eqn:El; [done|]. rewrite fst_seq. cbn [fst Actions.set].
  destruct (ri_later _ _ _ _ H y a) as [Hy ->]; [rewrite El; by left|].
  assert (later = []) as -> by (pose proof (ri_one _ _ _ _ H) as Ho; rewrite El in Ho; by destruct later; [|cbn in Ho; lia]).
  apply (request_settles (fun x => x = y)); [| |lia].
  - destruct H as [H1 H2 H3 H4 H5 H6 H7 H8 H9 H10 H11 H12]. split; cbn; auto; try done.
    + intros x Hx Hst. unfold owed in *. cbn. rewrite El in H1. destruct (H1 x Hx Hst) as [|[|[[|[|[|Hin]]]|[|[]]]]]; auto 8.
      cbn in Hin. apply list_elem_of_singleton in Hin as ->. auto 8.
    + intros x a Hin. set_solver.
    + intros Hn. by destruct (Hn y).
  - intros x ->. unfold target_of. by rewrite Hy.
Qed.

Lemma ack_told s : told_by (maybeAckSleep s).2 = [].
Proof. unfold maybeAckSleep, reading. destruct (negb _); [done|]. destruct (_ || _); [done|]. by destruct (_ || _). Qed.

Lemma told_app a b : told_by (a ++ b) = told_by a ++ told_by b.
Proof. apply omap_app. Qed.

Lemma clear_exited_inv r0 told code s : ring_inv r0 told s -> possible s (ClearExited code) ->
  ring_inv r0 (told_by (onSessionClearExited code s).2 ++ told) (onSessionClearExited code s).1.
Proof.
  intros H (Hl & y & st & Ep & Hcode). pose proof H as [H1 H2 H3 H4 H5 H6 H7 H8 H9 H10 H11 H12]. destruct (H6 y st Ep) as [Hy [a Er]]. pose proof (H12 y a Er) as Ha.
  unfold onSessionClearExited. rewrite fst_seq, snd_seq. cbn [fst snd Actions.set app]. set (s0 := set_clear _ _ None _ s). unfold reading.
  replace (sessionClearRun (clr s0)) with (Some (y, a)) by done. destruct (negb (code =? 0) && (a <? 2)) eqn:Eretry.
  - apply andb_true_iff in Eretry as [_ Elt]. apply Z.ltb_lt in Elt. assert (a = 1) as -> by lia. cbn. rewrite Hl. cbn.
    split; cbn; auto; try done.
    + intros x Hx Hst. unfold owed in *. cbn. rewrite Ep, Hl in H1. cbn in H1. destruct (H1 x Hx Hst) as [|[|[[|[(st' & [= -> ->] & _)|[|Hin]]]|[|]]]]; auto 8; [|set_solver].
      right. right. left. right. right. right. by left.
    + intros x b Hin. apply list_elem_of_singleton in Hin as [= -> ->]. done.
    + by intros x b [= <- <-].
  - rewrite !fst_seq, !snd_seq. cbn [fst snd Actions.set app]. set (s1 := set_clear _ None None _ s0).
    assert (forall told', (negb (code =? 0) = true -> y ∈ told') -> (forall x, x ∈ told -> x ∈ told') -> ring_inv r0 told' s1) as Hinv.
    { intros told' Ht Hm. split; cbn; auto; try done; try (intros; by rewrite Hl in *); try (by rewrite Hl).
      intros x Hx Hst. unfold owed in *. cbn. rewrite Ep, Hl in H1. cbn in H1. destruct (H1 x Hx Hst) as [|[|[[|[(st' & [= -> ->] & Hne)|[|Hin]]]|[|]]]]; auto 8; [|set_solver].
        right. right. right. left. apply Ht. apply negb_true_iff, Z.eqb_neq. intros ->. by rewrite Hcode in Hne. }
    apply (ring_same _ _ _ s1); [by rewrite ack_only; unfold when; destruct (negb (code =? 0))|].
    rewrite told_app, ack_told, app_nil_r. unfold when. destruct (negb (code =? 0)); apply Hinv; cbn; try done; set_solver.
Qed.

(** ** Every event keeps the session's entry accounted for *)

Lemma ring_event r0 told ev s : ring_inv r0 told s -> possible s ev -> room s ->
  ring_inv r0 (told_by (dispatch ev s).2 ++ missed_by ev s ++ told) (dispatch ev s).1.
Proof.
  intros H Hp [[Hr0 Hr] _]. assert (int_succ (vaultEpoch (vlt s)) = vaultEpoch (vlt s) + 1) as He by (apply int_succ_room; lia).
  destruct ev; lazymatch goal with |- context [dispatch (ClearExited _)] => idtac | |- context [dispatch ClearRan] => apply told_more | _ => apply told_more end;
    cbn [dispatch possible] in *.
  - unfold unlock. rewrite fst_seq. apply store_inv, open_inv; [done|done|cbn; lia].
  - unfold handoff. rewrite !fst_seq. apply status_up_inv, store_inv, open_inv; [done|done|lia].
  - apply open_inv; [done|done|lia].
  - unfold verified. rewrite fst_seq. apply store_inv, open_inv; [done|done|lia].
  - by apply status_up_inv.
  - by apply closed_inv.
  - apply status_down_inv; [done|by right].
  - by apply lock_inv.
  - apply switch_inv; [done|apply Hp].
  - by apply lost_inv.
  - unfold remember_changed. rewrite fst_seq. cbn [fst Actions.set].
    assert (ring_inv r0 told (set_remember b s)) as Hi by (destruct H as [H1 H2 H3 H4 H5 H6 H7 H8 H9 H10 H11 H12]; by split).
    unfold when. destruct (_ && _); [|done]. rewrite fst_seq. apply request_inv; [by apply pending_inv|lia].
  - apply request_inv; [done|lia].
  - by apply logout_inv.
  - apply logout_done_inv; [done|apply Hp..].
  - unfold sleep, reading. destruct (_ || _); [done|]. rewrite !fst_seq. apply locks_only_inv; [apply ack_only|]. apply lock_inv. revert H. by apply ring_same.
  - revert H. by apply ring_same.
  - by apply store_ran_inv.
  - by apply stored_inv.
  - by apply clear_ran_inv.
  - by apply clear_exited_inv.
  - apply locks_only_inv; [|done]. clear -Hsvc. intros s. unfold onBwLockExited. rewrite fst_seq. cbn [fst Actions.set]. unfold reading at 1. destruct (lockRun _) as [l|]; [|done].
    destruct (checking l); [rewrite fst_seq, finish_lock_only; unfold when; by destruct (_ && _)|]. destruct (_ =? 0); [by rewrite finish_lock_only|done].
  - by apply busy_inv.
  - by apply retry_inv.
  - rewrite fst_seq. apply locks_only_inv; [apply pump_lock_only|]. revert H. by apply ring_same.
  - rewrite fst_seq. apply locks_only_inv; [apply step_lock_only|]. revert H. by apply ring_same.
Qed.
End correct.
