(* ===== verification/LockSettles.v ===== *)
(** * A lock settles, and a suspend waits for it

    On top of [LockDownCorrect]: the queued locks and the copies of their keys
    ([locks_inv]), a waiting suspend ([suspend_inv]), and a measure of the work left
    ([work]) that every event which finishes something lowers. *)

From stdpp Require Import gmap.
From S2P Require Import Prelude.
From S2P Require Import JsNum.
From S2P Require Import JsString.
From S2P Require Import JsValue.
From S2P Require Import JsInt.
From S2P Require Import Accounts.
From S2P Require Import KeyringRun.
From S2P Require Import KeyringRunCorrect.
From S2P Require Import Actions.
From S2P Require Import LockDown.
From S2P Require Import LockDownCorrect.
Local Open Scope act_scope.

(** ** The queued locks *)

Definition outstanding (k : locking) : list bw_lock := lockQueue k ++ match lockRun k with Some l => [l] | None => [] end.

(** [b]: whether a lock that waits is sure to be taken up. *)
Record locks_but (b lost : bool) (k : locking) (held : gmap Z Z) : Prop := {
  li_nodup : NoDup (map lockKey (outstanding k));
  li_range : forall l, l ∈ outstanding k -> 0 < lockKey l <= lockSeq k;
  li_held : forall n e, held !! n = Some e -> exists l, l ∈ outstanding k /\ lockKey l = n /\ lockEpoch l = e;
  li_kept : lost = false -> forall l, l ∈ outstanding k -> held !! lockKey l = Some (lockEpoch l);
  li_queue : forall l, l ∈ lockQueue k -> attempts l = 0 /\ checking l = false;
  li_run : forall l, lockRun k = Some l ->
    (lockProc k = true /\ stepLater k = false /\ 1 <= attempts l <= 2 /\ (checking l = true -> attempts l = 2))
    \/ (lockProc k = false /\ stepLater k = true /\ attempts l = (if checking l then 2 else 1));
  li_idle : lockRun k = None -> lockProc k = false /\ stepLater k = false /\ (b = true -> lockQueue k <> [] -> pumpLater k = true);
  li_seq : 0 <= lockSeq k
}.

Definition locks_inv : bool -> locking -> gmap Z Z -> Prop := locks_but true.

(** The same locks with the same keys. *)
Lemma locks_swap b lost k k' held : map lockKey (outstanding k') ≡ₚ map lockKey (outstanding k) ->
  (forall l', l' ∈ outstanding k' -> exists l, l ∈ outstanding k /\ lockKey l = lockKey l' /\ lockEpoch l = lockEpoch l') ->
  (forall l, l ∈ outstanding k -> exists l', l' ∈ outstanding k' /\ lockKey l' = lockKey l /\ lockEpoch l' = lockEpoch l) ->
  lockSeq k' = lockSeq k -> locks_but b lost k held ->
  NoDup (map lockKey (outstanding k')) /\ (forall l, l ∈ outstanding k' -> 0 < lockKey l <= lockSeq k')
  /\ (forall n e, held !! n = Some e -> exists l, l ∈ outstanding k' /\ lockKey l = n /\ lockEpoch l = e)
  /\ (lost = false -> forall l, l ∈ outstanding k' -> held !! lockKey l = Some (lockEpoch l)).
Proof.
  intros Hp H1 H2 Es [L1 L2 L3 L4 _ _ _ _]. split_and!.
  - by rewrite Hp.
  - intros l' Hl'. destruct (H1 l' Hl') as (l & Hl & <- & _). rewrite Es. auto.
  - intros n e Hn. destruct (L3 n e Hn) as (l & Hl & <- & <-). by apply H2.
  - intros Hlost l' Hl'. destruct (H1 l' Hl') as (l & Hl & <- & <-). auto.
Qed.

Definition retried (l : bw_lock) (n : Z) (c : bool) : bw_lock := BwLock (lockSlot l) (lockEpoch l) (lockKey l) n c.

(** Taking the next step of the lock that runs. *)
Lemma outstanding_run k l l' q pr pu st : lockRun k = Some l -> lockKey l' = lockKey l -> lockEpoch l' = lockEpoch l -> q = lockQueue k ->
  let k' := Locking (Some l') q (lockSeq k) pr pu st in
  map lockKey (outstanding k') = map lockKey (outstanding k)
  /\ (forall x, x ∈ outstanding k' -> exists y, y ∈ outstanding k /\ lockKey y = lockKey x /\ lockEpoch y = lockEpoch x)
  /\ (forall x, x ∈ outstanding k -> exists y, y ∈ outstanding k' /\ lockKey y = lockKey x /\ lockEpoch y = lockEpoch x).
Proof.
  intros Hr Ek Ee -> k'. unfold outstanding, k'. rewrite Hr. cbn. rewrite !map_app. cbn. rewrite Ek. split_and!; [done|..].
  - intros x [Hx|Hx]%elem_of_app; [exists x; set_solver|]. apply list_elem_of_singleton in Hx as ->. exists l. set_solver.
  - intros x [Hx|Hx]%elem_of_app; [exists x; set_solver|]. apply list_elem_of_singleton in Hx as ->. exists l'. set_solver.
Qed.

Lemma step_locks lost s : locks_inv lost (lok s) (heldKeys s) -> lockProc (lok s) = false -> stepLater (lok s) = true ->
  locks_inv lost (lok (runBwLockStep (set_lock_later (pumpLater (lok s)) false s)).1) (heldKeys (runBwLockStep (set_lock_later (pumpLater (lok s)) false s)).1).
Proof.
  intros H Hp Hs. unfold runBwLockStep, reading. cbn. destruct (lockRun (lok s)) as [l|] eqn:Er.
  2: { destruct (li_idle _ _ _ _ H Er) as (_ & ? & _). congruence. }
  rewrite Hp. cbn. set (l' := BwLock _ _ _ _ _).
  destruct (outstanding_run (lok s) l l' (lockQueue (lok s)) true (pumpLater (lok s)) false Er eq_refl eq_refl eq_refl) as (O1 & O2 & O3).
  destruct (locks_swap _ lost (lok s) _ (heldKeys s) (reflexive_eq _ _ O1) O2 O3 eq_refl H) as (N1 & N2 & N3 & N4).
  split; try done; cbn.
  - apply (li_queue _ _ _ _ H).
  - intros x [= <-]. left. destruct (li_run _ _ _ _ H l Er) as [(? & _)|(_ & _ & Ha)]; [congruence|]. unfold l'. cbn. destruct (checking l); rewrite Ha; split_and!; try done; lia.
  - apply (li_seq _ _ _ _ H).
Qed.

(** The first lock of the queue is taken up. *)
Lemma outstanding_pop k l q l' pr pu st : lockRun k = None -> lockQueue k = l :: q -> lockKey l' = lockKey l -> lockEpoch l' = lockEpoch l ->
  let k' := Locking (Some l') q (lockSeq k) pr pu st in
  map lockKey (outstanding k') ≡ₚ map lockKey (outstanding k)
  /\ (forall x, x ∈ outstanding k' -> exists y, y ∈ outstanding k /\ lockKey y = lockKey x /\ lockEpoch y = lockEpoch x)
  /\ (forall x, x ∈ outstanding k -> exists y, y ∈ outstanding k' /\ lockKey y = lockKey x /\ lockEpoch y = lockEpoch x).
Proof.
  intros Hr Hq Ek Ee k'. unfold outstanding, k'. rewrite Hr, Hq. cbn. rewrite app_nil_r, map_app. cbn. rewrite Ek. split_and!.
  - by rewrite Permutation_app_comm.
  - intros x [Hx|Hx]%elem_of_app; [exists x; set_solver|]. apply list_elem_of_singleton in Hx as ->. exists l. set_solver.
  - intros x [->|Hx]%elem_of_cons; [exists l'; set_solver|exists x; set_solver].
Qed.

Lemma pump_locks b lost s : locks_but b lost (lok s) (heldKeys s) -> locks_inv lost (lok (pumpBwLock s).1) (heldKeys (pumpBwLock s).1).
Proof.
  intros H. unfold pumpBwLock, reading. destruct (lockRun (lok s)) as [l|] eqn:Er; cbn [is_running orb].
  { destruct H as [L1 L2 L3 L4 L5 L6 L7 L8]. split; try done. cbn. intros E. cbn in E. congruence. }
  destruct (li_idle _ _ _ _ H Er) as (Hp & Hs & _). rewrite Hp. destruct (lockQueue (lok s)) as [|l q] eqn:Eq.
  { destruct H as [L1 L2 L3 L4 L5 L6 L7 L8]. by split. }
  rewrite fst_seq. cbn [fst Actions.set]. unfold runBwLockStep, reading. cbn. rewrite Hp. cbn. set (l' := BwLock _ _ _ _ _).
  destruct (outstanding_pop (lok s) l q l' true (pumpLater (lok s)) (stepLater (lok s)) Er Eq eq_refl eq_refl) as (O1 & O2 & O3).
  destruct (locks_swap _ lost (lok s) _ (heldKeys s) O1 O2 O3 eq_refl H) as (N1 & N2 & N3 & N4).
  destruct (li_queue _ _ _ _ H l) as [Ha Hc]; [rewrite Eq; by left|].
  split; try done; cbn.
  - intros x Hx. apply (li_queue _ _ _ _ H). rewrite Eq. by right.
  - intros x [= <-]. left. unfold l'. cbn. rewrite Hc, Ha. split_and!; try done; lia.
  - apply (li_seq _ _ _ _ H).
Qed.

Definition locks (lost : bool) (s : service) : Prop := locks_inv lost (lok s) (heldKeys s).

Lemma request_locks lost s : locks lost s -> room s -> locks lost (requestBwLock s).1.
Proof.
  intros H [_ Hr]. unfold requestBwLock, reading. destruct (negb _); [done|]. rewrite !fst_seq. cbn [fst Actions.set]. rewrite int_succ_room by lia.
  apply (pump_locks false). cbn. set (n := lockSeq (lok s) + 1). set (l := BwLock _ _ n 0 false). unfold locks in H.
  assert (Hout : forall x, x ∈ outstanding (Locking (lockRun (lok s)) (lockQueue (lok s) ++ [l]) n (lockProc (lok s)) (pumpLater (lok s)) (stepLater (lok s)))
    <-> x ∈ outstanding (lok s) \/ x = l) by (intros x; unfold outstanding; cbn; set_solver).
  assert (Hfresh : forall x, x ∈ outstanding (lok s) -> lockKey x <> n) by (intros x Hx E; pose proof (li_range _ _ _ _ H x Hx); lia).
  split; cbn.
  - unfold outstanding. cbn. rewrite <- app_assoc, (Permutation_app_comm [l]), app_assoc, map_app. apply NoDup_app. split_and!.
    + apply (li_nodup _ _ _ _ H).
    + intros k Hk [->|?]%elem_of_cons; [|set_solver]. apply list_elem_of_fmap in Hk as (x & E & Hx). by apply (Hfresh x Hx).
    + apply NoDup_singleton.
  - intros x [Hx| ->]%Hout; [pose proof (li_range _ _ _ _ H x Hx); lia|]. pose proof (li_seq _ _ _ _ H). cbn. lia.
  - intros m e [[<- <-]|[Hne Hm]]%lookup_insert_Some; [exists l; rewrite Hout; auto|]. destruct (li_held _ _ _ _ H m e Hm) as (x & Hx & ? & ?). exists x. rewrite Hout. auto.
  - intros Hl x [Hx| ->]%Hout; [|by rewrite lookup_insert_eq]. rewrite lookup_insert_ne; [by apply (li_kept _ _ _ _ H)|]. intros E. by apply (Hfresh x Hx).
  - intros x [Hx|Hx]%elem_of_app; [by apply (li_queue _ _ _ _ H)|]. by apply list_elem_of_singleton in Hx as ->.
  - apply (li_run _ _ _ _ H).
  - intros E. destruct (li_idle _ _ _ _ H E) as (? & ? & _). done.
  - pose proof (li_seq _ _ _ _ H). lia.
Qed.

Lemma names_outstanding s : lockSecretNames s = map lockKey (outstanding (lok s)).
Proof. unfold lockSecretNames, outstanding. rewrite map_app. by destruct (lockRun (lok s)). Qed.

(** A lock keeps the copies of the queued locks, which are all there are. *)
Lemma forget_locks lost s : locks lost s -> heldKeys (forgetVault s).1 = heldKeys s /\ lok (forgetVault s).1 = lok s.
Proof.
  intros H. cbn. split; [|done]. apply map_filter_id. intros n e Hn. cbn. rewrite names_outstanding. destruct (li_held _ _ _ _ H n e Hn) as (l & Hl & <- & _).
  by apply list_elem_of_fmap_2.
Qed.

(** Actions that leave the locks alone. *)
Definition spares_rel (s : service) (_ : list lock_effect) (s' : service) : Prop := lok s' = lok s /\ heldKeys s' = heldKeys s.
Notation spares := (along spares_rel).
#[export] Instance spares_composes : Composes spares_rel.
Proof. split; [done|done|]. intros s1 s2 s3 e1 e2 [H1 H2] [H3 H4]. split; congruence. Qed.
Lemma spares_locks lost a s : spares a -> locks lost s -> locks lost (a s).1.
Proof. intros Ha. unfold locks. by destruct (Ha s) as [-> ->]. Qed.

#[export] Hint Extern 1 (along _ (when _ _)) => unfold when : along.

Lemma ack_spares : spares maybeAckSleep.
Proof. unfold maybeAckSleep, ackSleep. auto 10 with along. Qed.
Lemma clear_spares slot a : spares (requestSessionCredentialClear slot a).
Proof. unfold requestSessionCredentialClear. auto 10 with along. Qed.
Lemma store_spares : spares storeCurrentSession.
Proof. unfold storeCurrentSession. auto 12 with along. Qed.
#[export] Hint Resolve ack_spares clear_spares store_spares : along.
Lemma stored_spares : spares onSessionStored.
Proof. unfold onSessionStored. auto 12 with along. Qed.
Lemma busy_spares : spares pumpSessionKeyring.
Proof. unfold pumpSessionKeyring. auto 12 with along. Qed.
Lemma cleared_spares code : spares (onSessionClearExited code).
Proof.
  unfold onSessionClearExited. apply along_seq; [apply _|auto with along|]. apply along_reading. intros s. destruct (sessionClearRun (clr s)) as [[y a]|]; auto 12 with along.
Qed.
#[export] Hint Resolve stored_spares busy_spares cleared_spares : along.

Lemma drop_locks lost s : locks lost s -> locks lost (dropVaultState s).1.
Proof.
  intros H. unfold dropVaultState. rewrite !fst_seq. apply (spares_locks lost (set _)); [auto with along|]. apply (spares_locks lost (set _)); [auto with along|].
  assert (locks lost (set_open false (unlocked (vlt s)) (vaultEpoch (vlt s)) s)) as H' by done.
  destruct (forget_locks lost _ H') as [E1 E2]. unfold locks. cbn [fst Actions.set]. by rewrite E1, E2.
Qed.

Lemma close_locks lost s : locks lost s -> room s -> locks lost (close_vault s).1.
Proof. intros H Hr. unfold close_vault. rewrite !fst_seq. apply drop_locks. apply spares_locks; [auto with along|]. by apply request_locks. Qed.

Lemma lock_locks lost s : locks lost s -> room s -> locks lost (lockVault s).1.
Proof. intros H Hr. rewrite lock_close. by apply (spares_locks lost (set (set_status false))); [auto with along|apply close_locks]. Qed.

Lemma finish_locks lost s l : locks lost s -> lockRun (lok s) = Some l -> stepLater (lok s) = false -> locks lost (finishBwLock (set_lock_proc false s)).1.
Proof.
  intros H Er Hs. unfold finishBwLock. rewrite !fst_seq. apply spares_locks; [auto with along|]. cbn [fst Actions.set]. unfold reading. cbn. rewrite Er. cbn. unfold locks in *. cbn.
  assert (outstanding (lok s) = lockQueue (lok s) ++ [l]) as Eo by (unfold outstanding; by rewrite Er).
  pose proof (li_nodup _ _ _ _ H) as Hnd. rewrite Eo, map_app in Hnd. apply NoDup_app in Hnd as (Hn1 & Hn2 & _).
  assert (Hne : forall x, x ∈ lockQueue (lok s) -> lockKey x <> lockKey l).
  { intros x Hx E. apply (Hn2 (lockKey x)); [by apply list_elem_of_fmap_2|]. rewrite E. by left. }
  split; unfold outstanding; cbn; rewrite ?app_nil_r; try done.
  - intros x Hx. apply (li_range _ _ _ _ H). rewrite Eo. set_solver.
  - intros n e [Hn Hl]%lookup_delete_Some. destruct (li_held _ _ _ _ H n e Hl) as (x & Hx & <- & <-). exists x. split; [|done]. rewrite Eo in Hx. set_solver.
  - intros Hl x Hx. rewrite lookup_delete_ne; [|by intros E; apply (Hne x Hx)]. apply (li_kept _ _ _ _ H); [done|]. rewrite Eo. set_solver.
  - apply (li_queue _ _ _ _ H).
  - apply (li_seq _ _ _ _ H).
Qed.

Lemma exited_locks lost code out s : locks lost s -> lockProc (lok s) = true -> locks lost (onBwLockExited code out s).1.
Proof.
  intros H Hp. unfold onBwLockExited. rewrite fst_seq. cbn [fst Actions.set]. unfold reading. cbn [lok set_lock_proc on_lok lockRun].
  destruct (lockRun (lok s)) as [l|] eqn:Er; [|by destruct (li_idle _ _ _ _ H Er); congruence].
  destruct (li_run _ _ _ _ H l Er) as [(_ & Hs & Ha & Hc)|(? & _)]; [|congruence]. destruct (checking l) eqn:Ec.
  { rewrite fst_seq. unfold when. destruct (_ && _); by apply (finish_locks lost s l). }
  destruct (code =? 0); [by apply (finish_locks lost s l)|]. rewrite fst_seq. cbn. unfold locks in *. cbn. set (l' := BwLock _ _ _ _ _).
  destruct (outstanding_run (lok s) l l' (lockQueue (lok s)) false (pumpLater (lok s)) true Er eq_refl eq_refl eq_refl) as (O1 & O2 & O3).
  destruct (locks_swap _ lost (lok s) _ (heldKeys s) (reflexive_eq _ _ O1) O2 O3 eq_refl H) as (N1 & N2 & N3 & N4). split; try done; cbn.
  - apply (li_queue _ _ _ _ H).
  - intros x [= <-]. right. unfold l'. cbn. split_and!; try done. destruct (2 <=? attempts l) eqn:E2; boolZ; lia.
  - apply (li_seq _ _ _ _ H).
Qed.

(** Leaving an account is a lock for another status. *)
Lemma lost_locks lost s : locks lost s -> room s -> locks true (helper_lost s).1.
Proof.
  intros H Hr. unfold helper_lost, reading. rewrite fst_seq. cbn [fst Actions.set].
  assert (locks true (set_held ∅ s)) as H0 by (destruct H as [L1 L2 L3 L4 L5 L6 L7 L8]; by split).
  unfold when. destruct (session (vlt s)); [|done]. rewrite fst_seq. cbn [fst Actions.set]. destruct (unlocked (vlt s)); [by apply lock_locks|by apply drop_locks].
Qed.

Lemma closed_locks lost present s : locks lost s -> locks lost (status_closed present s).1.
Proof.
  intros H. unfold status_closed, reading. rewrite fst_seq. apply (spares_locks lost (set _)); [auto with along|]. unfold when.
  destruct (_ || present); [|done]. rewrite fst_seq. apply drop_locks. destruct (session (vlt s)); [|done]. by apply spares_locks; [auto with along|].
Qed.

Section events.
  Context `{Hsvc : !SecretService}.

Lemma ran_spares token : spares (store_ran token) /\ spares clear_ran.
Proof.
  split; intros s; unfold store_ran, clear_ran, reading; [by destruct (keyringStoreProc (sto s))|].
  destruct (keyringClearProc (clr s)) as [[y st]|]; [|done]. by destruct (run_session_clear (keyring s) (JStr y)).
Qed.

Lemma locks_event lost ev s : locks lost s -> possible s ev -> room s ->
  locks (lost || match ev with HelperLost => true | _ => false end) (dispatch ev s).1.
Proof.
  intros H Hp Hr. destruct ev; rewrite ?orb_false_r, ?orb_true_r; cbn [dispatch possible] in *.
  - apply spares_locks; [unfold unlock; auto with along|done].
  - apply spares_locks; [unfold handoff; auto with along|done].
  - done.
  - apply spares_locks; [unfold verified; auto with along|done].
  - done.
  - by apply closed_locks.
  - done.
  - by apply lock_locks.
  - unfold switchAccount. rewrite !fst_seq. apply (spares_locks _ (set _)); [auto with along|]. apply spares_locks; [auto 10 with along|].
    apply (spares_locks _ (set _)); [auto with along|]. pose proof (close_locks lost s H Hr) as Hc. unfold close_vault in Hc. by rewrite !fst_seq in Hc.
  - by apply (lost_locks lost).
  - apply spares_locks; [unfold remember_changed; auto 10 with along|done].
  - apply spares_locks; [auto with along|done].
  - unfold logout, reading. destruct (logoutPending (vlt s)); [done|]. rewrite fst_seq. by apply lock_locks.
  - apply spares_locks; [unfold logout_done; auto 12 with along|done].
  - unfold sleep, reading. destruct (_ || _); [done|]. rewrite !fst_seq. apply spares_locks; [auto with along|]. by apply lock_locks.
  - done.
  - apply spares_locks; [apply ran_spares|done].
  - apply spares_locks; [auto with along|done].
  - apply spares_locks; [apply (ran_spares [])|done].
  - apply spares_locks; [auto with along|done].
  - by apply exited_locks.
  - apply spares_locks; [auto with along|done].
  - apply spares_locks; [|done]. apply along_reading. intros s'. destruct (clearLater (clr s')) as [|[y a] later]; auto with along.
  - rewrite fst_seq. apply (pump_locks false). destruct H as [L1 L2 L3 L4 L5 L6 L7 L8]. split; try done. cbn. intros E. destruct (L7 E) as (? & ? & _). done.
  - rewrite fst_seq. cbn [fst Actions.set]. destruct (lockRun (lok s)) as [l|] eqn:Er; [|by destruct (li_idle _ _ _ _ H Er) as (_ & ? & _); congruence].
    apply step_locks; [done| |done]. destruct (li_run _ _ _ _ H l Er) as [(_ & ? & _)|(? & _)]; congruence.
Qed.
End events.

(** ** A waiting suspend *)

Definition busy (s : service) : bool :=
  is_running (lockRun (lok s)) || nonempty (lockQueue (lok s)) || is_running (sessionClearRun (clr s)) || nonempty (sessionClearSlots (clr s)).

Definition suspend_inv (s : service) : Prop := suspendLockPending s = true -> busy s = true.

(** Actions that finish nothing. *)
Definition stays_rel (s : service) (_ : list lock_effect) (s' : service) : Prop :=
  suspendLockPending s' = suspendLockPending s /\ (busy s = true -> busy s' = true).
Notation stays := (along stays_rel).
#[export] Instance stays_composes : Composes stays_rel.
Proof. split; [done|done|]. intros s1 s2 s3 e1 e2 [H1 H2] [H3 H4]. split; [congruence|auto]. Qed.
Lemma stays_suspend a s : stays a -> suspend_inv s -> suspend_inv (a s).1.
Proof. intros Ha H. destruct (Ha s) as [E Hb]. unfold suspend_inv. rewrite E. auto. Qed.

Lemma busy_or a b c d : a || b || c || d = true <-> a = true \/ b = true \/ c = true \/ d = true.
Proof. rewrite !orb_true_iff. tauto. Qed.

Lemma clear_stays slot a : stays (requestSessionCredentialClear slot a).
Proof.
  intros s. unfold requestSessionCredentialClear, reading, when. destruct (is_running _); [destruct (negb _)|]; try done; (split; [done|]); cbn; unfold busy; cbn; rewrite !busy_or.
  - intros [|[|[|H]]]; auto 6. right. right. right. by destruct (sessionClearSlots (clr s)).
  - tauto.
Qed.
Lemma clear_busy slot a s : keyringClearProc (clr s) = None -> busy (requestSessionCredentialClear slot a s).1 = true.
Proof. intros E. unfold requestSessionCredentialClear, reading. rewrite E. cbn. unfold busy. cbn. rewrite !busy_or. auto. Qed.
Lemma store_stays : stays storeCurrentSession.
Proof. unfold storeCurrentSession. auto 12 with along. Qed.
Lemma step_stays : stays runBwLockStep.
Proof.
  intros s. unfold runBwLockStep, reading. destruct (lockRun (lok s)) as [l|] eqn:E; [|done]. destruct (lockProc (lok s)); (split; [done|]); cbn; unfold busy; cbn; by rewrite ?E.
Qed.
Lemma pump_stays : stays pumpBwLock.
Proof.
  intros s. unfold pumpBwLock, reading. destruct (_ || _) eqn:Eb; [done|]. destruct (lockQueue (lok s)) as [|l q] eqn:Eq; [done|]. rewrite fst_seq.
  destruct (step_stays (set_run (Some l) q s)) as [E1 E2]. split; [exact E1|]. intros _. by apply E2.
Qed.
#[export] Hint Resolve clear_stays store_stays step_stays pump_stays : along.
Lemma request_stays : stays requestBwLock.
Proof.
  unfold requestBwLock. apply along_reading. intros s. destruct (negb _); [auto with along|]. apply along_seq; [apply _|auto with along|]. apply along_seq; [apply _| |auto with along].
  intros s'. split; [done|]. cbn. unfold busy. cbn. rewrite !busy_or. intros [|[H|[|]]]; auto. right. left. by destruct (lockQueue (lok s')).
Qed.
Lemma drop_stays : stays dropVaultState.
Proof. unfold dropVaultState, forgetVault. auto 12 with along. Qed.
#[export] Hint Resolve request_stays drop_stays : along.
Lemma lock_stays : stays lockVault.
Proof. unfold lockVault. auto 12 with along. Qed.
#[export] Hint Resolve lock_stays : along.
Lemma stored_stays : stays onSessionStored.
Proof. unfold onSessionStored. auto 12 with along. Qed.
#[export] Hint Resolve stored_stays : along.

Lemma ack_suspend s : suspend_inv (maybeAckSleep s).1.
Proof.
  unfold maybeAckSleep, reading. destruct (suspendLockPending s) eqn:Es; cbn [negb]; [|intros E; cbn in E; congruence].
  destruct (is_running (lockRun (lok s)) || nonempty (lockQueue (lok s))) eqn:E1; [intros _; unfold busy; cbn; by rewrite E1|].
  destruct (is_running (sessionClearRun (clr s)) || nonempty (sessionClearSlots (clr s))) eqn:E2; [|done].
  intros _. unfold busy. cbn. rewrite E1. exact E2.
Qed.

Section more_events.
  Context `{Hsvc : !SecretService}.

Lemma suspend_event lost ev s : suspend_inv s -> locks lost s -> possible s ev -> suspend_inv (dispatch ev s).1.
Proof.
  intros H Hl Hp. destruct ev; cbn [dispatch possible] in *.
  - apply stays_suspend; [unfold unlock; auto with along|done].
  - apply stays_suspend; [unfold handoff; auto with along|done].
  - done.
  - apply stays_suspend; [unfold verified; auto with along|done].
  - done.
  - apply stays_suspend; [unfold status_closed; auto 12 with along|done].
  - done.
  - apply stays_suspend; [auto with along|done].
  - apply stays_suspend; [unfold switchAccount; auto 14 with along|done].
  - apply stays_suspend; [unfold helper_lost; auto 14 with along|done].
  - apply stays_suspend; [unfold remember_changed; auto 14 with along|done].
  - apply stays_suspend; [auto with along|done].
  - apply stays_suspend; [unfold logout; auto 14 with along|done].
  - apply stays_suspend; [unfold logout_done; auto 14 with along|done].
  - unfold sleep, reading. destruct (_ || _); [done|]. rewrite !fst_seq. apply ack_suspend.
  - done.
  - unfold store_ran, reading. by destruct (keyringStoreProc (sto s)).
  - apply stays_suspend; [auto with along|done].
  - unfold clear_ran, reading. destruct (keyringClearProc (clr s)) as [[y st]|]; [|done]. by destruct (run_session_clear (keyring s) (JStr y)).
  - unfold onSessionClearExited. rewrite fst_seq. cbn [fst Actions.set]. unfold reading at 1. cbn.
    destruct (sessionClearRun (clr s)) as [[y a]|] eqn:Er; [|apply ack_suspend]. destruct (_ && _).
    + intros _. unfold busy. cbn. rewrite !busy_or. auto.
    + rewrite !fst_seq. apply ack_suspend.
  - unfold onBwLockExited. rewrite fst_seq. cbn [fst Actions.set]. unfold reading at 1. cbn. destruct (lockRun (lok s)) as [l|] eqn:Er.
    2: { by destruct (li_idle _ _ _ _ Hl Er); congruence. }
    destruct (checking l); [rewrite fst_seq; unfold finishBwLock; rewrite !fst_seq; apply ack_suspend|].
    destruct (_ =? 0); [unfold finishBwLock; rewrite !fst_seq; apply ack_suspend|done].
  - unfold pumpSessionKeyring, reading at 1. destruct (_ || _) eqn:Eb; [done|]. apply orb_false_iff in Eb as [Eb _]. destruct (sessionClearSlots (clr s)) as [|y ys].
    + apply stays_suspend; [auto with along|done].
    + rewrite fst_seq. intros _. apply clear_busy. cbn. by destruct (keyringClearProc (clr s)).
  - unfold reading. destruct (clearLater (clr s)) as [|[y a] later]; [done|]. rewrite fst_seq. apply stays_suspend; [auto with along|done].
  - apply stays_suspend; [auto with along|done].
  - apply stays_suspend; [auto with along|done].
Qed.
End more_events.

(** ** The work left

    What the processes, deferred calls and the retry timer still have to do when nothing
    new is asked for; the numbers bound the events each piece can lead to. *)

Definition store_fine (s : service) : bool := negb (epochOperationIsStale s) && unlocked (vlt s) && session (vlt s).
Definition stores_again (s : service) : bool := rememberSession (vlt s) && unlocked (vlt s) && session (vlt s).

Definition store_work (s : service) : Z :=
  (if is_running (keyringStoreProc (sto s)) then if store_fine s then 1 else 11 + (if stores_again s then 12 else 0) else 0)
  + (if sessionStorePending (sto s) then 12 else 0).

Definition clear_work (c : clearing) : Z :=
  match keyringClearProc c with
  | Some (_, st) => (if is_running st then 1 else 2) + match sessionClearRun c with Some (_, a) => if a <? 2 then 3 else 0 | None => 0 end
  | None => 0
  end
  + (if nonempty (clearLater c) then if is_running (keyringClearProc c) then 7 else 3 else 0)
  + 6 * Z.of_nat (length (sessionClearSlots c)).

Definition run_work (proc : bool) (l : bw_lock) : Z :=
  if checking l then (if proc then 2 else 3) else if attempts l =? 1 then (if proc then 6 else 5) else 4.
Definition lock_work (k : locking) : Z :=
  match lockRun k with Some l => run_work (lockProc k) l | None => 0 end + 7 * Z.of_nat (length (lockQueue k)) + (if pumpLater k then 1 else 0).

Definition work (s : service) : Z := store_work s + clear_work (clr s) + lock_work (lok s).

Lemma work_pos s : 0 <= store_work s /\ 0 <= clear_work (clr s) /\ 0 <= lock_work (lok s).
Proof.
  unfold store_work, clear_work, lock_work, run_work. split_and!.
  - destruct (is_running _), (store_fine s), (stores_again s), (sessionStorePending _); lia.
  - destruct (keyringClearProc (clr s)) as [[y st]|]; cbn; destruct (sessionClearRun (clr s)) as [[? a]|]; try destruct (a <? 2); try destruct (is_running st); destruct (nonempty _); lia.
  - destruct (lockRun _) as [l|]; [destruct (checking l), (attempts l =? 1), (lockProc (lok s))|]; destruct (pumpLater (lok s)); lia.
Qed.

Section settling.
  Context `{Hsvc : !SecretService}.

(** An event that finishes something; the retry timer when it has something to do. *)
Definition completion (s : service) (ev : lock_event) : Prop :=
  possible s ev /\
  match ev with
  | StoreExited | ClearRan | ClearExited _ | LockExited _ _ | RetryClear | PumpDeferred | StepDeferred => True
  | BusyTimer => keyringClearProc (clr s) = None /\ keyringStoreProc (sto s) = None /\ (sessionClearSlots (clr s) <> [] \/ sessionStorePending (sto s) = true)
  | _ => False
  end.

Lemma clears_work s s' : vlt s' = vlt s -> sto s' = sto s -> lok s' = lok s -> clear_work (clr s') < clear_work (clr s) -> work s' < work s.
Proof. intros E1 E2 E3 Hl. unfold work, store_work, store_fine, stores_again, epochOperationIsStale. rewrite E1, E2, E3. lia. Qed.

(** Asking for one more clear. *)
Lemma request_work slot s :
  clear_work (clr (requestSessionCredentialClear slot 1 s).1) <= clear_work (clr s) + 9.
Proof.
  unfold requestSessionCredentialClear, reading, clear_work. destruct (keyringClearProc (clr s)) as [[y st]|] eqn:Ep; cbn [is_running].
  - unfold when. destruct (negb _); cbn; rewrite ?Ep; cbn; rewrite ?length_app; cbn; destruct (is_running st), (sessionClearRun (clr s)) as [[? a]|]; try destruct (a <? 2); lia.
  - cbn. destruct (nonempty _); lia.
Qed.

Lemma stored_work s : is_running (keyringStoreProc (sto s)) = true -> work (onSessionStored s).1 < work s.
Proof.
  intros Hr. unfold onSessionStored. rewrite fst_seq. cbn [fst Actions.set]. unfold reading. set (s0 := set_store_proc None s).
  assert (epochOperationIsStale s0 || negb (unlocked (vlt s0)) || negb (session (vlt s0)) = negb (store_fine s)) as ->
    by (unfold store_fine; rewrite !negb_andb, negb_involutive; done).
  unfold work at 2, store_work. rewrite Hr. destruct (store_fine s) eqn:Ef; cbn [negb].
  - cbn. unfold work, store_work. cbn. destruct (sessionStorePending (sto s)); lia.
  - rewrite fst_seq. cbn [fst Actions.set]. set (s1 := set_store_pending _ s0).
    pose proof (request_work (Some (sessionStoreSlot (sto s0))) s1) as Hc. change (clr s1) with (clr s) in Hc.
    destruct (request_vlt (Some (sessionStoreSlot (sto s0))) 1 s1) as (Ev & Es & _).
    destruct (clear_spares (Some (sessionStoreSlot (sto s0))) 1 s1) as [El _].
    unfold work, store_work. rewrite Es, El. change (is_running (keyringStoreProc (sto s1))) with false.
    change (sessionStorePending (sto s1)) with (stores_again s). change (lok s1) with (lok s). destruct (stores_again s), (sessionStorePending (sto s)); lia.
Qed.

Lemma store_parts s : clr (storeCurrentSession s).1 = clr s /\ lok (storeCurrentSession s).1 = lok s.
Proof. unfold storeCurrentSession, reading. destruct (logoutPending _); [done|]. destruct (_ || _); [done|]. by destruct (_ || _). Qed.

Lemma busy_work s : completion s BusyTimer -> work (pumpSessionKeyring s).1 < work s.
Proof.
  intros (Hla & Hc & Hst & Hdo). cbn in Hla. unfold pumpSessionKeyring, reading. rewrite Hc, Hst. cbn [is_running orb].
  destruct (sessionClearSlots (clr s)) as [|y ys] eqn:Es.
  - destruct Hdo as [?|Hpend]; [done|]. unfold when. rewrite Hpend. destruct (store_parts s) as [E1 E2]. unfold work. rewrite E1, E2.
    enough (store_work (storeCurrentSession s).1 < store_work s) by lia. unfold store_work at 2. rewrite Hst, Hpend. cbn [is_running].
    unfold storeCurrentSession, reading. destruct (logoutPending _); [unfold store_work; cbn; rewrite Hst; cbn; lia|].
    destruct (_ || _); [unfold store_work; cbn; rewrite Hst; cbn; lia|]. rewrite Hst, Hc. cbn. unfold store_work. cbn.
    match goal with |- context [store_fine ?x] => set (s1 := x) end. destruct (store_fine s1) eqn:Ef; [lia|].
    assert (stores_again s1 = false) as ->; [|lia]. unfold store_fine, epochOperationIsStale in Ef. cbn in Ef. rewrite bool_decide_eq_true_2 in Ef by done. cbn in Ef.
    unfold stores_again. cbn. rewrite <- andb_assoc, Ef. apply andb_false_r.
  - rewrite fst_seq. cbn [fst Actions.set]. set (s1 := set_clear ys _ _ _ s). destruct (request_vlt (Some y) 1 s1) as (Ev & Est & _). destruct (clear_spares (Some y) 1 s1) as [El _].
    apply clears_work; [by rewrite Ev|by rewrite Est|by rewrite El|].
    unfold requestSessionCredentialClear, reading. cbn. unfold clear_work. cbn. rewrite Hc, Hla, Es. cbn [length nonempty is_running]. lia.
Qed.

Lemma ack_parts s : clr (maybeAckSleep s).1 = clr s /\ sto (maybeAckSleep s).1 = sto s /\ vlt (maybeAckSleep s).1 = vlt s /\ lok (maybeAckSleep s).1 = lok s.
Proof. unfold maybeAckSleep, reading. destruct (negb _); [done|]. destruct (_ || _); [done|]. by destruct (_ || _). Qed.

Lemma ack_work s : work (maybeAckSleep s).1 = work s.
Proof.
  destruct (ack_parts s) as (E1 & E2 & E3 & E4). unfold work, store_work, store_fine, stores_again, epochOperationIsStale. by rewrite E1, E2, E3, E4.
Qed.

Lemma cleared_work r0 told code s : ring_inv r0 told s -> possible s (ClearExited code) -> work (onSessionClearExited code s).1 < work s.
Proof.
  intros H (Hl & y & st & Ep & _). destruct (ri_clear _ _ _ _ H y st Ep) as (_ & a & Er). pose proof (ri_attempt _ _ _ _ H y a Er).
  assert (clear_work (clr s) = (if is_running st then 1 else 2) + (if a <? 2 then 3 else 0) + 6 * Z.of_nat (length (sessionClearSlots (clr s)))) as Ew
    by (unfold clear_work; rewrite Ep, Er, Hl; cbn; lia).
  unfold onSessionClearExited. rewrite fst_seq. cbn [fst Actions.set]. unfold reading. cbn. rewrite Er. destruct (negb (code =? 0) && (a <? 2)) eqn:E.
  - apply andb_true_iff in E as [_ E]. rewrite E in Ew. unfold work, store_work. rewrite Ew. cbn. rewrite Hl. unfold clear_work. cbn.
    unfold store_fine, stores_again, epochOperationIsStale. cbn. destruct (is_running st); lia.
  - rewrite !fst_seq, ack_work. unfold when. unfold work, store_work. rewrite Ew.
    destruct (negb (code =? 0)); cbn; unfold clear_work, store_fine, stores_again, epochOperationIsStale; cbn; rewrite Hl; cbn; destruct (is_running st), (a <? 2); lia.
Qed.

Lemma clear_ran_work s : (exists slot, keyringClearProc (clr s) = Some (slot, None)) -> work (clear_ran s).1 < work s.
Proof.
  intros (y & Ep). unfold clear_ran, reading. rewrite Ep. destruct (run_session_clear (keyring s) (JStr y)) as [c r]. rewrite fst_seq. cbn.
  unfold work, store_work, store_fine, stores_again, epochOperationIsStale, clear_work. cbn. rewrite Ep. cbn. lia.
Qed.

Lemma retry_work r0 told s : ring_inv r0 told s -> clearLater (clr s) <> [] -> work (dispatch RetryClear s).1 < work s.
Proof.
  intros H Hne. cbn [dispatch]. unfold reading at 1. destruct (clearLater (clr s)) as [|[y a] later] eqn:El; [done|].
  destruct (ri_later _ _ _ _ H y a) as [Hy ->]; [rewrite El; by left|].
  assert (later = []) as -> by (pose proof (ri_one _ _ _ _ H) as Ho; rewrite El in Ho; by destruct later; [|cbn in Ho; lia]).
  rewrite fst_seq. cbn [fst Actions.set]. set (s1 := set_clear _ _ _ [] s). destruct (request_vlt (Some y) 2 s1) as (Ev & Est & _). destruct (clear_spares (Some y) 2 s1) as [Ek _].
  apply clears_work; [by rewrite Ev|by rewrite Est|by rewrite Ek|].
  unfold requestSessionCredentialClear, reading. cbn. destruct (keyringClearProc (clr s)) as [[z st]|] eqn:Ep; cbn.
  - unfold when. destruct (negb _); cbn; unfold clear_work; cbn; rewrite Ep, El; cbn; rewrite ?length_app; cbn; lia.
  - unfold clear_work. cbn. rewrite Ep, El. cbn. lia.
Qed.

Lemma vault_work s s' : vlt s' = vlt s -> sto s' = sto s -> clr s' = clr s -> lock_work (lok s') < lock_work (lok s) -> work s' < work s.
Proof. intros E1 E2 E3 Hl. unfold work, store_work, store_fine, stores_again, epochOperationIsStale. rewrite E1, E2, E3. lia. Qed.

Lemma lock_exited_work lost code out s : locks lost s -> lockProc (lok s) = true -> work (onBwLockExited code out s).1 < work s.
Proof.
  intros H Hp. destruct (lockRun (lok s)) as [l|] eqn:Er; [|by destruct (li_idle _ _ _ _ H Er); congruence].
  destruct (li_run _ _ _ _ H l Er) as [(_ & Hs & Ha & Hc)|(? & _)]; [|congruence].
  assert (Hfin : forall s1, vlt s1 = vlt s -> sto s1 = sto s -> clr s1 = clr s -> lok s1 = lok (set_lock_proc false s) -> 2 <= run_work true l -> work (finishBwLock s1).1 < work s).
  { intros s1 E1 E2 E3 E4 Hw. unfold finishBwLock. rewrite !fst_seq, ack_work. cbn [fst Actions.set]. unfold reading. rewrite E4. cbn. rewrite Er. cbn.
    apply vault_work; try done. cbn. rewrite E4. unfold lock_work. cbn. rewrite Er, Hp. destruct (pumpLater (lok s)); lia. }
  unfold onBwLockExited. rewrite fst_seq. cbn [fst Actions.set]. unfold reading. cbn [lok set_lock_proc on_lok lockRun]. rewrite Er.
  destruct (checking l) eqn:Ec.
  { rewrite fst_seq. unfold when. destruct (_ && _); apply Hfin; try done; unfold run_work; rewrite Ec; lia. }
  destruct (code =? 0); [apply Hfin; try done; unfold run_work; rewrite Ec; destruct (_ =? 1); lia|]. rewrite fst_seq. cbn.
  apply vault_work; try done. cbn. unfold lock_work. cbn. rewrite Er, Hp. unfold run_work. cbn. rewrite Ec. destruct (2 <=? attempts l) eqn:E2; cbn; boolZ; destruct (attempts l =? 1) eqn:E1; boolZ; lia.
Qed.

Lemma step_work lost s : locks lost s -> stepLater (lok s) = true -> work (dispatch StepDeferred s).1 < work s.
Proof.
  intros H Hs. destruct (lockRun (lok s)) as [l|] eqn:Er; [|by destruct (li_idle _ _ _ _ H Er) as (_ & ? & _); congruence].
  destruct (li_run _ _ _ _ H l Er) as [(_ & ? & _)|(Hp & _ & Ha)]; [congruence|].
  cbn [dispatch]. rewrite fst_seq. cbn [fst Actions.set]. unfold runBwLockStep, reading. cbn. rewrite Er, Hp. cbn.
  apply vault_work; try done. cbn. unfold lock_work. cbn. rewrite Er, Hp. unfold run_work. cbn. destruct (checking l); rewrite ?Ha; [lia|].
  change (1 + 1 =? 1) with false. change (1 =? 1) with true. lia.
Qed.

Lemma pump_work lost s : locks lost s -> pumpLater (lok s) = true -> work (dispatch PumpDeferred s).1 < work s.
Proof.
  intros H Hp. cbn [dispatch]. rewrite fst_seq. cbn [fst Actions.set]. unfold pumpBwLock, reading. cbn. destruct (lockRun (lok s)) as [l|] eqn:Er; cbn.
  { apply vault_work; try done. cbn. unfold lock_work. cbn. rewrite Er, Hp. lia. }
  destruct (li_idle _ _ _ _ H Er) as (Hq & _). rewrite Hq. destruct (lockQueue (lok s)) as [|l q] eqn:Eq.
  { apply vault_work; try done. cbn. unfold lock_work. cbn. rewrite Er, Hp. lia. }
  rewrite fst_seq. cbn. unfold runBwLockStep, reading. cbn. rewrite Hq. cbn. destruct (li_queue _ _ _ _ H l) as [Ha Hc]; [rewrite Eq; by left|].
  apply vault_work; try done. cbn. unfold lock_work. cbn. rewrite Er, Eq, Hp. unfold run_work. cbn [checking attempts length]. rewrite Hc, Ha.
  change (0 + 1 =? 1) with true. lia.
Qed.

Lemma completion_works r0 told lost ev s : ring_inv r0 told s -> locks lost s -> completion s ev -> work (dispatch ev s).1 < work s.
Proof.
  intros Hr Hl Hc. pose proof Hc as [Hp Hk]. destruct ev; try done; cbn [possible] in Hp.
  - by apply stored_work.
  - by apply clear_ran_work.
  - by eapply cleared_work.
  - by eapply lock_exited_work.
  - by apply busy_work.
  - by eapply retry_work.
  - by eapply pump_work.
  - by eapply step_work.
Qed.
End settling.
