(* ===== verification/LockClaims.v ===== *)
(** * What a lock leaves, and when the machine may sleep

    From the invariants of [LockDownCorrect] and [LockSettles], in every reachable state
    of [LockDown]: what of a closed vault can stay in the keyring or in the helper, a
    suspend is answered only after the lock, and it is answered.  The last part is two
    orders of events, and a search that fails, that leave an entry behind. *)

From stdpp Require Import gmap.
From S2P Require Import Prelude.
From S2P Require Import JsNum.
From S2P Require Import JsString.
From S2P Require Import JsValue.
From S2P Require Import JsInt.
From S2P Require Import Accounts.
From S2P Require Import KeyringRun.
From S2P Require Import KeyringRunCorrect.
From S2P Require Import Actions.
From S2P Require Import LockDown.
From S2P Require Import LockDownCorrect.
From S2P Require Import LockSettles.
Local Open Scope act_scope.

(** ** In every reachable state *)

Section claims.
  Context `{Hsvc : !SecretService}.

Lemma reached_settled r0 told missed lost s : reached r0 told missed lost s -> ring_inv r0 (told ++ missed) s /\ locks lost s /\ suspend_inv s.
Proof.
  induction 1 as [slot remember Hs|ev told missed lost s _ (Hr & Hl & Hsu) Hp Hroom].
  - split_and!; [split; cbn; try done; try lia; try set_solver; intros x Hx Hst; by left| |done]. split; cbn; try done; try lia; [constructor|set_solver|set_solver|set_solver].
  - split_and!; [eapply told_mono; [|by apply ring_event]; set_solver|by apply locks_event|by eapply suspend_event].
Qed.

(** Nothing is running, queued or deferred for the session's entries. *)
Definition keyring_quiet (s : service) : Prop :=
  keyringStoreProc (sto s) = None /\ keyringClearProc (clr s) = None /\ sessionClearSlots (clr s) = [] /\ clearLater (clr s) = [].

(** An account is missed only by a search that failed without printing anything. *)
Lemma missed_searches r0 told missed lost s x : reached r0 told missed lost s -> x ∈ missed ->
  exists r, (search_reply r (session_entry (JStr x))).1 <> 0 /\ (search_reply r (session_entry (JStr x))).2 = 0.
Proof.
  induction 1 as [|ev told missed lost s _ IH]; [set_solver|]. intros [Hm|?]%elem_of_app; [clear IH|auto]. unfold missed_by in Hm. destruct ev; try set_solver.
  destruct (keyringClearProc (clr s)) as [[y st]|]; [|set_solver]. cbn in Hm. destruct (search_reply _ _) as [c n] eqn:E. destruct (_ && _) eqn:Eb; [|set_solver].
  apply list_elem_of_singleton in Hm as ->. apply andb_true_iff in Eb as [Ec En]. apply negb_true_iff, Z.eqb_neq in Ec. apply Z.eqb_eq in En.
  eexists. by rewrite E.
Qed.

(** C3: A session remembered in the keyring belongs to the open vault, or is still going
    to be removed (its store or its clear runs, waits or is retried), or the user was
    told that two clears failed, or was there before the service started, or a clear of
    it was reported as done because the search that looks for what is left had itself
    failed without a word.  So once the keyring processes are quiet, a closed vault has
    left no session behind but those of the last three kinds, in whatever order locks,
    unlocks, account switches, sign-outs, lost helpers and the keyring's two processes
    came, and whatever the secret service answers. *)
Theorem closed_vault_forgotten r0 told missed lost s x : reached r0 told missed lost s -> slot_ok x -> stored (keyring s) x ->
  (stored r0 x \/ current s x \/ owed s x \/ x ∈ told \/ x ∈ missed)
  /\ (keyring_quiet s -> session (vlt s) = false \/ x <> activeSlot (vlt s) -> stored r0 x \/ x ∈ told \/ x ∈ missed)
  /\ (x ∈ missed -> exists r, (search_reply r (session_entry (JStr x))).1 <> 0 /\ (search_reply r (session_entry (JStr x))).2 = 0).
Proof.
  intros H Hx Hs. destruct (reached_settled r0 told missed lost s H) as (Hr & _ & _).
  assert (stored r0 x \/ current s x \/ owed s x \/ x ∈ told \/ x ∈ missed) as Ha.
  { destruct (ri_entry _ _ _ _ Hr x Hx Hs) as [|[|[|[[|]%elem_of_app|[]]]]]; auto 6. }
  split_and!; [done| |intros; by eapply missed_searches].
  intros (Q1 & Q2 & Q3 & Q4) Hc. destruct Ha as [?|[(C1 & _ & _ & C2)|[Ho|?]]]; auto; [destruct Hc; congruence|].
  exfalso. unfold owed in Ho. rewrite Q1, Q2, Q3, Q4 in Ho. destruct Ho as [|[(? & ? & _)|[|]]]; try done; set_solver.
Qed.

(** The helper keeps a copy of a session key only for a lock that is queued or
    running, the key of the vault that lock closes; the copy is there until the lock
    has settled, unless the helper itself was lost. *)
Theorem keys_with_locks r0 told missed lost s : reached r0 told missed lost s ->
  (forall n e, heldKeys s !! n = Some e -> exists l, l ∈ outstanding (lok s) /\ lockKey l = n /\ lockEpoch l = e)
  /\ (lost = false -> forall l, l ∈ outstanding (lok s) -> heldKeys s !! lockKey l = Some (lockEpoch l))
  /\ NoDup (map lockKey (outstanding (lok s))).
Proof.
  intros H. destruct (reached_settled r0 told missed lost s H) as (_ & Hl & _). split_and!; [apply (li_held _ _ _ _ Hl)|apply (li_kept _ _ _ _ Hl)|apply (li_nodup _ _ _ _ Hl)].
Qed.

(** An answer to a suspend is sent with nothing left to do. *)
Lemma ack_idle s : AckSleep ∈ (maybeAckSleep s).2 -> busy (maybeAckSleep s).1 = false.
Proof.
  unfold maybeAckSleep, reading. destruct (negb _); [set_solver|]. destruct (is_running _ || _) eqn:E1; [set_solver|]. destruct (is_running (sessionClearRun _) || _) eqn:E2; [set_solver|].
  intros _. unfold busy. cbn. rewrite E1. exact E2.
Qed.

Lemma request_no_ack slot a s : AckSleep ∉ (requestSessionCredentialClear slot a s).2.
Proof. unfold requestSessionCredentialClear, reading, when. destruct (is_running _); [destruct (negb _)|]; set_solver. Qed.
Lemma store_no_ack s : AckSleep ∉ (storeCurrentSession s).2.
Proof. unfold storeCurrentSession, reading. destruct (logoutPending _); [set_solver|]. destruct (_ || _); [set_solver|]. destruct (_ || _); set_solver. Qed.
Lemma step_no_ack s : AckSleep ∉ (runBwLockStep s).2.
Proof. unfold runBwLockStep, reading. destruct (lockRun _); [destruct (lockProc _)|]; set_solver. Qed.
Lemma pump_no_ack s : AckSleep ∉ (pumpBwLock s).2.
Proof. unfold pumpBwLock, reading. destruct (_ || _); [set_solver|]. destruct (lockQueue _); [set_solver|]. rewrite snd_seq. apply step_no_ack. Qed.

(** The two events that answer: a lock or a clear has ended. *)
Lemma ack_from ev s : (exists code, ev = ClearExited code) \/ (exists code out, ev = LockExited code out) -> AckSleep ∈ (dispatch ev s).2 ->
  exists s1, (dispatch ev s).1 = (maybeAckSleep s1).1 /\ AckSleep ∈ (maybeAckSleep s1).2.
Proof.
  intros [[code ->]|(code & out & ->)]; cbn [dispatch].
  - unfold onSessionClearExited. rewrite fst_seq, snd_seq. cbn [fst snd Actions.set app]. unfold reading. set (s0 := set_clear _ _ None _ s).
    destruct (sessionClearRun (clr s0)) as [[y a]|]; [|eauto]. destruct (_ && _); [set_solver|]. rewrite !fst_seq, !snd_seq. cbn [fst snd Actions.set app].
    intros [Hw|Ha]%elem_of_app; [unfold when in Hw; destruct (negb _); set_solver|eauto].
  - unfold onBwLockExited. rewrite fst_seq, snd_seq. cbn [fst snd Actions.set app]. unfold reading at 1 2. destruct (lockRun _) as [l|]; [|set_solver].
    assert (Hfin : forall x, AckSleep ∈ (finishBwLock x).2 -> exists s1, (finishBwLock x).1 = (maybeAckSleep s1).1 /\ AckSleep ∈ (maybeAckSleep s1).2).
    { intros x. unfold finishBwLock. rewrite !fst_seq, !snd_seq. cbn [fst snd Actions.set app]. unfold reading. intros [Hw|Ha]%elem_of_app; [destruct (lockRun (lok x)); set_solver|eauto]. }
    destruct (checking l); [rewrite fst_seq, snd_seq|destruct (_ =? 0); [apply Hfin|set_solver]].
    intros [Hw|Ha]%elem_of_app; [unfold when in Hw; destruct (_ && _); set_solver|by apply Hfin].
Qed.

(** C11: A suspend that waits for a lock is answered only when no [bw lock] is queued or
    running, the helper holds no copy of a key, and no clear of the session is running,
    queued or to be retried; what can still be in the keyring then is an entry of a
    vault opened since, one the user was told of, one from before the service started,
    one whose clear was reported as done by a search that failed without a word, or that
    of a store that is still running. *)
Theorem ack_after_lock r0 told missed lost ev s : reached r0 told missed lost s -> possible s ev -> room s ->
  (exists code, ev = ClearExited code) \/ (exists code out, ev = LockExited code out) -> AckSleep ∈ (dispatch ev s).2 ->
  let s' := step_service ev s in
  outstanding (lok s') = [] /\ heldKeys s' = ∅ /\ keyringClearProc (clr s') = None /\ sessionClearSlots (clr s') = [] /\ clearLater (clr s') = []
  /\ (forall x, slot_ok x -> stored (keyring s') x ->
        stored r0 x \/ current s' x \/ x ∈ told_by (dispatch ev s).2 ++ told \/ x ∈ missed_by ev s ++ missed \/ keyringStoreProc (sto s') = Some x).
Proof.
  intros H Hp Hroom Hev Hack s'. destruct (reached_settled r0 _ _ _ s' (reached_step r0 ev told missed lost s H Hp Hroom)) as (Hr & Hl & _).
  destruct (ack_from ev s Hev Hack) as (s1 & Es & Ha). apply ack_idle in Ha. rewrite <- Es in Ha. change (busy s' = false) in Ha.
  unfold busy in Ha. apply orb_false_iff in Ha as [Ha B4]. apply orb_false_iff in Ha as [Ha B3]. apply orb_false_iff in Ha as [B1 B2].
  assert (lockRun (lok s') = None) as R1 by (by destruct (lockRun (lok s'))). assert (lockQueue (lok s') = []) as R2 by (by destruct (lockQueue (lok s'))).
  assert (sessionClearRun (clr s') = None) as R3 by (by destruct (sessionClearRun (clr s'))). assert (sessionClearSlots (clr s') = []) as R4 by (by destruct (sessionClearSlots (clr s'))).
  assert (outstanding (lok s') = []) as Ho by (unfold outstanding; by rewrite R1, R2).
  assert (keyringClearProc (clr s') = None) as Hc.
  { destruct (keyringClearProc (clr s')) as [[y st]|] eqn:E; [|done]. destruct (ri_clear _ _ _ _ Hr y st E) as (_ & a & ?). congruence. }
  assert (clearLater (clr s') = []) as Hla.
  { destruct (clearLater (clr s')) eqn:E; [done|]. destruct (ri_retry _ _ _ _ Hr); [by rewrite E|done]. }
  split_and!; try done.
  - apply map_empty. intros n. destruct (heldKeys s' !! n) eqn:E; [|done]. destruct (li_held _ _ _ _ Hl n _ E) as (l & Hin & _). rewrite Ho in Hin. set_solver.
  - intros x Hx Hs. destruct (ri_entry _ _ _ _ Hr x Hx Hs) as [|[|[Hw|[[|]%elem_of_app|[]]]]]; auto 6. unfold owed in Hw. rewrite Hc, R4, Hla in Hw.
    destruct Hw as [|[(? & ? & _)|[|]]]; auto 6; [done|set_solver|set_solver].
Qed.
End claims.

(** ** A suspend is answered *)

(** Actions that answer a waiting suspend or leave it waiting. *)
Definition answers_rel (s : service) (out : list lock_effect) (s' : service) : Prop :=
  suspendLockPending s = true -> suspendLockPending s' = true \/ AckSleep ∈ out.
Notation answers := (along answers_rel).
#[export] Instance answers_composes : Composes answers_rel.
Proof.
  split; [by left|by left|]. intros s1 s2 s3 e1 e2 H1 H2 Hs. rewrite elem_of_app. destruct (H1 Hs) as [H|H]; [|auto]. destruct (H2 H); auto.
Qed.
Lemma answers_stays a : stays a -> answers a.
Proof. intros Ha s Hs. left. destruct (Ha s) as [-> _]. done. Qed.
#[export] Hint Extern 1 (along answers_rel (set _)) => apply along_set; by left : along.
#[export] Hint Extern 3 (along answers_rel _) => apply answers_stays; solve [auto with along] : along.

(** Actions that count nothing further: what has room keeps it. *)
Definition counts_rel (s : service) (_ : list lock_effect) (s' : service) : Prop :=
  vaultEpoch (vlt s') = vaultEpoch (vlt s) /\ lockSeq (lok s') = lockSeq (lok s).
Notation counts := (along counts_rel).
#[export] Instance counts_composes : Composes counts_rel.
Proof. split; [done|done|]. intros s1 s2 s3 e1 e2 [H1 H2] [H3 H4]. split; congruence. Qed.

Lemma request_counts slot a : counts (requestSessionCredentialClear slot a).
Proof. unfold requestSessionCredentialClear. auto 10 with along. Qed.
Lemma store_counts : counts storeCurrentSession.
Proof. unfold storeCurrentSession. auto 12 with along. Qed.
Lemma ack_counts : counts maybeAckSleep.
Proof. unfold maybeAckSleep, ackSleep. auto 12 with along. Qed.
Lemma step_counts : counts runBwLockStep.
Proof. unfold runBwLockStep. auto 12 with along. Qed.
#[export] Hint Resolve request_counts store_counts ack_counts step_counts : along.

#[export] Instance bw_lock_dec : EqDecision bw_lock.
Proof. solve_decision. Defined.
#[export] Instance lock_effect_dec : EqDecision lock_effect.
Proof. solve_decision. Defined.

Lemma ack_answers : answers maybeAckSleep.
Proof.
  intros s Hs. unfold maybeAckSleep, reading. rewrite Hs. cbn [negb]. destruct (_ || _); [by left|]. destruct (_ || _); [by left|]. right. cbn. set_solver.
Qed.
#[export] Hint Resolve ack_answers : along.

Section liveness.
  Context `{Hsvc : !SecretService}.

Lemma completion_answers ev s : completion s ev -> answers (dispatch ev).
Proof.
  intros [_ Hk]. destruct ev; try done; cbn [dispatch];
    unfold clear_ran, onSessionClearExited, onBwLockExited, finishBwLock, pumpSessionKeyring; auto 20 with along.
Qed.

(** Something can be finished as long as a suspend has to wait. *)
Lemma busy_completion r0 told lost s : ring_inv r0 told s -> locks lost s -> busy s = true -> exists ev, completion s ev.
Proof.
  intros Hr Hl Hb. unfold busy in Hb. rewrite busy_or in Hb.
  destruct (lockRun (lok s)) as [l|] eqn:Er.
  { destruct (li_run _ _ _ _ Hl l Er) as [(Hp & _)|(_ & Hs & _)]; [by exists (LockExited 0 false)|by exists StepDeferred]. }
  destruct (li_idle _ _ _ _ Hl Er) as (_ & _ & Hq).
  destruct (clearLater (clr s)) as [|x later] eqn:El; [|exists RetryClear; split; [cbn; by rewrite El|done]].
  destruct (keyringClearProc (clr s)) as [[y st]|] eqn:Ep.
  { exists (ClearExited 1). split; [|done]. split; [done|]. by exists y, st. }
  destruct Hb as [?|[Hb|[Hb|Hb]]]; [done|..].
  - exists PumpDeferred. split; [|done]. apply Hq; [done|]. by destruct (lockQueue (lok s)).
  - destruct (ri_run _ _ _ _ Hr) as [?|?]; [set_solver|by destruct (sessionClearRun (clr s))|done|done].
  - destruct (keyringStoreProc (sto s)) as [z|] eqn:Es; [exists StoreExited; split; [cbn; by rewrite Es|done]|].
    exists BusyTimer. split; [done|]. split_and!; [done|done|]. left. by destruct (sessionClearSlots (clr s)).
Qed.

(** Events that finish something, one after the other, and what they send. *)
Inductive settles : service -> list lock_event -> service -> list lock_effect -> Prop :=
| settles_nil s : settles s [] s []
| settles_cons ev es s s' out : completion s ev -> settles (step_service ev s) es s' out -> settles s (ev :: es) s' ((dispatch ev s).2 ++ out).

Lemma completion_room ev s : completion s ev -> room s -> room (step_service ev s).
Proof.
  intros [_ Hk]. assert (counts (dispatch ev)) as Hc.
  { destruct ev; try done; cbn [dispatch];
      unfold clear_ran, onSessionStored, onSessionClearExited, onBwLockExited, finishBwLock, pumpSessionKeyring, pumpBwLock; auto 20 with along. }
  unfold room, step_service. by destruct (Hc s) as [-> ->].
Qed.

Lemma settles_inv r0 told missed lost s es s' out : reached r0 told missed lost s -> room s -> settles s es s' out ->
  exists told' missed', reached r0 told' missed' lost s' /\ room s' /\ work s' + Z.of_nat (length es) <= work s
  /\ (suspendLockPending s = true -> suspendLockPending s' = true \/ AckSleep ∈ out).
Proof.
  intros H Hroom Hs. revert told missed H Hroom. induction Hs as [s|ev es s s' out Hc _ IH]; intros told missed H Hroom.
  { exists told, missed. split_and!; try done; [cbn; lia|auto]. }
  pose proof (reached_step r0 ev told missed lost s H (proj1 Hc) Hroom) as H1.
  assert (lost || match ev with HelperLost => true | _ => false end = lost) as El by (destruct Hc as [_ Hk]; destruct ev; try done; apply orb_false_r).
  rewrite El in H1. destruct (IH _ _ H1 (completion_room ev s Hc Hroom)) as (told' & missed' & H2 & Hr2 & Hw & Ha).
  exists told', missed'. destruct (reached_settled r0 told missed lost s H) as (Hri & Hlo & _).
  pose proof (completion_works r0 _ lost ev s Hri Hlo Hc) as Hlt. split_and!; try done.
  - cbn [length]. change (work (step_service ev s) < work s) in Hlt. lia.
  - intros Hp. rewrite elem_of_app. destruct (completion_answers ev s Hc s Hp) as [H3|H3]; [|auto]. destruct (Ha H3); auto.
Qed.

Lemma settles_app s es s' out ev : settles s es s' out -> completion s' ev -> settles s (es ++ [ev]) (step_service ev s') (out ++ (dispatch ev s').2).
Proof.
  intros H Hc. induction H as [s|e es s s' out He _ IH]; cbn.
  - rewrite <- (app_nil_r (dispatch ev s).2). apply settles_cons; [done|constructor].
  - rewrite <- app_assoc. apply settles_cons; auto.
Qed.

(** C7: A suspend that waits is answered.  The processes, deferred calls and the retry
    timer that are left can end at most [work] times, whatever their exit statuses,
    whatever the secret service answers and in whatever order (but that a deferred retry
    of a clear runs before the retry timer fires or another clear exits); until the
    suspend is answered one of them can always end; and some such sequence answers it. *)
Theorem suspend_answered r0 told missed lost s : reached r0 told missed lost s -> room s -> suspendLockPending s = true ->
  (forall es s' out, settles s es s' out -> Z.of_nat (length es) <= work s)
  /\ (forall es s' out, settles s es s' out -> AckSleep ∉ out -> exists ev, completion s' ev)
  /\ (exists es s' out, settles s es s' out /\ AckSleep ∈ out).
Proof.
  intros H Hroom Hp.
  assert (Hlen : forall es s' out, settles s es s' out -> work s' + Z.of_nat (length es) <= work s /\ Z.of_nat (length es) <= work s).
  { intros es s' out Hs. destruct (settles_inv _ _ _ _ _ _ _ _ H Hroom Hs) as (_ & _ & _ & _ & Hw & _). pose proof (work_pos s'). unfold work in *. lia. }
  assert (Hgo : forall es s' out, settles s es s' out -> AckSleep ∉ out -> exists ev, completion s' ev).
  { intros es s' out Hs Ha. destruct (settles_inv _ _ _ _ _ _ _ _ H Hroom Hs) as (told' & missed' & H' & _ & _ & Hk). destruct (Hk Hp) as [Hp'|]; [|done].
    destruct (reached_settled r0 told' missed' lost s' H') as (Hri & Hlo & Hsu). by apply (busy_completion r0 (told' ++ missed') lost); [..|apply Hsu]. }
  split_and!; [intros; by eapply Hlen|done|].
  cut (forall n es s' out, settles s es s' out -> (Z.to_nat (work s) < n + length es)%nat -> exists es s' out, settles s es s' out /\ AckSleep ∈ out).
  { intros Hn. apply (Hn (S (Z.to_nat (work s))) [] s []); [constructor|cbn; lia]. }
  induction n as [|n IH]; intros es s' out Hs Hn.
  { destruct (Hlen es s' out Hs). lia. }
  destruct (decide (AckSleep ∈ out)) as [|Ha]; [eauto|]. destruct (Hgo es s' out Hs Ha) as [ev Hc].
  eapply IH; [by apply settles_app|]. rewrite length_app. cbn. lia.
Qed.
End liveness.

(** ** Runs for examples *)

Section runs.
  Context `{Hsvc : !SecretService}.

Fixpoint after (es : list lock_event) (s : service) : service :=
  match es with [] => s | ev :: es => after es (step_service ev s) end.
Fixpoint can_happen (es : list lock_event) (s : service) : Prop :=
  match es with [] => True | ev :: es => (possible s ev /\ room s /\ ev <> HelperLost) /\ can_happen es (step_service ev s) end.
Fixpoint told_in (es : list lock_event) (s : service) (told : list (list Z)) : list (list Z) :=
  match es with [] => told | ev :: es => told_in es (step_service ev s) (told_by (dispatch ev s).2 ++ told) end.

Fixpoint missed_in (es : list lock_event) (s : service) (missed : list (list Z)) : list (list Z) :=
  match es with [] => missed | ev :: es => missed_in es (step_service ev s) (missed_by ev s ++ missed) end.

Lemma after_reached r0 es told missed lost s : reached r0 told missed lost s -> can_happen es s -> reached r0 (told_in es s told) (missed_in es s missed) lost (after es s).
Proof.
  revert told missed s. induction es as [|ev es IH]; intros told missed s H Hc; [done|]. destruct Hc as ((Hp & Hr & Hl) & Hc). cbn. apply IH; [|done].
  pose proof (reached_step r0 ev told missed lost s H Hp Hr) as H'. destruct ev; rewrite ?orb_false_r in H'; done.
Qed.
End runs.

Definition no_ring : ring := Ring ∅ ∅.
Definition a_start : service := init_service (js "default") true no_ring.
(** The vault is opened and its session remembered. *)
Definition opened : list lock_event := [Unlock; StoreRan (js "tok"); StoreExited].
(** Then the machine goes to sleep, and all but the clear's exit has happened. *)
Definition sleeping : list lock_event := opened ++ [Sleep true; LockExited 0 false; ClearRan].

Notation after_toy es := (@after toy_service es a_start).
Lemma toy_reached es : @can_happen toy_service es a_start -> @reached toy_service no_ring (@told_in toy_service es a_start []) (@missed_in toy_service es a_start []) false (after_toy es).
Proof. intros H. by apply after_reached; [by constructor|]. Qed.

Lemma opened_happens : @can_happen toy_service opened a_start.
Proof. cbn. split_and!; try done; vm_compute; try done. Qed.
Lemma sleeping_happens : @can_happen toy_service sleeping a_start.
Proof. cbn. split_and!; try done; vm_compute; try done. by eexists. Qed.

Lemma closed_vault_forgotten_witness :
  let s := after_toy opened in
  stored (keyring s) (js "default") /\ @reached toy_service no_ring [] [] false s
  /\ (stored no_ring (js "default") \/ current s (js "default") \/ owed s (js "default") \/ js "default" ∈ [] \/ js "default" ∈ []).
Proof.
  assert (@reached toy_service no_ring [] [] false (after_toy opened)) as Hr by exact (toy_reached opened opened_happens).
  assert (stored (keyring (after_toy opened)) (js "default")) as Hs by (vm_compute; by eexists).
  split_and!; [done|done|]. by apply (@closed_vault_forgotten toy_service no_ring [] [] false (after_toy opened) (js "default")).
Defined.

Lemma keys_with_locks_witness :
  let s := after_toy [Unlock; LockVault] in
  heldKeys s = {[ 1 := 1 ]} /\ (exists l, l ∈ outstanding (lok s) /\ lockKey l = 1 /\ lockEpoch l = 1).
Proof.
  assert (@can_happen toy_service [Unlock; LockVault] a_start) as Hc by (cbn; split_and!; try done; vm_compute; done).
  split; [by vm_compute|]. apply (@keys_with_locks toy_service no_ring _ _ false _ (toy_reached [Unlock; LockVault] Hc)). by vm_compute.
Defined.

Lemma ack_after_lock_witness :
  let s := after_toy sleeping in let s' := @step_service toy_service (ClearExited 0) s in
  AckSleep ∈ (@dispatch toy_service (ClearExited 0) s).2 /\ outstanding (lok s') = [] /\ heldKeys s' = ∅.
Proof.
  assert (AckSleep ∈ (@dispatch toy_service (ClearExited 0) (after_toy sleeping)).2) as Ha by (vm_compute; set_solver).
  assert (@possible (after_toy sleeping) (ClearExited 0)) as Hp by (vm_compute; split; [done|]; by eexists _, _).
  assert (room (after_toy sleeping)) as Hroom by by vm_compute.
  split; [exact Ha|].
  destruct (@ack_after_lock toy_service no_ring _ _ false (ClearExited 0) _ (toy_reached sleeping sleeping_happens) Hp Hroom (or_introl (ex_intro _ 0 eq_refl)) Ha)
    as (H1 & H2 & _). split; [exact H1|exact H2].
Defined.

Lemma suspend_answered_witness :
  let s := after_toy (opened ++ [Sleep true]) in
  work s = 11 /\ exists es s' out, @settles toy_service s es s' out /\ AckSleep ∈ out.
Proof.
  assert (@can_happen toy_service (opened ++ [Sleep true]) a_start) as Hc by (cbn; split_and!; try done; vm_compute; done).
  split; [by vm_compute|]. apply (@suspend_answered toy_service no_ring _ _ false _ (toy_reached _ Hc)); by vm_compute.
Defined.

(** ** Two orders that leave an entry *)

(** The machine may sleep while the store of the session of the vault just locked runs:
    the entry is written after the answer, and removed only when the store's exit is
    seen, after the wake. *)
Theorem sleep_before_store_ends :
  let asleep := [Unlock; Sleep true; LockExited 0 false; ClearRan; ClearExited 0] in
  let s := after_toy (asleep ++ [StoreRan (js "tok")]) in
  @can_happen toy_service (asleep ++ [StoreRan (js "tok")]) a_start /\ suspendLockPending (after_toy asleep) = false
  /\ AckSleep ∈ (@dispatch toy_service (ClearExited 0) (after_toy [Unlock; Sleep true; LockExited 0 false; ClearRan])).2
  /\ session (vlt s) = false /\ stored (keyring s) (js "default").
Proof.
  cbv zeta. split_and!; [|by vm_compute|vm_compute; set_solver|by vm_compute|vm_compute; by eexists].
  unfold can_happen, app. split_and!; vm_compute; try done; [by eexists|]. split; [done|]. by eexists _, _.
Qed.

(** Turning "remember session" off while a store runs: the clear ends first, and the
    session stays in the keyring although it is not to be remembered. *)
Theorem forgotten_setting_keeps_entry :
  let es := [Unlock; RememberChanged false true; ClearRan; ClearExited 0; StoreRan (js "tok"); StoreExited] in
  let s := after_toy es in
  @can_happen toy_service es a_start /\ keyring_quiet s /\ sessionStorePending (sto s) = false
  /\ rememberSession (vlt s) = false /\ stored (keyring s) (js "default").
Proof.
  cbv zeta. split_and!; [|by vm_compute|by vm_compute|by vm_compute|vm_compute; by eexists].
  unfold can_happen, app. split_and!; vm_compute; try done; [by eexists|]. split; [done|]. by eexists _, _.
Qed.

(** With a secret service that stores but then fails to clear and to search, the lock
    reports the session as removed and it is still there: the account is a missed one. *)
Program Definition deaf_service : SecretService := {|
  search_reply _ _ := (1, 0); lookup_fails _ _ := true; clear_fails _ _ := true; unlock_works _ := false;
  session_collection := true; default_collection := true; boot_id_file := None
|}.
Next Obligation. done. Qed.

Example missed_entry_stays :
  let es := opened ++ [LockVault; ClearRan; ClearExited 0] in
  let s := @after deaf_service es a_start in
  @can_happen deaf_service es a_start /\ keyring_quiet s /\ session (vlt s) = false /\ stored (keyring s) (js "default")
  /\ @told_in deaf_service es a_start [] = [] /\ @missed_in deaf_service es a_start [] = [js "default"].
Proof.
  cbv zeta. split_and!; [|by vm_compute|by vm_compute|vm_compute; by eexists|by vm_compute|by vm_compute].
  unfold can_happen, app, opened. split_and!; vm_compute; try done; [by eexists|]. split; [done|]. by eexists _, _.
Qed.
