(* ===== verification/EnvelopeQueue.v ===== *)
(** * The queue of envelope jobs ([Service.qml])

    Every operation on the quick-unlock envelope is a job of one queue, run one at a time
    by one process, [envelopeProc]: opening the envelope to unlock, sealing and re-sealing
    it, and the purges of disabled methods, which have a budget of attempts and are
    invalidated by generations.  A lock cancels the jobs that unlock, leaving an account
    drops what is queued, and a logout sweeps the keyring once no writer runs.

    The process is a [VaultProcess] as its owner sees it ([VaultOwners.process_refines]):
    [procRunning] is its flag, and [procRun] whether its run has an id.  What a job's
    callback does here is queue further jobs, which come with its exit. *)

From stdpp Require Import gmap.
From S2P Require Import Prelude.
From S2P Require Import JsNum.
From S2P Require Import JsString.
From S2P Require Import JsValue.
From S2P Require Import JsInt.
From S2P Require Import Helpers.
From S2P Require Import Actions.
Local Open Scope act_scope.

(** ** State *)

(** What the closures of a purge captured. *)
Record purge := Purge { purgeSlots : list (list Z); purgeMethod : list Z; purgeKey : list Z; accountSlot : list Z; methodGeneration : Z; accountGeneration : Z }.

(** A job object; [jobId] is its identity.  A job that is a purge has [isCurrent],
    [onCancelled] and [alwaysDone]; every job has [onDone]. *)
Record job := Job {
  jobId : Z;
  unlock : bool;
  holdOutput : bool;
  secretOutput : bool;
  env : list (list Z * jsval);
  purging : option purge;
  slot : list Z;
  epoch : Z;
  cancelled : bool;
  heldName : option Z
}.

(** What a caller asks for. *)
Record spec := Spec { asks_unlock : bool; asks_hold : bool; asks_secret : bool; asks_env : list (list Z * jsval) }.

(** Deferred calls: a scrub of the collector, [pumpEnvelopeJobs], a purge to try again
    and [requestAllCredentialClear]. *)
Inductive later := ScrubLater | PumpLater | RetryLater (j : job) | SweepLater.

Record jobs := Jobs {
  envelopeJobs : list job;
  envelopeJob : option job;
  procRunning : bool;               (** [envelopeProc.running] *)
  procRun : bool;                   (** [envelopeProc.runId !== 0] *)
  procScrub : bool;                 (** its command is the scrub *)
  helperUp : bool;                  (** a start is not left waiting *)
  agenda : list later;
  nextJob : Z;
  heldSecretSeq : Z
}.

Record purges := Purges {
  reconciledMethods : gset (list Z);
  quickUnlockPurgeAttempts : gmap (list Z) Z;
  quickUnlockPurgePending : gmap (list Z) Z;
  quickUnlockPurgeFailures : gset (list Z);
  quickUnlockMethodGeneration : gmap (list Z) Z;
  quickUnlockAccountGeneration : gmap (list Z) Z
}.

Record logouts := Logouts {
  logoutPending : bool;
  logoutCliDone : bool;
  logoutCredentialsDone : bool;
  logoutCredentialsExitCode : Z;
  allCredentialsClearPending : bool;
  keyringClearAllProc : bool;       (** running *)
  keyringStoreProc : bool;          (** running *)
  credentialClearRetry : bool       (** the timer *)
}.

Record service := Service { jbs : jobs; prg : purges; lgo : logouts; activeSlot : list Z; vaultEpoch : Z }.

Inductive job_effect :=
| Started (j : job)
| StartedScrub
| Killed
| Done (j : job) (exitCode : Z) (held : bool)   (** [onDone], with a held output *)
| Discarded (j : job)                           (** its result is not wanted *)
| Dropped (j : job)                             (** before it ran *)
| Forgot (name : list Z)
| ForgotOutput (n : option Z)
| Swept
| LoggedOut.

Notation act := (act service job_effect).

Definition on_jbs (f : jobs -> jobs) (s : service) : service := Service (f (jbs s)) (prg s) (lgo s) (activeSlot s) (vaultEpoch s).
Definition on_prg (f : purges -> purges) (s : service) : service := Service (jbs s) (f (prg s)) (lgo s) (activeSlot s) (vaultEpoch s).
Definition on_lgo (f : logouts -> logouts) (s : service) : service := Service (jbs s) (prg s) (f (lgo s)) (activeSlot s) (vaultEpoch s).
Definition set_slot (x : list Z) (s : service) : service := Service (jbs s) (prg s) (lgo s) x (vaultEpoch s).
Definition set_epoch (e : Z) (s : service) : service := Service (jbs s) (prg s) (lgo s) (activeSlot s) e.

Definition set_jobs (l : list job) : service -> service :=
  on_jbs (fun q => Jobs l (envelopeJob q) (procRunning q) (procRun q) (procScrub q) (helperUp q) (agenda q) (nextJob q) (heldSecretSeq q)).
Definition set_job (j : option job) : service -> service :=
  on_jbs (fun q => Jobs (envelopeJobs q) j (procRunning q) (procRun q) (procScrub q) (helperUp q) (agenda q) (nextJob q) (heldSecretSeq q)).
Definition set_proc (running run scrub : bool) : service -> service :=
  on_jbs (fun q => Jobs (envelopeJobs q) (envelopeJob q) running run scrub (helperUp q) (agenda q) (nextJob q) (heldSecretSeq q)).
Definition set_helper (up : bool) : service -> service :=
  on_jbs (fun q => Jobs (envelopeJobs q) (envelopeJob q) (procRunning q) (procRun q) (procScrub q) up (agenda q) (nextJob q) (heldSecretSeq q)).
Definition set_agenda (l : list later) : service -> service :=
  on_jbs (fun q => Jobs (envelopeJobs q) (envelopeJob q) (procRunning q) (procRun q) (procScrub q) (helperUp q) l (nextJob q) (heldSecretSeq q)).
Definition set_next (n : Z) : service -> service :=
  on_jbs (fun q => Jobs (envelopeJobs q) (envelopeJob q) (procRunning q) (procRun q) (procScrub q) (helperUp q) (agenda q) n (heldSecretSeq q)).
Definition set_seq (n : Z) : service -> service :=
  on_jbs (fun q => Jobs (envelopeJobs q) (envelopeJob q) (procRunning q) (procRun q) (procScrub q) (helperUp q) (agenda q) (nextJob q) n).

Definition set_budget (attempts pending : gmap (list Z) Z) : service -> service :=
  on_prg (fun p => Purges (reconciledMethods p) attempts pending (quickUnlockPurgeFailures p) (quickUnlockMethodGeneration p) (quickUnlockAccountGeneration p)).
Definition set_outcome (reconciled failures : gset (list Z)) : service -> service :=
  on_prg (fun p => Purges reconciled (quickUnlockPurgeAttempts p) (quickUnlockPurgePending p) failures (quickUnlockMethodGeneration p) (quickUnlockAccountGeneration p)).

Definition set_sweep (pending running : bool) : service -> service :=
  on_lgo (fun l => Logouts (logoutPending l) (logoutCliDone l) (logoutCredentialsDone l) (logoutCredentialsExitCode l) pending running (keyringStoreProc l) (credentialClearRetry l)).
Definition set_retry (b : bool) : service -> service :=
  on_lgo (fun l => Logouts (logoutPending l) (logoutCliDone l) (logoutCredentialsDone l) (logoutCredentialsExitCode l) (allCredentialsClearPending l) (keyringClearAllProc l) (keyringStoreProc l) b).
Definition set_storing (b : bool) : service -> service :=
  on_lgo (fun l => Logouts (logoutPending l) (logoutCliDone l) (logoutCredentialsDone l) (logoutCredentialsExitCode l) (allCredentialsClearPending l) (keyringClearAllProc l) b (credentialClearRetry l)).
Definition set_logout (pending cli credentials : bool) (code : Z) : service -> service :=
  on_lgo (fun l => Logouts pending cli credentials code (allCredentialsClearPending l) (keyringClearAllProc l) (keyringStoreProc l) (credentialClearRetry l)).

Definition when (b : bool) (a : act) : act := if b then a else nothing.
Definition is_some {A} (x : option A) : bool := match x with Some _ => true | None => false end.

(** [Number(map[key] || 0)] *)
Definition counted (m : gmap (list Z) Z) (k : list Z) : Z := default 0 (m !! k).

(** [Qt.callLater]: a function already waiting is called once, in the last place; a
    closure is a new one each time. *)
Definition call_later (x : later) : act := set (fun s =>
  let waiting := agenda (jbs s) in
  match x with
  | PumpLater => set_agenda (List.filter (fun y => match y with PumpLater => false | _ => true end) waiting ++ [x]) s
  | SweepLater => set_agenda (List.filter (fun y => match y with SweepLater => false | _ => true end) waiting ++ [x]) s
  | _ => set_agenda (waiting ++ [x]) s
  end).

(** ** Running jobs *)

Definition isCurrent (t : purge) (s : service) : bool :=
  (methodGeneration t =? counted (quickUnlockMethodGeneration (prg s)) (purgeMethod t))
  && (accountGeneration t =? counted (quickUnlockAccountGeneration (prg s)) (accountSlot t)).

Definition onCancelled (j : job) : act := reading (fun s =>
  match purging j with
  | None => nothing
  | Some t =>
      if negb (bool_decide (quickUnlockPurgePending (prg s) !! purgeKey t = Some (jobId j))) then nothing
      else set (set_budget
        (<[purgeKey t := Z.max 0 (counted (quickUnlockPurgeAttempts (prg s)) (purgeKey t) - 1)]> (quickUnlockPurgeAttempts (prg s)))
        (delete (purgeKey t) (quickUnlockPurgePending (prg s))))
  end).

(** [for (var key in job.env) forgetHeldPassword(job.env[key])] *)
Definition forget_env (j : job) : act := fun s =>
  (s, omap (fun kv => match heldSecretName kv.2 with [] => None | n => Some (Forgot n) end) (env j)).

Definition without_env (j : job) : job :=
  Job (jobId j) (unlock j) (holdOutput j) (secretOutput j) [] (purging j) (slot j) (epoch j) (cancelled j) (heldName j).
Definition with_held (n : option Z) (j : job) : job :=
  Job (jobId j) (unlock j) (holdOutput j) (secretOutput j) (env j) (purging j) (slot j) (epoch j) (cancelled j) n.
Definition as_cancelled (j : job) : job :=
  Job (jobId j) (unlock j) (holdOutput j) (secretOutput j) (env j) (purging j) (slot j) (epoch j) true (heldName j).
Definition placed (x : list Z) (e : Z) (j : job) : job :=
  Job (jobId j) (unlock j) (holdOutput j) (secretOutput j) (env j) (purging j) x e (cancelled j) (heldName j).

(** [running = true]: with a run in flight nothing starts; a scrub runs at once, a job
    waits for a helper that is not up. *)
Definition set_running (scrub : bool) : act := set (fun s =>
  set_proc true (procRun (jbs s) || scrub || helperUp (jbs s)) scrub s).

Definition start_job (j : job) : act := reading (fun s =>
  let n := if holdOutput j then Some (i32 (heldSecretSeq (jbs s) + 1)) else heldName j in
  let j' := without_env (with_held n j) in
  when (holdOutput j) (set (set_seq (i32 (heldSecretSeq (jbs s) + 1)))) ;;
  set (set_job (Some j')) ;;
  set_running false ;;
  emit (Started j')).

(** What [pumpEnvelopeJobs] does with the first of [queue] and, when that one is not
    wanted any more, with the rest. *)
Fixpoint pump_over (queue : list job) : act :=
  match queue with
  | [] => nothing
  | j :: rest =>
      set (set_jobs rest) ;;
      reading (fun s =>
        if match purging j with Some t => negb (isCurrent t s) | None => false end then onCancelled j ;; emit (Dropped j) ;; pump_over rest
        else if unlock j && (cancelled j || negb (bool_decide (slot j = activeSlot s)) || negb (epoch j =? vaultEpoch s) || logoutPending (lgo s))
        then forget_env j ;; emit (Dropped j) ;; pump_over rest
        else start_job j)
  end.

Definition pumpEnvelopeJobs : act := reading (fun s =>
  if procRunning (jbs s) || is_some (envelopeJob (jbs s)) then nothing else pump_over (envelopeJobs (jbs s))).

Definition queueEnvelopeJob (j : job) : act := reading (fun s =>
  set (set_jobs (envelopeJobs (jbs s) ++ [placed (activeSlot s) (vaultEpoch s) j])) ;; pumpEnvelopeJobs).

(** A job object is made and queued. *)
Definition queue_spec (x : spec) : act := reading (fun s =>
  let j := Job (nextJob (jbs s)) (asks_unlock x) (asks_hold x) (asks_secret x) (asks_env x) None [] 0 false None in
  set (set_next (nextJob (jbs s) + 1)) ;; queueEnvelopeJob j).

Definition quickUnlockPurgeMaxAttempts : Z := 3.

Definition queueQuickUnlockPurge (slots : list (list Z)) (method key : list Z) : act := reading (fun s =>
  let p := prg s in
  if bool_decide (key ∈ reconciledMethods p) || is_some (quickUnlockPurgePending p !! key)
     || (quickUnlockPurgeMaxAttempts <=? counted (quickUnlockPurgeAttempts p) key) then nothing
  else
    let id := nextJob (jbs s) in
    let t := Purge slots method key (activeSlot s) (counted (quickUnlockMethodGeneration p) method) (counted (quickUnlockAccountGeneration p) (activeSlot s)) in
    set (set_next (id + 1)) ;;
    set (set_budget (<[key := counted (quickUnlockPurgeAttempts p) key + 1]> (quickUnlockPurgeAttempts p)) (<[key := id]> (quickUnlockPurgePending p))) ;;
    queueEnvelopeJob (Job id false false false [] (Some t) [] 0 false None)).

(** A purge's [onDone]; what it queues comes with the callbacks. *)
Definition purge_done (j : job) (t : purge) (exitCode : Z) : act := reading (fun s =>
  let p := prg s in
  if negb (isCurrent t s) || negb (bool_decide (quickUnlockPurgePending p !! purgeKey t = Some (jobId j))) then nothing
  else
    set (set_budget (quickUnlockPurgeAttempts p) (delete (purgeKey t) (quickUnlockPurgePending p))) ;;
    if exitCode =? 0 then set (set_outcome ({[ purgeKey t ]} ∪ reconciledMethods p) (quickUnlockPurgeFailures p ∖ {[ purgeKey t ]}))
    else
      set (set_outcome (reconciledMethods p) ({[ purgeKey t ]} ∪ quickUnlockPurgeFailures p)) ;;
      when (negb (logoutPending (lgo s))) (call_later (RetryLater j))).

Fixpoint queue_all (l : list spec) : act :=
  match l with [] => nothing | x :: l => queue_spec x ;; queue_all l end.

(** ** The sweep of a logout *)

Definition credentialStoresRunning (s : service) : bool := keyringStoreProc (lgo s) || procRunning (jbs s).

Definition requestAllCredentialClear : act := reading (fun s =>
  if keyringClearAllProc (lgo s) then set (set_sweep true true)
  else if credentialStoresRunning s then set (set_sweep true false) ;; set (set_retry true)
  else set (set_sweep false true) ;; emit Swept).

(** The job has ended; [held]: [envelopeProc.outputHeld]; [follow]: the jobs its callback
    queues, if it is called. *)
Definition settle_job (exitCode : Z) (held : bool) (follow : list spec) (j : job) : act := reading (fun s =>
  when (secretOutput j) (call_later ScrubLater) ;;
  if (negb (logoutPending (lgo s)) && bool_decide (slot j = activeSlot s) && (negb (unlock j) || (negb (cancelled j) && (epoch j =? vaultEpoch s))))
     || is_some (purging j)
  then
    emit (Done j exitCode (holdOutput j && held)) ;;
    match purging j with Some t => purge_done j t exitCode | None => nothing end ;;
    queue_all follow
  else emit (Discarded j) ;; when (holdOutput j && held) (emit (ForgotOutput (heldName j)))).

(** [finish] has set the process idle. *)
Definition onEnvelopeJobExited (exitCode : Z) (held : bool) (follow : list spec) : act :=
  set (fun s => set_proc false false (procScrub (jbs s)) s) ;;
  reading (fun s =>
    if procScrub (jbs s) then pumpEnvelopeJobs
    else
      set (set_job None) ;;
      match envelopeJob (jbs s) with Some j => settle_job exitCode held follow j | None => nothing end ;;
      reading (fun s => when (logoutPending (lgo s) && allCredentialsClearPending (lgo s)) (call_later SweepLater)) ;;
      call_later PumpLater).

(** ** Cancelling and dropping *)

Fixpoint cancel_queued (l : list job) : act :=
  match l with [] => nothing | j :: l => when (unlock j) (forget_env j ;; emit (Dropped j)) ;; cancel_queued l end.

Definition cancelEnvelopeUnlockJobs : act := reading (fun s =>
  cancel_queued (envelopeJobs (jbs s)) ;;
  set (set_jobs (List.filter (fun j => negb (unlock j)) (envelopeJobs (jbs s)))) ;;
  match envelopeJob (jbs s) with
  | Some j =>
      when (unlock j)
        (set (set_job (Some (as_cancelled j))) ;;
         set (set_proc false (procRun (jbs s)) (procScrub (jbs s))) ;;
         if procRun (jbs s) then when (procRunning (jbs s)) (emit Killed)
         else set (set_job None) ;; emit (Dropped j) ;; call_later PumpLater)
  | None => nothing
  end).

Fixpoint discard (l : list job) : act :=
  match l with [] => nothing | j :: l => forget_env j ;; onCancelled j ;; emit (Dropped j) ;; discard l end.

Definition dropEnvelopeState : act := reading (fun s =>
  set (set_jobs []) ;;
  discard (envelopeJobs (jbs s)) ;;
  match envelopeJob (jbs s) with Some j => onCancelled j | None => nothing end ;;
  set (fun s => on_prg (fun p => Purges (reconciledMethods p) (quickUnlockPurgeAttempts p) (quickUnlockPurgePending p) (quickUnlockPurgeFailures p)
    (quickUnlockMethodGeneration p)
    (<[activeSlot s := counted (quickUnlockAccountGeneration p) (activeSlot s) + 1]> (quickUnlockAccountGeneration p))) s)).

(** [key.slice(-(method.length + 1)) === ":" + method] *)
Definition of_method (method key : list Z) : bool :=
  bool_decide (drop (length key - (length method + 1)) key = 58 :: method).

(** The grace period and the purges that wait for the list of accounts are left out. *)
Definition noteQuickUnlockEnabled (method : list Z) : act := set (on_prg (fun p =>
  Purges (filter (fun k => of_method method k = false) (reconciledMethods p))
    (filter (fun kv => of_method method kv.1 = false) (quickUnlockPurgeAttempts p))
    (filter (fun kv => of_method method kv.1 = false) (quickUnlockPurgePending p))
    (filter (fun k => of_method method k = false) (quickUnlockPurgeFailures p))
    (<[method := counted (quickUnlockMethodGeneration p) method + 1]> (quickUnlockMethodGeneration p))
    (quickUnlockAccountGeneration p))).

(** ** The vault around it *)

(** The part of [dropVaultState] that concerns the queue. *)
Definition dropVaultState : act := cancelEnvelopeUnlockJobs ;; set (fun s => set_epoch (i32 (vaultEpoch s + 1)) s).
Definition leave_for (x : list Z) : act := dropVaultState ;; dropEnvelopeState ;; set (set_slot x).

Definition logoutAccount : act := reading (fun s =>
  if logoutPending (lgo s) then nothing
  else set (set_logout true false false 0) ;; dropVaultState ;; dropEnvelopeState ;; requestAllCredentialClear).

(** The account moved to is [next]. *)
Definition finishLogoutIfReady (next : list Z) : act := reading (fun s =>
  let l := lgo s in
  if negb (logoutPending l) || negb (logoutCliDone l) || negb (logoutCredentialsDone l) then nothing
  else if negb (logoutCredentialsExitCode l =? 0) then nothing
  else set (set_logout false true true 0) ;; emit LoggedOut ;; set (set_slot next)).

Definition onLogoutCliFinished (next : list Z) : act := reading (fun s =>
  if negb (logoutPending (lgo s)) then nothing
  else set (set_logout true true (logoutCredentialsDone (lgo s)) (logoutCredentialsExitCode (lgo s))) ;; finishLogoutIfReady next).

Definition onLogoutCredentialsFinished (exitCode : Z) (next : list Z) : act := reading (fun s =>
  if negb (logoutPending (lgo s)) then nothing
  else set (set_logout true (logoutCliDone (lgo s)) true exitCode) ;; finishLogoutIfReady next).

Definition retryLogoutCleanup : act := reading (fun s =>
  let l := lgo s in
  if negb (logoutPending l && logoutCredentialsDone l && negb (logoutCredentialsExitCode l =? 0)) then nothing
  else set (set_logout true (logoutCliDone l) false 0) ;; requestAllCredentialClear).

(** [keyringClearAllProc.onExited] *)
Definition sweep_exited (exitCode : Z) (next : list Z) : act :=
  set (fun s => set_sweep (allCredentialsClearPending (lgo s)) false s) ;;
  reading (fun s => if allCredentialsClearPending (lgo s) then call_later SweepLater else onLogoutCredentialsFinished exitCode next).

(** The session's store starts, or [keyringStoreProc] exits. *)
Definition store_runs (b : bool) : act :=
  set (set_storing b) ;;
  reading (fun s => when (negb b && logoutPending (lgo s) && allCredentialsClearPending (lgo s)) (call_later SweepLater)).

(** ** Events *)

Inductive job_event :=
| Queue (x : spec) | QueuePurge (slots : list (list Z)) (method key : list Z)
| CancelUnlocks | LockVault | OpenVault | SwitchAccount (x : list Z) | NoteEnabled (method : list Z)
| Logout | LogoutCli (next : list Z) | RetryCleanup | StoreRuns (b : bool)
| HelperReady | HelperGone
| JobExited (exitCode : Z) (held : bool) (follow : list spec) | SweepExited (exitCode : Z) (next : list Z) | SweepTimer | NextDeferred.

Definition run_later (x : later) : act :=
  match x with
  | ScrubLater => reading (fun s => if procRunning (jbs s) then nothing else set_running true ;; when (negb (procRun (jbs s))) (emit StartedScrub))
  | PumpLater => pumpEnvelopeJobs
  | RetryLater j => reading (fun s =>
      match purging j with
      | Some t => when (negb (logoutPending (lgo s)) && isCurrent t s) (queueQuickUnlockPurge (purgeSlots t) (purgeMethod t) (purgeKey t))
      | None => nothing
      end)
  | SweepLater => requestAllCredentialClear
  end.

Definition dispatch (ev : job_event) : act :=
  match ev with
  | Queue x => queue_spec x
  | QueuePurge slots method key => queueQuickUnlockPurge slots method key
  | CancelUnlocks => cancelEnvelopeUnlockJobs
  | LockVault => dropVaultState
  | OpenVault => set (fun s => set_epoch (i32 (vaultEpoch s + 1)) s)
  | SwitchAccount x => leave_for x
  | NoteEnabled method => noteQuickUnlockEnabled method
  | Logout => logoutAccount
  | LogoutCli next => onLogoutCliFinished next
  | RetryCleanup => retryLogoutCleanup
  | StoreRuns b => store_runs b
  | HelperReady => set (fun s => set_helper true (set_proc (procRunning (jbs s)) (procRun (jbs s) || procRunning (jbs s)) (procScrub (jbs s)) s))
  | HelperGone => set (set_helper false)
  | JobExited code held follow => onEnvelopeJobExited code held follow
  | SweepExited code next => sweep_exited code next
  | SweepTimer => set (set_retry false) ;; reading (fun s => when (logoutPending (lgo s) && allCredentialsClearPending (lgo s)) requestAllCredentialClear)
  | NextDeferred => reading (fun s => match agenda (jbs s) with [] => nothing | x :: l => set (set_agenda l) ;; run_later x end)
  end.

(** Deferred calls come in their order, and anything from outside may come before them.
    A process exits only with a run in flight, a switch is refused during a logout, and
    no store is started then.  The key of a purge ends in its method. *)
Definition possible (s : service) (ev : job_event) : Prop :=
  match ev with
  | NextDeferred => agenda (jbs s) <> []
  | JobExited _ _ _ => procRun (jbs s) = true
  | SweepExited _ _ => keyringClearAllProc (lgo s) = true
  | SweepTimer => credentialClearRetry (lgo s) = true
  | SwitchAccount _ => logoutPending (lgo s) = false
  | QueuePurge _ method key => of_method method key = true
  | StoreRuns b => b = true -> logoutPending (lgo s) = false
  | _ => True
  end.

Definition step_service (ev : job_event) (s : service) : service := (dispatch ev s).1.

Definition init_service (x : list Z) : service :=
  Service (Jobs [] None false false false false [] 0 0) (Purges ∅ ∅ ∅ ∅ ∅ ∅) (Logouts false false false 0 false false false false) x 0.

(** A state with all that was done until then. *)
Inductive reached : list job_effect -> service -> Prop :=
| reached_init x : reached [] (init_service x)
| reached_step ev done s : reached done s -> possible s ev -> reached (done ++ (dispatch ev s).2) (step_service ev s).
