(* ===== verification/EnvelopeQueueCorrect.v ===== *)
(** * The envelope queue is in order

    The invariant of [EnvelopeQueue] ([inv_but]): the five shapes of the process and its
    job, a queue with a job, a run or a pump before it, and purges whose pending marks
    name a current job that is waiting or running.  [moves] accounts for the jobs over a step. *)

From stdpp Require Import gmap.
From stdpp Require Import sorting.
From S2P Require Import Prelude.
From S2P Require Import JsNum.
From S2P Require Import JsString.
From S2P Require Import JsValue.
From S2P Require Import JsInt.
From S2P Require Import Helpers.
From S2P Require Import Actions.
From S2P Require Import EnvelopeQueue.
Local Open Scope act_scope.

(** ** What became of the jobs *)

Definition settled (out : list job_effect) : list Z :=
  omap (fun x => match x with Done j _ _ | Discarded j | Dropped j => Some (jobId j) | _ => None end) out.
Definition started (out : list job_effect) : list Z := omap (fun x => match x with Started j => Some (jobId j) | _ => None end) out.

Lemma settled_app a b : settled (a ++ b) = settled a ++ settled b.
Proof. apply omap_app. Qed.
Lemma started_app a b : started (a ++ b) = started a ++ started b.
Proof. apply omap_app. Qed.

Definition live (q : jobs) : list job := option_list (envelopeJob q) ++ envelopeJobs q.
Definition ids (l : list job) : list Z := map jobId l.

(** A job that is there was made since, or was there and is cancelled if it was. *)
Definition from_old (s s' : service) : Prop :=
  forall j', j' ∈ live (jbs s') -> nextJob (jbs s) <= jobId j'
    \/ exists i, i ∈ live (jbs s) /\ jobId j' = jobId i /\ unlock j' = unlock i /\ (cancelled i = true -> cancelled j' = true).

(** Every job that was waiting, running or made in between is settled, waiting or
    running, and jobs are started in the order of the queue. *)
Definition moves (s : service) (out : list job_effect) (s' : service) : Prop :=
  exists fresh, seqZ (nextJob (jbs s)) (nextJob (jbs s') - nextJob (jbs s)) = fresh /\ nextJob (jbs s) <= nextJob (jbs s')
  /\ settled out ++ ids (live (jbs s')) ≡ₚ ids (live (jbs s)) ++ fresh
  /\ sublist (started out ++ ids (envelopeJobs (jbs s'))) (ids (envelopeJobs (jbs s)) ++ fresh)
  /\ from_old s s'.

Lemma from_old_sub s s' : (forall j, j ∈ live (jbs s') -> j ∈ live (jbs s)) -> from_old s s'.
Proof. intros H j Hj. right. exists j. auto. Qed.

Lemma seqZ_join n m k : n <= m -> m <= k -> seqZ n (m - n) ++ seqZ m (k - m) = seqZ n (k - n).
Proof. intros H1 H2. replace (k - n) with ((m - n) + (k - m)) by lia. rewrite seqZ_app by lia. by replace (n + (m - n)) with m by lia. Qed.

Lemma moves_same s out s' : nextJob (jbs s') = nextJob (jbs s) -> live (jbs s') = live (jbs s) -> ids (envelopeJobs (jbs s')) = ids (envelopeJobs (jbs s)) ->
  settled out = [] -> started out = [] -> moves s out s'.
Proof. intros E1 E2 E3 E4 E5. exists []. rewrite E1, E2, E3, E4, E5, Z.sub_diag, !app_nil_r. split_and!; [done|lia|done|done|]. apply from_old_sub. by rewrite E2. Qed.

Lemma moves_trans s1 s2 s3 o1 o2 : moves s1 o1 s2 -> moves s2 o2 s3 -> moves s1 (o1 ++ o2) s3.
Proof.
  intros (f1 & E1 & L1 & P1 & S1 & O1) (f2 & E2 & L2 & P2 & S2 & O2). exists (f1 ++ f2). subst. split_and!; [by rewrite seqZ_join|lia|..].
  - rewrite settled_app, <- app_assoc, P2, (app_assoc _ _ (seqZ _ _)), P1. by rewrite <- app_assoc.
  - rewrite started_app, <- app_assoc. trans (started o1 ++ ids (envelopeJobs (jbs s2)) ++ seqZ (nextJob (jbs s2)) (nextJob (jbs s3) - nextJob (jbs s2))).
    + by apply sublist_app.
    + rewrite (app_assoc _ _ (seqZ (nextJob (jbs s2)) _)), (app_assoc _ (seqZ (nextJob (jbs s1)) _)). by apply sublist_app.
  - intros j Hj. destruct (O2 j Hj) as [?|(i & Hi & -> & -> & Hc)]; [left; lia|]. destruct (O1 i Hi) as [?|(i' & Hi' & -> & -> & Hc')]; [by left|]. right. exists i'. split_and!; auto.
Qed.

(** ** The invariant *)

(** The process runs its job, or has been told to kill it, an unlock, or a deferred scrub
    has taken the process over before the killed job ended. *)
Definition shape (q : jobs) : Prop :=
  match envelopeJob q with
  | Some j => (procScrub q = false
      /\ (procRunning q = true \/ (procRunning q = false /\ procRun q = true /\ unlock j = true /\ cancelled j = true)))
    \/ (procScrub q = true /\ unlock j = true /\ cancelled j = true)
  | None => (procRunning q = false /\ procRun q = false) \/ (procScrub q = true /\ procRunning q = true /\ procRun q = true)
  end.

(** A purge's pending mark names a current job with its key. *)
Definition pending_ok (p : purges) (l : list job) (s : service) : Prop :=
  forall k id, quickUnlockPurgePending p !! k = Some id ->
    exists j t, j ∈ l /\ jobId j = id /\ purging j = Some t /\ purgeKey t = k /\ isCurrent t s = true.

Definition purge_ok (j : job) : Prop :=
  forall t, purging j = Some t -> unlock j = false /\ of_method (purgeMethod t) (purgeKey t) = true.

(** [b]: whether a queue that waits for nothing else is sure to be pumped. *)
Record inv_but (b : bool) (s : service) : Prop := {
  v_nodup : NoDup (ids (live (jbs s)));
  v_range : forall j, j ∈ live (jbs s) -> 0 <= jobId j < nextJob (jbs s);
  v_shape : shape (jbs s);
  v_pump : b = true -> envelopeJobs (jbs s) <> [] -> is_some (envelopeJob (jbs s)) || procRunning (jbs s) = true \/ PumpLater ∈ agenda (jbs s);
  v_pending : pending_ok (prg s) (live (jbs s)) s;
  v_purge : forall j, j ∈ live (jbs s) -> purge_ok j;
  v_retry : forall j, RetryLater j ∈ agenda (jbs s) -> purge_ok j;
  v_budget : forall k, 0 <= counted (quickUnlockPurgeAttempts (prg s)) k <= quickUnlockPurgeMaxAttempts;
  v_next : 0 <= nextJob (jbs s)
}.

Definition inv : service -> Prop := inv_but true.

Lemma inv_weaken b s : inv s -> inv_but b s.
Proof. intros [V1 V2 V3 V4 V5 V6 V7 V8 V9]. split; try done. intros _. by apply V4. Qed.

(** The jobs' part alone decides, with the purges. *)
Lemma inv_same b s s' : jbs s' = jbs s -> prg s' = prg s -> inv_but b s -> inv_but b s'.
Proof. intros Ej Ep [V1 V2 V3 V4 V5 V6 V7 V8 V9]. split; rewrite ?Ej, ?Ep; try done. intros k id Hk. unfold isCurrent. rewrite Ep. by apply V5. Qed.

(** ** Pumping the queue *)

Definition same_job (j j' : job) : Prop :=
  jobId j' = jobId j /\ unlock j' = unlock j /\ purging j' = purging j /\ slot j' = slot j /\ epoch j' = epoch j /\ cancelled j' = cancelled j
  /\ holdOutput j' = holdOutput j /\ secretOutput j' = secretOutput j.

(** All but the jobs and the process. *)
Definition aside (s s' : service) : Prop :=
  prg s' = prg s /\ lgo s' = lgo s /\ activeSlot s' = activeSlot s /\ vaultEpoch s' = vaultEpoch s
  /\ agenda (jbs s') = agenda (jbs s) /\ nextJob (jbs s') = nextJob (jbs s) /\ helperUp (jbs s') = helperUp (jbs s).

(** A job without a mark to take back. *)
Definition unwanted (j : job) (s : service) : Prop := forall t, purging j = Some t -> isCurrent t s = false.

(** The first jobs of the queue are dropped and the next one started, if any is left. *)
Definition pumped (q : list job) (s : service) (out : list job_effect) (s' : service) : Prop :=
  exists dropped, settled out = ids dropped /\ (forall x, x ∈ dropped -> unwanted x s) /\
  ((dropped = q /\ started out = [] /\ envelopeJob (jbs s') = None /\ envelopeJobs (jbs s') = []
    /\ procRunning (jbs s') = procRunning (jbs s) /\ procRun (jbs s') = procRun (jbs s) /\ procScrub (jbs s') = procScrub (jbs s))
   \/ (exists j j' rest, q = dropped ++ j :: rest /\ same_job j j' /\ started out = [jobId j] /\ envelopeJob (jbs s') = Some j' /\ envelopeJobs (jbs s') = rest
    /\ procRunning (jbs s') = true /\ procRun (jbs s') = procRun (jbs s) || helperUp (jbs s) /\ procScrub (jbs s') = false)).

(** Effects that neither answer a job nor sweep. *)
Definition small (x : job_effect) : Prop := match x with Done _ _ _ | Discarded _ | Swept | LoggedOut => False | _ => True end.

Lemma forget_env_out j s : Forall small (forget_env j s).2 /\ settled (forget_env j s).2 = [] /\ started (forget_env j s).2 = [].
Proof.
  unfold forget_env. cbn [snd]. induction (env j) as [|[k v] l (IH1 & IH2 & IH3)]; [done|]. cbn. by destruct (heldSecretName v); [|split_and!; [constructor|..]].
Qed.

Lemma start_pumped j rest s : envelopeJobs (jbs s) = rest -> envelopeJob (jbs s) = None ->
  let r := start_job j s in pumped (j :: rest) s r.2 r.1 /\ aside s r.1 /\ Forall small r.2.
Proof.
  intros Eq En. unfold start_job, reading, when. set (n := if holdOutput j then Some _ else _).
  destruct (holdOutput j) eqn:Eh; cbn; (split_and!; [|done|by apply Forall_singleton]); exists []; (split; [done|]); (split; [set_solver|]); right;
    exists j, (without_env (with_held n j)), rest; split_and!; try done; cbn; by rewrite ?orb_false_r.
Qed.

(** What the queue must satisfy for that: its purges' marks. *)
Definition marks (q : list job) (s : service) : Prop := NoDup (ids q) /\ pending_ok (prg s) q s /\ (forall j, j ∈ q -> purge_ok j).

Lemma same_id l j j' : NoDup (ids l) -> j ∈ l -> j' ∈ l -> jobId j = jobId j' -> j = j'.
Proof.
  intros Hn H1 H2 E. apply list_elem_of_lookup in H1 as [i1 H1]. apply list_elem_of_lookup in H2 as [i2 H2].
  assert (i1 = i2) as ->; [|congruence]. apply (NoDup_lookup (ids l) i1 i2 (jobId j) Hn); unfold ids; rewrite list_lookup_fmap; [by rewrite H1|rewrite H2; cbn; congruence].
Qed.

(** A job that is not current has no mark left to take back. *)
Lemma stale_cancel j t q s : marks q s -> j ∈ q -> purging j = Some t -> isCurrent t s = false -> onCancelled j s = (s, []).
Proof.
  intros (Hn & Hp & _) Hj Et Hc. unfold onCancelled, reading. rewrite Et. rewrite bool_decide_eq_false_2; [done|]. intros Hk.
  destruct (Hp _ _ Hk) as (j' & t' & Hj' & Ei & Et' & _ & Hcur). assert (j' = j) as -> by (by apply (same_id q)). congruence.
Qed.

Lemma marks_rest j q s : marks (j :: q) s -> unwanted j s -> marks q (set_jobs q s).
Proof.
  intros (Hn & Hp & Ho) Hj. cbn in Hn. apply NoDup_cons in Hn as [_ Hn]. split_and!; [done| |intros x Hx; apply Ho; by right].
  intros k id Hk. destruct (Hp k id Hk) as (x & t & [->|Hx]%elem_of_cons & E1 & E2 & E3 & E4); [by rewrite (Hj t E2) in E4|]. by exists x, t.
Qed.

Lemma dropped_pumped j q s o s' : unwanted j s -> settled o = [jobId j] -> started o = [] -> pumped q (set_jobs q s) s'.2 s'.1 -> pumped (j :: q) s (o ++ s'.2) s'.1.
Proof.
  intros Hj E1 E2 (d & Ed & Hu & Hd). exists (j :: d). rewrite settled_app, started_app, E1, E2, Ed. split; [done|].
  split; [by intros x [->|Hx]%elem_of_cons; [|apply Hu]|]. destruct Hd as [(-> & H)|(x & x' & rest & -> & H)]; [by left|].
  right. by exists x, x', rest.
Qed.

Lemma pump_over_pumped q s : envelopeJobs (jbs s) = q -> envelopeJob (jbs s) = None -> marks q s ->
  let r := pump_over q s in pumped q s r.2 r.1 /\ aside s r.1 /\ Forall small r.2.
Proof.
  revert s. induction q as [|j q IH]; intros s Eq En Hm; cbn zeta.
  { split_and!; [|done|constructor]. exists []. split; [done|]. split; [set_solver|]. left. cbn. by rewrite Eq, En. }
  cbn [pump_over]. rewrite fst_seq, snd_seq. cbn [fst snd Actions.set app]. unfold reading at 1 2 3 4. set (s1 := set_jobs q s).
  assert (Hgo : unwanted j s -> forall o, settled o = [jobId j] -> started o = [] -> Forall small o ->
    pumped (j :: q) s (o ++ (pump_over q s1).2) (pump_over q s1).1 /\ aside s (pump_over q s1).1 /\ Forall small (o ++ (pump_over q s1).2)).
  { intros Hj o E1 E2 Ho. destruct (IH s1 eq_refl En (marks_rest j q s Hm Hj)) as (P1 & P2 & P3). split_and!; [by apply dropped_pumped|exact P2|by apply Forall_app]. }
  destruct (match purging j with Some t => negb (isCurrent t s1) | None => false end) eqn:Ec.
  { destruct (purging j) as [t|] eqn:Et; [|done]. apply negb_true_iff in Ec.
    assert (onCancelled j s1 = (s1, [])) as Eo.
    { destruct Hm as (Hn & Hp & Ho). apply (stale_cancel j t (j :: q)); [done|by left|done|done]. }
    rewrite !fst_seq, !snd_seq, Eo. cbn [fst snd app emit]. apply (Hgo ltac:(intros t' E; by simplify_eq) [Dropped j]); [done|done|by apply Forall_singleton]. }
  destruct (unlock j && _) eqn:Eu.
  { apply andb_true_iff in Eu as [Eu _]. rewrite !fst_seq, !snd_seq. destruct (forget_env_out j s1) as (F1 & F2 & F3).
    change (forget_env j s1).1 with s1. cbn [emit fst snd]. rewrite app_assoc. apply Hgo.
    - intros t Et. destruct Hm as (_ & _ & Ho). destruct (Ho j ltac:(by left) t Et). congruence.
    - by rewrite settled_app, F2.
    - by rewrite started_app, F3.
    - apply Forall_app. by repeat constructor. }
  destruct (start_pumped j q s1 eq_refl En) as (P1 & P2 & P3). split_and!; [|exact P2|exact P3].
  destruct P1 as (d & Ed & Hu & Hd). exists d. split; [done|]. split; [exact Hu|exact Hd].
Qed.

Lemma elem_ids j l : j ∈ l -> jobId j ∈ ids l.
Proof. apply list_elem_of_fmap_2. Qed.

Lemma inv_marks b s : inv_but b s -> envelopeJob (jbs s) = None -> marks (envelopeJobs (jbs s)) s.
Proof.
  intros H En. assert (live (jbs s) = envelopeJobs (jbs s)) as El by (unfold live; by rewrite En). rewrite <- El.
  split_and!; [apply (v_nodup _ _ H)|apply (v_pending _ _ H)|apply (v_purge _ _ H)].
Qed.

Lemma same_refl l : Forall2 same_job l l.
Proof. by induction l; constructor. Qed.

(** The jobs after a pump are those that were not dropped. *)
Lemma pumped_live q s out s' : pumped q s out s' ->
  exists dropped l, settled out = ids dropped /\ (forall x, x ∈ dropped -> unwanted x s) /\ q = dropped ++ l /\ Forall2 same_job l (live (jbs s'))
  /\ sublist (started out ++ ids (envelopeJobs (jbs s'))) (ids l).
Proof.
  intros (d & E1 & Hu & [(-> & E2 & E3 & E4 & _)|(j & j' & rest & -> & Hs & E2 & E3 & E4 & _)]); unfold live; rewrite E2, E3, E4; cbn.
  - exists q, []. rewrite app_nil_r. split_and!; try done; constructor.
  - exists d, (j :: rest). split_and!; try done. constructor; [done|]. apply same_refl.
Qed.

Lemma same_ids l l' : Forall2 same_job l l' -> ids l' = ids l.
Proof. induction 1 as [|j j' l l' (E & _) _ IH]; [done|]. cbn. unfold ids in IH. by rewrite E, IH. Qed.

Lemma same_elem l l' j : Forall2 same_job l l' -> j ∈ l' -> exists i, i ∈ l /\ same_job i j.
Proof. intros H Hj. apply list_elem_of_lookup in Hj as [n Hn]. destruct (Forall2_lookup_r _ _ _ _ _ H Hn) as (i & Hi & Hs). exists i. split; [by eapply list_elem_of_lookup_2|done]. Qed.
Lemma same_elem' l l' j : Forall2 same_job l l' -> j ∈ l -> exists i, i ∈ l' /\ same_job j i.
Proof. intros H Hj. apply list_elem_of_lookup in Hj as [n Hn]. destruct (Forall2_lookup_l _ _ _ _ _ H Hn) as (i & Hi & Hs). exists i. split; [by eapply list_elem_of_lookup_2|done]. Qed.

Lemma pumped_inv b s out s' : inv_but b s -> envelopeJob (jbs s) = None -> procRunning (jbs s) = false ->
  pumped (envelopeJobs (jbs s)) s out s' -> aside s s' -> inv s' /\ moves s out s'.
Proof.
  intros H En Er Hp (A1 & A2 & A3 & A4 & A5 & A6 & A7).
  assert (live (jbs s) = envelopeJobs (jbs s)) as El by (unfold live; by rewrite En).
  destruct (pumped_live _ _ _ _ Hp) as (d & l & E1 & Hu & Eq & Hl & Hst). pose proof (same_ids _ _ Hl) as Ei.
  destruct H as [V1 V2 V3 V4 V5 V6 V7 V8 V9]. rewrite El, Eq in V1, V2, V5, V6. unfold ids in V1. rewrite map_app in V1. apply NoDup_app in V1 as (N1 & N2 & N3).
  assert (Hin : forall x, x ∈ live (jbs s') -> exists i, i ∈ d ++ l /\ same_job i x).
  { intros x Hx. destruct (same_elem _ _ _ Hl Hx) as (i & Hi & Hs). exists i. split; [set_solver|done]. }
  split.
  - split; rewrite ?A1, ?A5, ?A6.
    + by rewrite Ei.
    + intros x Hx. destruct (Hin x Hx) as (i & Hi & -> & _). by apply V2.
    + unfold shape in *. rewrite En in V3. destruct V3 as [[_ V3]|(_ & ? & _)]; [|congruence]. destruct Hp as (d' & _ & _ & [(_ & _ & -> & _ & -> & -> & _)|(j & j' & r & _ & _ & _ & -> & _ & -> & _ & ->)]); auto.
    + intros _ Hne. left. destruct Hp as (d' & _ & _ & [(_ & _ & _ & ? & _)|(j & j' & r & _ & _ & _ & -> & _)]); done.
    + intros k id Hk. destruct (V5 k id Hk) as (j & t & Hj & F1 & F2 & F3 & F4). apply elem_of_app in Hj as [Hj|Hj].
      { by rewrite (Hu j Hj t F2) in F4. }
      destruct (same_elem' _ _ _ Hl Hj) as (i & Hi & I1 & _ & I3 & _). exists i, t. split_and!; [done|congruence|congruence|done|]. unfold isCurrent. by rewrite A1.
    + intros x Hx t Et. destruct (Hin x Hx) as (i & Hi & _ & E2 & E3 & _). rewrite E2. apply (V6 i Hi). congruence.
    + done.
    + done.
    + done.
  - exists []. rewrite A6, Z.sub_diag, !app_nil_r, El, Eq, E1, Ei. unfold ids. rewrite map_app. split_and!; [done|lia|done|by apply sublist_inserts_l|].
    intros x Hx. destruct (Hin x Hx) as (i & Hi & S1 & S2 & _ & _ & _ & S6 & _). right. exists i. rewrite El, Eq. split_and!; try done. congruence.
Qed.

Lemma pump_inv b s : inv_but b s -> inv (pumpEnvelopeJobs s).1 /\ moves s (pumpEnvelopeJobs s).2 (pumpEnvelopeJobs s).1
  /\ aside s (pumpEnvelopeJobs s).1 /\ Forall small (pumpEnvelopeJobs s).2.
Proof.
  intros H. unfold pumpEnvelopeJobs, reading. destruct (procRunning (jbs s) || is_some (envelopeJob (jbs s))) eqn:E.
  - split_and!; [|by apply moves_same|done|constructor]. destruct H as [V1 V2 V3 V4 V5 V6 V7 V8 V9]. split; try done. intros _ _. left. by rewrite orb_comm.
  - apply orb_false_iff in E as [E1 E2]. assert (envelopeJob (jbs s) = None) as En by (by destruct (envelopeJob (jbs s))).
    destruct (pump_over_pumped _ s eq_refl En (inv_marks b s H En)) as (P1 & P2 & P3). destruct (pumped_inv b s _ _ H En E1 P1 P2). done.
Qed.

(** ** Queueing *)

(** What a queued job leaves alone. *)
Definition beside (s s' : service) : Prop :=
  lgo s' = lgo s /\ activeSlot s' = activeSlot s /\ vaultEpoch s' = vaultEpoch s /\ agenda (jbs s') = agenda (jbs s).

Lemma aside_beside s s' : aside s s' -> beside s s'.
Proof. by intros (_ & ? & ? & ? & ? & _). Qed.

Lemma queue_inv b s s1 j : inv_but b s -> jbs s1 = jbs (set_next (nextJob (jbs s) + 1) s) -> jobId j = nextJob (jbs s) -> purge_ok j ->
  pending_ok (prg s1) (live (jbs s) ++ [placed (activeSlot s1) (vaultEpoch s1) j]) s1 ->
  (forall k, 0 <= counted (quickUnlockPurgeAttempts (prg s1)) k <= quickUnlockPurgeMaxAttempts) ->
  let r := queueEnvelopeJob j s1 in inv r.1 /\ moves s r.2 r.1 /\ beside s1 r.1 /\ prg r.1 = prg s1 /\ Forall small r.2.
Proof.
  intros H Ej Eid Ho Hp Hb. unfold queueEnvelopeJob, reading. rewrite fst_seq, snd_seq. cbn [fst snd Actions.set app].
  set (j' := placed _ _ j) in *. set (s2 := set_jobs _ s1).
  assert (live (jbs s2) = live (jbs s) ++ [j']) as El by (unfold s2, live; cbn; rewrite Ej; cbn; by rewrite app_assoc).
  assert (nextJob (jbs s2) = nextJob (jbs s) + 1) as En by (unfold s2; cbn; by rewrite Ej).
  assert (inv_but false s2) as H2.
  { destruct H as [V1 V2 V3 V4 V5 V6 V7 V8 V9]. split; rewrite ?El, ?En.
    - unfold ids. rewrite map_app. apply NoDup_app. split_and!; [done| |apply NoDup_singleton].
      intros x Hx [->|?]%elem_of_cons; [|set_solver]. apply list_elem_of_fmap in Hx as (i & E & Hi). pose proof (V2 i Hi). cbn in E. lia.
    - intros x [Hx|Hx]%elem_of_app; [pose proof (V2 x Hx); lia|]. apply list_elem_of_singleton in Hx as ->. cbn. lia.
    - unfold s2. cbn. unfold shape in *. cbn. by rewrite Ej.
    - done.
    - exact Hp.
    - intros x [Hx|Hx]%elem_of_app; [by apply V6|]. by apply list_elem_of_singleton in Hx as ->.
    - unfold s2. cbn. by rewrite Ej.
    - done.
    - lia. }
  destruct (pump_inv false s2 H2) as (P1 & P2 & P3 & P4). split_and!; [done| |by apply aside_beside in P3|by destruct P3|done].
  rewrite <- (app_nil_l (pumpEnvelopeJobs s2).2). apply (moves_trans s s2); [|done].
  exists [nextJob (jbs s)]. rewrite En, El. unfold ids. rewrite map_app. cbn. rewrite Eid. split_and!; [by replace (_ + 1 - _) with 1 by lia|lia|done|..].
  - rewrite Ej. cbn. rewrite map_app. cbn. by rewrite Eid.
  - intros x Hx. rewrite El in Hx. apply elem_of_app in Hx as [Hx|Hx]; [right; exists x; auto|]. apply list_elem_of_singleton in Hx as ->. left. cbn. lia.
Qed.

Lemma pending_more p l l' s : pending_ok p l s -> pending_ok p (l ++ l') s.
Proof. intros H k id Hk. destruct (H k id Hk) as (j & t & Hj & ?). exists j, t. set_solver. Qed.

Lemma queue_spec_inv b x s : inv_but b s ->
  let r := queue_spec x s in inv r.1 /\ moves s r.2 r.1 /\ beside s r.1 /\ prg r.1 = prg s /\ Forall small r.2.
Proof.
  intros H. unfold queue_spec, reading. rewrite fst_seq, snd_seq. cbn [fst snd Actions.set app].
  apply (queue_inv b s (set_next (nextJob (jbs s) + 1) s)); [done|done|done|by intros t E| |apply (v_budget _ _ H)]. apply pending_more, (v_pending _ _ H).
Qed.

Lemma counted_insert m k v k' : counted (<[k := v]> m) k' = if bool_decide (k = k') then v else counted m k'.
Proof. unfold counted. destruct (decide (k = k')) as [->|Hn]; [rewrite lookup_insert_eq; by rewrite bool_decide_eq_true_2|]. rewrite lookup_insert_ne by done. by rewrite bool_decide_eq_false_2. Qed.

Lemma moves_none s : moves s [] s.
Proof. by apply moves_same. Qed.

Lemma queue_purge_inv b slots method key s : inv_but b s -> of_method method key = true ->
  let r := queueQuickUnlockPurge slots method key s in inv_but b r.1 /\ moves s r.2 r.1 /\ beside s r.1 /\ Forall small r.2.
Proof.
  intros H Hm. unfold queueQuickUnlockPurge, reading. destruct (_ || _) eqn:E.
  { split_and!; [done|apply moves_none|done|constructor]. }
  apply orb_false_iff in E as [E E3]. apply orb_false_iff in E as [E1 E2]. rewrite !fst_seq, !snd_seq. cbn [fst snd Actions.set app]. set (t := Purge _ _ _ _ _ _). set (j := Job _ _ _ _ _ _ _ _ _ _). set (s1 := set_budget _ _ _).
  assert (purge_ok j) as Hj by (intros t' [= <-]; done).
  destruct (queue_inv b s s1 j H eq_refl eq_refl Hj) as (Q1 & Q2 & Q3 & _ & Q5); [..|split_and!; [by apply inv_weaken|done|done|done]].
  - intros k id Hk. unfold s1 in Hk. cbn in Hk. apply lookup_insert_Some in Hk as [[<- <-]|[Hne Hk]].
    + eexists _, t. split_and!; [apply elem_of_app; right; by left|done|done|done|]. unfold isCurrent. cbn. by rewrite !Z.eqb_refl.
    + destruct (v_pending _ _ H k id Hk) as (i & t' & Hi & ?). exists i, t'. split; [apply elem_of_app; by left|done].
  - intros k. pose proof (v_budget _ _ H k) as Hb. pose proof (v_budget _ _ H key) as Hb'. unfold quickUnlockPurgeMaxAttempts in *. apply Z.leb_gt in E3. unfold s1. cbn [prg set_budget on_prg set_next on_jbs quickUnlockPurgeAttempts]. rewrite counted_insert. destruct (bool_decide (key = k)); lia.
Qed.

Lemma queue_all_inv b l s : inv_but b s ->
  let r := queue_all l s in inv_but b r.1 /\ moves s r.2 r.1 /\ beside s r.1 /\ prg r.1 = prg s /\ Forall small r.2.
Proof.
  revert s. induction l as [|x l IH]; intros s H; cbn zeta; [split_and!; [done|apply moves_none|done|done|constructor]|].
  cbn [queue_all]. rewrite fst_seq, snd_seq. destruct (queue_spec_inv b x s H) as (Q1 & Q2 & (B1 & B2 & B3 & B4) & Q4 & Q5).
  destruct (IH _ (inv_weaken b _ Q1)) as (R1 & R2 & (C1 & C2 & C3 & C4) & R4 & R5).
  split_and!; [done|by eapply moves_trans|split_and!; congruence|congruence|by apply Forall_app].
Qed.

(** ** Deferred calls *)

Lemma later_elem x y s : y ∈ agenda (jbs (call_later x s).1) -> y ∈ agenda (jbs s) \/ y = x.
Proof.
  unfold call_later. cbn. destruct x; cbn; intros [Hy|Hy]%elem_of_app; try (by left); try (right; set_solver); left;
    apply list_elem_of_In, filter_In in Hy as [Hy _]; by apply list_elem_of_In.
Qed.
Lemma later_last x s : x ∈ agenda (jbs (call_later x s).1).
Proof. unfold call_later. cbn. destruct x; cbn; apply elem_of_app; right; by left. Qed.
Lemma later_keeps x y s : y ∈ agenda (jbs s) -> y ∈ agenda (jbs (call_later x s).1).
Proof.
  unfold call_later. cbn. intros Hy. destruct x; cbn; apply elem_of_app; try (by left); destruct y;
    ((right; by left) || (left; apply list_elem_of_In, filter_In; split; [by apply list_elem_of_In|done])).
Qed.

Lemma later_parts x s : exists l, (call_later x s).1 = set_agenda l s.
Proof. unfold call_later. destruct x; by eexists. Qed.

Lemma later_inv b b' x s : inv_but b s ->
  (forall j, x = RetryLater j -> purge_ok j) -> (b' = true -> b = true \/ x = PumpLater) -> inv_but b' (call_later x s).1.
Proof.
  intros [V1 V2 V3 V4 V5 V6 V7 V8 V9] Hr Hb. pose proof (later_elem x) as He. pose proof (later_last x s) as Hl. pose proof (fun y => later_keeps x y s) as Hk.
  destruct (later_parts x s) as (l & El). specialize (fun y => He y s). rewrite El in *. cbn in He, Hl, Hk. split; try done; cbn.
  - intros E Hne. destruct (Hb E) as [->| ->]; [|by right]. destruct (V4 eq_refl Hne) as [?|?]; [by left|right; auto].
  - intros j [?| <-]%He; [by apply V7|by apply Hr].
Qed.

Lemma later_moves x s : moves s (call_later x s).2 (call_later x s).1.
Proof. destruct (later_parts x s) as (l & ->). by apply moves_same. Qed.

(** ** A job has ended *)

Lemma idle_inv s s2 j : inv s -> envelopeJob (jbs s) = Some j -> envelopeJobs (jbs s2) = envelopeJobs (jbs s) -> envelopeJob (jbs s2) = None ->
  procRunning (jbs s2) = false -> procRun (jbs s2) = false -> nextJob (jbs s2) = nextJob (jbs s) ->
  pending_ok (prg s2) (envelopeJobs (jbs s)) s2 -> (forall i, RetryLater i ∈ agenda (jbs s2) -> purge_ok i) ->
  quickUnlockPurgeAttempts (prg s2) = quickUnlockPurgeAttempts (prg s) ->
  inv_but false s2 /\ (forall out, settled out = [jobId j] -> started out = [] -> moves s out s2).
Proof.
  intros [V1 V2 V3 V4 V5 V6 V7 V8 V9] Ej Eq En E1 E2 E3 Hp Hr Ha.
  assert (live (jbs s2) = envelopeJobs (jbs s)) as El by (unfold live; by rewrite En, Eq).
  assert (live (jbs s) = j :: envelopeJobs (jbs s)) as El0 by (unfold live; by rewrite Ej). rewrite El0 in V1, V2, V6.
  split.
  - split; rewrite ?El, ?E3, ?Ha; try done.
    + cbn in V1. by apply NoDup_cons in V1 as [_ ?].
    + intros x Hx. apply V2. by right.
    + unfold shape. rewrite En. by left.
    + intros x Hx. apply V6. by right.
  - intros out Es Et. exists []. rewrite E3, Z.sub_diag, Es, Et, El, El0, Eq, !app_nil_r. split_and!; [done|lia|done|done|].
    apply from_old_sub. rewrite El, El0. by right.
Qed.

(** The marks without that job's, once it is not a purge or its mark is gone. *)
Lemma pending_without s j p' s2 : inv s -> envelopeJob (jbs s) = Some j -> prg s2 = p' ->
  quickUnlockMethodGeneration p' = quickUnlockMethodGeneration (prg s) -> quickUnlockAccountGeneration p' = quickUnlockAccountGeneration (prg s) ->
  (forall k id, quickUnlockPurgePending p' !! k = Some id -> quickUnlockPurgePending (prg s) !! k = Some id) ->
  (forall t, purging j = Some t -> quickUnlockPurgePending (prg s) !! purgeKey t = Some (jobId j) -> isCurrent t s = true -> quickUnlockPurgePending p' !! purgeKey t = None) ->
  pending_ok p' (envelopeJobs (jbs s)) s2.
Proof.
  intros H Ej Ep Eg Ea Hs Hj k id Hk. destruct (v_pending _ _ H k id (Hs k id Hk)) as (i & t & Hi & <- & E2 & <- & E4).
  exists i, t. unfold live in Hi. rewrite Ej in Hi. cbn in Hi. apply elem_of_cons in Hi as [->|Hi].
  { rewrite (Hj t E2 (Hs _ _ Hk) E4) in Hk. done. }
  split_and!; try done. unfold isCurrent in *. by rewrite Ep, Eg, Ea.
Qed.

(** A purge's result touches the marks and, to try again, the deferred calls. *)
Lemma purge_done_parts j t code s : let r := purge_done j t code s in
  r.2 = [] /\ (exists l, jbs r.1 = jbs (set_agenda l s) /\ forall x, x ∈ l -> x ∈ agenda (jbs s) \/ x = RetryLater j)
  /\ lgo r.1 = lgo s /\ activeSlot r.1 = activeSlot s /\ vaultEpoch r.1 = vaultEpoch s
  /\ quickUnlockPurgeAttempts (prg r.1) = quickUnlockPurgeAttempts (prg s)
  /\ quickUnlockMethodGeneration (prg r.1) = quickUnlockMethodGeneration (prg s) /\ quickUnlockAccountGeneration (prg r.1) = quickUnlockAccountGeneration (prg s)
  /\ (forall k id, quickUnlockPurgePending (prg r.1) !! k = Some id -> quickUnlockPurgePending (prg s) !! k = Some id)
  /\ (quickUnlockPurgePending (prg s) !! purgeKey t = Some (jobId j) -> isCurrent t s = true -> quickUnlockPurgePending (prg r.1) !! purgeKey t = None).
Proof.
  unfold purge_done, reading. destruct (negb (isCurrent t s) || _) eqn:E.
  { cbn. split_and!; try done; [exists (agenda (jbs s)); split; [by destruct (jbs s)|auto]|]. intros E1 E2. rewrite E2, E1, bool_decide_eq_true_2 in E by done. done. }
  assert (Hg : forall k id, delete (purgeKey t) (quickUnlockPurgePending (prg s)) !! k = Some id -> quickUnlockPurgePending (prg s) !! k = Some id)
    by (by intros k id [_ ?]%lookup_delete_Some).
  rewrite fst_seq, snd_seq. cbn [fst snd Actions.set app]. unfold when. destruct (code =? 0); [|destruct (negb (logoutPending (lgo s)))]; cbn; split_and!; try done;
    try (intros _ _; apply lookup_delete_eq); [exists (agenda (jbs s))|eexists|exists (agenda (jbs s))]; (split; [done || by destruct (jbs s)|]); cbn; set_solver.
Qed.

Lemma scrub_later_parts (b : bool) s : exists l, (when b (call_later ScrubLater) s).1 = set_agenda l s /\ (when b (call_later ScrubLater) s).2 = []
  /\ forall x, x ∈ l -> x ∈ agenda (jbs s) \/ x = ScrubLater.
Proof. destruct b; cbn; [eexists|exists (agenda (jbs s))]; (split; [done || by destruct s as [[] ? ? ? ?]|]); (split; [done|]); set_solver. Qed.

Lemma settle_inv code held follow s j : inv s -> envelopeJob (jbs s) = Some j ->
  let r := settle_job code held follow j (set_job None (set_proc false false false s)) in
  inv_but false r.1 /\ moves s r.2 r.1 /\ lgo r.1 = lgo s /\ activeSlot r.1 = activeSlot s /\ vaultEpoch r.1 = vaultEpoch s.
Proof.
  intros H Ej. set (s1 := set_job None _). unfold settle_job, reading. rewrite fst_seq, snd_seq.
  destruct (scrub_later_parts (secretOutput j) s1) as (l & E1 & E2 & Hl). rewrite E1, E2. cbn [app]. set (s2 := set_agenda l s1).
  assert (Hr2 : forall i, RetryLater i ∈ agenda (jbs s2) -> purge_ok i).
  { intros i Hi. apply (v_retry _ _ H). destruct (Hl (RetryLater i) Hi) as [?|?]; done. }
  destruct (_ || is_some (purging j)) eqn:Ea.
  - rewrite !fst_seq, !snd_seq. cbn [emit fst snd].
    set (a := match purging j with Some t => _ | None => _ end).
    assert (inv_but false (a s2).1 /\ moves s [Done j code (holdOutput j && held)] (a s2).1 /\ (a s2).2 = [] /\ beside s (set_agenda (agenda (jbs s)) (a s2).1)) as (I1 & I2 & I3 & I4).
    { unfold a. destruct (purging j) as [t|] eqn:Et.
      - destruct (purge_done_parts j t code s2) as (P1 & (l' & P2 & P3) & P4 & P5 & P6 & P7 & P8 & P9 & P10 & P11).
        destruct (idle_inv s (purge_done j t code s2).1 j H Ej) as [I1 I2]; try (rewrite P2; done); try done.
        + apply (pending_without s j); try done. intros t' E Hk Hc. rewrite E in Et. injection Et as ->. by apply P11.
        + intros i Hi. rewrite P2 in Hi. destruct (P3 _ Hi) as [?|[= ->]]; [by apply Hr2|]. apply (v_purge _ _ H). unfold live. rewrite Ej. by left.
        + split_and!; [done|by apply I2|done|]. split_and!; cbn; rewrite ?P4, ?P5, ?P6; done.
      - destruct (idle_inv s s2 j H Ej) as [I1 I2]; try done.
        + apply (pending_without s j); try done. intros t' E. congruence.
        + split_and!; [done|by apply I2|done|done]. }
    rewrite I3. cbn [app]. destruct (queue_all_inv false follow _ I1) as (Q1 & Q2 & (B1 & B2 & B3 & _) & _). destruct I4 as (C1 & C2 & C3 & _).
    split_and!; [done|by apply (moves_trans s _ _ [Done j code (holdOutput j && held)] (queue_all follow (a s2).1).2 I2 Q2)|by rewrite B1|by rewrite B2|by rewrite B3].
  - apply orb_false_iff in Ea as [_ Ea]. assert (purging j = None) as Et by (by destruct (purging j)).
    destruct (idle_inv s s2 j H Ej) as [I1 I2]; try done.
    { apply (pending_without s j); try done. intros t' E. congruence. }
    rewrite fst_seq, snd_seq. unfold when. destruct (holdOutput j && held); (split_and!; [done|by apply I2|done|done|done]).
Qed.

Lemma when_later_inv (c : bool) x b s : inv_but b s -> x = SweepLater -> inv_but b (when c (call_later x) s).1 /\ moves s (when c (call_later x) s).2 (when c (call_later x) s).1.
Proof. intros H ->. destruct c; cbn [when]; [|split; [done|apply moves_none]]. split; [|apply later_moves]. apply (later_inv b); try done. auto. Qed.

Lemma exited_inv code held follow s : inv s -> procRun (jbs s) = true ->
  let r := onEnvelopeJobExited code held follow s in inv r.1 /\ moves s r.2 r.1.
Proof.
  intros H Hr. unfold onEnvelopeJobExited. rewrite fst_seq, snd_seq. cbn [fst snd Actions.set app]. unfold reading at 1 3 5. set (s0 := set_proc _ _ _ s).
  pose proof (v_shape _ _ H) as Hs. unfold shape in Hs. change (procScrub (jbs s0)) with (procScrub (jbs s)). change (envelopeJob (jbs s0)) with (envelopeJob (jbs s)).
  destruct (envelopeJob (jbs s)) as [j|] eqn:Ej.
  - destruct Hs as [[Hsc _]|(Hsc & Hu & Hca)].
    2: { rewrite Hsc. unfold pumpEnvelopeJobs, reading. change (envelopeJob (jbs s0)) with (envelopeJob (jbs s)). rewrite Ej, orb_true_r. split; [|by apply moves_same].
      destruct H as [V1 V2 V3 V4 V5 V6 V7 V8 V9]. split; try done; [|intros _ _; left; cbn; by rewrite Ej]. unfold shape. cbn. rewrite Ej. by right. }
    unfold s0. rewrite Hsc. rewrite !fst_seq, !snd_seq. cbn [fst snd Actions.set app].
    destruct (settle_inv code held follow s j H Ej) as (S1 & S2 & _). set (r := settle_job _ _ _ _ _) in *. unfold reading.
    destruct (when_later_inv (logoutPending (lgo r.1) && allCredentialsClearPending (lgo r.1)) SweepLater false r.1 S1 eq_refl) as [W1 W2].
    set (w := when _ _ r.1) in *. split; [apply (later_inv false); try done; auto|].
    apply (moves_trans s r.1); [done|]. apply (moves_trans r.1 w.1); [done|apply later_moves].
  - destruct Hs as [[_ ?]|(Hsc & E1 & _)]; [congruence|]. rewrite Hsc.
    assert (inv_but false s0) as H0.
    { destruct H as [V1 V2 V3 V4 V5 V6 V7 V8 V9]. split; try done. unfold shape. cbn. rewrite Ej. by left. }
    destruct (pump_inv false s0 H0) as (P1 & P2 & _). split; [done|]. exact P2.
Qed.

(** ** Cancelling *)

Lemma cancel_queued_out l s : (cancel_queued l s).1 = s /\ settled (cancel_queued l s).2 = ids (List.filter unlock l)
  /\ started (cancel_queued l s).2 = [] /\ Forall small (cancel_queued l s).2.
Proof.
  induction l as [|j l (IH1 & IH2 & IH3 & IH4)]; [by repeat split|]. cbn [cancel_queued]. rewrite fst_seq, snd_seq. unfold when. cbn [List.filter]. destruct (unlock j).
  - rewrite fst_seq, snd_seq. change (forget_env j s).1 with s. cbn [emit fst snd]. destruct (forget_env_out j s) as (F1 & F2 & F3).
    rewrite !settled_app, !started_app, F2, F3, IH2, IH3. split_and!; try done. rewrite !Forall_app. by rewrite Forall_singleton.
  - done.
Qed.

Lemma filter_split l : ids (List.filter unlock l) ++ ids (List.filter (fun j => negb (unlock j)) l) ≡ₚ ids l.
Proof. induction l as [|j l IH]; [done|]. cbn. destruct (unlock j); cbn; [by rewrite IH|]. rewrite <- Permutation_middle. by rewrite IH. Qed.

Lemma filter_ids_sublist (f : job -> bool) l : sublist (ids (List.filter f l)) (ids l).
Proof. induction l as [|j l IH]; [constructor|]. cbn. destruct (f j); cbn; [by constructor|by constructor]. Qed.

(** Fewer jobs, when the ones left out have no marks. *)
Lemma fewer_inv b b' s s' : inv_but b s -> prg s' = prg s -> nextJob (jbs s') = nextJob (jbs s) -> agenda (jbs s') = agenda (jbs s) ->
  sublist (ids (live (jbs s'))) (ids (live (jbs s))) ->
  (forall j, j ∈ live (jbs s') -> exists i, i ∈ live (jbs s) /\ jobId j = jobId i /\ purging j = purging i /\ unlock j = unlock i) ->
  (forall i, i ∈ live (jbs s) -> unlock i = false -> i ∈ live (jbs s')) -> shape (jbs s') ->
  (b' = true -> envelopeJobs (jbs s') <> [] -> is_some (envelopeJob (jbs s')) || procRunning (jbs s') = true \/ PumpLater ∈ agenda (jbs s')) -> inv_but b' s'.
Proof.
  intros [V1 V2 V3 V4 V5 V6 V7 V8 V9] Ep En Ea Hsub Hold Hkeep Hs Hb. split; rewrite ?Ep, ?En; try done.
  - by eapply sublist_NoDup.
  - intros j Hj. destruct (Hold j Hj) as (i & Hi & -> & _). by apply V2.
  - intros k id Hk. destruct (V5 k id Hk) as (j & t & Hj & E1 & E2 & E3 & E4). exists j, t. split_and!; try done; [apply Hkeep; [done|by apply (V6 j Hj t)]|]. unfold isCurrent. by rewrite Ep.
  - intros j Hj t Et. destruct (Hold j Hj) as (i & Hi & _ & E1 & E2). rewrite E2. apply (V6 i Hi). congruence.
  - by rewrite Ea.
Qed.

Lemma in_filter (f : job -> bool) l j : j ∈ List.filter f l <-> j ∈ l /\ f j = true.
Proof. by rewrite !list_elem_of_In, filter_In. Qed.

Definition kept (l : list job) : list job := List.filter (fun j => negb (unlock j)) l.

(** The four ways a cancellation ends. *)
Lemma cancel_result s : let r := cancelEnvelopeUnlockJobs s in
  exists x, r.2 = (cancel_queued (envelopeJobs (jbs s)) s).2 ++ x /\
  ((r.1 = set_jobs (kept (envelopeJobs (jbs s))) s /\ x = [] /\ (forall j, envelopeJob (jbs s) = Some j -> unlock j = false))
   \/ (exists j, envelopeJob (jbs s) = Some j /\ unlock j = true /\
       ((procRun (jbs s) = true /\ (x = [Killed] \/ x = []) /\ r.1 = set_proc false true (procScrub (jbs s)) (set_job (Some (as_cancelled j)) (set_jobs (kept (envelopeJobs (jbs s))) s)))
        \/ (procRun (jbs s) = false /\ x = [Dropped j]
            /\ r.1 = (call_later PumpLater (set_job None (set_proc false false (procScrub (jbs s)) (set_jobs (kept (envelopeJobs (jbs s))) s)))).1)))).
Proof.
  unfold cancelEnvelopeUnlockJobs, reading. rewrite !fst_seq, !snd_seq. destruct (cancel_queued_out (envelopeJobs (jbs s)) s) as (-> & _). cbn [fst snd Actions.set app].
  destruct (envelopeJob (jbs s)) as [j|]; [|exists []; by split; [|left]]. unfold when. destruct (unlock j) eqn:Eu; [|exists []; split; [done|left; split_and!; try done; congruence]].
  rewrite !fst_seq, !snd_seq. cbn [fst snd Actions.set app]. destruct (procRun (jbs s)) eqn:Er; [destruct (procRunning (jbs s)); [exists [Killed]|exists []]|exists [Dropped j]]; (split; [done|]); right; exists j; (split; [done|]); (split; [done|]); [left; auto|left; auto|by right].
Qed.

Lemma kept_live o l : sublist (ids (option_list o ++ kept l)) (ids (option_list o ++ l)).
Proof. unfold ids. rewrite !map_app. apply sublist_app; [done|apply filter_ids_sublist]. Qed.

Lemma cancel_inv s : inv s -> let r := cancelEnvelopeUnlockJobs s in inv r.1 /\ moves s r.2 r.1.
Proof.
  intros H. destruct (cancel_result s) as (x & Ex & Hx). destruct (cancel_queued_out (envelopeJobs (jbs s)) s) as (_ & C1 & C2 & _).
  cbn zeta. set (r := cancelEnvelopeUnlockJobs s) in *. rewrite Ex. pose proof (filter_split (envelopeJobs (jbs s))) as Hp. change (List.filter _ _) with (kept (envelopeJobs (jbs s))) in Hp at 2.
  assert (Hm : forall s', nextJob (jbs s') = nextJob (jbs s) -> envelopeJobs (jbs s') = kept (envelopeJobs (jbs s)) -> started x = [] ->
    settled x ++ ids (option_list (envelopeJob (jbs s'))) = ids (option_list (envelopeJob (jbs s))) ->
    (forall j', envelopeJob (jbs s') = Some j' -> exists j, envelopeJob (jbs s) = Some j /\ jobId j' = jobId j /\ unlock j' = unlock j /\ (cancelled j = true -> cancelled j' = true)) ->
    moves s ((cancel_queued (envelopeJobs (jbs s)) s).2 ++ x) s').
  { intros s' E1 E2 E3 E4 E5. exists []. rewrite E1, E2, Z.sub_diag, settled_app, started_app, C1, C2, E3, !app_nil_r. split_and!; [done|lia| |apply filter_ids_sublist|].
    - unfold live. rewrite E2. unfold ids in *. rewrite !map_app. rewrite <- E4, <- Hp. solve_Permutation.
    - intros i Hi. right. unfold live in *. rewrite E2 in Hi. apply elem_of_app in Hi as [Hi|[Hi _]%in_filter]; [|exists i; split; [set_solver|done]].
      destruct (envelopeJob (jbs s')) as [j'|]; [|by apply elem_of_nil in Hi]. apply list_elem_of_singleton in Hi as ->. destruct (E5 j' eq_refl) as (j & -> & Hj). exists j. split; [by left|done]. }
  assert (Hk : forall i, i ∈ kept (envelopeJobs (jbs s)) <-> i ∈ envelopeJobs (jbs s) /\ unlock i = false).
  { intros i. unfold kept. by rewrite in_filter, negb_true_iff. }
  destruct Hx as [(-> & -> & Hj)|(j & Ej & Eu & [(Er & Hx & ->)|(Er & -> & ->)])].
  - split; [|apply Hm; try done; intros j' Ej'; by exists j']. apply (fewer_inv true true s); try done; cbn.
    + unfold live. cbn. apply kept_live.
    + unfold live. cbn. intros i [Hi|[Hi _]%Hk]%elem_of_app; exists i; (split; [apply elem_of_app; auto|done]).
    + unfold live. cbn. intros i [Hi|Hi]%elem_of_app Hu; apply elem_of_app; [by left|right; by apply Hk].
    + pose proof (v_shape _ _ H) as Hs. exact Hs.
    + intros _ Hne. apply (v_pump _ _ H eq_refl). intros E. by rewrite E in Hne.
  - split; [|destruct Hx as [-> | ->]; apply Hm; cbn; rewrite ?Ej; try done; intros j' [= <-]; by exists j]. apply (fewer_inv true true s); try done; cbn.
    + unfold live. cbn. rewrite Ej. apply (kept_live (Some j)).
    + unfold live. cbn. rewrite Ej. intros i [->|[Hi _]%Hk]%elem_of_cons; [exists j; split; [by left|done]|]. exists i. split; [by right|done].
    + unfold live. cbn. rewrite Ej. intros i [->|Hi]%elem_of_cons Hu; [congruence|]. right. by apply Hk.
    + unfold shape. cbn. pose proof (v_shape _ _ H) as Hs. unfold shape in Hs. rewrite Ej in Hs. destruct Hs as [[? _]|(? & _)]; [left; split; [done|by right]|by right].
    + intros _ _. by left.
  - set (s2 := set_job None _). destruct (later_parts PumpLater s2) as (l & El). split; [|rewrite El; by apply Hm; cbn; rewrite ?Ej].
    apply (later_inv false); try done; [|auto]. apply (fewer_inv true false s); try done; cbn.
    + unfold live. cbn. rewrite Ej. cbn. apply sublist_cons, filter_ids_sublist.
    + unfold live. cbn. rewrite Ej. intros i [Hi _]%Hk. exists i. split; [by right|done].
    + unfold live. cbn. rewrite Ej. intros i [->|Hi]%elem_of_cons Hu; [congruence|]. by apply Hk.
    + unfold shape. cbn. by left.
Qed.

(** ** Leaving an account *)

(** Marks are only taken back, and the budgets stay in bounds. *)
Definition taken_back (s s' : service) : Prop :=
  jbs s' = jbs s /\ lgo s' = lgo s /\ activeSlot s' = activeSlot s /\ vaultEpoch s' = vaultEpoch s
  /\ (forall k id, quickUnlockPurgePending (prg s') !! k = Some id -> quickUnlockPurgePending (prg s) !! k = Some id)
  /\ ((forall k, 0 <= counted (quickUnlockPurgeAttempts (prg s)) k <= quickUnlockPurgeMaxAttempts) ->
      forall k, 0 <= counted (quickUnlockPurgeAttempts (prg s')) k <= quickUnlockPurgeMaxAttempts).

Lemma taken_back_trans s1 s2 s3 : taken_back s1 s2 -> taken_back s2 s3 -> taken_back s1 s3.
Proof. intros (A1 & A2 & A3 & A4 & A5 & A6) (B1 & B2 & B3 & B4 & B5 & B6). split_and!; try congruence; auto. Qed.

Lemma cancelled_back j s : taken_back s (onCancelled j s).1 /\ (onCancelled j s).2 = []
  /\ forall t, purging j = Some t -> quickUnlockPurgePending (prg (onCancelled j s).1) !! purgeKey t <> Some (jobId j).
Proof.
  unfold onCancelled, reading. destruct (purging j) as [t|]; [|by split_and!]. destruct (bool_decide _) eqn:E; cbn [negb].
  - split_and!; [split_and!; try done|done|]; cbn [fst Actions.set set_budget on_prg prg quickUnlockPurgePending quickUnlockPurgeAttempts].
    + by intros k id [_ ?]%lookup_delete_Some.
    + intros Hb k. pose proof (Hb k). pose proof (Hb (purgeKey t)). unfold quickUnlockPurgeMaxAttempts in *. rewrite counted_insert. destruct (bool_decide (purgeKey t = k)); lia.
    + intros t' [= <-]. by rewrite lookup_delete_eq.
  - apply bool_decide_eq_false in E. split_and!; [by split_and!|done|]. by intros t' [= <-].
Qed.

Lemma discard_back l s : taken_back s (discard l s).1 /\ settled (discard l s).2 = ids l /\ started (discard l s).2 = [] /\ Forall small (discard l s).2
  /\ forall j t, j ∈ l -> purging j = Some t -> quickUnlockPurgePending (prg (discard l s).1) !! purgeKey t <> Some (jobId j).
Proof.
  revert s. induction l as [|j l IH]; intros s; [split_and!; try done; set_solver|]. cbn [discard]. rewrite !fst_seq, !snd_seq.
  change (forget_env j s).1 with s. destruct (forget_env_out j s) as (F1 & F2 & F3). destruct (cancelled_back j s) as (C1 & C2 & C3). cbn [emit fst snd].
  destruct (IH (onCancelled j s).1) as (I1 & I2 & I3 & I4 & I5). rewrite C2, !settled_app, !started_app, F2, F3, I2, I3. split_and!; try done.
  - by eapply taken_back_trans.
  - rewrite !Forall_app, Forall_singleton. done.
  - intros i t [->|Hi]%elem_of_cons Et; [|by apply I5]. intros Hk. apply (C3 t Et). by apply I1.
Qed.

Lemma drop_state_inv s : inv s -> let r := dropEnvelopeState s in
  inv r.1 /\ moves s r.2 r.1 /\ envelopeJobs (jbs r.1) = [] /\ envelopeJob (jbs r.1) = envelopeJob (jbs s) /\ procRunning (jbs r.1) = procRunning (jbs s)
  /\ agenda (jbs r.1) = agenda (jbs s) /\ quickUnlockPurgePending (prg r.1) = ∅ /\ lgo r.1 = lgo s /\ Forall small r.2.
Proof.
  intros H. unfold dropEnvelopeState, reading. rewrite !fst_seq, !snd_seq. cbn [fst snd Actions.set app]. set (s1 := set_jobs [] s).
  destruct (discard_back (envelopeJobs (jbs s)) s1) as (D1 & D2 & D3 & D4 & D5). set (d := discard _ s1) in *.
  set (a := match envelopeJob (jbs s) with Some j => onCancelled j | None => nothing end).
  assert (taken_back d.1 (a d.1).1 /\ (a d.1).2 = [] /\ forall j t, envelopeJob (jbs s) = Some j -> purging j = Some t -> quickUnlockPurgePending (prg (a d.1).1) !! purgeKey t <> Some (jobId j)) as (A1 & A2 & A3).
  { unfold a. destruct (envelopeJob (jbs s)) as [j|]; [|by split_and!]. destruct (cancelled_back j d.1) as (C1 & C2 & C3). split_and!; try done. intros j' t E. injection E as <-. apply C3. }
  pose proof (taken_back_trans _ _ _ D1 A1) as (B1 & B2 & B3 & B4 & B5 & B6). rewrite A2. cbn [app]. rewrite app_nil_r.
  assert (quickUnlockPurgePending (prg (a d.1).1) = ∅) as Hnone.
  { apply map_empty. intros k. destruct (quickUnlockPurgePending (prg (a d.1).1) !! k) as [id|] eqn:Ek; [|done]. exfalso.
    destruct (v_pending _ _ H k id (B5 k id Ek)) as (j & t & Hj & <- & E2 & <- & _). unfold live in Hj. apply elem_of_app in Hj as [Hj|Hj].
    - destruct (envelopeJob (jbs s)) as [i|]; [|by apply elem_of_nil in Hj]. apply list_elem_of_singleton in Hj as ->. by apply (A3 i t).
    - apply (D5 j t Hj E2). by apply A1. }
  destruct H as [V1 V2 V3 V4 V5 V6 V7 V8 V9]. cbn. rewrite B1, B2. split_and!; try done.
  - split; cbn; rewrite ?B1; try done; cbn.
    + unfold live in *. cbn. rewrite app_nil_r. unfold ids in *. rewrite map_app in V1. by apply NoDup_app in V1 as [? _].
    + unfold live in *. cbn. rewrite app_nil_r. intros j Hj. apply V2. set_solver.
    + unfold pending_ok. cbn. by rewrite Hnone.
    + unfold live in *. cbn. rewrite app_nil_r. intros j Hj. apply V6. set_solver.
    + by apply B6.
  - exists []. cbn. rewrite B1. cbn. rewrite D2, D3, Z.sub_diag. unfold live. cbn. unfold ids. rewrite !map_app, !app_nil_r. split_and!; [done|lia|apply Permutation_app_comm|apply sublist_nil_l|].
    apply from_old_sub. cbn. rewrite B1. unfold live. cbn. set_solver.
Qed.

Lemma note_inv method s : inv s -> inv (noteQuickUnlockEnabled method s).1 /\ moves s (noteQuickUnlockEnabled method s).2 (noteQuickUnlockEnabled method s).1.
Proof.
  intros H. split; [|by apply moves_same]. destruct H as [V1 V2 V3 V4 V5 V6 V7 V8 V9]. split; try done.
  - intros k id Hk. cbn in Hk. apply map_lookup_filter_Some in Hk as [Hk Hm]. cbn in Hm. destruct (V5 k id Hk) as (j & t & Hj & E1 & E2 & E3 & E4). exists j, t. split_and!; try done.
    destruct (V6 j Hj t E2) as [_ Ho]. unfold isCurrent in *. cbn. rewrite counted_insert. rewrite bool_decide_eq_false_2; [done|]. intros ->. rewrite E3 in Ho. congruence.
  - intros k. cbn. specialize (V8 k). unfold counted in *. destruct (filter _ _ !! k) as [v|] eqn:E; [|cbn; unfold quickUnlockPurgeMaxAttempts; lia].
    apply map_lookup_filter_Some in E as [E _]. by rewrite E in V8.
Qed.

(** ** Logging out

    These actions leave the jobs and the purges alone. *)

Definition logs (s : service) (r : service * list job_effect) : Prop :=
  jbs r.1 = jbs s /\ prg r.1 = prg s /\ settled r.2 = [] /\ started r.2 = [].

Lemma logs_inv s r : logs s r -> inv s -> inv r.1 /\ moves s r.2 r.1.
Proof. intros (E1 & E2 & E3 & E4) H. split; [by eapply inv_same|]. apply moves_same; by rewrite ?E1. Qed.

Lemma sweep_logs s : logs s (requestAllCredentialClear s).
Proof. unfold requestAllCredentialClear, reading. destruct (keyringClearAllProc (lgo s)); [done|]. by destruct (credentialStoresRunning s). Qed.
Lemma finish_logs next s : logs s (finishLogoutIfReady next s).
Proof. unfold finishLogoutIfReady, reading. destruct (negb (logoutPending (lgo s)) || _ || _); [done|]. by destruct (negb _). Qed.

Lemma logs_seq f a s : (forall s, jbs (f s) = jbs s /\ prg (f s) = prg s) -> (forall s, logs s (a s)) -> logs s ((set f ;; a) s).
Proof. intros Hf Ha. unfold logs. rewrite fst_seq, snd_seq. cbn [fst snd Actions.set app]. destruct (Hf s) as [<- <-]. apply Ha. Qed.

Lemma cli_logs next s : logs s (onLogoutCliFinished next s).
Proof. unfold onLogoutCliFinished, reading. destruct (negb _); [done|]. apply (logs_seq (set_logout _ _ _ _)); [done|apply finish_logs]. Qed.
Lemma credentials_logs code next s : logs s (onLogoutCredentialsFinished code next s).
Proof. unfold onLogoutCredentialsFinished, reading. destruct (negb _); [done|]. apply (logs_seq (set_logout _ _ _ _)); [done|apply finish_logs]. Qed.
Lemma cleanup_logs s : logs s (retryLogoutCleanup s).
Proof. unfold retryLogoutCleanup, reading. destruct (negb _); [done|]. apply (logs_seq (set_logout _ _ _ _)); [done|apply sweep_logs]. Qed.

Lemma sweep_exited_inv code next s : inv s -> let r := sweep_exited code next s in inv r.1 /\ moves s r.2 r.1.
Proof.
  intros H. unfold sweep_exited. rewrite fst_seq, snd_seq. cbn [fst snd Actions.set app]. set (s0 := set_sweep _ _ s). unfold reading.
  assert (inv s0) as H0 by (by apply (inv_same true s)). assert (Hm : forall o s', moves s0 o s' -> moves s o s') by done.
  destruct (allCredentialsClearPending (lgo s0)).
  - split; [|apply Hm, later_moves]. apply (later_inv true); try done. auto.
  - destruct (logs_inv s0 _ (credentials_logs code next s0) H0). auto.
Qed.

(** ** Every event *)

Lemma drop_vault_inv s : inv s -> let r := dropVaultState s in inv r.1 /\ moves s r.2 r.1.
Proof.
  intros H. unfold dropVaultState. rewrite fst_seq, snd_seq. cbn [fst snd Actions.set]. rewrite app_nil_r. destruct (cancel_inv s H) as [C1 C2].
  split; [by apply (inv_same true (cancelEnvelopeUnlockJobs s).1)|exact C2].
Qed.

Lemma run_later_inv x s : inv s -> (forall j, x = RetryLater j -> purge_ok j) -> let r := run_later x s in inv r.1 /\ moves s r.2 r.1.
Proof.
  intros H Hj. destruct x as [| |j|]; cbn [run_later].
  - unfold reading. destruct (procRunning (jbs s)) eqn:Er; [split; [done|apply moves_none]|].
    rewrite fst_seq, snd_seq. unfold when. split; [|destruct (negb _); by apply moves_same].
    assert (Hi : inv (set_proc true (procRun (jbs s) || true || helperUp (jbs s)) true s)).
    { destruct H as [V1 V2 V3 V4 V5 V6 V7 V8 V9]. split; try done; cbn; [|intros _ _; left; apply orb_true_r].
      unfold shape in *. cbn. rewrite orb_true_r. destruct (envelopeJob (jbs s)) as [j|]; [right|by right].
      destruct V3 as [[_ [?|(_ & _ & ? & ?)]]|(_ & ? & ?)]; [congruence|done|done]. }
    by destruct (negb _).
  - by destruct (pump_inv true s H) as (? & ? & _).
  - unfold reading. destruct (purging j) as [t|] eqn:Et; [|split; [done|apply moves_none]]. unfold when. destruct (_ && _); [|split; [done|apply moves_none]].
    destruct (queue_purge_inv true (purgeSlots t) (purgeMethod t) (purgeKey t) s H) as (? & ? & _); [by apply (Hj j eq_refl)|done].
  - apply logs_inv; [apply sweep_logs|done].
Qed.

Lemma pop_inv b x l s : inv_but b s -> agenda (jbs s) = x :: l -> inv_but (b && match x with PumpLater => false | _ => true end) (set_agenda l s).
Proof.
  intros [V1 V2 V3 V4 V5 V6 V7 V8 V9] Ea. rewrite Ea in *. split; try done; cbn.
  - intros [-> Ex]%andb_true_iff Hne. destruct (V4 eq_refl Hne) as [?|[<-|?]%elem_of_cons]; [by left|done|by right].
  - intros j Hj. apply V7. by right.
Qed.

(** The deferred pump itself may leave nothing to pump it again. *)
Lemma next_inv s : inv s -> agenda (jbs s) <> [] -> let r := dispatch NextDeferred s in inv r.1 /\ moves s r.2 r.1.
Proof.
  intros H Hne. cbn [dispatch]. unfold reading at 1 2 3. destruct (agenda (jbs s)) as [|x l] eqn:Ea; [done|]. rewrite fst_seq, snd_seq. cbn [fst snd Actions.set app].
  pose proof (pop_inv true x l s H Ea) as Hp. assert (Hm : forall o s', moves (set_agenda l s) o s' -> moves s o s') by done.
  destruct x as [| |j|]; cbn [andb] in Hp.
  2: { cbn [run_later]. destruct (pump_inv false _ Hp) as (P1 & P2 & _). auto. }
  all: edestruct run_later_inv as [R1 R2]; [exact Hp| |split; [exact R1|apply Hm, R2]]; intros j' E; try done.
  injection E as ->. apply (v_retry _ _ H). rewrite Ea. by left.
Qed.

Lemma inv_event ev s : inv s -> possible s ev -> let r := dispatch ev s in inv r.1 /\ moves s r.2 r.1.
Proof.
  intros H Hp. destruct ev; try (by apply next_inv); cbn [dispatch].
  - by destruct (queue_spec_inv true x s H) as (? & ? & _).
  - by destruct (queue_purge_inv true slots method key s H Hp) as (? & ? & _).
  - by apply cancel_inv.
  - by apply drop_vault_inv.
  - split; [by apply (inv_same true s)|by apply moves_same].
  - unfold leave_for. rewrite !fst_seq, !snd_seq. cbn [fst snd Actions.set]. rewrite app_nil_r. destruct (drop_vault_inv s H) as [D1 D2].
    destruct (drop_state_inv _ D1) as (E1 & E2 & _). split; [by apply (inv_same true (dropEnvelopeState (dropVaultState s).1).1)|by eapply moves_trans].
  - by apply note_inv.
  - unfold logoutAccount, reading. destruct (logoutPending (lgo s)); [split; [done|apply moves_none]|]. rewrite !fst_seq, !snd_seq. cbn [fst snd Actions.set app].
    set (s0 := set_logout _ _ _ _ s). assert (inv s0) as H0 by (by apply (inv_same true s)). destruct (drop_vault_inv s0 H0) as [D1 D2].
    destruct (drop_state_inv _ D1) as (E1 & E2 & _). destruct (logs_inv _ _ (sweep_logs (dropEnvelopeState (dropVaultState s0).1).1) E1) as [F1 F2]. split; [done|].
    apply (moves_trans s (dropVaultState s0).1); [exact D2|]. by eapply moves_trans.
  - apply logs_inv; [apply cli_logs|done].
  - apply logs_inv; [apply cleanup_logs|done].
  - unfold store_runs. rewrite fst_seq, snd_seq. cbn [fst snd Actions.set app]. set (s0 := set_storing b s). unfold reading.
    apply (when_later_inv _ SweepLater true s0); [by apply (inv_same true s)|done].
  - split; [|by apply moves_same]. destruct H as [V1 V2 V3 V4 V5 V6 V7 V8 V9]. split; try done. unfold shape in *. cbn. destruct (envelopeJob (jbs s)) as [j|].
    + destruct V3 as [[? [->|(-> & -> & ? & ?)]]|V3]; [left; split; [done|by left]|left; split; [done|by right]|by right].
    + destruct V3 as [[-> ->]|(-> & -> & ->)]; [by left|by right].
  - split; [|by apply moves_same]. destruct H as [V1 V2 V3 V4 V5 V6 V7 V8 V9]. by split.
  - by apply exited_inv.
  - by apply sweep_exited_inv.
  - apply logs_inv; [|done]. apply (logs_seq (set_retry false)); [done|]. intros s'. unfold reading, when. destruct (_ && _); [apply sweep_logs|done].
Qed.
