(* ===== verification/EnvelopeClaims.v ===== *)
(** * What the envelope queue promises

    In every reachable state of [EnvelopeQueue]: jobs are run one at a time, in order, and
    each is settled once; an unlock that was cancelled is never answered; purges keep to
    their budget and count only what succeeded; a logout sweeps the keyring when no writer
    runs, and neither the queue nor the logout is left waiting for nothing, but for one way
    in which the queue gets stuck ([stuck_queue]). *)

From stdpp Require Import gmap.
From S2P Require Import Prelude.
From S2P Require Import JsNum.
From S2P Require Import JsString.
From S2P Require Import JsValue.
From S2P Require Import JsInt.
From S2P Require Import Helpers.
From S2P Require Import Actions.
From S2P Require Import EnvelopeQueue.
From S2P Require Import EnvelopeQueueCorrect.
Local Open Scope act_scope.

Lemma start_inv x : inv (init_service x).
Proof. split; cbn; try done; try set_solver. constructor. Qed.

Lemma reached_moves done s : reached done s -> inv s /\ exists x, moves (init_service x) done s.
Proof.
  induction 1 as [x|ev done s _ (Hi & x & Hm) Hp]; [split; [apply start_inv|exists x; apply moves_none]|].
  destruct (inv_event ev s Hi Hp) as [H1 H2]. split; [done|]. exists x. by eapply moves_trans.
Qed.

(** C9: Every job ever queued is settled exactly once, or is still waiting, or is the one
    running; jobs are started in the order in which they were queued; and a job that was
    started is settled or is the one running, so that no two run at a time. *)
Theorem jobs_accounted done s : reached done s ->
  settled done ++ ids (live (jbs s)) ≡ₚ seqZ 0 (nextJob (jbs s))
  /\ sublist (started done ++ ids (envelopeJobs (jbs s))) (seqZ 0 (nextJob (jbs s)))
  /\ (forall i, i ∈ started done -> i ∈ settled done \/ exists j, envelopeJob (jbs s) = Some j /\ jobId j = i).
Proof.
  intros H. destruct (reached_moves done s H) as (_ & x & f & <- & _ & Hp & Hs & _). cbn in Hp, Hs. rewrite Z.sub_0_r in Hp, Hs. split_and!; [done|done|].
  intros i Hi. assert (i ∈ settled done ++ ids (live (jbs s))) as Hin.
  { rewrite Hp. eapply elem_of_submseteq; [apply elem_of_app; by left|by apply sublist_submseteq]. }
  apply elem_of_app in Hin as [Hin|Hin]; [by left|]. right. unfold live, ids in Hin. rewrite map_app in Hin. apply elem_of_app in Hin as [Hin|Hin].
  - destruct (envelopeJob (jbs s)) as [j|]; [|by apply elem_of_nil in Hin]. exists j. set_solver.
  - exfalso. assert (NoDup (started done ++ ids (envelopeJobs (jbs s)))) as Hn by (eapply sublist_NoDup; [apply NoDup_seqZ|exact Hs]).
    apply NoDup_app in Hn as (_ & Hd & _). by apply (Hd i).
Qed.

(** ** Answers *)

(** An answer comes from the job that ran. *)
Definition accepted (j : job) (s : service) : Prop :=
  purging j <> None \/ (logoutPending (lgo s) = false /\ slot j = activeSlot s /\ (unlock j = true -> cancelled j = false /\ epoch j = vaultEpoch s)).

Lemma small_done out j c h : Forall small out -> Done j c h ∉ out.
Proof. intros Hf Hi. by apply (proj1 (Forall_forall _ _) Hf) in Hi. Qed.

Lemma later_out x s : (call_later x s).2 = [].
Proof. by unfold call_later. Qed.

Lemma pump_small s : Forall small (pumpEnvelopeJobs s).2.
Proof.
  unfold pumpEnvelopeJobs, reading. destruct (_ || _); [constructor|]. generalize (envelopeJobs (jbs s)) as q. intros q. revert s.
  induction q as [|j q IH]; intros s; [constructor|]. cbn [pump_over]. rewrite snd_seq. cbn [fst snd Actions.set app]. set (s1 := set_jobs q s). unfold reading.
  destruct (match purging j with Some _ => _ | None => _ end); [|destruct (unlock j && _)].
  - rewrite !snd_seq. destruct (cancelled_back j s1) as (_ & -> & _). cbn [app emit snd]. by constructor; [|apply IH].
  - rewrite !snd_seq. destruct (forget_env_out j s1) as (F1 & _). rewrite !Forall_app. split_and!; [done|by apply Forall_singleton|apply IH].
  - unfold start_job, reading, when. destruct (holdOutput j); cbn; by apply Forall_singleton.
Qed.

Lemma queue_job_small j s : Forall small (queueEnvelopeJob j s).2.
Proof. unfold queueEnvelopeJob, reading. rewrite snd_seq. cbn [fst snd Actions.set app]. apply pump_small. Qed.
Lemma queue_spec_small x s : Forall small (queue_spec x s).2.
Proof. unfold queue_spec, reading. rewrite snd_seq. cbn [fst snd Actions.set app]. apply queue_job_small. Qed.
Lemma queue_all_small l s : Forall small (queue_all l s).2.
Proof. revert s. induction l as [|x l IH]; intros s; [constructor|]. cbn [queue_all]. rewrite snd_seq, Forall_app. split; [apply queue_spec_small|apply IH]. Qed.
Lemma queue_purge_small slots method key s : Forall small (queueQuickUnlockPurge slots method key s).2.
Proof. unfold queueQuickUnlockPurge, reading. destruct (_ || _); [constructor|]. rewrite !snd_seq. cbn [fst snd Actions.set app]. apply queue_job_small. Qed.

Lemma settle_out code held follow j s : exists o, Forall small o
  /\ ((settle_job code held follow j s).2 = Done j code (holdOutput j && held) :: o /\ accepted j s
      \/ (settle_job code held follow j s).2 = Discarded j :: o /\ purging j = None).
Proof.
  unfold settle_job, reading. rewrite snd_seq. destruct (scrub_later_parts (secretOutput j) s) as (l & E1 & -> & _). cbn [app]. destruct (_ || is_some (purging j)) eqn:Ea.
  - rewrite !snd_seq. cbn [emit snd app fst]. eexists. split; [|left; split; [done|]].
    + assert (Hq : forall s', (match purging j with Some t => purge_done j t code | None => nothing end s').2 = []) by (intros s'; destruct (purging j) as [t|]; [apply purge_done_parts|done]).
      rewrite Hq. apply queue_all_small.
    + unfold accepted. apply orb_true_iff in Ea as [Ea|Ea]; [right|left; by destruct (purging j)]. apply andb_true_iff in Ea as [Ea E3]. apply andb_true_iff in Ea as [E4 E2].
      apply negb_true_iff in E4. apply bool_decide_eq_true in E2. split_and!; try done. intros Hu. rewrite Hu in E3. cbn in E3. apply andb_true_iff in E3 as [E3 E5]. apply negb_true_iff in E3. boolZ. done.
  - apply orb_false_iff in Ea as [_ Ea]. rewrite snd_seq. cbn [emit snd app fst]. eexists. split; [|right; split; [done|by destruct (purging j)]].
    unfold when. destruct (holdOutput j && held); [by apply Forall_singleton|constructor].
Qed.

Lemma exited_job_out code held follow s j : envelopeJob (jbs s) = Some j -> procScrub (jbs s) = false ->
  (onEnvelopeJobExited code held follow s).2 = (settle_job code held follow j (set_job None (set_proc false false false s))).2.
Proof.
  intros Ej Esc. unfold onEnvelopeJobExited. rewrite snd_seq. cbn [fst snd Actions.set app]. rewrite Esc. unfold reading at 1. cbn [jbs set_proc on_jbs procScrub envelopeJob].
  rewrite Ej, !snd_seq, later_out. cbn [fst snd Actions.set app]. rewrite app_nil_r. set (r := settle_job _ _ _ _ _). unfold reading, when. destruct (_ && _); [rewrite later_out|cbn]; apply app_nil_r.
Qed.

(** The effects of an exit. *)
Lemma exited_out code held follow s : inv s -> procRun (jbs s) = true ->
  (exists o, Forall small o /\ (onEnvelopeJobExited code held follow s).2 = o)
  \/ (exists j o, Forall small o /\ envelopeJob (jbs s) = Some j /\ procScrub (jbs s) = false
      /\ ((onEnvelopeJobExited code held follow s).2 = Done j code (holdOutput j && held) :: o /\ accepted j s
          \/ (onEnvelopeJobExited code held follow s).2 = Discarded j :: o /\ purging j = None)).
Proof.
  intros H Hr. pose proof (v_shape _ _ H) as Hs. unfold shape in Hs. destruct (procScrub (jbs s)) eqn:Esc.
  { left. eexists. split; [|done]. unfold onEnvelopeJobExited. rewrite snd_seq. cbn [fst snd Actions.set app]. unfold reading. cbn. rewrite Esc. apply pump_small. }
  destruct (envelopeJob (jbs s)) as [j|] eqn:Ej; [|destruct Hs as [[]|[]]; congruence]. right.
  destruct (settle_out code held follow j (set_job None (set_proc false false false s))) as (o & Ho & Hd). exists j, o. split; [done|]. split; [done|]. split; [done|].
  rewrite (exited_job_out _ _ _ _ _ Ej Esc). exact Hd.
Qed.

(** Only an exit answers a job. *)
Definition no_answer (x : job_effect) : Prop := match x with Done _ _ _ | Discarded _ => False | _ => True end.
Lemma small_no_answer out : Forall small out -> Forall no_answer out.
Proof. intros H. eapply Forall_impl; [exact H|]. by intros []. Qed.

Lemma sweep_out s : Forall no_answer (requestAllCredentialClear s).2.
Proof. unfold requestAllCredentialClear, reading. destruct (keyringClearAllProc (lgo s)); [constructor|]. destruct (credentialStoresRunning s); [constructor|]. by apply Forall_singleton. Qed.
Lemma finish_out next s : Forall no_answer (finishLogoutIfReady next s).2.
Proof. unfold finishLogoutIfReady, reading. destruct (_ || _ || _); [constructor|]. destruct (negb _); [constructor|]. by apply Forall_singleton. Qed.
Lemma cancel_out s : Forall no_answer (cancelEnvelopeUnlockJobs s).2.
Proof.
  destruct (cancel_result s) as (x & -> & Hx). destruct (cancel_queued_out (envelopeJobs (jbs s)) s) as (_ & _ & _ & C). rewrite Forall_app. split; [by apply small_no_answer|].
  destruct Hx as [(_ & -> & _)|(j & _ & _ & [(_ & [-> | ->] & _)|(_ & -> & _)])]; [constructor|by apply Forall_singleton|constructor|by apply Forall_singleton].
Qed.
Lemma drop_out s : inv s -> Forall no_answer (dropEnvelopeState s).2.
Proof. intros H. apply small_no_answer. by apply drop_state_inv. Qed.
Lemma drop_vault_out s : Forall no_answer (dropVaultState s).2.
Proof. unfold dropVaultState. rewrite snd_seq. cbn [snd Actions.set]. rewrite app_nil_r. apply cancel_out. Qed.

Lemma event_no_answer ev s : inv s -> possible s ev -> (forall c h f, ev <> JobExited c h f) -> Forall no_answer (dispatch ev s).2.
Proof.
  intros H Hp Hev. destruct ev; cbn [dispatch]; try (by constructor); try (by destruct (Hev _ _ _ eq_refl)).
  - apply small_no_answer, queue_spec_small.
  - apply small_no_answer, queue_purge_small.
  - apply cancel_out.
  - apply drop_vault_out.
  - unfold leave_for. rewrite !snd_seq. cbn [snd Actions.set]. rewrite app_nil_r, Forall_app. split; [apply drop_vault_out|]. apply drop_out. by apply drop_vault_inv.
  - unfold logoutAccount, reading. destruct (logoutPending (lgo s)); [constructor|]. rewrite !snd_seq. cbn [fst snd Actions.set app]. rewrite !Forall_app.
    set (s0 := set_logout _ _ _ _ s). assert (inv s0) as H0 by (by apply (inv_same true s)). split_and!; [apply drop_vault_out| |apply sweep_out]. apply drop_out. by apply drop_vault_inv.
  - unfold onLogoutCliFinished, reading. destruct (negb _); [constructor|]. rewrite snd_seq. apply finish_out.
  - unfold retryLogoutCleanup, reading. destruct (negb _); [constructor|]. rewrite snd_seq. apply sweep_out.
  - unfold store_runs. rewrite snd_seq. unfold reading, when. destruct (_ && _); [rewrite later_out|]; constructor.
  - unfold sweep_exited. rewrite snd_seq. cbn [fst snd Actions.set app]. unfold reading. destruct (allCredentialsClearPending _); [rewrite later_out; constructor|].
    unfold onLogoutCredentialsFinished, reading. destruct (negb _); [constructor|]. rewrite snd_seq. apply finish_out.
  - rewrite snd_seq. cbn [fst snd Actions.set app]. unfold reading, when. destruct (_ && _); [apply sweep_out|constructor].
  - unfold reading at 1. destruct (agenda (jbs s)) as [|x l]; [constructor|]. rewrite snd_seq. cbn [fst snd Actions.set app]. destruct x as [| |j|]; cbn [run_later].
    + unfold reading. destruct (procRunning _); [constructor|]. rewrite snd_seq. unfold when. destruct (negb _); [by apply Forall_singleton|constructor].
    + apply small_no_answer, pump_small.
    + unfold reading. destruct (purging j) as [t|]; [|constructor]. unfold when. destruct (_ && _); [apply small_no_answer, queue_purge_small|constructor].
    + apply sweep_out.
Qed.

Lemma answer_accepted ev s j c h : inv s -> possible s ev -> Done j c h ∈ (dispatch ev s).2 -> envelopeJob (jbs s) = Some j /\ accepted j s.
Proof.
  intros H Hp Hd. destruct ev as [| | | | | | | | | | | | |code held follow| | |].
  all: try (exfalso; apply (proj1 (Forall_forall _ _) (event_no_answer _ _ H Hp ltac:(done))) in Hd; done).
  cbn [dispatch] in Hd. destruct (exited_out code held follow s H Hp) as [(o & Ho & E)|(i & o & Ho & Ei & _ & [(E & Ha)|(E & Ha)])]; rewrite E in Hd.
  - by apply small_done in Hd.
  - apply elem_of_cons in Hd as [[= -> _ _]|Hd]; [done|]. by apply small_done in Hd.
  - apply elem_of_cons in Hd as [?|Hd]; [done|]. by apply small_done in Hd.
Qed.

(** ** After a lock *)

(** What can follow a state. *)
Inductive leads : service -> list job_effect -> service -> Prop :=
| leads_none s : leads s [] s
| leads_event ev s out s' : possible s ev -> leads (step_service ev s) out s' -> leads s ((dispatch ev s).2 ++ out) s'.

(** The unlocks older than [n] are cancelled. *)
Definition barred (n : Z) (s : service) : Prop := forall j, j ∈ live (jbs s) -> unlock j = true -> jobId j < n -> cancelled j = true.

Lemma barred_moves n s out s' : moves s out s' -> n <= nextJob (jbs s) -> barred n s -> barred n s'.
Proof. intros (_ & _ & _ & _ & _ & Ho) Hn Hb j Hj Hu Hl. destruct (Ho j Hj) as [?|(i & Hi & Ei & Eu & Hc)]; [lia|]. apply Hc, Hb; congruence. Qed.

Lemma barred_answers n s out s' : leads s out s' -> inv s -> n <= nextJob (jbs s) -> barred n s -> forall j c h, unlock j = true -> jobId j < n -> Done j c h ∉ out.
Proof.
  induction 1 as [s|ev s out s' Hp _ IH]; intros Hi Hn Hb j c h Hu Hl; [set_solver|]. destruct (inv_event ev s Hi Hp) as [H1 H2]. pose proof H2 as (_ & _ & Hle & _).
  intros [Hd|Hd]%elem_of_app; [|by apply (IH H1 ltac:(cbn in Hle; unfold step_service; lia) ltac:(by eapply barred_moves) j c h)].
  destruct (answer_accepted ev s j c h Hi Hp Hd) as [Ej Ha].
  assert (j ∈ live (jbs s)) as Hj by (unfold live; rewrite Ej; by left).
  destruct Ha as [Ha|(_ & _ & Ha)]; [|destruct (Ha Hu) as [Hc _]; by rewrite (Hb j Hj Hu Hl) in Hc]. destruct (purging j) as [t|] eqn:Et; [|done]. destruct (v_purge _ _ Hi j Hj t Et). congruence.
Qed.

(** The events that cancel what unlocks. *)
Definition cancels (s : service) (ev : job_event) : Prop :=
  match ev with LockVault | CancelUnlocks | SwitchAccount _ => True | Logout => logoutPending (lgo s) = false | _ => False end.

Lemma cancel_barred s : barred (nextJob (jbs s)) (cancelEnvelopeUnlockJobs s).1.
Proof.
  destruct (cancel_result s) as (x & _ & Hx). assert (Hk : forall j, j ∈ kept (envelopeJobs (jbs s)) -> unlock j = false) by (intros j Hj; apply in_filter in Hj as [_ Hj]; by apply negb_true_iff).
  intros j Hj Hu _. destruct Hx as [(E & _ & Hn)|(i & Ei & Eu & [(_ & _ & E)|(_ & _ & E)])]; rewrite E in Hj; unfold live in Hj.
  - apply elem_of_app in Hj as [Hj|Hj%Hk]; [|congruence]. cbn in Hj. destruct (envelopeJob (jbs s)) as [i|]; [|by apply elem_of_nil in Hj]. apply list_elem_of_singleton in Hj as ->. by rewrite (Hn i eq_refl) in Hu.
  - cbn in Hj. apply elem_of_cons in Hj as [->|Hj%Hk]; [done|congruence].
  - cbn in Hj. apply Hk in Hj. congruence.
Qed.

Lemma drop_vault_barred s : barred (nextJob (jbs s)) (dropVaultState s).1.
Proof. unfold dropVaultState. rewrite fst_seq. exact (cancel_barred s). Qed.

Lemma moves_next s out s' : moves s out s' -> nextJob (jbs s) <= nextJob (jbs s').
Proof. by intros (_ & _ & ? & _). Qed.

Lemma cancels_barred ev s : inv s -> possible s ev -> cancels s ev -> barred (nextJob (jbs s)) (step_service ev s).
Proof.
  intros H Hp Hc. unfold step_service. destruct ev; try done; cbn [dispatch]; [apply cancel_barred|apply drop_vault_barred|..].
  - unfold leave_for. rewrite !fst_seq. destruct (drop_vault_inv s H) as [D1 D2]. destruct (drop_state_inv _ D1) as (_ & E2 & _).
    eapply (barred_moves _ (dropVaultState s).1); [exact E2|by eapply moves_next|apply drop_vault_barred].
  - cbn in Hc. unfold logoutAccount, reading. rewrite Hc, !fst_seq. cbn [fst Actions.set]. set (s0 := set_logout _ _ _ _ s). assert (inv s0) as H0 by (by apply (inv_same true s)).
    destruct (drop_vault_inv s0 H0) as [D1 D2]. destruct (drop_state_inv _ D1) as (E1 & E2 & _). destruct (logs_inv _ _ (sweep_logs (dropEnvelopeState (dropVaultState s0).1).1) E1) as [_ F2].
    eapply (barred_moves _ (dropVaultState s0).1); [eapply moves_trans; [exact E2|exact F2]|by apply moves_next in D2|exact (drop_vault_barred s0)].
Qed.

(** C6: What a quick unlock yields is used only for the account and the opening of the
    vault it was asked in, when nothing cancelled it and no logout is under way; and
    after a lock, a switch, a logout or a dismissed prompt no unlock asked for before is
    answered, whatever comes later. *)
Theorem unlock_answers_current done s : reached done s ->
  (forall ev j c h, possible s ev -> Done j c h ∈ (dispatch ev s).2 -> unlock j = true ->
     slot j = activeSlot s /\ epoch j = vaultEpoch s /\ cancelled j = false /\ logoutPending (lgo s) = false)
  /\ (forall ev out s' j c h, possible s ev -> cancels s ev -> leads (step_service ev s) out s' -> unlock j = true -> jobId j < nextJob (jbs s) ->
     Done j c h ∉ (dispatch ev s).2 ++ out).
Proof.
  intros H. destruct (reached_moves done s H) as (Hi & _). split.
  - intros ev j c h Hp Hd Hu. destruct (answer_accepted ev s j c h Hi Hp Hd) as [Ej [Ha|(H1 & H2 & H3)]]; [|by destruct (H3 Hu)].
    destruct (purging j) as [t|] eqn:Et; [|done]. assert (j ∈ live (jbs s)) as Hj by (unfold live; rewrite Ej; by left). destruct (v_purge _ _ Hi j Hj t Et). congruence.
  - intros ev out s' j c h Hp Hc Hl Hu Hn. destruct (inv_event ev s Hi Hp) as [H1 H2].
    intros [Hd|Hd]%elem_of_app; [|by apply (barred_answers (nextJob (jbs s)) _ _ _ Hl H1 (moves_next _ _ _ H2) (cancels_barred ev s Hi Hp Hc) j c h)].
    by apply (proj1 (Forall_forall _ _) (event_no_answer ev s Hi Hp ltac:(by destruct ev))) in Hd.
Qed.

(** ** What the queue leaves alone *)

(** A relation that looks only at the methods removed, the logout and the deferred calls. *)
Section apart.
  Context (R : service -> list job_effect -> service -> Prop) `{!Composes R}.
  Context (R_same : forall s s' out, reconciledMethods (prg s') = reconciledMethods (prg s) -> lgo s' = lgo s -> agenda (jbs s') = agenda (jbs s) -> R s out s').
  Context (R_later : forall x, along R (call_later x)).

#[local] Hint Extern 1 (along _ (set _)) => apply along_set; intro; by apply R_same : along.
#[local] Hint Extern 1 (along _ (when _ _)) => unfold when : along.
#[local] Hint Extern 1 (along _ (call_later _)) => apply R_later : along.
#[local] Hint Extern 1 (along _ (set_running _)) => unfold set_running : along.
#[local] Hint Extern 1 (along _ (forget_env _)) => intro; by apply R_same : along.

Lemma cancelled_apart j : along R (onCancelled j).
Proof. unfold onCancelled. auto 10 with along. Qed.
#[local] Hint Resolve cancelled_apart : along.
Lemma pump_over_apart q : along R (pump_over q).
Proof.
  induction q as [|j q IH]; cbn [pump_over]; [auto with along|]. apply along_seq; [done|auto with along|]. apply along_reading. intros s.
  unfold start_job. destruct (match purging j with Some _ => _ | None => _ end); auto 12 with along.
Qed.
#[local] Hint Resolve pump_over_apart : along.
Lemma pump_apart : along R pumpEnvelopeJobs.
Proof. unfold pumpEnvelopeJobs. auto 10 with along. Qed.
#[local] Hint Resolve pump_apart : along.
Lemma queue_spec_apart x : along R (queue_spec x).
Proof. unfold queue_spec, queueEnvelopeJob. auto 10 with along. Qed.
#[local] Hint Resolve queue_spec_apart : along.
Lemma queue_all_apart l : along R (queue_all l).
Proof. induction l as [|x l IH]; cbn [queue_all]; auto with along. Qed.
Lemma queue_purge_apart slots method key : along R (queueQuickUnlockPurge slots method key).
Proof. unfold queueQuickUnlockPurge, queueEnvelopeJob. auto 14 with along. Qed.
Lemma cancel_queued_apart l : along R (cancel_queued l).
Proof. induction l as [|j l IH]; cbn [cancel_queued]; auto 10 with along. Qed.
#[local] Hint Resolve cancel_queued_apart : along.
Lemma cancel_apart : along R cancelEnvelopeUnlockJobs.
Proof. unfold cancelEnvelopeUnlockJobs. auto 16 with along. Qed.
#[local] Hint Resolve cancel_apart : along.
Lemma discard_apart l : along R (discard l).
Proof. induction l as [|j l IH]; cbn [discard]; auto 10 with along. Qed.
#[local] Hint Resolve discard_apart : along.
Lemma drop_apart : along R dropEnvelopeState.
Proof. unfold dropEnvelopeState. auto 12 with along. Qed.
Lemma drop_vault_apart : along R dropVaultState.
Proof. unfold dropVaultState. auto with along. Qed.
Lemma exited_apart code held follow : (forall j, along R (settle_job code held follow j)) -> along R (onEnvelopeJobExited code held follow).
Proof. intros Hj. unfold onEnvelopeJobExited. auto 14 with along. Qed.
End apart.

(** ** Purges *)

(** A method that counts as removed was, or a purge of it has just succeeded. *)
Definition recorded_rel (s : service) (out : list job_effect) (s' : service) : Prop :=
  forall k, k ∈ reconciledMethods (prg s') -> k ∈ reconciledMethods (prg s) \/ exists j t h, Done j 0 h ∈ out /\ purging j = Some t /\ purgeKey t = k.
#[export] Instance recorded_composes : Composes recorded_rel.
Proof.
  split; [by left|by left|]. intros s1 s2 s3 e1 e2 H1 H2 k Hk. destruct (H2 k Hk) as [Hk2|(j & t & h & ? & ?)]; [|right; exists j, t, h; rewrite elem_of_app; auto].
  destruct (H1 k Hk2) as [?|(j & t & h & ? & ?)]; [by left|right; exists j, t, h; rewrite elem_of_app; auto].
Qed.

Lemma recorded_same s s' out : reconciledMethods (prg s') = reconciledMethods (prg s) -> lgo s' = lgo s -> agenda (jbs s') = agenda (jbs s) -> recorded_rel s out s'.
Proof. intros E _ _ k Hk. left. by rewrite <- E. Qed.
Lemma recorded_later x : along recorded_rel (call_later x).
Proof. intros s. destruct (later_parts x s) as (l & ->). by left. Qed.

Lemma recorded_settle code held follow j : along recorded_rel (settle_job code held follow j).
Proof.
  intros s k. unfold settle_job, reading. rewrite fst_seq, snd_seq. destruct (scrub_later_parts (secretOutput j) s) as (l & -> & -> & _). cbn [app]. set (s1 := set_agenda l s).
  destruct (_ || is_some (purging j)).
  2: { rewrite fst_seq. unfold when. destruct (holdOutput j && held); by left. }
  rewrite !fst_seq, !snd_seq. cbn [emit fst snd app]. intros [Hk|(i & t & h & Hi & Hr)]%(queue_all_apart recorded_rel recorded_same follow).
  2: { right. exists i, t, h. split; [|done]. set_solver. }
  destruct (purging j) as [t|] eqn:Et; [|by left]. revert Hk. unfold purge_done, reading. destruct (_ || _); [by left|]. rewrite fst_seq. cbn [fst Actions.set].
  destruct (code =? 0) eqn:Ec.
  - boolZ. subst code. cbn. intros [->%elem_of_singleton|Hk]%elem_of_union; [|by left]. right. exists j, t, (holdOutput j && held). split; [|done]. by left.
  - unfold when. rewrite fst_seq. destruct (negb _); by left.
Qed.

Lemma recorded_lgo s s' out : prg s' = prg s -> recorded_rel s out s'.
Proof. intros E k Hk. left. by rewrite <- E. Qed.

(** For the relations above, with [R_same] and [R_later] at hand. *)
Ltac apart R L := eapply (L R); first [apply _ | assumption].

Lemma recorded_event ev s : inv s -> recorded_rel s (dispatch ev s).2 (dispatch ev s).1.
Proof.
  pose proof recorded_same as Hs. pose proof recorded_later as Hl. intros H. destruct ev; cbn [dispatch]; try (by apply recorded_lgo).
  - apart recorded_rel queue_spec_apart.
  - apart recorded_rel queue_purge_apart.
  - apart recorded_rel cancel_apart.
  - apart recorded_rel drop_vault_apart.
  - unfold leave_for. rewrite !fst_seq, !snd_seq. eapply (compose_seq (R := recorded_rel)); [apart recorded_rel drop_vault_apart|]. eapply (compose_seq (R := recorded_rel)); [apart recorded_rel drop_apart|by left].
  - intros k Hk. left. cbn in Hk. by apply elem_of_filter in Hk as [_ ?].
  - unfold logoutAccount, reading. destruct (logoutPending (lgo s)); [by left|]. rewrite !fst_seq, !snd_seq. cbn [fst snd Actions.set app]. set (s0 := set_logout _ _ _ _ s).
    change (recorded_rel s) with (recorded_rel s0). eapply (compose_seq (R := recorded_rel)); [apart recorded_rel drop_vault_apart|]. eapply (compose_seq (R := recorded_rel)); [apart recorded_rel drop_apart|]. apply recorded_lgo, sweep_logs.
  - apply recorded_lgo, cli_logs.
  - apply recorded_lgo, cleanup_logs.
  - unfold store_runs. rewrite fst_seq, snd_seq. cbn [fst snd Actions.set app]. change (recorded_rel s) with (recorded_rel (set_storing b s)). unfold reading, when. destruct (_ && _); [apply recorded_later|by left].
  - apply (exited_apart recorded_rel); [done|done|]. apply recorded_settle.
  - unfold sweep_exited. rewrite fst_seq, snd_seq. cbn [fst snd Actions.set app]. set (s0 := set_sweep _ _ s). change (recorded_rel s) with (recorded_rel s0). unfold reading.
    destruct (allCredentialsClearPending _); [apply recorded_later|]. apply recorded_lgo, credentials_logs.
  - rewrite fst_seq, snd_seq. unfold reading, when. destruct (_ && _); [|by left]. apply recorded_lgo. destruct (sweep_logs (set_retry false s)) as (_ & E & _). exact E.
  - unfold reading at 1 2. destruct (agenda (jbs s)) as [|x l]; [by left|]. rewrite fst_seq, snd_seq. cbn [fst snd Actions.set app]. change (recorded_rel s) with (recorded_rel (set_agenda l s)).
    destruct x as [| |j|]; cbn [run_later].
    + unfold reading. destruct (procRunning _); [by left|]. rewrite fst_seq. unfold when. destruct (negb _); by left.
    + apart recorded_rel pump_apart.
    + unfold reading. destruct (purging j) as [t|]; [|by left]. unfold when. destruct (_ && _); [apart recorded_rel queue_purge_apart|by left].
    + apply recorded_lgo, sweep_logs.
Qed.

(** C20: The purges of disabled methods are counted under a key, the list of accounts
    purged and the method, so that one method can be purged under several keys: no key
    has more than three attempts at a time; a pending mark names one job, current and
    waiting or running, so that no two purges under one key are under way; and a key
    counts as removed only after a purge under it succeeded. *)
Theorem purges_tracked done s : reached done s ->
  (forall k, 0 <= counted (quickUnlockPurgeAttempts (prg s)) k <= quickUnlockPurgeMaxAttempts)
  /\ (forall k id, quickUnlockPurgePending (prg s) !! k = Some id ->
       exists j t, j ∈ live (jbs s) /\ jobId j = id /\ purging j = Some t /\ purgeKey t = k /\ isCurrent t s = true)
  /\ (forall k, k ∈ reconciledMethods (prg s) -> exists j t h, Done j 0 h ∈ done /\ purging j = Some t /\ purgeKey t = k).
Proof.
  intros H. destruct (reached_moves done s H) as (Hi & _). split_and!; [apply (v_budget _ _ Hi)|apply (v_pending _ _ Hi)|]. clear Hi.
  induction H as [x|ev done s H IH Hp]; [set_solver|]. intros k Hk. destruct (reached_moves done s H) as (Hi & _).
  destruct (recorded_event ev s Hi k Hk) as [Hk'|(j & t & h & ? & ?)]; [destruct (IH k Hk') as (j & t & h & ? & ?)|]; exists j, t, h; rewrite elem_of_app; auto.
Qed.

(** ** Logging out *)

(** The jobs leave the logout alone, and a deferred sweep waiting. *)
Definition kept_rel (s : service) (_ : list job_effect) (s' : service) : Prop :=
  lgo s' = lgo s /\ (SweepLater ∈ agenda (jbs s) -> SweepLater ∈ agenda (jbs s')).
#[export] Instance kept_composes : Composes kept_rel.
Proof. split; [done|done|]. intros s1 s2 s3 e1 e2 [E1 H1] [E2 H2]. split; [congruence|auto]. Qed.

Lemma kept_same s s' out : reconciledMethods (prg s') = reconciledMethods (prg s) -> lgo s' = lgo s -> agenda (jbs s') = agenda (jbs s) -> kept_rel s out s'.
Proof. intros _ E1 E2. split; [done|]. by rewrite E2. Qed.
Lemma kept_later x : along kept_rel (call_later x).
Proof. intros s. split; [by destruct (later_parts x s) as (l & ->)|apply later_keeps]. Qed.
Lemma kept_settle code held follow j : along kept_rel (settle_job code held follow j).
Proof.
  pose proof (queue_all_apart kept_rel kept_same follow) as Hq. pose proof kept_later as Hl.
  unfold settle_job, purge_done. apply along_reading. intros s. unfold when. destruct (purging j); auto 20 with along.
Qed.

(** A sweep is running, or will be asked for again. *)
Definition sweep_owed (s : service) : Prop :=
  keyringClearAllProc (lgo s) = true
  \/ (allCredentialsClearPending (lgo s) = true /\ (SweepLater ∈ agenda (jbs s) \/ credentialClearRetry (lgo s) = true)).
Definition logout_inv (s : service) : Prop := logoutPending (lgo s) = true -> logoutCredentialsDone (lgo s) = false -> sweep_owed s.

Lemma kept_logout s out s' : kept_rel s out s' -> logout_inv s -> logout_inv s'.
Proof. intros [E Hk] H. unfold logout_inv, sweep_owed. rewrite E. intros H1 H2. destruct (H H1 H2) as [?|[? [?|?]]]; auto. Qed.

Lemma sweep_owes s : sweep_owed (requestAllCredentialClear s).1.
Proof.
  unfold requestAllCredentialClear, reading. destruct (keyringClearAllProc (lgo s)) eqn:E; [by left|]. destruct (credentialStoresRunning s); [|by left]. right. cbn. auto.
Qed.

Lemma finish_logout next s : logout_inv s -> logout_inv (finishLogoutIfReady next s).1.
Proof. intros H. unfold finishLogoutIfReady, reading. destruct (_ || _ || _); [done|]. by destruct (negb _). Qed.

Lemma logout_event ev s : logout_inv s -> possible s ev -> logout_inv (dispatch ev s).1.
Proof.
  intros H Hp. pose proof kept_same as Hs. pose proof kept_later as Hl. destruct ev; cbn [dispatch]; try (by apply (kept_logout s [])).
  - eapply (kept_logout s); [apart kept_rel queue_spec_apart|done].
  - eapply (kept_logout s); [apart kept_rel queue_purge_apart|done].
  - eapply (kept_logout s); [apart kept_rel cancel_apart|done].
  - eapply (kept_logout s); [apart kept_rel drop_vault_apart|done].
  - unfold leave_for. rewrite !fst_seq. apply (kept_logout (dropEnvelopeState (dropVaultState s).1).1 []); [done|]. eapply kept_logout; [apart kept_rel drop_apart|].
    eapply kept_logout; [apart kept_rel drop_vault_apart|done].
  - unfold logoutAccount, reading. destruct (logoutPending (lgo s)); [done|]. rewrite !fst_seq. intros _ _. apply sweep_owes.
  - unfold onLogoutCliFinished, reading. destruct (negb (logoutPending (lgo s))) eqn:E; [done|]. rewrite fst_seq. apply finish_logout. apply negb_false_iff in E. intros _ Hd. by apply H.
  - unfold retryLogoutCleanup, reading. destruct (negb _); [done|]. rewrite fst_seq. intros _ _. apply sweep_owes.
  - unfold store_runs. rewrite fst_seq. cbn [fst Actions.set]. assert (logout_inv (set_storing b s)) as H0 by exact H. unfold reading, when. destruct (_ && _); [|done].
    eapply kept_logout; [apply kept_later|done].
  - eapply (kept_logout s); [|done]. apply (exited_apart kept_rel); [done|done|]. apply kept_settle.
  - unfold sweep_exited. rewrite fst_seq. cbn [fst Actions.set]. set (s0 := set_sweep _ _ s). unfold reading. destruct (allCredentialsClearPending (lgo s0)) eqn:E.
    + intros _ _. right. destruct (later_parts SweepLater s0) as (l & El). split; [by rewrite El|]. left. apply later_last.
    + unfold onLogoutCredentialsFinished, reading. destruct (negb (logoutPending (lgo s0))) eqn:Ep; [intros Hp' _; cbn in Hp', Ep; by rewrite Hp' in Ep|]. rewrite fst_seq. by apply finish_logout.
  - rewrite fst_seq. cbn [fst Actions.set]. unfold reading, when. destruct (logoutPending _ && allCredentialsClearPending _) eqn:E; [intros _ _; apply sweep_owes|].
    intros H1 H2. cbn in E, H1, H2. rewrite H1 in E. cbn in E. destruct (H H1 H2) as [?|[? _]]; [by left|congruence].
  - unfold reading at 1. destruct (agenda (jbs s)) as [|x l] eqn:Ea; [done|]. rewrite fst_seq. cbn [fst Actions.set].
    assert (x <> SweepLater -> logout_inv (set_agenda l s)) as Hpop.
    { intros Hx H1 H2. destruct (H H1 H2) as [?|[? [Hin|?]]]; [by left|right..]; (split; [done|]); [|by right]. left. cbn. rewrite Ea in Hin. by apply elem_of_cons in Hin as [<-|?]. }
    destruct x as [| |j|]; cbn [run_later]; [..|intros _ _; apply sweep_owes].
    + specialize (Hpop ltac:(done)). unfold reading. destruct (procRunning _); [done|]. rewrite fst_seq. unfold when. by destruct (negb _).
    + eapply kept_logout; [apart kept_rel pump_apart|by apply Hpop].
    + specialize (Hpop ltac:(done)). unfold reading. destruct (purging j) as [t|]; [|done]. unfold when. destruct (_ && _); [|done]. eapply kept_logout; [apart kept_rel queue_purge_apart|done].
Qed.

Lemma sweep_idle s : Swept ∈ (requestAllCredentialClear s).2 -> credentialStoresRunning (requestAllCredentialClear s).1 = false.
Proof.
  unfold requestAllCredentialClear, reading. destruct (keyringClearAllProc (lgo s)); [intros Hx; cbn in Hx; set_solver|]. destruct (credentialStoresRunning s) eqn:E; [intros Hx; cbn in Hx; set_solver|].
  intros _. exact E.
Qed.

Lemma small_swept out : Forall small out -> Swept ∉ out.
Proof. intros Hf Hi. by apply (proj1 (Forall_forall _ _) Hf) in Hi. Qed.
Lemma finish_swept next s : Swept ∉ (finishLogoutIfReady next s).2.
Proof. unfold finishLogoutIfReady, reading. destruct (_ || _ || _); [set_solver|]. destruct (negb _); set_solver. Qed.
Lemma cancel_swept s : Swept ∉ (dropVaultState s).2 /\ Swept ∉ (cancelEnvelopeUnlockJobs s).2.
Proof.
  assert (Swept ∉ (cancelEnvelopeUnlockJobs s).2) as Hc.
  { destruct (cancel_result s) as (x & -> & Hx). destruct (cancel_queued_out (envelopeJobs (jbs s)) s) as (_ & _ & _ & C). intros [Hi|Hi]%elem_of_app; [by apply (small_swept _ C)|].
    destruct Hx as [(_ & -> & _)|(j & _ & _ & [(_ & [-> | ->] & _)|(_ & -> & _)])]; set_solver. }
  split; [|done]. unfold dropVaultState. rewrite snd_seq. cbn [snd Actions.set]. by rewrite app_nil_r.
Qed.

Lemma swept_event ev s : inv s -> possible s ev -> Swept ∈ (dispatch ev s).2 -> credentialStoresRunning (dispatch ev s).1 = false.
Proof.
  intros H Hp. destruct ev; cbn [dispatch]; try (intros Hx; cbn in Hx; by apply elem_of_nil in Hx).
  - intros Hx. by apply small_swept in Hx; [|apply queue_spec_small].
  - intros Hx. by apply small_swept in Hx; [|apply queue_purge_small].
  - intros Hx. by apply cancel_swept in Hx.
  - intros Hx. by apply cancel_swept in Hx.
  - unfold leave_for. rewrite !snd_seq. cbn [snd Actions.set]. rewrite app_nil_r. intros [Hx|Hx]%elem_of_app; [by apply cancel_swept in Hx|].
    apply small_swept in Hx; [done|]. apply drop_state_inv. by apply drop_vault_inv.
  - unfold logoutAccount, reading. destruct (logoutPending (lgo s)); [set_solver|]. rewrite !fst_seq, !snd_seq. cbn [fst snd Actions.set app]. set (s0 := set_logout _ _ _ _ s).
    assert (inv s0) as H0 by (by apply (inv_same true s)). intros [Hx|[Hx|Hx]%elem_of_app]%elem_of_app; [by apply cancel_swept in Hx| |by apply sweep_idle].
    apply small_swept in Hx; [done|]. apply drop_state_inv. by apply drop_vault_inv.
  - unfold onLogoutCliFinished, reading. destruct (negb _); [set_solver|]. rewrite snd_seq. cbn [fst snd Actions.set app]. intros Hx. by apply finish_swept in Hx.
  - unfold retryLogoutCleanup, reading. destruct (negb _); [set_solver|]. rewrite fst_seq, snd_seq. cbn [fst snd Actions.set app]. apply sweep_idle.
  - unfold store_runs. rewrite snd_seq. unfold reading at 1. unfold when. destruct (_ && _); [rewrite later_out|]; set_solver.
  - intros Hx. destruct (exited_out exitCode held follow s H Hp) as [(o & Ho & E)|(i & o & Ho & _ & _ & [(E & _)|(E & _)])]; rewrite E in Hx.
    + by apply small_swept in Hx.
    + apply elem_of_cons in Hx as [?|Hx]; [done|]. by apply small_swept in Hx.
    + apply elem_of_cons in Hx as [?|Hx]; [done|]. by apply small_swept in Hx.
  - unfold sweep_exited. rewrite snd_seq. cbn [fst snd Actions.set app]. unfold reading at 1. destruct (allCredentialsClearPending _); [rewrite later_out; set_solver|].
    unfold onLogoutCredentialsFinished, reading at 1. destruct (negb _); [set_solver|]. rewrite snd_seq. cbn [fst snd Actions.set app]. intros Hx. by apply finish_swept in Hx.
  - rewrite fst_seq, snd_seq. cbn [fst snd Actions.set app]. unfold reading, when. destruct (_ && _); [apply sweep_idle|set_solver].
  - unfold reading at 1 2. destruct (agenda (jbs s)) as [|x l]; [set_solver|]. rewrite fst_seq, snd_seq. cbn [fst snd Actions.set app]. destruct x as [| |j|]; cbn [run_later]; [..|apply sweep_idle]; intros Hx; exfalso; revert Hx.
    + unfold reading. destruct (procRunning _); [set_solver|]. rewrite snd_seq. unfold when. destruct (negb _); set_solver.
    + apply small_swept, pump_small.
    + unfold reading. destruct (purging j) as [t|]; [|set_solver]. unfold when. destruct (_ && _); [apply small_swept, queue_purge_small|set_solver].
Qed.

(** C19: Logging out sweeps the keyring only when nothing that writes to it runs: the
    session's store is idle, and the envelope process runs no job, or one that unlocks
    and was killed. *)
Theorem sweep_without_writers done s ev : reached done s -> possible s ev -> Swept ∈ (dispatch ev s).2 ->
  let s' := step_service ev s in
  keyringStoreProc (lgo s') = false /\ procRunning (jbs s') = false /\ (forall j, envelopeJob (jbs s') = Some j -> unlock j = true /\ cancelled j = true).
Proof.
  intros H Hp Hx s'. destruct (reached_moves done s H) as (Hi & _). pose proof (swept_event ev s Hi Hp Hx) as Hs. apply orb_false_iff in Hs as [E1 E2].
  split_and!; [done|done|]. intros j Ej. destruct (inv_event ev s Hi Hp) as [H1 _]. pose proof (v_shape _ _ H1) as Hsh. unfold shape in Hsh. change (dispatch ev s).1 with s' in Hsh, E2. rewrite Ej in Hsh.
  destruct Hsh as [[_ [?|(_ & _ & ? & ?)]]|(_ & ? & ?)]; [congruence|done|done].
Qed.

(** ** Waiting *)

(** A deferred scrub has taken over the process of an unlock that was told to end: the
    unlock's exit is then read as the scrub's, and the unlock stays the job that runs. *)
Definition taken_over (q : jobs) : bool := procScrub q && is_some (envelopeJob q).
(** ... and that exit has come. *)
Definition stalled (q : jobs) : Prop := taken_over q = true /\ procRunning q = false /\ procRun q = false.

Lemma drop_progress s : inv s -> envelopeJob (jbs s) = None -> PumpLater ∈ agenda (jbs s) ->
  let s' := (dropEnvelopeState s).1 in envelopeJob (jbs s') = None /\ PumpLater ∈ agenda (jbs s').
Proof. intros H Ej Ha. destruct (drop_state_inv s H) as (_ & _ & _ & E1 & _ & E2 & _). cbv zeta in *. by rewrite E1, E2. Qed.

(** What cancels an unlock without a run lets the next job in. *)
Lemma cancel_unsticks s : inv s -> stalled (jbs s) ->
  let s' := (cancelEnvelopeUnlockJobs s).1 in envelopeJob (jbs s') = None /\ PumpLater ∈ agenda (jbs s').
Proof.
  intros H ([Esc Ej]%andb_true_iff & Er & En). pose proof (v_shape _ _ H) as Hs. unfold shape in Hs. destruct (envelopeJob (jbs s)) as [j|] eqn:Ejj; [|done].
  destruct Hs as [[? _]|(_ & Eu & _)]; [congruence|]. destruct (cancel_result s) as (x & _ & [(_ & _ & Hn)|(i & _ & _ & [(Hr & _)|(_ & _ & ->)])]); [|congruence|].
  - by rewrite (Hn j Ejj) in Eu.
  - split; [|apply later_last]. by destruct (later_parts PumpLater (set_job None (set_proc false false (procScrub (jbs s)) (set_jobs (kept (envelopeJobs (jbs s))) s)))) as (l & ->).
Qed.

Lemma stalled_recovers s ev : inv s -> stalled (jbs s) -> cancels s ev ->
  envelopeJob (jbs (step_service ev s)) = None /\ PumpLater ∈ agenda (jbs (step_service ev s)).
Proof.
  intros H Hs Hc. destruct (cancel_unsticks s H Hs) as [C1 C2]. unfold step_service. destruct ev; try done; cbn [dispatch]; [by unfold dropVaultState; rewrite fst_seq|..].
  - unfold leave_for. rewrite !fst_seq. apply drop_progress; [by apply drop_vault_inv|unfold dropVaultState; by rewrite fst_seq..].
  - cbn in Hc. unfold logoutAccount, reading. rewrite Hc, !fst_seq. cbn [fst Actions.set]. set (s0 := set_logout _ _ _ _ s). assert (inv s0) as H0 by (by apply (inv_same true s)).
    destruct (cancel_unsticks s0 H0 Hs) as [D1 D2]. rewrite (proj1 (sweep_logs _)). apply drop_progress; [by apply drop_vault_inv|unfold dropVaultState; by rewrite fst_seq..].
Qed.

(** C30: Nothing is left waiting for nothing, but for one way to get stuck.  While jobs
    are queued, the envelope process is busy or waits for the helper, or a pump is
    deferred, or the queue is [stalled]: a deferred scrub of the collector took over the
    process of an unlock that had been told to end, the exit was read as the scrub's, and
    the unlock stays the job that runs.  What ends that is the next lock, dismissed
    prompt, switch or logout, which leaves no job running and defers a pump.  And while a
    logout has not cleared the credentials, the sweep runs, or is deferred or on a timer. *)
Theorem queue_progress done s : reached done s ->
  (envelopeJobs (jbs s) <> [] -> procRunning (jbs s) || procRun (jbs s) = true \/ PumpLater ∈ agenda (jbs s) \/ stalled (jbs s))
  /\ (stalled (jbs s) -> exists j, envelopeJob (jbs s) = Some j /\ unlock j = true /\ cancelled j = true)
  /\ (forall ev, stalled (jbs s) -> cancels s ev -> envelopeJob (jbs (step_service ev s)) = None /\ PumpLater ∈ agenda (jbs (step_service ev s)))
  /\ (logoutPending (lgo s) = true -> logoutCredentialsDone (lgo s) = false -> sweep_owed s).
Proof.
  intros H. destruct (reached_moves done s H) as (Hi & _). pose proof (v_shape _ _ Hi) as Hs. unfold shape in Hs. split_and!.
  - intros Hne. destruct (v_pump _ _ Hi eq_refl Hne) as [Hb|?]; [|by right; left]. destruct (procRunning (jbs s) || procRun (jbs s)) eqn:Er; [by left|right; right].
    apply orb_false_iff in Er as [E1 E2]. rewrite E1, orb_false_r in Hb. unfold stalled, taken_over. rewrite Hb, E1, E2. split_and!; try done.
    destruct (envelopeJob (jbs s)); [|done]. destruct Hs as [[_ [?|(_ & ? & _)]]|[-> _]]; congruence || done.
  - intros (Ht & _ & _). apply andb_true_iff in Ht as [Esc Ej]. destruct (envelopeJob (jbs s)) as [j|]; [|done]. destruct Hs as [[? _]|(_ & ? & ?)]; [congruence|]. by exists j.
  - intros ev. by apply stalled_recovers.
  - clear Hi Hs. change (logout_inv s). induction H as [x|ev done s H IH Hp]; [done|]. by apply logout_event.
Qed.

(** ** Runs for examples *)

Fixpoint play (es : list job_event) (s : service) : service :=
  match es with [] => s | ev :: es => play es (step_service ev s) end.
Fixpoint heard (es : list job_event) (s : service) : list job_effect :=
  match es with [] => [] | ev :: es => (dispatch ev s).2 ++ heard es (step_service ev s) end.
Fixpoint playable (es : list job_event) (s : service) : Prop :=
  match es with [] => True | ev :: es => possible s ev /\ playable es (step_service ev s) end.

Lemma played_reached es done s : reached done s -> playable es s -> reached (done ++ heard es s) (play es s).
Proof.
  revert done s. induction es as [|ev es IH]; intros done s H Hp; cbn; [by rewrite app_nil_r|]. destruct Hp as [Hp Hps]. rewrite app_assoc. apply IH; [|done]. by constructor.
Qed.
Lemma play_leads es s : playable es s -> leads s (heard es s) (play es s).
Proof. revert s. induction es as [|ev es IH]; intros s Hp; [constructor|]. destruct Hp as [Hp Hps]. cbn. constructor; [done|by apply IH]. Qed.

Definition start : service := init_service (js "default").
(** An unlock with a PIN the helper holds, and a write behind it. *)
Definition pin_unlock : spec := Spec true true true [(js "PIN", JStr (heldSecretRef (JStr (js "pw1"))))].
Definition a_write : spec := Spec false false false [].
Definition two_jobs : list job_event := [HelperReady; Queue pin_unlock; Queue a_write].
Definition both_run : list job_event := two_jobs ++ [JobExited 0 true []; NextDeferred; NextDeferred; JobExited 0 false []].
Definition a_purge : list job_event := [HelperReady; QueuePurge [js "default"] (js "pin") (js "default:pin"); JobExited 0 false []].

Lemma start_reached es : playable es start -> reached (heard es start) (play es start).
Proof. intros H. apply (played_reached es [] start); [constructor|done]. Qed.

Lemma jobs_accounted_witness :
  settled (heard both_run start) = [0] /\ started (heard both_run start) = [0; 1]
  /\ settled (heard both_run start) ++ ids (live (jbs (play both_run start))) ≡ₚ seqZ 0 2.
Proof.
  split; [by vm_compute|]. split; [by vm_compute|]. assert (playable both_run start) as Hp by (vm_compute; split_and!; done).
  apply (jobs_accounted (heard both_run start) (play both_run start) (start_reached both_run Hp)).
Defined.

Lemma unlock_answers_current_witness :
  let s := play two_jobs start in
  exists j, envelopeJob (jbs s) = Some j /\ unlock j = true
  /\ Done j 0 true ∉ (dispatch LockVault s).2 ++ heard [JobExited 0 true []] (step_service LockVault s).
Proof.
  assert (playable two_jobs start) as Hp by (vm_compute; split_and!; done). set (s := play two_jobs start).
  assert (possible s LockVault) as Hl by done.
  assert (playable [JobExited 0 true []] (step_service LockVault s)) as Hn by (vm_compute; split_and!; done).
  eexists. split; [by vm_compute|]. split; [by vm_compute|].
  apply (proj2 (unlock_answers_current (heard two_jobs start) s (start_reached two_jobs Hp)) LockVault _ _ _ 0 true Hl I (play_leads _ _ Hn)); by vm_compute.
Defined.

Lemma purges_tracked_witness :
  js "default:pin" ∈ reconciledMethods (prg (play a_purge start))
  /\ exists j t h, Done j 0 h ∈ heard a_purge start /\ purging j = Some t /\ purgeKey t = js "default:pin".
Proof.
  assert (playable a_purge start) as Hp by (vm_compute; split_and!; done).
  assert (js "default:pin" ∈ reconciledMethods (prg (play a_purge start))) as Hk by (vm_compute; set_solver).
  split; [exact Hk|]. exact (proj2 (proj2 (purges_tracked (heard a_purge start) (play a_purge start) (start_reached a_purge Hp))) _ Hk).
Defined.

(** The budget is per key: turning a method off, and reading an envelope afterwards, purge
    the same method under two keys, three times each. *)
Definition failing_purges : list job_event :=
  let fails := [JobExited 1 false []; NextDeferred; NextDeferred] in
  HelperReady :: QueuePurge [js "default"; js "default"] (js "pin") (js "default,default:pin") :: fails ++ fails ++ fails
  ++ QueuePurge [js "default"] (js "pin") (js "default:pin") :: fails ++ fails ++ fails
  ++ [QueuePurge [js "default"; js "default"] (js "pin") (js "default,default:pin"); QueuePurge [js "default"] (js "pin") (js "default:pin")].
Example purged_under_two_keys :
  playable failing_purges start /\ started (heard failing_purges start) = [0; 1; 2; 3; 4; 5] /\ reconciledMethods (prg (play failing_purges start)) = ∅
  /\ envelopeJobs (jbs (play failing_purges start)) = [] /\ envelopeJob (jbs (play failing_purges start)) = None.
Proof. vm_compute. split_and!; done. Qed.

Lemma sweep_without_writers_witness :
  let s := play two_jobs start in let es := two_jobs ++ [Logout; JobExited 0 true []; NextDeferred; NextDeferred] in
  procRunning (jbs s) = true /\ Swept ∈ heard es start
  /\ (let s' := step_service Logout start in keyringStoreProc (lgo s') = false /\ procRunning (jbs s') = false).
Proof.
  assert (possible start Logout) as Hp by done. assert (Swept ∈ (dispatch Logout start).2) as Hx by (vm_compute; set_solver).
  split; [by vm_compute|]. split; [vm_compute; set_solver|].
  destruct (sweep_without_writers [] start Logout (reached_init (js "default")) Hp Hx) as (H1 & H2 & _). split; [exact H1|exact H2].
Defined.

(** A read of the session has ended and its scrub is deferred when an unlock starts; a
    lock kills that one, the scrub takes its process, and a write waits behind it. *)
Definition gets_stuck : list job_event := [HelperReady; Queue pin_unlock; JobExited 0 true []; Queue pin_unlock; LockVault; NextDeferred; Queue a_write; JobExited 1 false []; NextDeferred].
Example stuck_queue :
  let s := play gets_stuck start in
  playable gets_stuck start /\ stalled (jbs s) /\ map jobId (envelopeJobs (jbs s)) = [2] /\ agenda (jbs s) = []
  /\ started (heard [LockVault; NextDeferred] s) = [2].
Proof. vm_compute. split_and!; done. Qed.

Lemma queue_progress_witness :
  let s := play gets_stuck start in envelopeJobs (jbs s) <> []
  /\ (procRunning (jbs s) || procRun (jbs s) = true \/ PumpLater ∈ agenda (jbs s) \/ stalled (jbs s))
  /\ envelopeJob (jbs (step_service LockVault s)) = None /\ PumpLater ∈ agenda (jbs (step_service LockVault s)).
Proof.
  assert (playable gets_stuck start) as Hp by (vm_compute; split_and!; done). assert (envelopeJobs (jbs (play gets_stuck start)) <> []) as Hn by by vm_compute.
  assert (stalled (jbs (play gets_stuck start))) as Hs by (vm_compute; split_and!; done).
  destruct (queue_progress (heard gets_stuck start) (play gets_stuck start) (start_reached gets_stuck Hp)) as (H1 & _ & H3 & _).
  split; [exact Hn|]. split; [exact (H1 Hn)|]. exact (H3 LockVault Hs I).
Defined.
