(* ===== verification/DemoLayout.v ===== *)
(** * The layout check of the demo ([demo/check-vault-layout.js])

    The check walks the rendered panel and throws at the first thing out of place.  An
    item of the scene is a tree of the properties the check reads; where Qt maps a
    point of one item into another is a parameter. *)

From S2P Require Import Prelude.
From S2P Require Import JsNum.
From S2P Require Import JsString.

Inductive item := Item (objectName : list Z) (x width height implicitWidth : num) (visible : bool) (children : list item).
Definition objectName (i : item) : list Z := let 'Item n _ _ _ _ _ _ := i in n.
Definition item_x (i : item) : num := let 'Item _ x _ _ _ _ _ := i in x.
Definition width (i : item) : num := let 'Item _ _ w _ _ _ _ := i in w.
Definition height (i : item) : num := let 'Item _ _ _ h _ _ _ := i in h.
Definition implicitWidth (i : item) : num := let 'Item _ _ _ _ w _ _ := i in w.
Definition visible (i : item) : bool := let 'Item _ _ _ _ _ v _ := i in v.
Definition children (i : item) : list item := let 'Item _ _ _ _ _ _ cs := i in cs.

Fixpoint findAll (i : item) (name : list Z) (found : list item) : list item :=
  match i with
  | Item n _ _ _ _ _ cs =>
      (fix each (cs : list item) (found : list item) : list item :=
         match cs with
         | [] => found
         | c :: cs => each cs (findAll c name found)
         end) cs (if str_eqb n name then found ++ [i] else found)
  end.

(** A check throws its message, or goes on. *)
Definition check A : Type := list Z + A.
Definition require_ (condition : bool) (message : list Z) : check unit :=
  if condition then inr tt else inl (js "Vault layout: " ++ message).
Definition and_then {A B} (c : check A) (k : A -> check B) : check B := match c with inl e => inl e | inr a => k a end.

Fixpoint for_each {A} (f : A -> check unit) (l : list A) : check unit :=
  match l with
  | [] => inr tt
  | a :: l => and_then (f a) (fun _ => for_each f l)
  end.

Definition one (root : item) (name : list Z) : check item :=
  match findAll root name [] with
  | [i] => inr i
  | _ => inl (js "Vault layout: " ++ js "missing or ambiguous " ++ name)
  end.

Section scene.
  (** [item.mapToItem(target, x, y)] *)
  Context (mapToItem : item -> item -> num -> num -> num * num).

Definition inside (parent i : item) (label : list Z) : check unit :=
  let '(px, py) := mapToItem i parent (NZ 0) (NZ 0) in
  and_then (require_ (num_leb (NZ 0) (width i) && num_ltb (NZ 0) (height i)) (label ++ js " has invalid size")) (fun _ =>
  require_ (num_leb (NZ (-1)) px && num_leb (NZ (-1)) py && num_leb (num_add px (width i)) (num_add (width parent) (NZ 1))
            && num_leb (num_add py (height i)) (num_add (height parent) (NZ 1)))
    (label ++ js " leaves its container")).

Fixpoint check_filters (filters : item) (names : list (list Z)) (previousRight : num) : check unit :=
  match names with
  | [] => inr tt
  | name :: names =>
      and_then (one filters (js "vaultFilter_" ++ name)) (fun filter =>
      and_then (inside filters filter (name ++ js " filter")) (fun _ =>
      and_then (require_ (num_leb (num_sub previousRight (NZ 1)) (item_x filter)) (js "filters overlap")) (fun _ =>
      check_filters filters names (num_add (item_x filter) (width filter)))))
  end.

Definition check_row (row : item) : check unit :=
  and_then (one row (js "vaultItemLabels")) (fun labels =>
  and_then (inside row labels (js "item labels")) (fun _ =>
  and_then (one row (js "vaultItemActions")) (fun actions =>
  if visible actions then
    and_then (inside row actions (js "item actions")) (fun _ =>
    require_ (num_leb (mapToItem labels row (width labels) (NZ 0)).1 (mapToItem actions row (NZ 0) (NZ 0)).1) (js "item actions overlap labels"))
  else inr tt))).

Definition check_action (toolbar action : item) : check unit :=
  if visible action && num_ltb (NZ 0) (width action) then inside toolbar action (js "toolbar action") else inr tt.

Definition FILTER_NAMES : list (list Z) := map js ["folders"; "organizations"; "types"]%string.

Definition verify (panel : item) : check unit :=
  and_then (one panel (js "vaultHeader")) (fun header =>
  and_then (one header (js "panelHeroTitle")) (fun title =>
  and_then (one header (js "vaultHeaderActions")) (fun headerActions =>
  and_then (require_ (num_leb (implicitWidth title) (num_add (width title) (NZ 1))) (js "vault title is elided")) (fun _ =>
  and_then (inside header title (js "title")) (fun _ =>
  and_then (inside header headerActions (js "header actions")) (fun _ =>
  and_then (require_ (num_leb (mapToItem title header (width title) (NZ 0)).1 (mapToItem headerActions header (NZ 0) (NZ 0)).1)
              (js "header actions overlap the title")) (fun _ =>
  and_then (one panel (js "vaultQuickActions")) (fun toolbar =>
  and_then (for_each (check_action toolbar) (children toolbar)) (fun _ =>
  and_then (one panel (js "vaultFilters")) (fun filters =>
  and_then (check_filters filters FILTER_NAMES (NZ 0)) (fun _ =>
  let rows := findAll panel (js "vaultItemRow") [] in
  and_then (require_ (negb (bool_decide (length rows = 0%nat))) (js "fixture items did not render")) (fun _ =>
  for_each check_row rows)))))))))))).
End scene.

(** ** The walk *)

(** Every item below and including one, parents first. *)
Fixpoint nodes (i : item) : list item :=
  match i with Item _ _ _ _ _ _ cs => i :: (fix each (cs : list item) : list item := match cs with [] => [] | c :: cs => nodes c ++ each cs end) cs end.

Lemma item_rect_list (P : item -> Prop) : (forall i, Forall P (children i) -> P i) -> forall i, P i.
Proof.
  intros H. fix IH 1. intros [n x w h iw v cs]. apply H. cbn. induction cs as [|c cs IHcs]; constructor; [apply IH|exact IHcs].
Qed.

Lemma findAll_nodes i name found : findAll i name found = found ++ List.filter (fun j => str_eqb (objectName j) name) (nodes i).
Proof.
  revert found. induction i as [[n x w h iw v cs] IH] using item_rect_list. intros found. cbn in IH. cbn [findAll nodes List.filter objectName].
  set (found' := if str_eqb n name then _ else found).
  enough (E : forall acc, (fix each (cs : list item) (found : list item) : list item :=
      match cs with [] => found | c :: cs => each cs (findAll c name found) end) cs acc
    = acc ++ List.filter (fun j => str_eqb (objectName j) name)
        ((fix each (cs : list item) : list item := match cs with [] => [] | c :: cs => nodes c ++ each cs end) cs)).
  { rewrite E. unfold found'. destruct (str_eqb n name); [by rewrite <- app_assoc|done]. }
  induction IH as [|c cs Hc _ IHcs]; intros acc; [by rewrite app_nil_r|]. by rewrite IHcs, Hc, List.filter_app, <- app_assoc.
Qed.

(** ** What a pass means *)

Definition named (name : list Z) (i : item) : list item := List.filter (fun j => str_eqb (objectName j) name) (nodes i).
Definition passes (c : check unit) : Prop := c = inr tt.

Lemma passes_then {A} (c : check A) k : passes (and_then c k) <-> exists a, c = inr a /\ passes (k a).
Proof. destruct c as [e|a]; cbn; [split; [done|by intros (? & [=] & _)]|]. split; [by exists a|by intros (b & [= <-] & H)]. Qed.
Lemma passes_and (c : check unit) k : passes (and_then c k) <-> passes c /\ passes (k tt).
Proof. rewrite passes_then. unfold passes. split; [by intros ([] & ? & ?)|]. intros [? ?]. by exists tt. Qed.
Lemma passes_require b m : passes (require_ b m) <-> b = true.
Proof. unfold passes, require_. by destruct b. Qed.
Lemma one_named i name j : one i name = inr j <-> named name i = [j].
Proof. unfold one, named. rewrite findAll_nodes. cbn [app]. destruct (List.filter _ _) as [|a [|b l]]; split; try done; by intros [= ->]. Qed.
Lemma passes_each {A} (f : A -> check unit) l : passes (for_each f l) <-> Forall (fun a => passes (f a)) l.
Proof.
  induction l as [|a l IH]; cbn; [split; [constructor|done]|]. by rewrite passes_and, Forall_cons, IH.
Qed.

Section meaning.
  Context (mapToItem : item -> item -> num -> num -> num * num).

(** The item has a size and lies within its container, give or take one. *)
Definition fits (parent i : item) : Prop :=
  let '(px, py) := mapToItem i parent (NZ 0) (NZ 0) in
  num_leb (NZ 0) (width i) = true /\ num_ltb (NZ 0) (height i) = true /\
  num_leb (NZ (-1)) px = true /\ num_leb (NZ (-1)) py = true /\
  num_leb (num_add px (width i)) (num_add (width parent) (NZ 1)) = true /\
  num_leb (num_add py (height i)) (num_add (height parent) (NZ 1)) = true.

Lemma passes_inside parent i label : passes (inside mapToItem parent i label) <-> fits parent i.
Proof.
  unfold inside, fits. destruct (mapToItem i parent (NZ 0) (NZ 0)) as [px py]. rewrite passes_and, !passes_require, !andb_true_iff. tauto.
Qed.

(** One item ends before the next begins, both seen from their container. *)
Definition left_of (parent a b : item) : Prop :=
  num_leb (mapToItem a parent (width a) (NZ 0)).1 (mapToItem b parent (NZ 0) (NZ 0)).1 = true.

(** Filters in order, each from where the last one ended, give or take one. *)
Fixpoint in_order (filters : list item) (right : num) : Prop :=
  match filters with
  | [] => True
  | f :: filters => num_leb (num_sub right (NZ 1)) (item_x f) = true /\ in_order filters (num_add (item_x f) (width f))
  end.

Lemma passes_filters filters names right : passes (check_filters mapToItem filters names right) <->
  exists fs, Forall2 (fun name f => named (js "vaultFilter_" ++ name) filters = [f] /\ fits filters f) names fs /\ in_order fs right.
Proof.
  revert right. induction names as [|name names IH]; intros right; cbn [check_filters].
  { split; [by exists []|done]. }
  rewrite passes_then. split.
  - intros (f & Hf%one_named & Hr). rewrite !passes_and, passes_inside, passes_require in Hr. destruct Hr as (H1 & H2 & (fs & H3 & H4)%IH).
    exists (f :: fs). split; [by constructor|done].
  - intros (fs & HF & Ho). inversion HF as [|? f ? fs' [Hn Hi] HF']; subst. destruct Ho as [Ho1 Ho2]. exists f.
    rewrite one_named, !passes_and, passes_inside, passes_require, IH. eauto 6.
Qed.

Definition row_in_place (row : item) : Prop := exists labels actions,
  named (js "vaultItemLabels") row = [labels] /\ named (js "vaultItemActions") row = [actions] /\ fits row labels /\
  (visible actions = true -> fits row actions /\ left_of row labels actions).

Lemma passes_row row : passes (check_row mapToItem row) <-> row_in_place row.
Proof.
  unfold check_row, row_in_place. rewrite passes_then. setoid_rewrite one_named. setoid_rewrite passes_and. setoid_rewrite passes_inside.
  setoid_rewrite passes_then. setoid_rewrite one_named.
  split; intros (labels & H); [destruct H as (H1 & H2 & actions & H3 & H4)|destruct H as (actions & H1 & H3 & H2 & H4)]; exists labels;
    [exists actions|]; (split_and!; [done..|]); [|exists actions; split; [done|]]; destruct (visible actions); try done;
    rewrite passes_and, passes_inside, passes_require in *; auto.
Qed.

(** The check passes exactly when the panel has one header whose title is shown in
    full left of its actions, both inside; every visible button of the one toolbar
    lies in it; the three filters lie in their bar one after the other; and there are
    items, each with its labels inside and visible actions inside and right of them. *)
Theorem layout_verified panel : passes (verify mapToItem panel) <->
  exists header title actions toolbar filters fs,
    (named (js "vaultHeader") panel = [header] /\ named (js "panelHeroTitle") header = [title] /\ named (js "vaultHeaderActions") header = [actions] /\
     num_leb (implicitWidth title) (num_add (width title) (NZ 1)) = true /\ fits header title /\ fits header actions /\ left_of header title actions) /\
    (named (js "vaultQuickActions") panel = [toolbar] /\
     Forall (fun b => visible b = true -> num_ltb (NZ 0) (width b) = true -> fits toolbar b) (children toolbar)) /\
    (named (js "vaultFilters") panel = [filters] /\
     Forall2 (fun name f => named (js "vaultFilter_" ++ name) filters = [f] /\ fits filters f) FILTER_NAMES fs /\ in_order fs (NZ 0)) /\
    named (js "vaultItemRow") panel <> [] /\ Forall row_in_place (named (js "vaultItemRow") panel).
Proof.
  assert (Hbar : forall t, passes (for_each (check_action mapToItem t) (children t)) <->
    Forall (fun b => visible b = true -> num_ltb (NZ 0) (width b) = true -> fits t b) (children t)).
  { intros t. rewrite passes_each. apply Forall_iff. intros b. unfold check_action. destruct (visible b), (num_ltb (NZ 0) (width b)); cbn; try (by split).
    rewrite passes_inside. tauto. }
  assert (Hrows : passes (and_then (require_ (negb (bool_decide (length (findAll panel (js "vaultItemRow") []) = 0%nat))) (js "fixture items did not render"))
      (fun _ => for_each (check_row mapToItem) (findAll panel (js "vaultItemRow") []))) <->
    named (js "vaultItemRow") panel <> [] /\ Forall row_in_place (named (js "vaultItemRow") panel)).
  { rewrite passes_and, passes_require, passes_each, findAll_nodes. cbn [app]. fold (named (js "vaultItemRow") panel).
    rewrite negb_true_iff, bool_decide_eq_false, length_zero_iff_nil. setoid_rewrite passes_row. done. }
  unfold verify. cbv zeta. split.
  - intros H. rewrite passes_then in H. destruct H as (header & H1%one_named & H). rewrite passes_then in H. destruct H as (title & H2%one_named & H).
    rewrite passes_then in H. destruct H as (actions & H3%one_named & H). rewrite !passes_and, passes_require, !passes_inside, passes_require in H.
    destruct H as (H4 & H5 & H6 & H7 & H). rewrite passes_then in H. destruct H as (toolbar & H8%one_named & H). rewrite passes_and, Hbar in H.
    destruct H as (H9 & H). rewrite passes_then in H. destruct H as (filters & H10%one_named & H). rewrite passes_and, passes_filters, Hrows in H.
    destruct H as ((fs & H11 & H12) & H13 & H14). exists header, title, actions, toolbar, filters, fs. done.
  - intros (header & title & actions & toolbar & filters & fs & (H1 & H2 & H3 & H4 & H5 & H6 & H7) & (H8 & H9) & (H10 & H11 & H12) & H13 & H14).
    rewrite passes_then. exists header. split; [by apply one_named|]. rewrite passes_then. exists title. split; [by apply one_named|].
    rewrite passes_then. exists actions. split; [by apply one_named|]. rewrite !passes_and, passes_require, !passes_inside, passes_require.
    split_and!; [done..|]. rewrite passes_then. exists toolbar. split; [by apply one_named|]. rewrite passes_and, Hbar. split; [done|].
    rewrite passes_then. exists filters. split; [by apply one_named|]. rewrite passes_and, passes_filters, Hrows. eauto.
Qed.
End meaning.
