(* ===== verification/Conformance.v ===== *)
(** * Conformance

    The repository's own test cases, evaluated on the definitions of this library:
    each [Example] runs the inputs of a test file under [src/tests] and compares
    with the outputs that test expects. *)

From Stdlib Require Import QArith_base.
From S2P Require Import Prelude.
From S2P Require Import JsNum.
From S2P Require Import JsString.
From S2P Require Import JsUnicode.
From S2P Require Import JsValue.
From S2P Require Import Json.
From S2P Require Import Totp.
From S2P Require Import SshAgent.
From S2P Require Import Shell.
From S2P Require Import Auth.
From S2P Require Import Settings.
From S2P Require Import Generator.
From S2P Require Import Items.
From S2P Require Import Context.
From S2P Require Import Associations.
Local Open Scope Z_scope.

(** Every case of a table holds. *)
Definition all_hold {A} (f : A -> bool) (l : list A) : bool := forallb f l.
(** Text in, text out. *)
Definition gives (f : jsval -> list Z) (l : list (string * string)) : bool :=
  all_hold (fun c => str_eqb (f (JStr (js c.1))) (js c.2)) l.

(** ** [totp.test.js] *)

Definition sdk_time : jsval := JNum (NZ 1672531200000).
Definition code (key : list Z) : option (list Z) := fst <$> generate (JStr key) sdk_time.

Example totp_sdk_vectors :
  all_hold (fun c => bool_decide (code (js c.1) = Some (js c.2)))
    [("WQIQ25BRKZYCJVYP", "194506"); ("wqiq25brkzycjvyp", "194506"); ("PIUDISEQYA", "829846"); ("PIUDISEQYA======", "829846");
     ("PIUD1IS!EQYA=", "829846"); ("steam://HXDMVJECJJWSRB3HWIZR4IFUGFTMXBOZ", "7W6CJ");
     ("StEam://HXDMVJECJJWSRB3HWIZR4IFUGFTMXBOZ", "7W6CJ"); ("steam://ABCD123", "N26DF"); ("ddfdf", "932653");
     ("HJSGFJHDFDJDJKSDFD", "000034"); ("xvdsfasdfasdasdghsgsdfg", "403786"); ("KAKFJWOSFJ12NWL", "093430");
     ("otpauth://totp/test-account?secret=WQIQ25BRKZYCJVYP", "194506");
     ("OTPauth://totp/test-account?secret=WQIQ25BRKZYCJVYP", "194506");
     ("otpauth://totp/test-account?secret=WQIQ25BRKZYCJVYP&period=60", "730364");
     ("otpauth://totp/test-account?secret=WQIQ25BRKZYCJVYP&algorithm=SHA256", "842615");
     ("otpauth://totp/x?secret=WQIQ25BRKZYCJVYP&digits=six&period=-5", "194506");
     ("otpauth://totp/x?secret=WQIQ25BRKZYCJVYP&digits=+6&period=+30", "194506");
     ("otpauth://totp/x?secret=AAAA&secret=WQIQ25BRKZYCJVYP", "194506");
     ("otpauth://totp/ACME%20Co:me?issuer=ACME&secret=WQIQ%2025BRKZYCJVYP", "194506")]%string = true.
Proof. vm_compute. reflexivity. Qed.

Example totp_left_to_bw :
  all_hold (fun k => bool_decide (code (js k) = None))
    [""; "otpauth://totp/x?secret=WQIQ25BRKZYCJVYP&algorithm=SHA512"; "otpauth://totp/x?secret=WQIQ25BRKZYCJVYP&digits=0";
     "otpauth://totp/x?secret=WQIQ25BRKZYCJVYP&digits=10"; "otpauth://totp/x?secret=WQIQ25BRKZYCJVYP&digits=12";
     "otpauth://totp/x?digits=6"; "otpauth://to tp/x?secret=WQIQ25BRKZYCJVYP"; "otpauth://totp:99/x?secret=WQIQ25BRKZYCJVYP";
     "otpauth://totp/x?secret=WQIQ%ZZ25BRKZYCJVYP"]%string = true.
Proof. vm_compute. reflexivity. Qed.

(** ** [hardening.test.js], [handoff-urls.test.js] *)

Example server_urls :
  all_hold (fun u => bool_decide (validateServerUrl (JStr (js u)) = []))
    [""; "https://vault.example.com"; "https://vault.example.com:8443/path"; "HTTPS://VAULT.EXAMPLE.COM"; "http://localhost:8080";
     "http://127.0.0.1"; "http://127.1.2.3:9000"; "http://[::1]:8000"; "  https://vault.example.com  "]%string
  && all_hold (fun u => negb (bool_decide (validateServerUrl (JStr (js u)) = [])))
    ["http://vault.example.com"; "http://192.168.1.10"; "ftp://vault.example.com"; "file:///etc/passwd"; "vault.example.com"; "https://";
     "http://localhost.evil.com"; "http://127.0.0.1.evil.com"; "http://evil.com/localhost"; "http://localhost@evil.com";
     "http://evil.example\@localhost"; "https://evil.example\@vault.example.com"]%string
  && contains (js "evil.com") (validateServerUrl (JStr (js "http://localhost@evil.com"))) = true.
Proof. vm_compute. reflexivity. Qed.

Definition opens (input : string) : option (list Z) := match normalizeOpenableUrl (JStr (js input)) with OpenUrl u => Some u | _ => None end.

Example openable_urls :
  all_hold (fun c => bool_decide (opens c.1 = Some (js c.2)))
    [("https://example.com", "https://example.com"); ("http://example.com/login", "http://example.com/login");
     ("HTTPS://Example.COM", "HTTPS://Example.COM"); ("example.com", "https://example.com");
     ("example.com:8443/login", "https://example.com:8443/login"); ("localhost:3000", "https://localhost:3000");
     ("192.168.1.10:8006", "https://192.168.1.10:8006"); ("  https://example.com  ", "https://example.com")]%string
  && all_hold (fun u => bool_decide (opens u = None))
    ["file:///etc/passwd"; "ftp://files.example.com"; "javascript:alert(1)"; "data:text/html,<script>x</script>";
     "mailto:someone@example.com"; "vnc://10.0.0.1"; "custom-app-handler://do-something"; "";
     "https://evil.example\@trusted.example"; "https://example.com/a b"]%string = true.
Proof. vm_compute. reflexivity. Qed.

(** ** [attachments.test.js] *)

Example attachment_sizes :
  all_hold (fun c => str_eqb (formatAttachmentSize (JNum (NZ c.1))) (js c.2))
    [(0, "0 B"); (512, "512 B"); (1024, "1 KB"); (1536, "1.5 KB"); (1048576, "1 MB"); (5242880, "5 MB")]%string
  && gives formatAttachmentSize [("2048", "2 KB"); ("banana", "")]%string
  && str_eqb (formatAttachmentSize JUndef) [] = true.
Proof. vm_compute. reflexivity. Qed.

Example attachment_names :
  gives safeAttachmentFileName
    [("", "attachment"); ("...", "attachment"); ("Scan 2026-08-21.pdf", "Scan 2026-08-21.pdf"); ("/etc/passwd", "passwd");
     ("../../.bashrc", "bashrc"); ("....//....//etc/shadow", "shadow")]%string
  && (let long := safeAttachmentFileName (JStr (replicate 400 120 ++ js ".pdf")) in
      (length long <=? 128)%nat && str_eqb (drop (length long - 4) long) (js ".pdf"))
  && gives parentDirectory [("/home/u/Downloads/f.pdf", "/home/u/Downloads"); ("/f.pdf", "/"); ("f.pdf", "")]%string
  && gives baseName [("/home/u/Downloads/f.pdf", "f.pdf")]%string = true.
Proof. vm_compute. reflexivity. Qed.

(** ** [lock-state.test.js] *)

Example int_settings :
  all_hold (fun c => num_eqb (intSetting (js c.1.1) c.1.2) (NZ c.2))
    [("autoLockMinutes", JNum (NZ 15), 15); ("autoLockMinutes", JStr (js "30"), 30); ("autoLockMinutes", JNum (NZ 0), 0);
     ("autoLockMinutes", JStr (js "fifteen"), 15); ("autoLockMinutes", JUndef, 15); ("autoLockMinutes", JNull, 15);
     ("autoLockMinutes", JStr [], 15); ("autoLockMinutes", JBool true, 15); ("autoLockMinutes", JNum (NZ 999999), 1440);
     ("autoLockMinutes", JNum (Fin (inject_Z (10 ^ 30))), 1440); ("autoLockMinutes", JNum (NZ (-5)), 15);
     ("autoLockMinutes", JStr (js "-1"), 15); ("autoLockMinutes", JNum (Inf true), 15); ("autoLockMinutes", JNum (Fin (159 # 10)), 15);
     ("clearClipboardSec", JNum (NZ 100000), 300); ("clearClipboardSec", JStr (js "soon"), 30); ("clearClipboardSec", JNum (NZ (-1)), 30);
     ("autoCopyTotpSec", JNum (NZ 999), 30); ("autoCopyTotpSec", JStr (js "off"), 3); ("autoCopyTotpSec", JNum (NZ (-3)), 3)]%string = true.
Proof. vm_compute. reflexivity. Qed.

Example screen_locks :
  all_hold (fun c => Bool.eqb (screenIsLocked c.1) c.2)
    [(JStr (js "true"), true); (JStr (js "true" ++ [10]), true); (JStr (js "  true  "), true); (JStr (js "false"), false);
     (JStr [], false); (JStr (js "Target not found."), false); (JStr (js "TRUE"), false); (JStr (js "truthy"), false);
     (JNull, false); (JUndef, false)] = true.
Proof. vm_compute. reflexivity. Qed.

(** ** [auth.test.js] *)

Definition real_key : list Z := js "Zm9vYmFyYmF6cXV1eDEyMzQ1Njc4OTBhYmNkZWZnaGlqa2xtbm9wcXJzdHV2d3h5ejAxMjM0NTY3ODk9PQ==".

Example session_keys :
  all_hold (fun raw => str_eqb (extractSessionToken (JStr raw)) real_key)
    [real_key; sh "export BW_SESSION=`" ++ real_key ++ sh "`"; js "Your vault is now unlocked!" ++ [10; 10] ++ real_key]
  && all_hold (fun raw => str_eqb (extractSessionToken (JStr raw)) [])
    [js "You are not logged in."; js "Failed"; []; js "   " ++ [10] ++ js "  "; js "abc123=="; js "/home/user/notes.txt";
     js "unlock.failed:invalid.master.password!"; sh "BW_SESSION=`not a key`"] = true.
Proof. vm_compute. reflexivity. Qed.

Definition noisy : list Z :=
  [27] ++ js "[2K" ++ [27] ++ js "[G? Enter OTP sent to login email: 913744" ++ [27] ++ js "[39D" ++ [27] ++ js "[39C" ++ [13; 10]
  ++ js "Invalid verification code. Try again." ++ [27] ++ js "[?25h".

Example stderr_sanitized :
  str_eqb (sanitizeInteractiveStderr (JStr noisy) (JStr (js "913744"))) (js "Invalid verification code. Try again.")
  && str_eqb (sanitizeInteractiveStderr (JStr (js "Verification failed for code 913744." ++ [13; 10] ++ js "Try again.")) (JStr (js "913744")))
       (js "Try again.") = true.
Proof. vm_compute. reflexivity. Qed.

Definition err (f : jsval -> jsval -> bool) (e : string) : bool := f (JStr []) (JStr (js e)).

Example login_classified :
  all_hold (err loginNeedsSecondFactor) ["Two factor required."; "Two-step token is invalid. Try again."; "Verification code required"; "Code is required."]%string
  && all_hold (fun e => negb (err loginNeedsSecondFactor e)) ["Response status code does not indicate success: 401"; "invalid_grant"]%string
  && err loginNeedsMethodChoice "Login failed. No provider selected."
  && negb (err loginNeedsMethodChoice "Code is required.") && negb (err loginNeedsMethodChoice "Login failed. No providers available for this client.")
  && err loginHasNoUsableProvider "Login failed. No providers available for this client."
  && err loginPromptRanOutOfInput "Error [ERR_USE_AFTER_CLOSE]: readline was closed"
  && negb (err loginPromptRanOutOfInput "Username or password is incorrect. Try again.") = true.
Proof. vm_compute. reflexivity. Qed.

(** ** [ssh-agent-control.test.js] *)

Example plugin_dirs :
  gives pluginDirFromUrl
    [("file:///home/u/.config/omarchy/plugins/bw/", "/home/u/.config/omarchy/plugins/bw"); ("file:///home/u/my%20plugins/bw/", "/home/u/my plugins/bw");
     ("/opt/bw/", "/opt/bw"); ("plugins/bw", ""); ("qrc:/bw/", ""); ("file:///opt/bw/../../etc/", ""); ("file:///opt/bw/%2e%2e/etc/", ""); ("", "")]%string
  && str_eqb (pluginDirFromUrl JNull) [] = true.
Proof. vm_compute. reflexivity. Qed.

(** ** [collections.test.js] *)

Definition org (id name : string) : jsval := JObj [(js "id", JStr (js id)); (js "name", JStr (js name))].
Definition all_collections : list jsval :=
  parseCollections (stringify (JArr (map (fun c => JObj [(js "id", JStr (js c.1)); (js "organizationId", JStr (js "o1")); (js "name", JStr (js c.2))])
    [("c1", "Shared"); ("c2", "admin"); ("c3", "Kids")]%string))).
Definition in_org (ids : list string) : jsval :=
  JObj [(js "organizationId", JStr (js "o1")); (js "collectionIds", JArr (map (fun i => JStr (js i)) ids))].

Example places :
  all_hold (fun c => let '(ids, orgs, cols, label) := c in str_eqb (orgPlaceLabel (in_org ids) orgs cols) (js label))
    [(["c1"], [org "o1" "Family"; org "o2" "Work"], all_collections, "Family / Shared");
     (["c1"; "c3"; "c2"], [org "o1" "Family"; org "o2" "Work"], all_collections, "Family / admin +2");
     (["c1"; "c3"], [org "o1" "Family"], all_collections, "Kids +1"); (["c1"], [org "o1" "Family"], [], "Family");
     (["c1"], [], all_collections, "Shared")]%string
  && bool_decide (collectionNames all_collections (JArr [JStr (js "c1"); JStr (js "zz"); JStr (js "c2")]) = [js "admin"; js "Shared"])
  && bool_decide (collectionNames all_collections (JStr (js "c1")) = []) = true.
Proof. vm_compute. reflexivity. Qed.

(** ** [context-match.test.js] *)

Definition site (id name uri : string) : jsval :=
  JObj [(js "id", JStr (js id)); (js "name", JStr (js name)); (js "uris", JArr [JStr (js uri)])].
Definition sites : list jsval :=
  [site "1" "GitHub" "https://github.com";
   site "2" "Amazon" "https://www.amazon.com";
   site "3" "Home Assistant" "https://homeassistant.local:8123";
   site "4" "Google" "https://accounts.google.com";
   site "5" "Reddit" "https://reddit.com";
   site "6" "Proton Mail" "https://account.proton.me";
   site "7" "Cloudflare" "https://dash.cloudflare.com";
   site "8" "My Bank" "https://www.chase.com";
   site "9" "Netflix" "https://www.netflix.com";
   site "10" "Jellyfin" "http://192.168.1.50:8096";
   site "11" "GitHub (work)" "https://github.com";
   site "12" "BBC iPlayer" "https://www.bbc.co.uk";
   site "13" "Discord" "https://discord.com";
   site "14" "Slack" "https://acme.slack.com";
   site "15" "Spotify" "https://open.spotify.com";
   site "16" "Nextcloud" "https://cloud.example.org";
   site "17" "Router Admin" "http://192.168.1.1";
   site "18" "AWS Console" "https://console.aws.amazon.com"].
Definition window (cls : string) (title : list Z) : jsval :=
  JObj [(js "class", JStr (js cls)); (js "title", JStr title); (js "mapped", JBool true)].
Definition suggested (cls : string) (title : list Z) : list (list Z) :=
  map name_of (sg_matches (findContextualMatches (JArr sites) (window cls title) [])).
Definition title_cases : list (string * list Z * list string) :=
  [("chromium"%string, js "Settings " ++ [8211] ++ js " Home Assistant - Chromium", ["Home Assistant"]%string);
   ("chromium"%string, js "Reddit - Dive into anything - Chromium", ["Reddit"]%string);
   ("chromium"%string, js "Netflix - Chromium", ["Netflix"]%string);
   ("chromium"%string, js "Proton Mail - Chromium", ["Proton Mail"]%string);
   ("chromium"%string, js "Cloudflare Dashboard - Chromium", ["Cloudflare"]%string);
   ("chromium"%string, js "Chase Online - Credit Cards, Mortgages, Auto - Chromium", ["My Bank"]%string);
   ("chromium"%string, js "Jellyfin - Chromium", ["Jellyfin"]%string);
   ("chromium"%string, js "Files - Nextcloud - Chromium", ["Nextcloud"]%string);
   ("chromium"%string, js "Acme Corp Slack - Chromium", ["Slack"]%string);
   ("chromium"%string, js "Spotify " ++ [8211] ++ js " Web Player - Chromium", ["Spotify"]%string);
   ("chromium"%string, js "AWS Management Console - Chromium", ["AWS Console"]%string);
   ("firefox"%string, js "BBC iPlayer - Home " ++ [8212] ++ js " Mozilla Firefox", ["BBC iPlayer"]%string);
   ("chromium"%string, js "Discord | #general | My Server - Chromium", ["Discord"]%string);
   ("firefox"%string, js "Sign in to GitHub " ++ [183] ++ js " GitHub " ++ [8212] ++ js " Mozilla Firefox", ["GitHub"; "GitHub (work)"]%string);
   ("chromium"%string, js "(3) Inbox (1,204) - me@gmail.com - Gmail - Chromium", ["Google"]%string);
   ("chromium"%string, js "Gmail - Chromium", ["Google"]%string);
   ("chromium"%string, js "Untitled document - Google Docs - Chromium", ["Google"]%string);
   ("chromium"%string, js "Amazon.com. Spend less. Smile more. - Chromium", ["Amazon"; "AWS Console"]%string);
   ("chromium"%string, js "New Tab - Chromium", []%string);
   ("chromium"%string, js "Sign in - Chromium", []%string);
   ("chromium"%string, js "How to fix config.json v1.2 errors - Stack Overflow - Chromium", []%string);
   ("foot"%string, js "workstation: notes", []%string);
   ("foot"%string, js "ssh user@git.example.com", []%string);
   ("discord"%string, js "Discord | #general", ["Discord"]%string);
   ("spotify"%string, js "Spotify Premium", ["Spotify"]%string)].

(** The tests compare the names as sets. *)
Definition same_names (a b : list (list Z)) : bool := forallb (fun x => existsb (str_eqb x) b) a && (length a =? length b)%nat.

Example window_titles : all_hold (fun c => same_names (suggested c.1.1 c.1.2) (map js c.2)) title_cases = true.
Proof. vm_compute. reflexivity. Qed.

Definition base_in_title (t : string) : option (list Z) :=
  ctx ← cleanWindowContext (window "chromium" (js t)); d ← cx_detectedDomain ctx; Some (hi_baseDomain d).

Example hosts_in_titles :
  all_hold (fun c => bool_decide (base_in_title c.1 = (js <$> c.2)))
    [("Files - Nextcloud - cloud.example.org", Some "example.org"); ("https://sub.example.co.uk/path", Some "example.co.uk");
     ("see .example.com now", Some "example.com"); ("a..b.example.com", Some "example.com"); ("config.json is not a host", None);
     ("version 1.2.3.4 released", None); ("nothing here at all", None)]%string = true.
Proof. vm_compute. reflexivity. Qed.

Definition authentik : jsval := site "auth-1" "Personal SSO" "https://auth.example.xyz".
Definition authentik_window : jsval := window "chromium" (js "Home - authentik - Chromium").
Definition ids_for (w : jsval) (a : store) : list (list Z) :=
  map (fun it => to_string (fld it "id")) (sg_matches (findContextualMatches (JArr (sites ++ [authentik])) w a)).
Definition learn (a : store) (w : jsval) (id ts : string) (pinned : bool) : store :=
  match cleanWindowContext w with Some ctx => recordAssociation a ctx (js id) (js ts) pinned | None => a end.

Example learned_suggestions :
  let picked := learn [] authentik_window "auth-1" "2026-08-20T00:00:00Z" false in
  let pinned := learn [] authentik_window "auth-1" "2026-08-20T00:00:00Z" true in
  let again := learn pinned authentik_window "9" "2026-08-21T00:00:00Z" true in
  [ids_for authentik_window []; ids_for authentik_window picked; ids_for authentik_window pinned;
   ids_for (window "chromium" (js "Applications - authentik - Chromium")) pinned;
   ids_for (window "chromium" (js "Netflix - Chromium")) pinned; ids_for authentik_window again]
  = [[]; []; [js "auth-1"]; [js "auth-1"]; [js "9"]; [js "9"]].
Proof. vm_compute. reflexivity. Qed.

(** A JSON text written with backticks for double quotes. *)
Definition keys_read (raw : string) : option (list (list Z)) := (fun a : store => a.*1) <$> parseAssociations (JStr (sh raw)).

Example association_files :
  map keys_read
    ["{{not json"; "{`version`:1,`keys`:{`__proto__`:{`polluted`:true},`arbitrary`:{`itemId`:`x`},`word:valid`:{`itemId`:`auth-1`}}}";
     "{`version`:1,`keys`:{`word:bad`:{`itemId`:{}},`word:good`:{`itemId`:`x`}}}"; "{`version`:999,`keys`:{`word:old`:{`itemId`:`x`}}}"; "null"]%string
  = [Some []; Some [js "word:valid"]; Some [js "word:good"]; Some []; None].
Proof. vm_compute. reflexivity. Qed.
